(* ===== verification/_CoqProject ===== *)
-Q . S2P
Prelude.v
GoStrings.v
GoNet.v
Events.v
Parser.v
Counter.v
Fingerprint.v
Flow.v
IntelStore.v
IntelMatcher.v
Feeds.v
Reassembly.v
Tracker.v
Detector.v
Json.v
AnyJson.v
Codec.v
EventJson.v
Content.v
Queue.v
EventQueue.v
Shard.v
Push.v
Stix.v
Archive.v
Ranges.v
Admin.v
Maintain.v
ShardMaintain.v
Readers.v
Migrate.v
Config.v
Paths.v
Pcap.v
Clock.v
Server.v
Evidence.v
Pipeline.v
Tool.v
Node.v
