(* ===== verification/Prelude.v ===== *)
(** * ta_node: a verification library for the traffic-analysis node

    ta_node captures packets, matches them against threat indicators and payload
    fingerprints, correlates them into sessions, turns hits into events, keeps
    the events in a SQLite-backed queue and pushes them to a management server.
    This library models the Go code of the node under src/internal and src/cmd
    as executable definitions with the names of the source, and proves what the
    parts promise and how they work together.

    ** The parts and their files

    Foundations.
    - [Prelude] (this file): integers at their width ([u8] .. [i64]), panics as
      [option] and errors as [res], record update, map iteration in any order
      ([RangeOrder]), tactics, the hint database [ta], list and map lemmas.
    - [GoStrings], [GoNet]: what the program uses of strings, bytes, unicode,
      strconv, net, hash/fnv, crypto/sha256, encoding/hex and time.
    - [Json], [AnyJson], [Codec], [EventJson]: encoding/json - scanning, decoding
      (into any as well), Marshal - and the codecs of the event structs, built
      field by field from their tags.
    - [Paths], [Clock]: filepath.Clean and Join; calendar dates in a location.
    - [Events]: the structs of event/event.go and intel/types.go.

    Detection, in the order in which a packet meets it.
    - [Parser]: parser/parser.go on decoded layers; every index and slice
      expression can panic in the model.
    - [Fingerprint]: fingerprint/engine.go, pattern.go, loader.go.
    - [IntelStore], [IntelMatcher]: intel/store.go, file_loader.go, matcher.go.
    - [Feeds], [Stix]: where indicators come from, iocsync/*.go and intel/stix.go.
    - [Counter]: counter/counter.go, the sliding-window burst counter.
    - [Flow]: flow/flow.go, aggregator.go.
    - [Reassembly], [Tracker]: correlation/reassembly.go, direction.go, tracker.go.
    - [Detector]: detector/engine.go.
    - [Pipeline]: pipeline/pipeline.go - [process] composes the parts for one
      packet, [run_step] is the dispatcher with its workers and channels.

    Delivery.
    - [Content]: queue/content.go, payloads as trees of hashed nodes.
    - [Queue]: queue/sqlite_queue.go and summary.go on tables as finite maps.
    - [EventQueue]: queue/queue.go, the interface, as the classes [EventQueue] and
      [EventQueueLaws] over a ledger of events; the SQLite queue is an instance.
    - [Shard]: queue/shard.go, a second instance of the interface.
    - [Push]: push/client.go, the push worker, proved against the interface.
    - [Archive]: queue/maintenance.go (Archive, Collect) and recovery.go.
    - [Maintain]: queue/worker.go, the maintenance worker, proved against the
      classes [MaintenanceTarget] and [MaintenanceLaws]; the SQLite queue is an
      instance, and in [ShardMaintain] (the rest of shard.go) the sharded queue.
    - [Migrate]: queue/migrate.go, the resumable copy of a frozen queue with its
      segments; [Tool] is cmd/ta_queue around it.

    Management.
    - [Ranges], [Readers], [Admin]: queue/range.go, reader.go, inspect.go and
      crud.go read and change the database files beside the running node.
    - [Config]: config/config.go, with its YAML and JSON forms and the flags.
    - [Server]: server/http_server.go, the handlers over one [world] of
      indicators, configuration and databases.
    - [Pcap], [Evidence]: capture/*.go as packet sources with the classic capture
      format, and evidence/pcap_writer.go on a map from paths to files.
    - [Node]: cmd/ta_node/main.go - [runNode] builds the collaborators of
      [Pipeline] and the services from the configuration - with buildinfo and the
      loading of fingerprint rules.

    ** How the model reads the code

    A struct is a record, a method a function on it that returns the new state;
    a mutex makes a method one step.  Clocks, generated identifiers, answers of
    the file system and of the network are arguments.  Where goroutines
    interleave between the steps of an operation there is a step relation: the
    dispatcher ([run_step]), the push worker ([step] of Push), archiving
    ([archive_prepare], then [queue_step]s, then [archive_publish]) and the
    maintenance worker ([own_step] and [queue_use]).

    Code outside the repository is a class, its documented behaviour a class of
    laws, and each has a concrete instance on which the witnesses run:
    [GoPacket] (the layer decoder), [GoRegexp], [GoUnicode] (case tables),
    [GoYAML], [ConfigYAML], [GoHTTP] (request and response readers), [GoZlib],
    [GoGzip], [GoZip], [GoSort] (sort.Slice), [GoUUID], [GoGlob] (filepath.Glob),
    [GoLocation] (time zones), [SqlGlob], [SqlLike] and [SqlOrder] (GLOB, LIKE and
    ORDER BY of SQLite), [RangeOrder] (map iteration) and [Environment] (network,
    clock and context of the worker).

    ** What the theorems show

    - Detection end to end: [Pipeline.process_detects] (one event per distinct
      hit; hits are the rules that fire and the active indicators that apply),
      [Pipeline.process_total] (no packet makes the node panic, all components
      stay bounded), [Pipeline.dispatch_order] (conversations in order on one
      worker, every packet processed, Run ends).
    - The parts of it: parsing never panics and round-trips the SNI; matching is
      exact and never stale; the store is normalized, atomic on disk and
      durable; importing adds exactly what is new; STIX patterns are accepted
      exactly in their languages; flow and burst counters refine histories;
      reassembly exposes a piece of the sender's stream; sessions are bounded
      and never dropped without a final revision.
    - Delivery: events survive JSON and the content store; the collector removes
      exactly unreachable nodes; the SQLite and the sharded queue refine one
      ledger; the push worker loses nothing under any interleaving, stops after
      the allowed tries and delivers to an accepting server; an event leaves the
      queue only for a verified segment, and maintenance as a whole drops nothing,
      on one database and on shards that share their directory; administration
      touches exactly the named event.  [Migrate.MigrateFrozen_exact] and
      [Migrate.MigrateFrozen_finishes]: however often a migration is interrupted,
      only a complete copy can be activated, and a run that is left alone, to a
      database of the old format, completes it.
    - Management: a requested range of a packet is the range of the packet that
      was captured; an event is found while it is being archived; the layers of
      the configuration override each other field by field; whatever is requested,
      the server does not panic, keeps its secrets out of responses, changes
      nothing without authorization, serves evidence from its directory only and
      keeps valid settings valid; evidence files round-trip, are archived before
      they are removed and are removed when they expire.
    - The node as it starts: [Node.runNode_safe] (no configuration, file or
      capture makes it panic in the packet path) and [Node.services_run].

    Some theorems record behaviour the code does not intend:
    [Parser.Parse_status_never_set], [IntelStore.ListFiltered_negative_offset],
    [Tracker.newTransaction_drops_pending], [Shard.reopened_unacknowledged],
    [Feeds.SyncOnce_collision], [Stix.category_of_source],
    [Node.reload_interval_panics], [Tool.merge_refused].

    ** Bounds and fuel

    Recursion that is not structural takes fuel computed from its input: the
    JSON scanner twice the length of the text, the content tree its depth bound
    (the source's own limit), chunking and hashing the length of the data,
    collecting the number of nodes plus one.  The lemmas about them show that
    the fuel is enough; [Push.StartWorker] takes the number of rounds, and
    [Push.worker_terminates] says how many suffice; a migration takes one
    round more than a file has rows ([Migrate.migrate_rows_any]).  Row identifiers
    are below 2^57 where the sharded queue packs them ([room]), store versions
    below 2^63, migrated identifiers between 1 and 2^63.

    ** Simplifications

    The fields error_rate_percent and raw_feature, which the program never
    assigns, have simplified types.  Failures of the database engine itself and
    of file operations inside Archive are not modelled (a missing file is), nor
    is the nesting limit of encoding/json.  Logging is left out.  Retention in
    [Feeds] counts days of UTC.

    ** Not modelled

    What is left is outside the program's own logic: the sockets of the capture
    interfaces and libpcap (a source is the list of frames it yields), signals
    and the goroutine loops of main.go (each calls one modelled operation per
    tick), the template text of the configuration page (the data it is rendered
    from is modelled), the system calls behind the disk metrics (their answers
    are arguments), the parsing of command-line flags by the standard library,
    closing handles, and logging. *)

From stdpp Require Export base gmap sets list strings fin_maps pretty sorting.
From Stdlib Require Export ZArith Lia Ascii.


(** ** Record update

    The program mutates struct fields in place; the model rebuilds the record.
    A record type declares its eta-expansion once ([Settable]) and every field
    then has a setter found by instance resolution. *)

Class Settable (R : Type) := eta_record : R -> R.
Class Setter {R T : Type} (p : R -> T) := setter : (T -> T) -> R -> R.

Ltac build_setter :=
  match goal with
  | |- @Setter ?R ?T ?p =>
      let i := constr:(_ : Settable R) in
      let e := eval hnf in i in
      match eval pattern p in e with
      | ?body _ =>
          let t := constr:(fun (u : T -> T) => body (fun r : R => u (p r))) in
          let t := eval cbv beta in t in
          exact t
      end
  end.
#[global] Hint Extern 1 (Setter _) => build_setter : typeclass_instances.

Definition upd {R T : Type} (p : R -> T) {S : Setter p} (f : T -> T) (r : R) : R := S f r.
Arguments upd {R T} p {S} f r /.

Declare Scope go_scope.
Delimit Scope go_scope with go.
Notation "r <| p := v |>" := (upd p (fun _ => v) r)
  (at level 1, left associativity, p at level 99, v at level 200, format "r  <| p  :=  v |>") : go_scope.
Notation "r <| p ::= f |>" := (upd p f r)
  (at level 1, left associativity, p at level 99, f at level 200, format "r  <| p  ::=  f |>") : go_scope.
Open Scope go_scope.
Open Scope Z_scope.

(** ** Machine integers

    Go integers are [Z] with the wrap-around written out where it can occur.
    [int] and [int64] are 64-bit. *)

Definition u8 (z : Z) : Z := z mod 2 ^ 8.
Definition u16 (z : Z) : Z := z mod 2 ^ 16.
Definition u32 (z : Z) : Z := z mod 2 ^ 32.
Definition u64 (z : Z) : Z := z mod 2 ^ 64.
Definition i32 (z : Z) : Z := (z + 2 ^ 31) mod 2 ^ 32 - 2 ^ 31.
Definition i64 (z : Z) : Z := (z + 2 ^ 63) mod 2 ^ 64 - 2 ^ 63.
Definition maxInt64 : Z := 2 ^ 63 - 1.
Definition minInt64 : Z := - 2 ^ 63.

Definition len {A : Type} (l : list A) : Z := Z.of_nat (length l).

(** ** Fallible and panicking code

    A Go function that returns [(T, error)] has type [res T].  An expression
    that the runtime would stop with a panic (an index or a slice bound out of
    range) has type [option T], [None] being the panic. *)

Inductive res (A : Type) : Type :=
| Ok (a : A)
| Err (msg : string).
Arguments Ok {A} a.
Arguments Err {A} msg.

#[global] Instance res_eq_dec {A} `{EqDecision A} : EqDecision (res A).
Proof. solve_decision. Defined.
#[global] Instance res_ret : MRet res := fun A a => Ok a.
#[global] Instance res_bind : MBind res := fun A B f m =>
  match m with Ok a => f a | Err e => Err e end.

Definition is_ok {A : Type} (r : res A) : bool :=
  match r with Ok _ => true | Err _ => false end.

(** Slice expressions [s[i:]], [s[:j]], [s[i:j]] and the index [s[i]]. *)
Definition slice_from {A : Type} (s : list A) (i : Z) : option (list A) :=
  if (0 <=? i) && (i <=? len s) then Some (drop (Z.to_nat i) s) else None.
Definition slice_to {A : Type} (s : list A) (j : Z) : option (list A) :=
  if (0 <=? j) && (j <=? len s) then Some (take (Z.to_nat j) s) else None.
Definition slice {A : Type} (s : list A) (i j : Z) : option (list A) :=
  if (0 <=? i) && (i <=? j) && (j <=? len s)
  then Some (take (Z.to_nat (j - i)) (drop (Z.to_nat i) s)) else None.
Definition index {A : Type} (s : list A) (i : Z) : option A :=
  if 0 <=? i then s !! Z.to_nat i else None.

(** ** Map iteration

    Go leaves the order of [for k, v := range m] unspecified.  An operation
    that ranges over a map takes the order as an instance of [RangeOrder]; its
    theorems hold for every instance, and a run of several operations may use
    a different one at each step. *)

Class RangeOrder := {
  range_map : forall {V : Type}, gmap string V -> list (string * V);
  range_map_perm : forall {V : Type} (m : gmap string V), range_map m ≡ₚ map_to_list m
}.

(** The order in which the finite-map library lists the entries. *)
Program Definition canonical_range : RangeOrder :=
  {| range_map := fun V m => map_to_list m |}.
Next Obligation. done. Qed.

(** ** Automation *)

Create HintDb ta.

Ltac inv H := inversion H; subst; clear H.

(** Reduce the binds of the option monad, and nothing else. *)
Ltac msimp := cbn [mbind option_bind].

(** Turn boolean tests of the code into propositions and close with [lia]. *)
Ltac b2p :=
  repeat match goal with
  | H : (_ && _)%bool = true |- _ => apply andb_true_iff in H; destruct H
  | H : (_ || _)%bool = false |- _ => apply orb_false_iff in H; destruct H
  | H : negb _ = true |- _ => apply negb_true_iff in H
  | H : negb _ = false |- _ => apply negb_false_iff in H
  | H : (_ <? _) = true |- _ => apply Z.ltb_lt in H
  | H : (_ <? _) = false |- _ => apply Z.ltb_ge in H
  | H : (_ <=? _) = true |- _ => apply Z.leb_le in H
  | H : (_ <=? _) = false |- _ => apply Z.leb_gt in H
  | H : (_ =? _) = true |- _ => apply Z.eqb_eq in H
  | H : (_ =? _) = false |- _ => apply Z.eqb_neq in H
  | H : bool_decide _ = true |- _ => apply bool_decide_eq_true in H
  | H : bool_decide _ = false |- _ => apply bool_decide_eq_false in H
  end.

(** Case analysis on the test of the outermost [if] of the goal. *)
Ltac case_if :=
  match goal with
  | |- context [if ?c then _ else _] => destruct c eqn:?; b2p
  end.
Ltac case_if_in H :=
  match type of H with
  | context [if ?c then _ else _] => destruct c eqn:?; b2p
  end.

(** ** Lemmas on lengths and slices *)

Lemma len_nonneg {A} (l : list A) : 0 <= len l.
Proof. unfold len; lia. Qed.
Lemma len_nil {A} : len (@nil A) = 0.
Proof. done. Qed.
Lemma len_cons {A} (x : A) l : len (x :: l) = 1 + len l.
Proof. unfold len; simpl; lia. Qed.
Lemma len_app {A} (l k : list A) : len (l ++ k) = len l + len k.
Proof. unfold len; rewrite length_app; lia. Qed.
Lemma len_zero {A} (l : list A) : len l = 0 <-> l = [].
Proof. unfold len; destruct l; simpl; split; intros; try done; lia. Qed.
Lemma len_drop {A} (l : list A) (n : nat) : len (drop n l) = Z.max 0 (len l - Z.of_nat n).
Proof. unfold len; rewrite length_drop; lia. Qed.
Lemma len_take {A} (l : list A) (n : nat) : len (take n l) = Z.min (Z.of_nat n) (len l).
Proof. unfold len; rewrite length_take; lia. Qed.
Lemma len_replicate {A} n (x : A) : len (replicate n x) = Z.of_nat n.
Proof. unfold len; by rewrite length_replicate. Qed.
#[export] Hint Resolve len_nonneg : ta.
Hint Rewrite @len_nil @len_cons @len_app @len_drop @len_take @len_replicate : ta.

Lemma slice_from_ok {A} (s : list A) i :
  0 <= i <= len s -> slice_from s i = Some (drop (Z.to_nat i) s).
Proof.
  intros [H1 H2]. unfold slice_from.
  by rewrite (proj2 (Z.leb_le 0 i) H1), (proj2 (Z.leb_le i _) H2).
Qed.
Lemma slice_to_ok {A} (s : list A) j :
  0 <= j <= len s -> slice_to s j = Some (take (Z.to_nat j) s).
Proof.
  intros [H1 H2]. unfold slice_to.
  by rewrite (proj2 (Z.leb_le 0 j) H1), (proj2 (Z.leb_le j _) H2).
Qed.
Lemma slice_ok {A} (s : list A) i j :
  0 <= i -> i <= j -> j <= len s ->
  slice s i j = Some (take (Z.to_nat (j - i)) (drop (Z.to_nat i) s)).
Proof.
  intros H1 H2 H3. unfold slice.
  by rewrite (proj2 (Z.leb_le 0 i) H1), (proj2 (Z.leb_le i j) H2), (proj2 (Z.leb_le j _) H3).
Qed.
Lemma index_ok {A} (s : list A) i : 0 <= i < len s -> exists x, index s i = Some x.
Proof.
  intros [H1 H2]. unfold index. rewrite (proj2 (Z.leb_le 0 i) H1).
  destruct (lookup_lt_is_Some_2 s (Z.to_nat i)) as [x Hx]; [unfold len in H2; lia|eauto].
Qed.

(** The same, exposing only the length of the result: what proofs that no
    slice expression panics need. *)
Lemma slice_from_len {A} (s : list A) i :
  0 <= i <= len s -> exists t, slice_from s i = Some t /\ len t = len s - i.
Proof. intros Hi. eexists; split; [by apply slice_from_ok|]. rewrite len_drop. lia. Qed.
Lemma slice_to_len {A} (s : list A) j :
  0 <= j <= len s -> exists t, slice_to s j = Some t /\ len t = j.
Proof. intros Hi. eexists; split; [by apply slice_to_ok|]. rewrite len_take. lia. Qed.
Lemma slice_len {A} (s : list A) i j :
  0 <= i -> i <= j -> j <= len s -> exists t, slice s i j = Some t /\ len t = j - i.
Proof.
  intros Hi Hj Hs. eexists; split; [by apply slice_ok|]. rewrite len_take, len_drop. lia.
Qed.

(** Discharge the index and slice expressions at the head of the goal. *)
Ltac slice_step :=
  match goal with
  | |- context [index ?s ?i] =>
      let x := fresh "c" in destruct (index_ok s i) as [x ->]; [lia|simpl]
  | |- context [slice_from ?s ?i] =>
      let t := fresh "t" in let H := fresh "Hlen" in
      destruct (slice_from_len s i) as (t & -> & H); [lia|simpl]
  | |- context [slice_to ?s ?j] =>
      let t := fresh "t" in let H := fresh "Hlen" in
      destruct (slice_to_len s j) as (t & -> & H); [lia|simpl]
  | |- context [slice ?s ?i ?j] =>
      let t := fresh "t" in let H := fresh "Hlen" in
      destruct (slice_len s i j) as (t & -> & H); [lia|lia|lia|simpl]
  end.

(** Slices of a concatenation. *)
Lemma slice_from_app {A} (a b : list A) i : i = len a -> slice_from (a ++ b) i = Some b.
Proof.
  intros ->. rewrite slice_from_ok by (rewrite len_app; pose proof (len_nonneg a); pose proof (len_nonneg b); lia).
  unfold len. by rewrite Nat2Z.id, drop_app_length.
Qed.
Lemma slice_to_app {A} (a b : list A) j : j = len a -> slice_to (a ++ b) j = Some a.
Proof.
  intros ->. rewrite slice_to_ok by (rewrite len_app; pose proof (len_nonneg a); pose proof (len_nonneg b); lia).
  unfold len. by rewrite Nat2Z.id, take_app_length.
Qed.

Lemma slice_to_all {A} (a : list A) : slice_to a (len a) = Some a.
Proof. pose proof (slice_to_app a [] (len a) eq_refl) as H. by rewrite app_nil_r in H. Qed.
Lemma slice_from_all {A} (a : list A) : slice_from a (len a) = Some [].
Proof. pose proof (slice_from_app a [] (len a) eq_refl) as H. by rewrite app_nil_r in H. Qed.

(** ** Lemmas on wrap-around *)

Lemma u64_range z : 0 <= u64 z < 2 ^ 64.
Proof. apply Z.mod_pos_bound; lia. Qed.
Lemma u64_small z : 0 <= z < 2 ^ 64 -> u64 z = z.
Proof. apply Z.mod_small. Qed.
Lemma u32_range z : 0 <= u32 z < 2 ^ 32.
Proof. apply Z.mod_pos_bound; lia. Qed.
Lemma i32_range z : - 2 ^ 31 <= i32 z < 2 ^ 31.
Proof. unfold i32. pose proof (Z.mod_pos_bound (z + 2 ^ 31) (2 ^ 32)). lia. Qed.
Lemma i32_small z : - 2 ^ 31 <= z < 2 ^ 31 -> i32 z = z.
Proof. intros H. unfold i32. rewrite Z.mod_small; lia. Qed.
Lemma i32_u32 z : i32 (u32 z) = i32 z.
Proof. unfold i32, u32. by rewrite Zplus_mod_idemp_l. Qed.

(** ** Lemmas on map iteration *)

Section range.
Context `{RangeOrder} {V : Type}.
Implicit Types (m : gmap string V).

Lemma elem_of_range m k v : (k, v) ∈ range_map m <-> m !! k = Some v.
Proof. rewrite range_map_perm. apply elem_of_map_to_list. Qed.
Lemma NoDup_range_fst m : NoDup (range_map m).*1.
Proof. rewrite range_map_perm. apply NoDup_fst_map_to_list. Qed.
Lemma NoDup_range m : NoDup (range_map m).
Proof. eapply NoDup_fmap_1, NoDup_range_fst. Qed.
Lemma length_range m : length (range_map m) = size m.
Proof. rewrite range_map_perm. apply length_map_to_list. Qed.
End range.

(** The loop [for k, v := range m { if f(k, v) { delete(m, k); removed++ } }]. *)
Section range_delete.
Context `{RangeOrder} {V : Type}.
Implicit Types (m : gmap string V) (f : string -> V -> bool).

Definition range_delete f m : gmap string V * Z :=
  foldl (fun '(m, removed) '(k, v) =>
    if f k v then (delete k m, removed + 1) else (m, removed)) (m, 0) (range_map m).

Lemma range_delete_fold f l m n :
  NoDup l.*1 -> (forall k v, (k, v) ∈ l -> m !! k = Some v) ->
  foldl (fun '(m, removed) '(k, v) =>
    if f k v then (delete k m, removed + 1) else (m, removed)) (m, n) l
  = (filter (fun p => f p.1 p.2 = false \/ p.1 ∉ l.*1) m,
     n + (Z.of_nat (size m) - Z.of_nat (size (filter (fun p => f p.1 p.2 = false \/ p.1 ∉ l.*1) m)))).
Proof.
  revert m n; induction l as [|[k s] l IH]; intros m n Hnd Hin; simpl.
  { rewrite map_filter_id by (intros; right; apply not_elem_of_nil). f_equal. lia. }
  apply NoDup_cons in Hnd as [Hk Hnd].
  assert (m !! k = Some s) as Hks by (apply Hin; left).
  destruct (f k s) eqn:Hf.
  - assert (filter (fun p => f p.1 p.2 = false \/ p.1 ∉ l.*1) (delete k m)
            = filter (fun p => f p.1 p.2 = false \/ p.1 ∉ k :: l.*1) m) as Heq.
    { apply map_eq. intros i. apply option_eq. intros v.
      rewrite !map_lookup_filter_Some, lookup_delete_Some. simpl. rewrite not_elem_of_cons.
      naive_solver congruence. }
    rewrite IH, Heq; [|done|].
    + f_equal. rewrite map_size_delete, Hks. cbn beta iota.
      assert (size m <> 0%nat) by (intros E%map_size_empty_inv; rewrite E, lookup_empty in Hks; done).
      change (list_fmap (string * V)%type string fst l) with (l.*1). lia.
    + intros k' s' Hl. rewrite lookup_delete_ne; [apply Hin; by right|].
      intros <-. apply Hk. apply list_elem_of_fmap. by exists (k, s').
  - assert (filter (fun p => f p.1 p.2 = false \/ p.1 ∉ l.*1) m
            = filter (fun p => f p.1 p.2 = false \/ p.1 ∉ k :: l.*1) m) as Heq.
    { apply map_eq. intros i. apply option_eq. intros v. rewrite !map_lookup_filter_Some. simpl.
      rewrite not_elem_of_cons. destruct (decide (i = k)) as [->|]; naive_solver congruence. }
    rewrite IH, Heq; [done|done|intros; apply Hin; by right].
Qed.

(** In every order the loop is a filter, and counts what it removed. *)
Lemma range_delete_filter f m :
  range_delete f m
  = (filter (fun p => f p.1 p.2 = false) m,
     Z.of_nat (size m) - Z.of_nat (size (filter (fun p => f p.1 p.2 = false) m))).
Proof.
  unfold range_delete. rewrite range_delete_fold; [|apply NoDup_range_fst|intros; by apply elem_of_range].
  assert (filter (fun p => f p.1 p.2 = false \/ p.1 ∉ (range_map m).*1) m
          = filter (fun p => f p.1 p.2 = false) m) as ->; [|done].
  apply map_eq. intros i. apply option_eq. intros v. rewrite !map_lookup_filter_Some. simpl.
  split; [|naive_solver]. intros [Hv [?|Hn]]; [done|]. exfalso.
  apply Hn, list_elem_of_fmap. exists (i, v). split; [done|]. by apply elem_of_range.
Qed.

Lemma range_delete_lookup f m k :
  (range_delete f m).1 !! k
  = match m !! k with Some v => if f k v then None else Some v | None => None end.
Proof.
  rewrite range_delete_filter. simpl. apply option_eq. intros v.
  rewrite map_lookup_filter_Some. simpl. destruct (m !! k) as [s|]; [|naive_solver].
  destruct (f k s) eqn:E; naive_solver congruence.
Qed.

Lemma range_delete_size f m : (size (range_delete f m).1 <= size m)%nat.
Proof. rewrite range_delete_filter. apply map_subseteq_size, map_filter_subseteq. Qed.
End range_delete.

(** ** Lemmas on filters *)

Section filters.
Context {A : Type} (P : A -> Prop) `{!forall x, Decision (P x)}.

Lemma list_filter_id l : Forall P l -> filter P l = l.
Proof. induction 1; [done|]. rewrite filter_cons_True by done. by f_equal. Qed.
Lemma list_filter_nil l : Forall (fun x => ~ P x) l -> filter P l = [].
Proof. induction 1; [done|]. by rewrite filter_cons_False. Qed.
End filters.

(** ** Invariants of loops *)

Section folds.
Context {A B : Type}.

(** A loop invariant that may mention the elements processed so far. *)
Lemma foldl_prefix_ind (P : list B -> A -> Prop) (f : A -> B -> A) (l : list B) (a : A) :
  P [] a ->
  (forall pre x post a', l = pre ++ x :: post -> P pre a' -> P (pre ++ [x]) (f a' x)) ->
  P l (foldl f a l).
Proof.
  intros H0 Hs. assert (forall pre post a', l = pre ++ post -> P pre a' -> P l (foldl f a' post)) as Hg.
  { intros pre post; revert pre. induction post as [|x post IH]; intros pre a' Hl Hp; simpl.
    - by rewrite app_nil_r in Hl; subst.
    - apply (IH (pre ++ [x])); [by rewrite <-app_assoc|]. by eapply Hs. }
  by apply (Hg [] l).
Qed.

Lemma foldl_inv (P : A -> Prop) (f : A -> B -> A) (l : list B) (a : A) :
  P a -> (forall a' x, x ∈ l -> P a' -> P (f a' x)) -> P (foldl f a l).
Proof.
  intros H0 Hs. apply (foldl_prefix_ind (fun _ => P)); [done|]. intros pre x post a' -> Ha.
  apply Hs; [|done]. apply elem_of_app. right. left.
Qed.

Lemma imap_pair_snd (l : list B) : (imap pair l).*2 = l.
Proof. rewrite fmap_imap. apply list_eq. intros i. rewrite list_lookup_imap. by destruct (l !! i). Qed.
Lemma elem_of_imap_pair (l : list B) i x : (i, x) ∈ imap pair l -> x ∈ l.
Proof. intros Hx. rewrite <-(imap_pair_snd l). apply list_elem_of_fmap. by exists (i, x). Qed.
End folds.

Lemma take_ge_eq {A} (l : list A) n k : (length l <= n)%nat -> (length l <= k)%nat -> take n l = take k l.
Proof. intros. by rewrite !take_ge. Qed.

(** ** Lemmas on concatenations *)

Lemma elem_of_concat {A} (ls : list (list A)) x : x ∈ concat ls <-> exists l, l ∈ ls /\ x ∈ l.
Proof.
  induction ls as [|l ls IH]; cbn.
  - split; [by intros ?%not_elem_of_nil|]. intros (? & ?%not_elem_of_nil & _). done.
  - rewrite elem_of_app, IH. setoid_rewrite elem_of_cons. naive_solver.
Qed.
Lemma elem_of_concat_map {A B} (f : A -> list B) l y : y ∈ concat (f <$> l) <-> exists x, x ∈ l /\ y ∈ f x.
Proof.
  rewrite elem_of_concat. split; [|naive_solver eauto using list_elem_of_fmap_2].
  intros (? & (x & -> & Hx)%list_elem_of_fmap & Hy). eauto.
Qed.
