(* ===== verification/GoStrings.v ===== *)
(** * GoStrings: the byte-string functions of Go's standard library

    Go strings and byte slices are sequences of bytes.  A string is a
    [string] of 8-bit [ascii] characters, a byte slice a [list ascii].  The
    functions of the packages strings, bytes, strconv, encoding/hex and
    unicode/utf8 that the program calls are defined here.  The Unicode case
    tables are the parameter [GoUnicode]: they are consulted only for strings
    that contain a byte above 0x7f. *)

From S2P Require Import Prelude.
From Stdlib Require Import Wf_nat.

Notation bytes := (list ascii).

Definition str (b : bytes) : string := String.string_of_list_ascii b.
Definition byt (s : string) : bytes := String.list_ascii_of_string s.
Definition bv (c : ascii) : Z := Z.of_N (N_of_ascii c).
Definition chr (z : Z) : ascii := ascii_of_N (Z.to_N z).
Definition slen (s : string) : Z := len (byt s).

(** [==] and [<] on strings and byte slices: byte-wise lexicographic. *)
Definition seqb (a b : string) : bool := bool_decide (a = b).

Fixpoint bytes_lt (a b : bytes) : bool :=
  match a, b with
  | _, [] => false
  | [], _ :: _ => true
  | x :: a', y :: b' =>
      if bv x <? bv y then true else if bv y <? bv x then false else bytes_lt a' b'
  end.
Definition sltb (a b : string) : bool := bytes_lt (byt a) (byt b).
Definition sle (a b : string) : Prop := sltb b a = false.

(** ** Prefixes, suffixes, substrings *)

Fixpoint bytes_HasPrefix (s p : bytes) {struct p} : bool :=
  match p, s with
  | [], _ => true
  | c :: p', d :: s' => bool_decide (c = d) && bytes_HasPrefix s' p'
  | _ :: _, [] => false
  end.
Definition bytes_HasSuffix (s p : bytes) : bool := bytes_HasPrefix (rev s) (rev p).

(** [bytes.Index]: the first position of [sep] in [s]; [None] is -1. *)
Fixpoint bytes_Index (s sep : bytes) : option nat :=
  if bytes_HasPrefix s sep then Some 0%nat
  else match s with [] => None | _ :: s' => S <$> bytes_Index s' sep end.

(** [bytes.Cut]: before, after, found. *)
Definition bytes_Cut (s sep : bytes) : bytes * bytes * bool :=
  match bytes_Index s sep with
  | Some i => (take i s, drop (i + length sep) s, true)
  | None => (s, [], false)
  end.

Definition strings_HasPrefix (s p : string) : bool := bytes_HasPrefix (byt s) (byt p).
Definition strings_HasSuffix (s p : string) : bool := bytes_HasSuffix (byt s) (byt p).
Definition strings_Contains (s sub : string) : bool := bool_decide (is_Some (bytes_Index (byt s) (byt sub))).
Definition strings_TrimSuffix (s p : string) : string :=
  if strings_HasSuffix s p then str (take (length (byt s) - length (byt p)) (byt s)) else s.
Definition strings_TrimPrefix (s p : string) : string :=
  if strings_HasPrefix s p then str (drop (length (byt p)) (byt s)) else s.
Definition strings_Cut (s sep : string) : string * string * bool :=
  let '(a, b, ok) := bytes_Cut (byt s) (byt sep) in (str a, str b, ok).

(** [strings.Split] for a non-empty separator: split at each occurrence from
    the left.  The fuel is the length of the string plus one. *)
Fixpoint split_fuel (fuel : nat) (s sep : bytes) : list bytes :=
  match fuel with
  | O => [s]
  | S n =>
      match bytes_Index s sep with
      | Some i => take i s :: split_fuel n (drop (i + length sep) s) sep
      | None => [s]
      end
  end.
Definition strings_Split (s sep : string) : list string :=
  str <$> split_fuel (S (length (byt s))) (byt s) (byt sep).

Definition strings_Join (parts : list string) (sep : string) : string := String.concat sep parts.

(** ** White space

    [unicode.IsSpace] holds for six ASCII characters and for the listed UTF-8
    sequences.  Their first bytes are not continuation bytes, so looking for
    the sequences byte-wise agrees with decoding runes. *)

Definition is_space1 (c : ascii) : bool := ((9 <=? bv c) && (bv c <=? 13)) || (bv c =? 32).
Definition is_space2 (c d : ascii) : bool := (bv c =? 194) && ((bv d =? 133) || (bv d =? 160)).
Definition is_space3 (c d e : ascii) : bool :=
  ((bv c =? 225) && (bv d =? 154) && (bv e =? 128))
  || ((bv c =? 226) && (bv d =? 128)
      && (((128 <=? bv e) && (bv e <=? 138)) || (bv e =? 168) || (bv e =? 169) || (bv e =? 175)))
  || ((bv c =? 226) && (bv d =? 129) && (bv e =? 159))
  || ((bv c =? 227) && (bv d =? 128) && (bv e =? 128)).

Fixpoint trim_front (sp2 : ascii -> ascii -> bool) (sp3 : ascii -> ascii -> ascii -> bool)
    (b : bytes) : bytes :=
  match b with
  | [] => []
  | c :: r =>
      if is_space1 c then trim_front sp2 sp3 r
      else match r with
           | [] => b
           | d :: r' =>
               if sp2 c d then trim_front sp2 sp3 r'
               else match r' with
                    | [] => b
                    | e :: r'' => if sp3 c d e then trim_front sp2 sp3 r'' else b
                    end
           end
  end.
Definition trim_left (b : bytes) : bytes := trim_front is_space2 is_space3 b.
Definition trim_right (b : bytes) : bytes :=
  rev (trim_front (fun d c => is_space2 c d) (fun e d c => is_space3 c d e) (rev b)).
Definition bytes_TrimSpace (b : bytes) : bytes := trim_right (trim_left b).
Definition strings_TrimSpace (s : string) : string := str (bytes_TrimSpace (byt s)).

(** [strings.Fields]: the maximal runs without white space; [cur] is the
    current field, reversed. *)
Definition emit_field (cur : bytes) (rest : list bytes) : list bytes :=
  match cur with [] => rest | _ :: _ => rev cur :: rest end.
Fixpoint fields_from (cur b : bytes) : list bytes :=
  match b with
  | [] => emit_field cur []
  | c :: r =>
      if is_space1 c then emit_field cur (fields_from [] r)
      else match r with
           | [] => fields_from (c :: cur) r
           | d :: r' =>
               if is_space2 c d then emit_field cur (fields_from [] r')
               else match r' with
                    | [] => fields_from (c :: cur) r
                    | e :: r'' =>
                        if is_space3 c d e then emit_field cur (fields_from [] r'')
                        else fields_from (c :: cur) r
                    end
           end
  end.
Definition strings_Fields (s : string) : list string := str <$> fields_from [] (byt s).

(** ** Case *)

Definition lower_byte (c : ascii) : ascii :=
  if (65 <=? bv c) && (bv c <=? 90) then chr (bv c + 32) else c.
Definition is_ascii_bytes (b : bytes) : bool := forallb (fun c => bv c <? 128) b.

(** [strings.Map(unicode.ToLower, s)] and the non-ASCII part of
    [strings.EqualFold], with the facts about the Unicode tables that the
    program relies on: lower case is stable, and lower-casing neither adds nor
    removes surrounding white space. *)
Class GoUnicode := {
  unicode_ToLower : bytes -> bytes;
  unicode_EqualFold : bytes -> bytes -> bool
}.

Section case.
Context `{GoUnicode}.

Definition bytes_ToLower (b : bytes) : bytes :=
  if is_ascii_bytes b then map lower_byte b else unicode_ToLower b.
Definition strings_ToLower (s : string) : string := str (bytes_ToLower (byt s)).
Definition strings_EqualFold (s t : string) : bool :=
  if is_ascii_bytes (byt s) && is_ascii_bytes (byt t)
  then bool_decide (map lower_byte (byt s) = map lower_byte (byt t))
  else unicode_EqualFold (byt s) (byt t).
End case.

Class GoUnicodeLaws `{GoUnicode} := {
  ToLower_idem : forall b, bytes_ToLower (bytes_ToLower b) = bytes_ToLower b;
  ToLower_trimmed : forall b, bytes_TrimSpace b = b -> bytes_TrimSpace (bytes_ToLower b) = bytes_ToLower b
}.

(** Case mapping of the ASCII letters only. *)
Definition ascii_unicode : GoUnicode :=
  {| unicode_ToLower := map lower_byte;
     unicode_EqualFold := fun s t => bool_decide (map lower_byte s = map lower_byte t) |}.

(** ** Numbers and hexadecimal *)

(** [strconv.Itoa], [strconv.FormatUint(_, 10)] and the verb %d. *)
Definition strconv_Itoa (z : Z) : string := pretty z.

(** A number of any size. *)
Fixpoint parse_digits (acc : Z) (b : bytes) : option Z :=
  match b with
  | [] => Some acc
  | c :: r => if (48 <=? bv c) && (bv c <=? 57) then parse_digits (acc * 10 + (bv c - 48)) r else None
  end.
(** [strconv.ParseUint(s, 10, bits)]: the value and whether there was no error.
    A syntax error yields 0, an overflow, which ends the scan, the largest value
    of the width. *)
Fixpoint scan_uint (max acc : Z) (b : bytes) : Z * bool :=
  match b with
  | [] => (acc, true)
  | c :: r =>
      if (48 <=? bv c) && (bv c <=? 57) then
        let v := acc * 10 + (bv c - 48) in
        if max <? v then (max, false) else scan_uint max v r
      else (0, false)
  end.
Definition parse_uint (b : bytes) (bits : Z) : Z * bool :=
  match b with [] => (0, false) | _ => scan_uint (2 ^ bits - 1) 0 b end.
(** The value alone. *)
Definition strconv_ParseUint (b : bytes) (bits : Z) : Z := (parse_uint b bits).1.

(** [strconv.Atoi] and [strconv.ParseInt(s, 10, 64)]. *)
Definition parse_int (b : bytes) : Z * bool :=
  let '(neg, d) := match b with
                   | c :: r => if bv c =? 43 then (false, r) else if bv c =? 45 then (true, r) else (false, b)
                   | [] => (false, b)
                   end in
  let '(v, ok) := parse_uint d 64 in
  if negb ok && (v =? 0) then (0, false)
  else if negb neg && (2 ^ 63 <=? v) then (2 ^ 63 - 1, false)
  else if neg && (2 ^ 63 <? v) then (- 2 ^ 63, false)
  else (if neg then - v else v, ok).

Definition hex_digit (z : Z) : ascii := if z <? 10 then chr (48 + z) else chr (87 + z).
Definition hex_byte (c : ascii) : bytes := [hex_digit (bv c / 16); hex_digit (bv c mod 16)].
Definition hex_EncodeToString (b : bytes) : string := str (concat (map hex_byte b)).

(** ** UTF-8 *)

Definition utf8_cont (c : ascii) : bool := (128 <=? bv c) && (bv c <=? 191).
Definition utf8_second (b0 b1 : Z) : bool :=
  if b0 =? 224 then (160 <=? b1) && (b1 <=? 191)
  else if b0 =? 237 then (128 <=? b1) && (b1 <=? 159)
  else if b0 =? 240 then (144 <=? b1) && (b1 <=? 191)
  else if b0 =? 244 then (128 <=? b1) && (b1 <=? 143)
  else (128 <=? b1) && (b1 <=? 191).
Fixpoint utf8_Valid (b : bytes) : bool :=
  match b with
  | [] => true
  | c0 :: r0 =>
      if bv c0 <? 128 then utf8_Valid r0
      else if (194 <=? bv c0) && (bv c0 <=? 223) then
        match r0 with
        | c1 :: r1 => utf8_second (bv c0) (bv c1) && utf8_Valid r1
        | [] => false
        end
      else if (224 <=? bv c0) && (bv c0 <=? 239) then
        match r0 with
        | c1 :: c2 :: r2 => utf8_second (bv c0) (bv c1) && utf8_cont c2 && utf8_Valid r2
        | _ => false
        end
      else if (240 <=? bv c0) && (bv c0 <=? 244) then
        match r0 with
        | c1 :: c2 :: c3 :: r3 =>
            utf8_second (bv c0) (bv c1) && utf8_cont c2 && utf8_cont c3 && utf8_Valid r3
        | _ => false
        end
      else false
  end.

(** ** Lemmas *)

Lemma str_byt s : str (byt s) = s.
Proof. apply String.string_of_list_ascii_of_string. Qed.
Lemma byt_str b : byt (str b) = b.
Proof. apply String.list_ascii_of_string_of_list_ascii. Qed.
Hint Rewrite str_byt byt_str : ta.

#[global] Instance byt_inj : Inj (=) (=) byt.
Proof. intros a b Hab. by rewrite <-(str_byt a), Hab, str_byt. Qed.
#[global] Instance str_inj : Inj (=) (=) str.
Proof. intros a b Hab. by rewrite <-(byt_str a), Hab, byt_str. Qed.

Lemma bv_range c : 0 <= bv c < 256.
Proof. unfold bv. pose proof (N_ascii_bounded c). lia. Qed.
Lemma bv_chr z : 0 <= z < 256 -> bv (chr z) = z.
Proof. intros Hz. unfold bv, chr. rewrite N_ascii_embedding; lia. Qed.
#[global] Instance bv_inj : Inj (=) (=) bv.
Proof.
  intros a b Hab. unfold bv in Hab. apply N2Z.inj in Hab.
  by rewrite <-(ascii_N_embedding a), Hab, ascii_N_embedding.
Qed.
Lemma chr_bv c : chr (bv c) = c.
Proof. apply (inj bv). apply bv_chr, bv_range. Qed.

Lemma seqb_spec a b : seqb a b = true <-> a = b.
Proof. apply bool_decide_eq_true. Qed.
Lemma seqb_refl a : seqb a a = true.
Proof. by apply seqb_spec. Qed.
Lemma seqb_reflect a b : reflect (a = b) (seqb a b).
Proof. apply bool_decide_reflect. Qed.
Lemma seqb_neq a b : seqb a b = false <-> a <> b.
Proof. apply bool_decide_eq_false. Qed.

Lemma byt_app a b : byt (a +:+ b) = byt a ++ byt b.
Proof. induction a; simpl; [done|by rewrite IHa]. Qed.
Lemma str_app a b : str (a ++ b) = str a +:+ str b.
Proof. apply (inj byt). by rewrite byt_app, !byt_str. Qed.

(** *** The order on strings *)

Lemma bytes_lt_irrefl b : bytes_lt b b = false.
Proof. induction b; simpl; [done|]. by rewrite Z.ltb_irrefl. Qed.
Lemma bytes_lt_asym a b : bytes_lt a b = true -> bytes_lt b a = false.
Proof.
  revert b; induction a as [|x a IH]; intros [|y b]; simpl; try done.
  destruct (Z.ltb_spec (bv x) (bv y)), (Z.ltb_spec (bv y) (bv x)); try done; try lia; auto.
Qed.
Lemma bytes_lt_total a b : bytes_lt a b = false -> bytes_lt b a = false -> a = b.
Proof.
  revert b; induction a as [|x a IH]; intros [|y b]; simpl; try done.
  destruct (Z.ltb_spec (bv x) (bv y)), (Z.ltb_spec (bv y) (bv x)); try done.
  intros. f_equal; [apply (inj bv); lia|auto].
Qed.
Lemma bytes_lt_trans a b c : bytes_lt a b = true -> bytes_lt b c = true -> bytes_lt a c = true.
Proof.
  revert b c; induction a as [|x a IH]; intros [|y b] [|z c]; simpl; try done.
  destruct (Z.ltb_spec (bv x) (bv y)), (Z.ltb_spec (bv y) (bv x)),
    (Z.ltb_spec (bv y) (bv z)), (Z.ltb_spec (bv z) (bv y)),
    (Z.ltb_spec (bv x) (bv z)), (Z.ltb_spec (bv z) (bv x)); try done; try lia.
  eauto.
Qed.
Lemma sltb_irrefl s : sltb s s = false.
Proof. apply bytes_lt_irrefl. Qed.
Lemma sltb_asym a b : sltb a b = true -> sltb b a = false.
Proof. apply bytes_lt_asym. Qed.
Lemma sltb_total a b : sltb a b = false -> sltb b a = false -> a = b.
Proof. intros. apply (inj byt). by apply bytes_lt_total. Qed.
Lemma sltb_trans a b c : sltb a b = true -> sltb b c = true -> sltb a c = true.
Proof. apply bytes_lt_trans. Qed.

#[global] Instance sle_dec : RelDecision sle.
Proof. intros a b. unfold sle. apply _. Defined.
#[global] Instance sle_trans : Transitive sle.
Proof.
  unfold sle. intros a b c Hab Hbc.
  destruct (sltb c a) eqn:E; [|done].
  destruct (sltb b c) eqn:E'.
  - pose proof (sltb_trans _ _ _ E' E). congruence.
  - by rewrite (sltb_total b c) in Hab by done; rewrite E in Hab.
Qed.
#[global] Instance sle_total : Total sle.
Proof.
  unfold sle. intros a b. destruct (sltb b a) eqn:E; [right; by apply sltb_asym|by left].
Qed.
#[global] Instance sle_antisymm : AntiSymm (=) sle.
Proof. unfold sle. intros a b ??. by apply sltb_total. Qed.

(** *** Prefixes and substrings *)

Lemma bytes_HasPrefix_spec s p : bytes_HasPrefix s p = true <-> exists r, s = p ++ r.
Proof.
  revert s; induction p as [|c p IH]; intros s; simpl.
  { split; eauto. }
  destruct s as [|d s]; simpl.
  { split; [done|intros [r Hr]; done]. }
  rewrite andb_true_iff, bool_decide_eq_true, IH.
  split; [intros [-> [r ->]]; eauto|intros [r Hr]; simplify_eq/=; eauto].
Qed.
Lemma bytes_HasPrefix_app p r : bytes_HasPrefix (p ++ r) p = true.
Proof. apply bytes_HasPrefix_spec; eauto. Qed.
Lemma bytes_HasSuffix_spec s p : bytes_HasSuffix s p = true <-> exists r, s = r ++ p.
Proof.
  unfold bytes_HasSuffix. rewrite bytes_HasPrefix_spec. split; intros [r Hr].
  - exists (rev r). by rewrite <-(rev_involutive s), Hr, rev_app_distr, rev_involutive.
  - exists (rev r). by rewrite Hr, rev_app_distr.
Qed.
Lemma bytes_Index_Some s sep i :
  bytes_Index s sep = Some i -> exists r, s = take i s ++ sep ++ r /\ drop (i + length sep) s = r.
Proof.
  revert i; induction s as [|c s IH]; intros i; simpl.
  - destruct sep; simpl; [|done]. intros [= <-]. by exists [].
  - destruct (bytes_HasPrefix (c :: s) sep) eqn:E.
    + intros [= <-]. apply bytes_HasPrefix_spec in E as [r Hr]. exists r.
      simpl. split; [done|]. rewrite Hr. by rewrite drop_app_length.
    + destruct (bytes_Index s sep) as [j|]; simpl; [|done]. intros [= <-].
      destruct (IH j eq_refl) as (r & Hr & Hd). exists r. simpl. split; [by f_equal|done].
Qed.

Lemma bytes_Index_bound s sep i : bytes_Index s sep = Some i -> (i + length sep <= length s)%nat.
Proof.
  revert i; induction s as [|c s IH]; intros i; simpl.
  - destruct sep; simpl; [|done]. by intros [= <-].
  - destruct (bytes_HasPrefix (c :: s) sep) eqn:E.
    + intros [= <-]. apply bytes_HasPrefix_spec in E as [r Hr].
      apply (f_equal length) in Hr. rewrite length_app in Hr. simpl in *. lia.
    + destruct (bytes_Index s sep) as [j|]; simpl; [|done]. intros [= <-].
      specialize (IH j eq_refl). lia.
Qed.

(** *** White space and case *)

Lemma trim_front_idem sp2 sp3 b :
  trim_front sp2 sp3 (trim_front sp2 sp3 b) = trim_front sp2 sp3 b.
Proof.
  induction b as [b IH] using (induction_ltof1 _ (@length ascii)); unfold ltof in IH.
  destruct b as [|c b]; [done|simpl].
  destruct (is_space1 c) eqn:E1; [apply IH; simpl; lia|].
  destruct b as [|d b]; [simpl; by rewrite E1|].
  destruct (sp2 c d) eqn:E2; [apply IH; simpl; lia|].
  destruct b as [|e b]; [simpl; by rewrite E1, E2|].
  destruct (sp3 c d e) eqn:E3; [apply IH; simpl; lia|].
  simpl. by rewrite E1, E2, E3.
Qed.

(** A string that starts with white space still does after more is appended. *)
Lemma trim_front_stuck_app sp2 sp3 a b :
  trim_front sp2 sp3 (a ++ b) = a ++ b -> trim_front sp2 sp3 a = a.
Proof.
  assert (forall l : bytes, (length (trim_front sp2 sp3 l) <= length l)%nat) as Hle.
  { induction l as [l IH] using (induction_ltof1 _ (@length ascii)); unfold ltof in IH.
    destruct l as [|c l]; [done|simpl].
    destruct (is_space1 c); [etrans; [apply IH|]; simpl; lia|].
    destruct l as [|d l]; [done|].
    destruct (sp2 c d); [etrans; [apply IH|]; simpl; lia|].
    destruct l as [|e l]; [done|].
    destruct (sp3 c d e); [etrans; [apply IH|]; simpl; lia|done]. }
  assert (forall (l k : bytes), (length l < length k)%nat -> trim_front sp2 sp3 l = k -> False) as Hno.
  { intros l k Hl Hk. specialize (Hle l). rewrite Hk in Hle. lia. }
  destruct a as [|c a]; [done|simpl].
  destruct (is_space1 c); [intros Hk; exfalso; eapply Hno; [|apply Hk]; simpl; lia|].
  destruct a as [|d a]; [done|simpl].
  destruct (sp2 c d); [intros Hk; exfalso; eapply Hno; [|apply Hk]; simpl; lia|].
  destruct a as [|e a]; [done|simpl].
  destruct (sp3 c d e); [intros Hk; exfalso; eapply Hno; [|apply Hk]; simpl; lia|done].
Qed.

Lemma trim_front_suffix sp2 sp3 b : exists p, b = p ++ trim_front sp2 sp3 b.
Proof.
  induction b as [b IH] using (induction_ltof1 _ (@length ascii)); unfold ltof in IH.
  assert (forall p b', b = p ++ b' -> (length b' < length b)%nat ->
    exists p', b = p' ++ trim_front sp2 sp3 b') as Hstep.
  { intros p b' -> Hlt. destruct (IH b' Hlt) as [q Hq]. exists (p ++ q).
    rewrite <-app_assoc. by rewrite <-Hq. }
  destruct b as [|c b]; [by exists []|simpl].
  destruct (is_space1 c); [apply (Hstep [c]); [done|simpl; lia]|].
  destruct b as [|d b]; [by exists []|].
  destruct (sp2 c d); [apply (Hstep [c; d]); [done|simpl; lia]|].
  destruct b as [|e b]; [by exists []|].
  destruct (sp3 c d e); [apply (Hstep [c; d; e]); [done|simpl; lia]|by exists []].
Qed.

Lemma trim_right_prefix b : exists p, b = trim_right b ++ p.
Proof.
  unfold trim_right.
  destruct (trim_front_suffix (fun d c => is_space2 c d) (fun e d c => is_space3 c d e) (rev b)) as [p Hp].
  exists (rev p). by rewrite <-rev_app_distr, <-Hp, rev_involutive.
Qed.
Lemma trim_right_idem b : trim_right (trim_right b) = trim_right b.
Proof. unfold trim_right. by rewrite rev_involutive, trim_front_idem. Qed.

Lemma TrimSpace_idem b : bytes_TrimSpace (bytes_TrimSpace b) = bytes_TrimSpace b.
Proof.
  unfold bytes_TrimSpace at 1 2 3. set (x := trim_left b).
  assert (trim_left (trim_right x) = trim_right x) as ->; [|apply trim_right_idem].
  destruct (trim_right_prefix x) as [p Hp]. eapply trim_front_stuck_app.
  rewrite <-Hp. apply trim_front_idem.
Qed.
Lemma strings_TrimSpace_idem s : strings_TrimSpace (strings_TrimSpace s) = strings_TrimSpace s.
Proof. unfold strings_TrimSpace. by rewrite byt_str, TrimSpace_idem. Qed.

(** *** The ASCII instance satisfies the laws of the case tables *)

Lemma lower_byte_high c : 128 <= bv c -> lower_byte c = c.
Proof. intros. unfold lower_byte. case_if; [lia|done]. Qed.
Lemma lower_byte_high_inv c : 128 <= bv (lower_byte c) -> lower_byte c = c.
Proof. unfold lower_byte. case_if; [rewrite bv_chr by lia; lia|done]. Qed.
Lemma lower_byte_idem c : lower_byte (lower_byte c) = lower_byte c.
Proof.
  unfold lower_byte at 2 3. case_if.
  - unfold lower_byte. rewrite bv_chr by lia. case_if; [lia|done].
  - unfold lower_byte. by rewrite Heqb.
Qed.

Lemma is_space1_lower c : is_space1 (lower_byte c) = is_space1 c.
Proof.
  unfold is_space1, lower_byte. case_if; [|done]. rewrite bv_chr by lia.
  apply eq_true_iff_eq. rewrite !orb_true_iff, !andb_true_iff, !Z.leb_le, !Z.eqb_eq. lia.
Qed.
Lemma is_space2_high c d : is_space2 c d = true -> 128 <= bv c /\ 128 <= bv d.
Proof. unfold is_space2. rewrite andb_true_iff, orb_true_iff, !Z.eqb_eq. lia. Qed.
Lemma is_space3_high c d e : is_space3 c d e = true -> 128 <= bv c /\ 128 <= bv d /\ 128 <= bv e.
Proof.
  unfold is_space3. rewrite !orb_true_iff, !andb_true_iff, !orb_true_iff, !andb_true_iff, !Z.eqb_eq, !Z.leb_le.
  lia.
Qed.
Lemma is_space2_lower c d : is_space2 (lower_byte c) (lower_byte d) = is_space2 c d.
Proof.
  apply eq_true_iff_eq; split; intros Hs.
  - pose proof (is_space2_high _ _ Hs) as [?%lower_byte_high_inv ?%lower_byte_high_inv]. congruence.
  - pose proof (is_space2_high _ _ Hs) as [?%lower_byte_high ?%lower_byte_high]. congruence.
Qed.
Lemma is_space3_lower c d e : is_space3 (lower_byte c) (lower_byte d) (lower_byte e) = is_space3 c d e.
Proof.
  apply eq_true_iff_eq; split; intros Hs.
  - pose proof (is_space3_high _ _ _ Hs) as (?%lower_byte_high_inv & ?%lower_byte_high_inv & ?%lower_byte_high_inv).
    congruence.
  - pose proof (is_space3_high _ _ _ Hs) as (?%lower_byte_high & ?%lower_byte_high & ?%lower_byte_high).
    congruence.
Qed.

Lemma trim_front_lower sp2 sp3 b :
  (forall c d, sp2 (lower_byte c) (lower_byte d) = sp2 c d) ->
  (forall c d e, sp3 (lower_byte c) (lower_byte d) (lower_byte e) = sp3 c d e) ->
  trim_front sp2 sp3 (map lower_byte b) = map lower_byte (trim_front sp2 sp3 b).
Proof.
  intros H2 H3.
  induction b as [b IH] using (induction_ltof1 _ (@length ascii)); unfold ltof in IH.
  destruct b as [|c b]; [done|simpl]. rewrite is_space1_lower.
  destruct (is_space1 c); [apply IH; simpl; lia|].
  destruct b as [|d b]; [done|simpl]. rewrite H2.
  destruct (sp2 c d); [apply IH; simpl; lia|].
  destruct b as [|e b]; [done|simpl]. rewrite H3.
  destruct (sp3 c d e); [apply IH; simpl; lia|done].
Qed.
Lemma TrimSpace_lower b : bytes_TrimSpace (map lower_byte b) = map lower_byte (bytes_TrimSpace b).
Proof.
  unfold bytes_TrimSpace, trim_right, trim_left.
  rewrite trim_front_lower by (apply is_space2_lower || apply is_space3_lower).
  rewrite <-map_rev.
  rewrite trim_front_lower by (intros; apply is_space2_lower || apply is_space3_lower).
  by rewrite map_rev.
Qed.

#[global] Instance ascii_unicode_laws : @GoUnicodeLaws ascii_unicode.
Proof.
  assert (forall b, @bytes_ToLower ascii_unicode b = map lower_byte b) as Hl.
  { intros b. unfold bytes_ToLower. simpl. by case_if. }
  constructor; intros b; rewrite !Hl.
  - rewrite map_map. apply map_ext, lower_byte_idem.
  - intros Hb. by rewrite TrimSpace_lower, Hb.
Qed.

(** *** Consequences of the laws *)
Section laws.
Context `{GoUnicodeLaws}.

Lemma ToLower_TrimSpace_stable s :
  strings_ToLower (strings_TrimSpace (strings_ToLower (strings_TrimSpace s)))
  = strings_ToLower (strings_TrimSpace s).
Proof.
  unfold strings_ToLower, strings_TrimSpace. rewrite !byt_str. f_equal.
  rewrite ToLower_trimmed by apply TrimSpace_idem. apply ToLower_idem.
Qed.
End laws.
