(* ===== verification/GoNet.v ===== *)
(** * GoNet: IP addresses, hashes and time stamps of Go's standard library

    The parts of net, net/netip, crypto/sha256, hash/fnv and time that the
    program calls.  An IP address is the list of its bytes; [net.ParseIP]
    yields 16 bytes, an IPv4 address being mapped into ::ffff:0:0/96. *)

From S2P Require Import Prelude GoStrings.

(** ** net.ParseIP *)

Definition v4InV6Prefix : list Z := replicate 10 0 ++ [255; 255].

(** The dotted-decimal fields; [start] is true at the first character and
    after a dot. *)
Fixpoint parseIPv4Fields (start : bool) (val digLen : Z) (fields : list Z) (s : bytes) : option (list Z) :=
  match s with
  | [] => if len fields <? 3 then None else Some (fields ++ [val])
  | c :: r =>
      if (48 <=? bv c) && (bv c <=? 57) then
        if (digLen =? 1) && (val =? 0) then None
        else let v := val * 10 + (bv c - 48) in
             if 255 <? v then None else parseIPv4Fields false v (digLen + 1) fields r
      else if bv c =? 46 then
        if start || (len r =? 0) then None
        else if len fields =? 3 then None
        else parseIPv4Fields true 0 0 (fields ++ [val]) r
      else None
  end.

Definition hex_value (c : ascii) : option Z :=
  if (48 <=? bv c) && (bv c <=? 57) then Some (bv c - 48)
  else if (97 <=? bv c) && (bv c <=? 102) then Some (bv c - 97 + 10)
  else if (65 <=? bv c) && (bv c <=? 70) then Some (bv c - 65 + 10)
  else None.

(** At most four hexadecimal digits; [None] when there are more. *)
Fixpoint hex_group (off : nat) (acc : Z) (s : bytes) : option (nat * Z * bytes) :=
  match s with
  | [] => Some (off, acc, [])
  | c :: r =>
      match hex_value c with
      | Some d => if (3 <? off)%nat then None else hex_group (S off) (acc * 16 + d) r
      | None => Some (off, acc, s)
      end
  end.

Definition ipv6_finish (ip : list Z) (ellipsis : option nat) (s : bytes) : option (list Z) :=
  if negb (len s =? 0) then None
  else if len ip <? 16 then
    match ellipsis with
    | None => None
    | Some e => Some (take e ip ++ replicate (16 - length ip) 0 ++ drop e ip)
    end
  else match ellipsis with Some _ => None | None => Some ip end.

(** One turn per 16-bit group: eight turns fill the address. *)
Fixpoint ipv6_loop (fuel : nat) (ip : list Z) (ellipsis : option nat) (s : bytes) : option (list Z) :=
  match fuel with
  | O => ipv6_finish ip ellipsis s
  | S n =>
      match hex_group 0 0 s with
      | None => None
      | Some (off, acc, rest) =>
          if (off =? 0)%nat then None
          else match rest with
          | [] => ipv6_finish (ip ++ [acc / 256; acc mod 256]) ellipsis []
          | c :: r1 =>
              if bv c =? 46 then
                if bool_decide (ellipsis = None) && negb (len ip =? 12) then None
                else if 16 <? len ip + 4 then None
                else match parseIPv4Fields true 0 0 [] s with
                     | None => None
                     | Some f4 => ipv6_finish (ip ++ f4) ellipsis []
                     end
              else if negb (bv c =? 58) then None
              else match r1 with
              | [] => None
              | d :: r2 =>
                  let ip' := ip ++ [acc / 256; acc mod 256] in
                  if bv d =? 58 then
                    match ellipsis with
                    | Some _ => None
                    | None =>
                        match r2 with
                        | [] => ipv6_finish ip' (Some (length ip')) []
                        | _ :: _ => ipv6_loop n ip' (Some (length ip')) r2
                        end
                    end
                  else ipv6_loop n ip' ellipsis r1
              end
          end
      end
  end.

Definition parseIPv6 (s : bytes) : option (list Z) :=
  match s with
  | c :: d :: r =>
      if (bv c =? 58) && (bv d =? 58) then
        match r with [] => Some (replicate 16 0) | _ :: _ => ipv6_loop 8 [] (Some 0%nat) r end
      else ipv6_loop 8 [] None s
  | _ => ipv6_loop 8 [] None s
  end.

(** [netip.ParseAddr] without zones: the flag tells an IPv4 address. *)
Fixpoint addr_kind (s : bytes) : option bool :=
  match s with
  | [] => None
  | c :: r => if bv c =? 46 then Some true else if bv c =? 58 then Some false
              else if bv c =? 37 then None else addr_kind r
  end.
Definition parseAddr (s : bytes) : option (bool * list Z) :=
  if existsb (fun c => bv c =? 37) s then None
  else match addr_kind s with
       | Some true => (fun f => (true, v4InV6Prefix ++ f)) <$> parseIPv4Fields true 0 0 [] s
       | Some false => (fun f => (false, f)) <$> parseIPv6 s
       | None => None
       end.
Definition net_ParseIP (s : string) : option (list Z) := snd <$> parseAddr (byt s).

(** ** Methods of net.IP *)

Definition IP_To4 (ip : list Z) : option (list Z) :=
  if len ip =? 4 then Some ip
  else if (len ip =? 16) && bool_decide (take 12 ip = v4InV6Prefix) then Some (drop 12 ip)
  else None.
Definition IP_IsLoopback (ip : list Z) : bool :=
  match IP_To4 ip with
  | Some p => bool_decide (head p = Some 127)
  | None => bool_decide (ip = replicate 15 0 ++ [1])
  end.
Definition IP_IsUnspecified (ip : list Z) : bool :=
  match IP_To4 ip with
  | Some p => bool_decide (p = [0; 0; 0; 0])
  | None => bool_decide (ip = replicate 16 0)
  end.

Definition ip4_String (p : list Z) : string := strings_Join (strconv_Itoa <$> p) ".".

Fixpoint groups (ip : list Z) : list Z :=
  match ip with a :: b :: r => a * 256 + b :: groups r | _ => [] end.
(** Lower-case hexadecimal without leading zeros. *)
Fixpoint hex_fuel (fuel : nat) (z : Z) (acc : bytes) : bytes :=
  match fuel with
  | O => acc
  | S n => let acc' := hex_digit (z mod 16) :: acc in if z <? 16 then acc' else hex_fuel n (z / 16) acc'
  end.
Definition hex16 (z : Z) : string := str (hex_fuel 4 z []).
Fixpoint zero_run (g : list Z) : nat :=
  match g with z :: r => if z =? 0 then S (zero_run r) else 0%nat | [] => 0%nat end.
(** The first longest run of at least two zero groups, as (start, end). *)
Definition longest_zero_run (g : list Z) : option (nat * nat) :=
  foldl (fun best i =>
    let l := zero_run (drop i g) in
    if (2 <=? l)%nat && (match best with None => true | Some (s, e) => (e - s <? l)%nat end)
    then Some (i, (i + l)%nat) else best) None (seq 0 8).
Definition ip6_String (ip : list Z) : string :=
  let g := groups ip in
  match longest_zero_run g with
  | Some (s, e) => strings_Join (hex16 <$> take s g) ":" +:+ "::" +:+ strings_Join (hex16 <$> drop e g) ":"
  | None => strings_Join (hex16 <$> g) ":"
  end.
Definition IP_String (ip : list Z) : string :=
  match IP_To4 ip with
  | Some p => ip4_String p
  | None => if len ip =? 16 then ip6_String ip
            else if len ip =? 0 then "<nil>" else "?" +:+ hex_EncodeToString (chr <$> ip)
  end.

(** ** Networks *)

Record IPNet := mkIPNet { net_IP : list Z; net_Mask : list Z }.

(** [net.CIDRMask(ones, bits)]. *)
Definition mask_byte (n : Z) : Z := 255 - (255 / 2 ^ Z.max 0 (Z.min 8 n)).
Definition CIDRMask (ones bits : Z) : list Z :=
  (fun i => mask_byte (ones - 8 * Z.of_nat i)) <$> seq 0 (Z.to_nat (bits / 8)).

(** [ip.Mask(m)] for a mask of the address's family. *)
Definition IP_Mask (ip m : list Z) : list Z :=
  let ip := if (len m =? 4) && (len ip =? 16) && bool_decide (take 12 ip = v4InV6Prefix)
            then drop 12 ip else ip in
  if len ip =? len m then zip_with Z.land ip m else [].

(** The decimal prefix length: digits only, below 0xFFFFFF. *)
Definition dtoi (b : bytes) : option Z :=
  match b with
  | [] => None
  | _ => match parse_digits 0 b with Some v => if v <? 16777215 then Some v else None | None => None end
  end.
Definition net_ParseCIDR (s : string) : option IPNet :=
  let '(addr, mask, found) := bytes_Cut (byt s) (byt "/") in
  if negb found then None
  else match parseAddr addr, dtoi mask with
       | Some (is4, ip), Some n =>
           let bits := if is4 : bool then 32 else 128 in
           if bits <? n then None
           else let m := CIDRMask n bits in Some (mkIPNet (IP_Mask ip m) m)
       | _, _ => None
       end.

Definition networkNumberAndMask (n : IPNet) : list Z * list Z :=
  let r := match IP_To4 (net_IP n) with
           | Some p => Some p
           | None => if len (net_IP n) =? 16 then Some (net_IP n) else None
           end in
  match r with
  | None => ([], [])
  | Some ip =>
      if len (net_Mask n) =? 4 then if len ip =? 4 then (ip, net_Mask n) else ([], [])
      else if len (net_Mask n) =? 16
           then (ip, if len ip =? 4 then drop 12 (net_Mask n) else net_Mask n)
      else ([], [])
  end.
Definition IPNet_Contains (n : IPNet) (ip : list Z) : bool :=
  let '(nn, m) := networkNumberAndMask n in
  let ip := match IP_To4 ip with Some p => p | None => ip end in
  (len ip =? len nn) && bool_decide (zip_with Z.land nn m = zip_with Z.land ip m).

(** [bytes.Compare(a, b) > 0] on addresses, a missing address being empty. *)
Fixpoint ip_gt (a b : list Z) : bool :=
  match a, b with
  | [], _ => false
  | _ :: _, [] => true
  | x :: a', y :: b' => if y <? x then true else if x <? y then false else ip_gt a' b'
  end.
Definition ip_bytes (o : option (list Z)) : list Z := default [] o.

(** [net.JoinHostPort]. *)
Definition net_JoinHostPort (host port : string) : string :=
  if strings_Contains host ":" || strings_Contains host "%"
  then "[" +:+ host +:+ "]:" +:+ port else host +:+ ":" +:+ port.

(** ** crypto/sha256 *)

(** The constants as FIPS 180-4 defines them: the first 32 bits of the
    fractional parts of the cube roots of the first 64 primes, and of the
    square roots of the first eight. *)
Definition is_prime (n : Z) : bool :=
  forallb (fun d => negb (n mod d =? 0)) (seqZ 2 (Z.sqrt n - 1)).
Definition sha_primes : list Z := List.filter is_prime (seqZ 2 310).
(** The integer cube root below [2^n], bit by bit from the top. *)
Fixpoint cube_root (n : nat) (r z : Z) : Z :=
  match n with
  | O => r
  | S n => let r' := r + 2 ^ Z.of_nat n in cube_root n (if r' * r' * r' <=? z then r' else r) z
  end.
Definition sha_K : list Z :=
  Eval vm_compute in ((fun p => u32 (cube_root 36 0 (p * 2 ^ 96))) <$> sha_primes).
Definition sha_H0 : list Z :=
  Eval vm_compute in ((fun p => u32 (Z.sqrt (p * 2 ^ 64))) <$> take 8 sha_primes).

Definition rotr (x n : Z) : Z := Z.lor (Z.shiftr x n) (u32 (Z.shiftl x (32 - n))).
Definition xor3 (a b c : Z) : Z := Z.lxor a (Z.lxor b c).
Definition be_bytes (n : nat) (z : Z) : list Z := (fun i => z / 2 ^ (8 * Z.of_nat i) mod 256) <$> rev (seq 0 n).
Definition sha_pad (m : list Z) : list Z :=
  m ++ [128] ++ replicate (Z.to_nat ((55 - len m) mod 64)) 0 ++ be_bytes 8 (8 * len m).
Fixpoint be_words (b : list Z) : list Z :=
  match b with
  | a0 :: a1 :: a2 :: a3 :: r => a0 * 16777216 + a1 * 65536 + a2 * 256 + a3 :: be_words r
  | _ => []
  end.
(** The message schedule, most recent word first. *)
Definition sha_extend (w : list Z) : list Z :=
  let at_ i := nth i w 0 in
  let s0 := let x := at_ 14%nat in xor3 (rotr x 7) (rotr x 18) (Z.shiftr x 3) in
  let s1 := let x := at_ 1%nat in xor3 (rotr x 17) (rotr x 19) (Z.shiftr x 10) in
  u32 (at_ 15%nat + s0 + at_ 6%nat + s1) :: w.
Definition sha_round (st : list Z) (kw : Z * Z) : list Z :=
  match st with
  | [a; b; c; d; e; f; g; h] =>
      let S1 := xor3 (rotr e 6) (rotr e 11) (rotr e 25) in
      let ch := Z.lxor (Z.land e f) (Z.land (2 ^ 32 - 1 - e) g) in
      let t1 := u32 (h + S1 + ch + fst kw + snd kw) in
      let S0 := xor3 (rotr a 2) (rotr a 13) (rotr a 22) in
      let maj := xor3 (Z.land a b) (Z.land a c) (Z.land b c) in
      [u32 (t1 + u32 (S0 + maj)); a; b; c; u32 (d + t1); e; f; g]
  | _ => st
  end.
Definition sha_block (h : list Z) (blk : list Z) : list Z :=
  let w := rev (Nat.iter 48 sha_extend (rev (be_words blk))) in
  zip_with (fun x y => u32 (x + y)) h (foldl sha_round h (zip sha_K w)).
Fixpoint sha_blocks (fuel : nat) (h m : list Z) : list Z :=
  match fuel with
  | O => h
  | S n => match m with [] => h | _ => sha_blocks n (sha_block h (take 64 m)) (drop 64 m) end
  end.
(** The fuel exceeds the number of 64-byte blocks of the padded message. *)
Definition sha256_Sum256 (b : bytes) : bytes :=
  let m := sha_pad (bv <$> b) in
  chr <$> concat (be_bytes 4 <$> sha_blocks (S (length m)) sha_H0 m).

(** ** hash/fnv *)

Definition fnv32a (b : bytes) : Z :=
  foldl (fun h c => u32 (Z.lxor h (bv c) * 16777619)) 2166136261 b.
Definition fnv64a_from (h0 : Z) (b : list Z) : Z :=
  foldl (fun h c => u64 (Z.lxor h c * 1099511628211)) h0 b.
Definition fnv64a_basis : Z := 14695981039346656037.

(** ** time: RFC 3339 in UTC *)

(** Year, month and day of a count of days since 1970-01-01. *)
Definition civil (days : Z) : Z * Z * Z :=
  let z := days + 719468 in
  let era := z / 146097 in
  let doe := z mod 146097 in
  let yoe := (doe - doe / 1460 + doe / 36524 - doe / 146096) / 365 in
  let doy := doe - (365 * yoe + yoe / 4 - yoe / 100) in
  let mp := (5 * doy + 2) / 153 in
  let d := doy - (153 * mp + 2) / 5 + 1 in
  let m := if mp <? 10 then mp + 3 else mp - 9 in
  (yoe + era * 400 + (if m <=? 2 then 1 else 0), m, d).

Definition pad_to (w : nat) (s : string) : string := str (replicate (w - length (byt s)) (chr 48)) +:+ s.
Definition zpad (w : nat) (z : Z) : string :=
  if z <? 0 then "-" +:+ pad_to w (strconv_Itoa (- z)) else pad_to w (strconv_Itoa z).
Definition rfc3339_seconds (sec : Z) : string :=
  let '(y, m, d) := civil (sec / 86400) in
  let s := sec mod 86400 in
  zpad 4 y +:+ "-" +:+ zpad 2 m +:+ "-" +:+ zpad 2 d +:+ "T"
  +:+ zpad 2 (s / 3600) +:+ ":" +:+ zpad 2 (s / 60 mod 60) +:+ ":" +:+ zpad 2 (s mod 60).
(** [time.UnixMicro(usec).UTC().Format(time.RFC3339)]. *)
Definition format_RFC3339 (usec : Z) : string := rfc3339_seconds (usec / 1000000) +:+ "Z".
(** The fraction of a second without trailing zeros. *)
Fixpoint drop_zeros (b : bytes) : bytes :=
  match b with c :: r => if bv c =? 48 then drop_zeros r else b | [] => [] end.
Definition format_RFC3339Nano (usec : Z) : string :=
  let frac := usec mod 1000000 in
  rfc3339_seconds (usec / 1000000)
  +:+ (if frac =? 0 then "" else "." +:+ str (rev (drop_zeros (rev (byt (zpad 6 frac)))))) +:+ "Z".
