(* ===== verification/Events.v ===== *)
(** * Events: the data that the components exchange

    The structs of internal/event/event.go and internal/intel/types.go, field
    by field.  A pointer is an [option], a slice a [list] (nil and empty are
    not distinguished), a map a [gmap].  Each record has its zero value, from
    which a composite literal that names some of the fields is built. *)

From S2P Require Import Prelude GoStrings.

(** Threat context delivered with an indicator (internal/intel/types.go). *)
Record IntelEvidence := mkIntelEvidence {
  ie_Activity : string;
  ie_ThreatLabels : list string;
  ie_Source : string;
  ie_CrossCheck : string;
  ie_Confidence : string;
  ie_TLP : string;
  ie_MISPEventID : string;
  ie_Narrative : string
}.
#[global] Instance settable_IntelEvidence : Settable IntelEvidence := fun r =>
  mkIntelEvidence (ie_Activity r) (ie_ThreatLabels r) (ie_Source r) (ie_CrossCheck r)
    (ie_Confidence r) (ie_TLP r) (ie_MISPEventID r) (ie_Narrative r).
Definition zero_IntelEvidence : IntelEvidence := mkIntelEvidence "" [] "" "" "" "" "" "".

(** An indicator of compromise. *)
Record ThreatIntel := mkThreatIntel {
  ti_ID : string;
  ti_Type : string;
  ti_Value : string;
  ti_Category : string;
  ti_Severity : string;
  ti_Source : string;
  ti_Description : string;
  ti_Tags : list string;
  ti_Enabled : bool;
  ti_CreatedAt : Z;
  ti_UpdatedAt : Z;
  ti_ExpireAt : Z;
  ti_RecommendedAction : string;
  ti_Evidence : option IntelEvidence
}.
#[global] Instance settable_ThreatIntel : Settable ThreatIntel := fun r =>
  mkThreatIntel (ti_ID r) (ti_Type r) (ti_Value r) (ti_Category r) (ti_Severity r) (ti_Source r)
    (ti_Description r) (ti_Tags r) (ti_Enabled r) (ti_CreatedAt r) (ti_UpdatedAt r) (ti_ExpireAt r)
    (ti_RecommendedAction r) (ti_Evidence r).
Definition zero_ThreatIntel : ThreatIntel := mkThreatIntel "" "" "" "" "" "" "" [] false 0 0 0 ""
  None.

Record DirectionAssessment := mkDirectionAssessment {
  da_MessageDirection : string;
  da_DirectionSource : string;
  da_DirectionConfidence : string;
  da_TransportDirection : string
}.
#[global] Instance settable_DirectionAssessment : Settable DirectionAssessment := fun r =>
  mkDirectionAssessment (da_MessageDirection r) (da_DirectionSource r) (da_DirectionConfidence r)
    (da_TransportDirection r).
Definition zero_DirectionAssessment : DirectionAssessment := mkDirectionAssessment "" "" "" "".

Record AppContext := mkAppContext {
  app_HTTPMethod : string;
  app_HTTPHost : string;
  app_HTTPURL : string;
  app_UserAgent : string;
  app_HTTPHeaders : gmap string string;
  app_HTTPBody : string;
  app_DNSQuery : string;
  app_DNSQType : Z;
  app_DNSAnswers : list string;
  app_TLSSNI : string;
  app_PayloadSample : string;
  app_ICMPSeq : Z
}.
#[global] Instance settable_AppContext : Settable AppContext := fun r =>
  mkAppContext (app_HTTPMethod r) (app_HTTPHost r) (app_HTTPURL r) (app_UserAgent r)
    (app_HTTPHeaders r) (app_HTTPBody r) (app_DNSQuery r) (app_DNSQType r) (app_DNSAnswers r)
    (app_TLSSNI r) (app_PayloadSample r) (app_ICMPSeq r).
Definition zero_AppContext : AppContext := mkAppContext "" "" "" "" ∅ "" "" 0 [] "" "" 0.

Record RawMessageContext := mkRawMessageContext {
  rm_CaptureTime : string;
  rm_CaptureTimeUsec : Z;
  rm_PacketSequence : Z;
  rm_PacketHex : string;
  rm_PayloadHex : string;
  rm_PayloadText : string;
  rm_CapturedLength : Z;
  rm_WireLength : Z;
  rm_CaptureTruncated : bool;
  rm_TCPSeq : Z;
  rm_TCPAck : Z;
  rm_Retransmission : bool
}.
#[global] Instance settable_RawMessageContext : Settable RawMessageContext := fun r =>
  mkRawMessageContext (rm_CaptureTime r) (rm_CaptureTimeUsec r) (rm_PacketSequence r)
    (rm_PacketHex r) (rm_PayloadHex r) (rm_PayloadText r) (rm_CapturedLength r) (rm_WireLength r)
    (rm_CaptureTruncated r) (rm_TCPSeq r) (rm_TCPAck r) (rm_Retransmission r).
Definition zero_RawMessageContext : RawMessageContext := mkRawMessageContext "" 0 0 "" "" "" 0 0
  false 0 0 false.

Record RawPacketContext := mkRawPacketContext {
  rp_SessionStartTime : string;
  rp_SessionStartTimeUsec : Z;
  rp_CaptureTime : string;
  rp_CaptureTimeUsec : Z;
  rp_PacketSequence : Z;
  rp_MessageDirection : string;
  rp_DirectionSource : string;
  rp_DirectionConfidence : string;
  rp_TransportDirection : string;
  rp_PacketHex : string;
  rp_PayloadHex : string;
  rp_PayloadText : string;
  rp_CapturedLength : Z;
  rp_WireLength : Z;
  rp_CaptureTruncated : bool;
  rp_Request : option RawMessageContext;
  rp_Response : option RawMessageContext
}.
#[global] Instance settable_RawPacketContext : Settable RawPacketContext := fun r =>
  mkRawPacketContext (rp_SessionStartTime r) (rp_SessionStartTimeUsec r) (rp_CaptureTime r)
    (rp_CaptureTimeUsec r) (rp_PacketSequence r) (rp_MessageDirection r) (rp_DirectionSource r)
    (rp_DirectionConfidence r) (rp_TransportDirection r) (rp_PacketHex r) (rp_PayloadHex r)
    (rp_PayloadText r) (rp_CapturedLength r) (rp_WireLength r) (rp_CaptureTruncated r)
    (rp_Request r) (rp_Response r).
Definition zero_RawPacketContext : RawPacketContext := mkRawPacketContext "" 0 "" 0 0 "" "" "" "" ""
  "" "" 0 0 false None None.

Record ExchangeMessageContext := mkExchangeMessageContext {
  em_CaptureStartTimeUsec : Z;
  em_CaptureEndTimeUsec : Z;
  em_PacketCount : Z;
  em_CapturedBytes : Z;
  em_WireBytes : Z;
  em_Retransmissions : Z;
  em_ReassembledHex : string;
  em_ReassembledText : string;
  em_Truncated : bool;
  em_CompletenessReason : string;
  em_ReassemblyIncomplete : bool;
  em_Packets : list RawMessageContext
}.
#[global] Instance settable_ExchangeMessageContext : Settable ExchangeMessageContext := fun r =>
  mkExchangeMessageContext (em_CaptureStartTimeUsec r) (em_CaptureEndTimeUsec r) (em_PacketCount r)
    (em_CapturedBytes r) (em_WireBytes r) (em_Retransmissions r) (em_ReassembledHex r)
    (em_ReassembledText r) (em_Truncated r) (em_CompletenessReason r) (em_ReassemblyIncomplete r)
    (em_Packets r).
Definition zero_ExchangeMessageContext : ExchangeMessageContext := mkExchangeMessageContext 0 0 0 0
  0 0 "" "" false "" false [].

Record ExchangeContext := mkExchangeContext {
  ex_Request : option ExchangeMessageContext;
  ex_Response : option ExchangeMessageContext;
  ex_ResponseStatus : string
}.
#[global] Instance settable_ExchangeContext : Settable ExchangeContext := fun r =>
  mkExchangeContext (ex_Request r) (ex_Response r) (ex_ResponseStatus r).
Definition zero_ExchangeContext : ExchangeContext := mkExchangeContext None None "".

Record SessionSummary := mkSessionSummary {
  ss_FirstTimeUsec : Z;
  ss_LastTimeUsec : Z;
  ss_ClientPackets : Z;
  ss_ServerPackets : Z;
  ss_ClientWireBytes : Z;
  ss_ServerWireBytes : Z;
  ss_HitCount : Z;
  ss_Midstream : bool
}.
#[global] Instance settable_SessionSummary : Settable SessionSummary := fun r =>
  mkSessionSummary (ss_FirstTimeUsec r) (ss_LastTimeUsec r) (ss_ClientPackets r)
    (ss_ServerPackets r) (ss_ClientWireBytes r) (ss_ServerWireBytes r) (ss_HitCount r)
    (ss_Midstream r).
Definition zero_SessionSummary : SessionSummary := mkSessionSummary 0 0 0 0 0 0 0 false.

Record AppEndpoint := mkAppEndpoint {
  ae_Method : string;
  ae_Path : string;
  ae_Host : string;
  ae_Count : Z;
  ae_UserAgents : list string;
  ae_SampleBody : string
}.
#[global] Instance settable_AppEndpoint : Settable AppEndpoint := fun r =>
  mkAppEndpoint (ae_Method r) (ae_Path r) (ae_Host r) (ae_Count r) (ae_UserAgents r)
    (ae_SampleBody r).
Definition zero_AppEndpoint : AppEndpoint := mkAppEndpoint "" "" "" 0 [] "".

Record AppStats := mkAppStats {
  as_WindowStartUsec : Z;
  as_WindowEndUsec : Z;
  as_RequestCount : Z;
  as_ResponseCount : Z;
  as_HTTP4xxCount : Z;
  as_HTTP5xxCount : Z;
  as_P95LatencyMs : Z;
  as_MaxLatencyMs : Z;
  as_Endpoints : list AppEndpoint
}.
#[global] Instance settable_AppStats : Settable AppStats := fun r =>
  mkAppStats (as_WindowStartUsec r) (as_WindowEndUsec r) (as_RequestCount r) (as_ResponseCount r)
    (as_HTTP4xxCount r) (as_HTTP5xxCount r) (as_P95LatencyMs r) (as_MaxLatencyMs r) (as_Endpoints r).
Definition zero_AppStats : AppStats := mkAppStats 0 0 0 0 0 0 0 0 [].

Record PayloadFeature := mkPayloadFeature {
  pl_Name : string;
  pl_Count : Z;
  pl_TotalRequests : Z;
  pl_Sample : string;
  pl_Confidence : Z;
  pl_EvidenceRef : string
}.
#[global] Instance settable_PayloadFeature : Settable PayloadFeature := fun r =>
  mkPayloadFeature (pl_Name r) (pl_Count r) (pl_TotalRequests r) (pl_Sample r) (pl_Confidence r)
    (pl_EvidenceRef r).
Definition zero_PayloadFeature : PayloadFeature := mkPayloadFeature "" 0 0 "" 0 "".

Record SensitiveKeyword := mkSensitiveKeyword {
  sk_Keyword : string;
  sk_Count : Z;
  sk_Sample : string
}.
#[global] Instance settable_SensitiveKeyword : Settable SensitiveKeyword := fun r =>
  mkSensitiveKeyword (sk_Keyword r) (sk_Count r) (sk_Sample r).
Definition zero_SensitiveKeyword : SensitiveKeyword := mkSensitiveKeyword "" 0 "".

Record DataExfil := mkDataExfil {
  de_TotalWireBytes : Z;
  de_TotalPackets : Z;
  de_Dest : string;
  de_DestPort : Z;
  de_Encrypted : bool;
  de_SensitiveKeywords : list SensitiveKeyword;
  de_ObservedEntries : Z
}.
#[global] Instance settable_DataExfil : Settable DataExfil := fun r =>
  mkDataExfil (de_TotalWireBytes r) (de_TotalPackets r) (de_Dest r) (de_DestPort r) (de_Encrypted r)
    (de_SensitiveKeywords r) (de_ObservedEntries r).
Definition zero_DataExfil : DataExfil := mkDataExfil 0 0 "" 0 false [] 0.

Record IOCStat := mkIOCStat {
  is_IOCValue : string;
  is_IOCType : string;
  is_HitCount : Z;
  is_FirstSeenUsec : Z;
  is_LastSeenUsec : Z;
  is_ThreatSource : string;
  is_Confidence : string;
  is_MatchedRules : list string;
  is_ExpireAtUsec : Z
}.
#[global] Instance settable_IOCStat : Settable IOCStat := fun r =>
  mkIOCStat (is_IOCValue r) (is_IOCType r) (is_HitCount r) (is_FirstSeenUsec r) (is_LastSeenUsec r)
    (is_ThreatSource r) (is_Confidence r) (is_MatchedRules r) (is_ExpireAtUsec r).
Definition zero_IOCStat : IOCStat := mkIOCStat "" "" 0 0 0 "" "" [] 0.

Record RuleStat := mkRuleStat {
  rs_RuleID : string;
  rs_RuleName : string;
  rs_HitCount : Z;
  rs_FirstSeenUsec : Z;
  rs_LastSeenUsec : Z;
  rs_Severity : string;
  rs_EvidenceRef : string
}.
#[global] Instance settable_RuleStat : Settable RuleStat := fun r =>
  mkRuleStat (rs_RuleID r) (rs_RuleName r) (rs_HitCount r) (rs_FirstSeenUsec r) (rs_LastSeenUsec r)
    (rs_Severity r) (rs_EvidenceRef r).
Definition zero_RuleStat : RuleStat := mkRuleStat "" "" 0 0 0 "" "".

Record ImpactHints := mkImpactHints {
  ih_ErrorRatePercent : Z;
  ih_LatencyDegraded : bool;
  ih_LatencyBaselineMs : Z;
  ih_LatencyObservedMs : Z;
  ih_AffectedEntries : Z;
  ih_ObservedIntent : string;
  ih_IntentBasis : string
}.
#[global] Instance settable_ImpactHints : Settable ImpactHints := fun r =>
  mkImpactHints (ih_ErrorRatePercent r) (ih_LatencyDegraded r) (ih_LatencyBaselineMs r)
    (ih_LatencyObservedMs r) (ih_AffectedEntries r) (ih_ObservedIntent r) (ih_IntentBasis r).
Definition zero_ImpactHints : ImpactHints := mkImpactHints 0 false 0 0 0 "" "".

Record ActionHint := mkActionHint {
  ah_Action : string;
  ah_Priority : string;
  ah_Reason : string;
  ah_EvidenceRef : string
}.
#[global] Instance settable_ActionHint : Settable ActionHint := fun r =>
  mkActionHint (ah_Action r) (ah_Priority r) (ah_Reason r) (ah_EvidenceRef r).
Definition zero_ActionHint : ActionHint := mkActionHint "" "" "" "".

Record EvidenceFile := mkEvidenceFile {
  ef_ID : string;
  ef_Name : string;
  ef_Type : string;
  ef_PathRef : string;
  ef_SHA256 : string;
  ef_Size : Z;
  ef_Description : string
}.
#[global] Instance settable_EvidenceFile : Settable EvidenceFile := fun r =>
  mkEvidenceFile (ef_ID r) (ef_Name r) (ef_Type r) (ef_PathRef r) (ef_SHA256 r) (ef_Size r)
    (ef_Description r).
Definition zero_EvidenceFile : EvidenceFile := mkEvidenceFile "" "" "" "" "" 0 "".

Record SeverityBasis := mkSeverityBasis {
  sb_Score : Z;
  sb_Reasons : list string
}.
#[global] Instance settable_SeverityBasis : Settable SeverityBasis := fun r =>
  mkSeverityBasis (sb_Score r) (sb_Reasons r).
Definition zero_SeverityBasis : SeverityBasis := mkSeverityBasis 0 [].

Record ThreatEvent := mkThreatEvent {
  ev_EventID : string;
  ev_DeviceID : string;
  ev_EventTime : Z;
  ev_EventType : string;
  ev_EventName : string;
  ev_Severity : string;
  ev_Model : string;
  ev_SrcIP : string;
  ev_SrcPort : Z;
  ev_DstIP : string;
  ev_DstPort : Z;
  ev_Proto : string;
  ev_Direction : string;
  ev_ThreatSource : string;
  ev_IOCType : string;
  ev_IOCValue : string;
  ev_IOCCategory : string;
  ev_IOCID : string;
  ev_IOCSource : string;
  ev_IOCTags : list string;
  ev_IOCDescription : string;
  ev_IOCExpireAt : Z;
  ev_RecommendedAction : string;
  ev_IOCEvidence : option IntelEvidence;
  ev_RuleID : string;
  ev_ThreatIndex : string;
  ev_FirstTime : Z;
  ev_DurationMs : Z;
  ev_Flows : Z;
  ev_Packets : Z;
  ev_Bytes : Z;
  ev_WireBytes : Z;
  ev_VolumeRole : string;
  ev_App : option AppContext;
  ev_RawPacket : option RawPacketContext;
  ev_SessionID : string;
  ev_TransactionID : string;
  ev_ContextRevision : Z;
  ev_ContextFinal : bool;
  ev_Exchange : option ExchangeContext;
  ev_SessionSummary : option SessionSummary;
  ev_LocalHitCount : Z;
  ev_LocalWindowSec : Z;
  ev_LocalFirstSeen : Z;
  ev_LocalScope : string;
  ev_EvidenceFile : string;
  ev_PacketTimeUsec : Z;
  ev_RawFeature : gmap string string;
  ev_SchemaVersion : string;
  ev_SensorVersion : string;
  ev_Protocol : string;
  ev_OccurrenceTime : string;
  ev_AppStats : option AppStats;
  ev_PayloadFeatures : list PayloadFeature;
  ev_DataExfil : option DataExfil;
  ev_IOCStats : list IOCStat;
  ev_RuleStats : list RuleStat;
  ev_ImpactHints : option ImpactHints;
  ev_ActionHints : list ActionHint;
  ev_EvidenceFiles : list EvidenceFile;
  ev_SeverityBasis : option SeverityBasis;
  ev_Service : string
}.
#[global] Instance settable_ThreatEvent : Settable ThreatEvent := fun r =>
  mkThreatEvent (ev_EventID r) (ev_DeviceID r) (ev_EventTime r) (ev_EventType r) (ev_EventName r)
    (ev_Severity r) (ev_Model r) (ev_SrcIP r) (ev_SrcPort r) (ev_DstIP r) (ev_DstPort r)
    (ev_Proto r) (ev_Direction r) (ev_ThreatSource r) (ev_IOCType r) (ev_IOCValue r)
    (ev_IOCCategory r) (ev_IOCID r) (ev_IOCSource r) (ev_IOCTags r) (ev_IOCDescription r)
    (ev_IOCExpireAt r) (ev_RecommendedAction r) (ev_IOCEvidence r) (ev_RuleID r) (ev_ThreatIndex r)
    (ev_FirstTime r) (ev_DurationMs r) (ev_Flows r) (ev_Packets r) (ev_Bytes r) (ev_WireBytes r)
    (ev_VolumeRole r) (ev_App r) (ev_RawPacket r) (ev_SessionID r) (ev_TransactionID r)
    (ev_ContextRevision r) (ev_ContextFinal r) (ev_Exchange r) (ev_SessionSummary r)
    (ev_LocalHitCount r) (ev_LocalWindowSec r) (ev_LocalFirstSeen r) (ev_LocalScope r)
    (ev_EvidenceFile r) (ev_PacketTimeUsec r) (ev_RawFeature r) (ev_SchemaVersion r)
    (ev_SensorVersion r) (ev_Protocol r) (ev_OccurrenceTime r) (ev_AppStats r)
    (ev_PayloadFeatures r) (ev_DataExfil r) (ev_IOCStats r) (ev_RuleStats r) (ev_ImpactHints r)
    (ev_ActionHints r) (ev_EvidenceFiles r) (ev_SeverityBasis r) (ev_Service r).
Definition zero_ThreatEvent : ThreatEvent := mkThreatEvent "" "" 0 "" "" "" "" "" 0 "" 0 "" "" "" ""
  "" "" "" "" [] "" 0 "" None "" "" 0 0 0 0 0 0 "" None None "" "" 0 false None None 0 0 0 "" "" 0 ∅
  "" "" "" "" None [] None [] [] None [] [] None "".

(** The payload layout written to [ev_SchemaVersion]. *)
Definition SchemaVersion : string := "1.7".
