(* ===== verification/Parser.v ===== *)
(** * Parser: from a decoded packet to a [PacketFeature]

    internal/parser/parser.go.  The layer decoders of gopacket are third-party
    code: a [Packet] is what they return, and the decoder of a DNS message is
    the parameter [GoPacket].  Index and slice expressions on payload bytes are
    partial ([None] is a run-time panic), so that the absence of panics is a
    theorem and not a feature of the model. *)

From S2P Require Import Prelude GoStrings GoNet.

(** ** Decoded packets *)

Record DNSQuestion := mkDNSQuestion { q_Name : bytes; q_Type : Z }.
Record DNSAnswer := mkDNSAnswer { a_IP : option (list Z); a_CNAME : bytes }.
Record DNS := mkDNS { dns_QR : bool; dns_Questions : list DNSQuestion; dns_Answers : list DNSAnswer }.

Record TCPLayer := mkTCP {
  tcp_SrcPort : Z; tcp_DstPort : Z; tcp_Seq : Z; tcp_Ack : Z;
  tcp_SYN : bool; tcp_ACK : bool; tcp_FIN : bool; tcp_RST : bool; tcp_Payload : bytes
}.
Record UDPLayer := mkUDP { udp_SrcPort : Z; udp_DstPort : Z; udp_Payload : bytes }.
Record IPLayer := mkIP { ip_Src : list Z; ip_Dst : list Z; ip_Proto : Z }.

(** One decoded layer, as the loop over [packet.Layers()] sees it: the length
    that an IP header declares and the size of the layer's own contents. *)
Inductive Layer :=
| LIPv4 (length contents : Z)
| LIPv6 (length contents : Z)
| LOther (contents : Z).

Record Packet := mkPacket {
  pk_Data : bytes;
  pk_Timestamp : option Z;   (* microseconds; [None] is the zero time *)
  pk_Length : Z;
  pk_Layers : list Layer;
  pk_IPv4 : option IPLayer;
  pk_IPv6 : option IPLayer;
  pk_TCP : option TCPLayer;
  pk_UDP : option UDPLayer;
  pk_ICMPv4 : option bytes;  (* the payload *)
  pk_DNS : option DNS;
  pk_HasLink : bool
}.

(** [dns.DecodeFromBytes]; [None] is an error. *)
Class GoPacket := { dns_Decode : bytes -> option DNS }.

(** What the node extracts from one packet (the reference to the gopacket object is left out). *)
Record PacketFeature := mkPacketFeature {
  pf_PacketTimeUsec : Z;
  pf_WireLen : Z;
  pf_CapturedLen : Z;
  pf_SrcIP : string;
  pf_SrcPort : Z;
  pf_DstIP : string;
  pf_DstPort : Z;
  pf_Proto : string;
  pf_HTTPHost : string;
  pf_HTTPURL : string;
  pf_HTTPMethod : string;
  pf_UserAgent : string;
  pf_HTTPHeader : bytes;
  pf_HTTPBody : bytes;
  pf_HTTPHeaders : gmap string string;
  pf_HTTPBodySample : string;
  pf_HTTPStatusCode : Z;
  pf_DNSQuery : string;
  pf_DNSQType : Z;
  pf_DNSAnswers : list string;
  pf_SNI : string;
  pf_ICMPPayloadLen : Z;
  pf_ICMPSeq : Z;
  pf_Payload : bytes;
  pf_PayloadSample : string;
  pf_RawPacket : bytes;
  pf_MessageDirection : string;
  pf_TCPSeq : Z;
  pf_TCPAck : Z;
  pf_TCPSYN : bool;
  pf_TCPACK : bool;
  pf_TCPFIN : bool;
  pf_TCPRST : bool;
  pf_EvidenceFile : string
}.
#[global] Instance settable_PacketFeature : Settable PacketFeature := fun r =>
  mkPacketFeature (pf_PacketTimeUsec r) (pf_WireLen r) (pf_CapturedLen r) (pf_SrcIP r)
    (pf_SrcPort r) (pf_DstIP r) (pf_DstPort r) (pf_Proto r) (pf_HTTPHost r) (pf_HTTPURL r)
    (pf_HTTPMethod r) (pf_UserAgent r) (pf_HTTPHeader r) (pf_HTTPBody r) (pf_HTTPHeaders r)
    (pf_HTTPBodySample r) (pf_HTTPStatusCode r) (pf_DNSQuery r) (pf_DNSQType r) (pf_DNSAnswers r)
    (pf_SNI r) (pf_ICMPPayloadLen r) (pf_ICMPSeq r) (pf_Payload r) (pf_PayloadSample r)
    (pf_RawPacket r) (pf_MessageDirection r) (pf_TCPSeq r) (pf_TCPAck r) (pf_TCPSYN r) (pf_TCPACK r)
    (pf_TCPFIN r) (pf_TCPRST r) (pf_EvidenceFile r).
Definition zero_PacketFeature : PacketFeature := mkPacketFeature 0 0 0 "" 0 "" 0 "" "" "" "" "" []
  [] ∅ "" 0 "" 0 [] "" 0 0 [] "" [] "" 0 0 false false false false "".

(** ** Text views of a payload *)

Definition printable (b : bytes) : bool :=
  utf8_Valid b &&
  forallb (fun c => negb ((bv c =? 0) || (bv c <? 9) || ((13 <? bv c) && (bv c <? 32)))) b.

Definition samplePayload (payload : bytes) : string :=
  let payload := if 64 <? len payload then take 64 payload else payload in
  if printable payload then str payload else hex_EncodeToString payload.

Definition PayloadText (payload : bytes) : string :=
  if (len payload =? 0) || negb (printable payload) then "" else str payload.

Definition IsIP (s : string) : bool := bool_decide (is_Some (net_ParseIP s)).
Definition Uint16 (s : string) : Z := u16 (strconv_ParseUint (byt s) 16).

(** ** TLS ClientHello *)

(** [int(hi)<<8 | int(lo)]. *)
Definition be16 (hi lo : ascii) : Z := Z.lor (Z.shiftl (bv hi) 8) (bv lo).

Definition no_sni : string * bool := ("", false).

(** The entries of a server_name list; the first host_name wins. *)
Fixpoint sni_names (fuel : nat) (ext : bytes) : option (string * bool) :=
  if 3 <=? len ext then
    match fuel with
    | O => None
    | S n =>
        nameType ← index ext 0;
        hi ← index ext 1;
        lo ← index ext 2;
        let nameLen := be16 hi lo in
        ext ← slice_from ext 3;
        if len ext <? nameLen then Some no_sni
        else
          name ← slice_to ext nameLen;
          ext ← slice_from ext nameLen;
          if (bv nameType =? 0) && (0 <? nameLen)
          then Some (strings_TrimSuffix (str name) ".", true)
          else sni_names n ext
    end
  else Some no_sni.

(** The extensions; every one but server_name is skipped. *)
Fixpoint sni_extensions (fuel : nat) (b : bytes) : option (string * bool) :=
  if 4 <=? len b then
    match fuel with
    | O => None
    | S n =>
        t0 ← index b 0; t1 ← index b 1;
        l0 ← index b 2; l1 ← index b 3;
        let extType := be16 t0 t1 in
        let extLen := be16 l0 l1 in
        b ← slice_from b 4;
        if len b <? extLen then Some no_sni
        else
          ext ← slice_to b extLen;
          b ← slice_from b extLen;
          if negb (extType =? 0) then sni_extensions n b
          else if len ext <? 2 then Some no_sni
          else
            h ← index ext 0; l ← index ext 1;
            let listLen := be16 h l in
            ext ← slice_from ext 2;
            ext ← (if listLen <? len ext then slice_to ext listLen else Some ext);
            sni_names (length ext) ext
    end
  else Some no_sni.

Definition tlsClientHelloSNI (p : bytes) : option (string * bool) :=
  if len p <? 5 then Some no_sni else
  c ← index p 0;
  if negb (bv c =? 22) then Some no_sni else
  hs ← slice_from p 5;
  if len hs <? 4 then Some no_sni else
  c ← index hs 0;
  if negb (bv c =? 1) then Some no_sni else
  b ← slice_from hs 4;
  if len b <? 34 then Some no_sni else
  b ← slice_from b 34;
  if len b <? 1 then Some no_sni else
  c ← index b 0;
  if len b <? 1 + bv c then Some no_sni else
  b ← slice_from b (1 + bv c);
  if len b <? 2 then Some no_sni else
  h ← index b 0; l ← index b 1;
  let csLen := be16 h l in
  if len b <? 2 + csLen then Some no_sni else
  b ← slice_from b (2 + csLen);
  if len b <? 1 then Some no_sni else
  c ← index b 0;
  if len b <? 1 + bv c then Some no_sni else
  b ← slice_from b (1 + bv c);
  if len b <? 2 then Some no_sni else
  h ← index b 0; l ← index b 1;
  let extTotal := be16 h l in
  b ← slice_from b 2;
  b ← (if extTotal <? len b then slice_to b extTotal else Some b);
  sni_extensions (length b) b.

Definition parseTLS (pf : PacketFeature) : option PacketFeature :=
  '(host, ok) ← tlsClientHelloSNI (pf_Payload pf);
  Some (if ok : bool then pf <| pf_SNI := host |> <| pf_MessageDirection := "request" |> else pf).

(** ** HTTP *)

Definition CRLF : bytes := [chr 13; chr 10].

(** The request headers that may leave the node. *)
Definition safeHTTPHeaders : list string :=
  ["host"; "referer"; "content-type"; "content-length"; "x-forwarded-for"; "accept";
   "accept-language"; "origin"; "x-requested-with"].

Definition httpMethods : list string :=
  ["GET"; "POST"; "PUT"; "DELETE"; "HEAD"; "PATCH"; "OPTIONS"].

Definition httpRequestLine (payload : bytes) : string * string * bool :=
  let '(line, _, _) := bytes_Cut payload CRLF in
  match strings_Fields (str line) with
  | m :: p :: _ => if bool_decide (m ∈ httpMethods) then (m, p, true) else ("", "", false)
  | _ => ("", "", false)
  end.

Section http.
Context `{GoUnicode} `{GoPacket}.

(** One header line; [path] is the request target. *)
Definition parseHTTPLine (path : string) (pf : PacketFeature) (line : string) : PacketFeature :=
  let '(k, v, ok) := strings_Cut line ":" in
  if negb ok then pf
  else
    let key := strings_ToLower (strings_TrimSpace k) in
    let val := strings_TrimSpace v in
    let pf :=
      if seqb key "host" then
        let pf := pf <| pf_HTTPHost := val |> in
        if negb (strings_HasPrefix (pf_HTTPURL pf) "http://")
           && negb (strings_HasPrefix (pf_HTTPURL pf) "https://")
        then pf <| pf_HTTPURL := "http://" +:+ pf_HTTPHost pf +:+ path |> else pf
      else if seqb key "user-agent" then pf <| pf_UserAgent := val |>
      else pf in
    if bool_decide (key ∈ safeHTTPHeaders)
    then pf <| pf_HTTPHeaders ::= <[key := val]> |> else pf.

Definition parseHTTP (pf : PacketFeature) : option PacketFeature :=
  let payload := pf_Payload pf in
  if len payload =? 0 then Some pf
  else if bytes_HasPrefix payload (byt "HTTP/") then
    let pf := pf <| pf_MessageDirection := "response" |> in
    if 13 <=? len payload then
      c ← index payload 9;
      if bv c =? 32 then
        s ← slice payload 9 12;
        let n := strconv_ParseUint s 16 in
        Some (if 100 <=? n then pf <| pf_HTTPStatusCode := u16 n |> else pf)
      else Some pf
    else Some pf
  else
    let '(method, path, ok) := httpRequestLine payload in
    if negb ok then Some pf
    else
      let pf := pf <| pf_MessageDirection := "request" |> <| pf_HTTPMethod := method |>
                   <| pf_HTTPURL := path |> in
      let '(header, body, _) := bytes_Cut payload (CRLF ++ CRLF) in
      let pf := pf <| pf_HTTPHeader := header |> in
      let pf := if 0 <? len body
                then pf <| pf_HTTPBody := body |> <| pf_HTTPBodySample := samplePayload body |> else pf in
      Some (foldl (parseHTTPLine path) pf (strings_Split (str header) (str CRLF))).

(** ** DNS *)

Definition fillDNS (dns : DNS) (pf : PacketFeature) : PacketFeature :=
  let pf := pf <| pf_MessageDirection := if dns_QR dns then "response" else "request" |> in
  let pf := match dns_Questions dns with
            | q :: _ => pf <| pf_DNSQuery := strings_TrimSuffix (str (q_Name q)) "." |>
                           <| pf_DNSQType := u16 (q_Type q) |>
            | [] => pf
            end in
  foldl (fun pf a =>
    match a_IP a with
    | Some ip => pf <| pf_DNSAnswers ::= fun l => l ++ [IP_String ip] |>
    | None => if 0 <? len (a_CNAME a)
              then pf <| pf_DNSAnswers ::= fun l => l ++ [strings_TrimSuffix (str (a_CNAME a)) "."] |>
              else pf
    end) pf (dns_Answers dns).

Definition parseDNS (packet : Packet) (pf : PacketFeature) : PacketFeature :=
  match pk_DNS packet with Some dns => fillDNS dns pf | None => pf end.

Definition parseDNSOverTCP (pf : PacketFeature) : option PacketFeature :=
  let p := pf_Payload pf in
  if len p <? 2 then Some pf else
  h ← index p 0; l ← index p 1;
  let n := be16 h l in
  if (n <=? 0) || (len p <? 2 + n) then Some pf
  else
    msg ← slice p 2 (2 + n);
    Some (match dns_Decode msg with Some dns => fillDNS dns pf | None => pf end).

(** ** Parse *)

(** The lower bound that the network headers give for the wire length; the
    loop stops at the first layer that declares one. *)
Fixpoint declared_wire (prefix : Z) (ls : list Layer) : Z :=
  match ls with
  | [] => 0
  | l :: r =>
      let '(declared, contents) :=
        match l with
        | LIPv4 n c => (n, c)
        | LIPv6 n c => (if 0 <? n then 40 + n else 0, c)
        | LOther c => (0, c)
        end in
      if 0 <? declared then u32 (prefix + declared) else declared_wire (prefix + contents) r
  end.

Definition parseTCP (tcp : TCPLayer) (pf : PacketFeature) : option PacketFeature :=
  let pf := pf <| pf_Proto := "tcp" |>
    <| pf_SrcPort := tcp_SrcPort tcp |> <| pf_DstPort := tcp_DstPort tcp |>
    <| pf_TCPSeq := tcp_Seq tcp |> <| pf_TCPAck := tcp_Ack tcp |>
    <| pf_TCPSYN := tcp_SYN tcp |> <| pf_TCPACK := tcp_ACK tcp |>
    <| pf_TCPFIN := tcp_FIN tcp |> <| pf_TCPRST := tcp_RST tcp |>
    <| pf_Payload := tcp_Payload tcp |> in
  let pf := if 0 <? len (pf_Payload pf)
            then pf <| pf_PayloadSample := samplePayload (pf_Payload pf) |> else pf in
  pf ← parseHTTP pf;
  pf ← parseTLS pf;
  let pf :=
    if seqb (pf_MessageDirection pf) "" then
      if tcp_SYN tcp && negb (tcp_ACK tcp) then pf <| pf_MessageDirection := "request" |>
      else if tcp_SYN tcp && tcp_ACK tcp then pf <| pf_MessageDirection := "response" |>
      else pf
    else pf in
  if (pf_SrcPort pf =? 53) || (pf_DstPort pf =? 53) then parseDNSOverTCP pf else Some pf.

Definition parseICMP (icmp : bytes) (pf : PacketFeature) : option PacketFeature :=
  let pf := pf <| pf_Proto := "icmp" |> <| pf_Payload := icmp |>
               <| pf_ICMPPayloadLen := u32 (len icmp) |> in
  if 6 <=? len icmp then
    h ← index icmp 4; l ← index icmp 5;
    Some (pf <| pf_ICMPSeq := be16 h l |>)
  else Some pf.

Definition ErrNoNetwork : string := "packet has no ip network layer".

(** [now] is the wall clock in microseconds.  [None] is a panic inside the
    function, before the deferred recovery. *)
Definition Parse_body (packet : Packet) (now : Z) : option (PacketFeature * option string) :=
  let raw := pk_Data packet in
  let pf := zero_PacketFeature <| pf_RawPacket := raw |> <| pf_CapturedLen := u32 (len raw) |> in
  let pf := pf <| pf_PacketTimeUsec := u64 (default now (pk_Timestamp packet)) |> in
  let pf := pf <| pf_WireLen := if 0 <? pk_Length packet then u32 (pk_Length packet) else u32 (len raw) |> in
  let wire := declared_wire 0 (pk_Layers packet) in
  let pf := if pf_WireLen pf <? wire then pf <| pf_WireLen := wire |> else pf in
  match (match pk_IPv4 packet with Some ip => Some ip | None => pk_IPv6 packet end) with
  | None => Some (pf, Some ErrNoNetwork)
  | Some ip =>
      let pf := pf <| pf_SrcIP := IP_String (ip_Src ip) |> <| pf_DstIP := IP_String (ip_Dst ip) |> in
      match pk_TCP packet with
      | Some tcp => pf ← parseTCP tcp pf; Some (pf, None)
      | None =>
          match pk_UDP packet with
          | Some udp =>
              let pf := pf <| pf_Proto := "udp" |> <| pf_SrcPort := udp_SrcPort udp |>
                           <| pf_DstPort := udp_DstPort udp |> <| pf_Payload := udp_Payload udp |> in
              Some (parseDNS packet pf, None)
          | None =>
              pf ← match pk_ICMPv4 packet with Some icmp => parseICMP icmp pf | None => Some pf end;
              Some (if 0 <? len (pf_Payload pf)
                    then pf <| pf_PayloadSample := samplePayload (pf_Payload pf) |> else pf, None)
          end
      end
  end.

(** A panic of a layer decoder ([None] for the packet) or of the body is
    recovered: the packet is dropped with an error. *)
Definition Parse (packet : option Packet) (now : Z) : PacketFeature * option string :=
  match packet ≫= (fun p => Parse_body p now) with
  | Some r => r
  | None => (zero_PacketFeature, Some "decode panic")
  end.
End http.

(** ** Lemmas *)

Lemma be16_value h l : be16 h l = bv h * 256 + bv l.
Proof.
  unfold be16. pose proof (bv_range h). pose proof (bv_range l).
  rewrite Z.shiftl_mul_pow2 by lia. change (2 ^ 8) with 256.
  rewrite <-Z.add_lor_land, Z.land_comm.
  assert (Z.land (bv l) (bv h * 256) = 0) as ->; [|lia].
  apply Z.bits_inj'. intros n Hn. rewrite Z.land_spec, Z.bits_0.
  destruct (Z.ltb_spec n 8).
  - change 256 with (2 ^ 8). rewrite Z.mul_pow2_bits_low by done. apply andb_false_r.
  - rewrite Z.bits_above_log2; [done|lia|].
    destruct (Z.eq_dec (bv l) 0) as [->|]; [change (Z.log2 0) with 0; lia|].
    apply Z.log2_lt_pow2; [lia|]. apply Z.lt_le_trans with (2 ^ 8); [lia|].
    apply Z.pow_le_mono_r; lia.
Qed.
Lemma be16_range h l : 0 <= be16 h l < 65536.
Proof. rewrite be16_value. pose proof (bv_range h). pose proof (bv_range l). lia. Qed.

Ltac be16_facts :=
  repeat match goal with
  | |- context [be16 ?h ?l] =>
      lazymatch goal with
      | _ : 0 <= be16 h l < 65536 |- _ => fail
      | _ => pose proof (be16_range h l)
      end
  | |- context [bv ?c] =>
      lazymatch goal with
      | _ : 0 <= bv c < 256 |- _ => fail
      | _ => pose proof (bv_range c)
      end
  end.
Ltac total_step := be16_facts; first [slice_step | case_if; [by eauto|] | case_if].

Lemma sni_names_total fuel ext : len ext <= Z.of_nat fuel -> exists r, sni_names fuel ext = Some r.
Proof.
  revert ext; induction fuel as [|n IH]; intros ext Hf; cbn [sni_names].
  - case_if; [lia|eauto].
  - case_if; [|by eauto]. do 4 total_step. case_if; [by eauto|]. do 2 total_step.
    case_if; [by eauto|]. apply IH. lia.
Qed.

Lemma sni_extensions_total fuel b : len b <= Z.of_nat fuel -> exists r, sni_extensions fuel b = Some r.
Proof.
  revert b; induction fuel as [|n IH]; intros b Hf; cbn [sni_extensions].
  - case_if; [lia|eauto].
  - case_if; [|by eauto]. do 5 total_step. case_if; [by eauto|]. do 2 total_step.
    case_if; [apply IH; lia|]. case_if; [by eauto|]. do 3 total_step.
    case_if; [slice_step|simpl]; apply sni_names_total; unfold len; lia.
Qed.

Lemma tlsClientHelloSNI_total (p : bytes) : exists r, tlsClientHelloSNI p = Some r.
Proof.
  unfold tlsClientHelloSNI. repeat (total_step; simpl).
  all: try (apply sni_extensions_total; unfold len; lia).
Qed.

(** *** The wire format of a ClientHello *)

(** A two-byte big-endian length. *)
Definition enc16 (n : Z) : bytes := [chr (n / 256); chr (n mod 256)].
Definition raw_extension (e : Z * bytes) : bytes := enc16 (fst e) ++ enc16 (len (snd e)) ++ snd e.
Definition host_entry (host : bytes) : bytes := chr 0 :: enc16 (len host) ++ host.
Definition server_name (host : bytes) : Z * bytes :=
  (0, enc16 (len (host_entry host)) ++ host_entry host).

(** A ClientHello whose server_name extension comes after the extensions
    [before]; [rec4], [hs3] and [vr34] are the record version and length, the
    handshake length, and the client version with its random. *)
Record ClientHello := mkClientHello {
  ch_rec4 : bytes; ch_hs3 : bytes; ch_vr34 : bytes; ch_sid : bytes; ch_suites : bytes;
  ch_comp : bytes; ch_before : list (Z * bytes); ch_host : bytes; ch_after : bytes; ch_tail : bytes
}.
Definition ch_extensions (c : ClientHello) : bytes :=
  concat (map raw_extension (ch_before c)) ++ raw_extension (server_name (ch_host c)) ++ ch_after c.
Definition encodeClientHello (c : ClientHello) : bytes :=
  (chr 22 :: ch_rec4 c) ++ (chr 1 :: ch_hs3 c) ++ ch_vr34 c
  ++ (chr (len (ch_sid c)) :: ch_sid c)
  ++ (enc16 (len (ch_suites c)) ++ ch_suites c)
  ++ (chr (len (ch_comp c)) :: ch_comp c)
  ++ enc16 (len (ch_extensions c)) ++ ch_extensions c ++ ch_tail c.
Record ClientHello_wf (c : ClientHello) : Prop := {
  wf_rec4 : len (ch_rec4 c) = 4;
  wf_hs3 : len (ch_hs3 c) = 3;
  wf_vr34 : len (ch_vr34 c) = 34;
  wf_sid : len (ch_sid c) < 256;
  wf_suites : len (ch_suites c) < 65536;
  wf_comp : len (ch_comp c) < 256;
  wf_before : Forall (fun e => 0 < fst e < 65536 /\ len (snd e) < 65536) (ch_before c);
  wf_host : 0 < len (ch_host c) < 65536 - 5;
  wf_exts : len (ch_extensions c) < 65536
}.

Lemma be16_enc16 n : 0 <= n < 65536 -> be16 (chr (n / 256)) (chr (n mod 256)) = n.
Proof.
  intros Hn. rewrite be16_value, !bv_chr.
  - pose proof (Z.div_mod n 256). lia.
  - apply Z.mod_pos_bound; lia.
  - split; [apply Z.div_pos; lia|apply Z.div_lt_upper_bound; lia].
Qed.

Lemma index_0 {A} (x : A) l : index (x :: l) 0 = Some x.
Proof. done. Qed.
Lemma enc16_0 n r : index (enc16 n ++ r) 0 = Some (chr (n / 256)).
Proof. done. Qed.
Lemma enc16_1 n r : index (enc16 n ++ r) 1 = Some (chr (n mod 256)).
Proof. done. Qed.
Lemma enc16_2 n m r : index (enc16 n ++ enc16 m ++ r) 2 = Some (chr (m / 256)).
Proof. done. Qed.
Lemma enc16_3 n m r : index (enc16 n ++ enc16 m ++ r) 3 = Some (chr (m mod 256)).
Proof. done. Qed.
Lemma index_0_app {A} (x : A) l r : index ((x :: l) ++ r) 0 = Some x.
Proof. done. Qed.
Lemma enc16_0_app n a r : index ((enc16 n ++ a) ++ r) 0 = Some (chr (n / 256)).
Proof. done. Qed.
Lemma enc16_1_app n a r : index ((enc16 n ++ a) ++ r) 1 = Some (chr (n mod 256)).
Proof. done. Qed.
Lemma len_enc16 n : len (enc16 n) = 2.
Proof. done. Qed.
Hint Rewrite len_enc16 : ta.

(** Discharge a length test whose outcome the lengths of the parts fix. *)
Ltac len_facts :=
  autorewrite with ta in *;
  repeat match goal with
  | |- context [len ?l] =>
      lazymatch goal with _ : 0 <= len l |- _ => fail | _ => pose proof (len_nonneg l) end
  end.
Ltac test_false :=
  match goal with
  | |- context [if ?a <? ?b then _ else _] =>
      replace (a <? b) with false by (symmetry; apply Z.ltb_ge; len_facts; lia)
  end.
Ltac test_true_le :=
  match goal with
  | |- context [if ?a <=? ?b then _ else _] =>
      replace (a <=? b) with true by (symmetry; apply Z.leb_le; len_facts; lia)
  end.

Lemma sni_names_host n host :
  0 < len host < 65536 ->
  sni_names (S n) (host_entry host) = Some (strings_TrimSuffix (str host) ".", true).
Proof.
  intros Hh. cbn [sni_names]. unfold host_entry. test_true_le.
  rewrite index_0. msimp.
  change (index (chr 0 :: enc16 (len host) ++ host) 1) with (Some (chr (len host / 256))).
  change (index (chr 0 :: enc16 (len host) ++ host) 2) with (Some (chr (len host mod 256))).
  msimp. rewrite be16_enc16 by lia.
  rewrite (slice_from_app (chr 0 :: enc16 (len host)) host) by done. msimp.
  rewrite Z.ltb_irrefl.
  rewrite slice_to_all, slice_from_all. simpl.
  by rewrite (proj2 (Z.ltb_lt 0 (len host))) by lia.
Qed.

Lemma sni_extensions_skip n e r :
  0 < fst e < 65536 -> len (snd e) < 65536 ->
  sni_extensions (S n) (raw_extension e ++ r) = sni_extensions n r.
Proof.
  destruct e as [t d]; cbn [fst snd]; intros Ht Hd. cbn [sni_extensions].
  unfold raw_extension; cbn [fst snd]. rewrite <-!app_assoc.
  test_true_le. rewrite enc16_0, enc16_1, enc16_2, enc16_3. msimp.
  pose proof (len_nonneg d). rewrite !be16_enc16 by lia.
  rewrite (app_assoc (enc16 t)), slice_from_app by done. msimp. test_false.
  rewrite slice_to_app, slice_from_app by done. msimp.
  by rewrite (proj2 (Z.eqb_neq t 0)) by lia.
Qed.

Lemma sni_extensions_host n host r :
  0 < len host < 65536 - 5 ->
  sni_extensions (S n) (raw_extension (server_name host) ++ r)
  = Some (strings_TrimSuffix (str host) ".", true).
Proof.
  intros Hh. cbn [sni_extensions]. unfold server_name, raw_extension; cbn [fst snd].
  set (body := enc16 (len (host_entry host)) ++ host_entry host).
  assert (len (host_entry host) = 3 + len host) as Hent by (unfold host_entry; autorewrite with ta; lia).
  assert (len body = 5 + len host) as Hbody by (unfold body; autorewrite with ta; lia).
  rewrite <-!app_assoc. test_true_le. rewrite enc16_0, enc16_1, enc16_2, enc16_3. msimp.
  rewrite !be16_enc16 by lia.
  rewrite (app_assoc (enc16 0)), slice_from_app by done. msimp. test_false.
  rewrite slice_to_app, slice_from_app by done. msimp. simpl negb. cbn iota.
  rewrite (proj2 (Z.ltb_ge (len body) 2)) by lia.
  unfold body. rewrite enc16_0, enc16_1. msimp. rewrite be16_enc16 by lia.
  rewrite slice_from_app by done. msimp. rewrite Z.ltb_irrefl. msimp.
  destruct (length (host_entry host)) as [|k] eqn:Hk; [unfold len in Hent; lia|].
  apply sni_names_host. lia.
Qed.

Lemma sni_extensions_find n before host r :
  Forall (fun e => 0 < fst e < 65536 /\ len (snd e) < 65536) before ->
  0 < len host < 65536 - 5 -> (length before < n)%nat ->
  sni_extensions n (concat (map raw_extension before) ++ raw_extension (server_name host) ++ r)
  = Some (strings_TrimSuffix (str host) ".", true).
Proof.
  intros Hb Hh. revert n; induction Hb as [|e before [He1 He2] _ IH]; intros [|n] Hn; try (simpl in Hn; lia).
  - by apply (sni_extensions_host n).
  - cbn [map concat]. rewrite <-app_assoc, sni_extensions_skip by done. apply IH. simpl in Hn; lia.
Qed.

Lemma length_raw_extensions l : (length l <= length (concat (map raw_extension l)))%nat.
Proof. induction l; simpl; [done|]. rewrite length_app. simpl. lia. Qed.

(** Functional correctness of the ClientHello parser: for every
    well-formed ClientHello, whatever its session id, cipher suites,
    compression methods, preceding and following extensions and trailing bytes,
    the host name of its server_name extension is returned (without a final
    dot). *)
Theorem tlsClientHelloSNI_encode (c : ClientHello) :
  ClientHello_wf c ->
  tlsClientHelloSNI (encodeClientHello c) = Some (strings_TrimSuffix (str (ch_host c)) ".", true).
Proof.
  intros [H1 H2 H3 H4 H5 H6 H7 H8 H9]. unfold encodeClientHello.
  set (exts := ch_extensions c) in *. unfold tlsClientHelloSNI.
  pose proof (len_nonneg exts). pose proof (len_nonneg (ch_sid c)).
  pose proof (len_nonneg (ch_suites c)). pose proof (len_nonneg (ch_comp c)).
  test_false. rewrite index_0_app. msimp. rewrite bv_chr by lia. cbn [Z.eqb Pos.eqb negb].
  rewrite slice_from_app by (rewrite len_cons; lia). msimp. test_false.
  rewrite index_0_app. msimp. rewrite bv_chr by lia. cbn [Z.eqb Pos.eqb negb].
  rewrite slice_from_app by (rewrite len_cons; lia). msimp. test_false.
  rewrite slice_from_app by lia. msimp. test_false.
  rewrite index_0_app. msimp. rewrite bv_chr by lia. test_false.
  rewrite slice_from_app by (rewrite len_cons; lia). msimp. test_false.
  rewrite enc16_0_app, enc16_1_app. msimp. rewrite be16_enc16 by lia. test_false.
  rewrite slice_from_app by (autorewrite with ta; lia). msimp. test_false.
  rewrite index_0_app. msimp. rewrite bv_chr by lia. test_false.
  rewrite slice_from_app by (rewrite len_cons; lia). msimp. test_false.
  rewrite enc16_0, enc16_1. msimp. rewrite be16_enc16 by lia. rewrite slice_from_app by done. msimp.
  assert ((if len exts <? len (exts ++ ch_tail c) then slice_to (exts ++ ch_tail c) (len exts)
           else Some (exts ++ ch_tail c)) = Some exts) as ->.
  { case_if; [by apply slice_to_app|]. rewrite len_app in *. pose proof (len_nonneg (ch_tail c)).
    assert (len (ch_tail c) = 0) as ->%len_zero by lia. by rewrite app_nil_r. }
  msimp. apply sni_extensions_find; [done|done|].
  unfold exts, ch_extensions. rewrite length_app, length_app.
  pose proof (length_raw_extensions (ch_before c)).
  assert (0 < length (raw_extension (server_name (ch_host c))))%nat by (unfold raw_extension; simpl; lia).
  lia.
Qed.

(** The hypotheses of C2 hold of a ClientHello for example.com with a
    non-empty session id and an extension in front. *)
Lemma tlsClientHelloSNI_encode_witness :
  let c := mkClientHello (replicate 4 (chr 3)) (replicate 3 (chr 0)) (replicate 34 (chr 7)) [chr 9]
             [chr 0; chr 47] [chr 0] [(10, [chr 1; chr 2])] (byt "example.com.") [] [chr 5] in
  ClientHello_wf c /\ tlsClientHelloSNI (encodeClientHello c) = Some ("example.com", true).
Proof.
  intros c.
  assert (ClientHello_wf c) as Hc.
  { constructor; try done. repeat constructor. }
  split; [exact Hc|]. exact (tlsClientHelloSNI_encode c Hc).
Defined.

(** *** Parse *)

Section parse_facts.
Context `{GoUnicode} `{GoPacket}.
Implicit Types (pf : PacketFeature).

Lemma parseTLS_total pf : exists r, parseTLS pf = Some r.
Proof.
  unfold parseTLS. destruct (tlsClientHelloSNI_total (pf_Payload pf)) as [[h ok] ->]. msimp. eauto.
Qed.
Lemma parseHTTP_total pf : exists r, parseHTTP pf = Some r.
Proof.
  unfold parseHTTP. case_if; [by eauto|]. case_if.
  - case_if; [|by eauto]. slice_step. case_if; [|by eauto]. slice_step. eauto.
  - destruct (httpRequestLine _) as [[m p] ok]. case_if; [by eauto|].
    destruct (bytes_Cut _ _) as [[hd bd] ?]. eauto.
Qed.
Lemma parseDNSOverTCP_total pf : exists r, parseDNSOverTCP pf = Some r.
Proof.
  unfold parseDNSOverTCP. case_if; [by eauto|]. do 2 slice_step. be16_facts. case_if; [by eauto|].
  slice_step. eauto.
Qed.
Lemma parseTCP_total tcp pf : exists r, parseTCP tcp pf = Some r.
Proof.
  unfold parseTCP. cbv zeta.
  match goal with |- context [parseHTTP ?x] => destruct (parseHTTP_total x) as [pf1 ->] end. msimp.
  destruct (parseTLS_total pf1) as [pf2 ->]. msimp. case_if; [apply parseDNSOverTCP_total|eauto].
Qed.
Lemma parseICMP_total b pf : exists r, parseICMP b pf = Some r.
Proof. unfold parseICMP. case_if; [|by eauto]. do 2 slice_step. eauto. Qed.
Lemma Parse_body_total packet now : exists r, Parse_body packet now = Some r.
Proof.
  unfold Parse_body. destruct (match pk_IPv4 packet with Some ip => Some ip | None => pk_IPv6 packet end);
    [|by eauto]. cbv zeta.
  destruct (pk_TCP packet).
  { match goal with |- context [parseTCP ?t ?x] => destruct (parseTCP_total t x) as [pf1 ->] end. msimp. eauto. }
  destruct (pk_UDP packet); [by eauto|].
  destruct (pk_ICMPv4 packet); [|msimp; by eauto].
  match goal with |- context [parseICMP ?t ?x] => destruct (parseICMP_total t x) as [pf1 ->] end. msimp. eauto.
Qed.

(** What no step of the parser may break: only allow-listed headers are kept,
    no response status and no evidence file are recorded. *)
Definition parser_inv pf : Prop :=
  map_Forall (fun k _ => k ∈ safeHTTPHeaders) (pf_HTTPHeaders pf) /\ pf_HTTPStatusCode pf = 0 /\ pf_EvidenceFile pf = "".

Lemma parser_inv_frame pf pf' :
  pf_HTTPHeaders pf' = pf_HTTPHeaders pf -> pf_HTTPStatusCode pf' = pf_HTTPStatusCode pf -> pf_EvidenceFile pf' = pf_EvidenceFile pf ->
  parser_inv pf -> parser_inv pf'.
Proof. unfold parser_inv. intros -> -> ->. done. Qed.

Lemma fillDNS_frame d pf :
  pf_HTTPHeaders (fillDNS d pf) = pf_HTTPHeaders pf
  /\ pf_HTTPStatusCode (fillDNS d pf) = pf_HTTPStatusCode pf
  /\ pf_EvidenceFile (fillDNS d pf) = pf_EvidenceFile pf.
Proof.
  unfold fillDNS. match goal with |- context [foldl ?f ?x _] => set (g := f); set (y := x) end.
  assert (pf_HTTPHeaders y = pf_HTTPHeaders pf /\ pf_HTTPStatusCode y = pf_HTTPStatusCode pf /\ pf_EvidenceFile y = pf_EvidenceFile pf) as Hy.
  { unfold y. destruct (dns_Questions d); done. }
  revert Hy. generalize y. clear y. induction (dns_Answers d) as [|a l IH]; intros y Hy; [done|].
  simpl. apply IH. unfold g. destruct (a_IP a); [done|]. case_if; done.
Qed.

Lemma parseHTTPLine_inv path pf line : parser_inv pf -> parser_inv (parseHTTPLine path pf line).
Proof.
  intros Hpf. unfold parseHTTPLine. destruct (strings_Cut line ":") as [[k v] ok].
  case_if; [done|].
  match goal with |- parser_inv (if _ then ?q <| _ ::= _ |> else _) => set (pf1 := q) end.
  assert (parser_inv pf1) as (Hd & Hs & He).
  { unfold pf1. case_if; [case_if|case_if]; by apply (parser_inv_frame pf). }
  case_if; [|done]. split; [|done]. by apply map_Forall_insert_2.
Qed.

(** A status digit string that starts with a blank does not parse. *)
Lemma ParseUint_blank s : head s = Some (chr 32) -> strconv_ParseUint s 16 = 0.
Proof. destruct s as [|c s]; [done|]. intros [= ->]. done. Qed.

Lemma parseHTTP_inv pf pf' : parseHTTP pf = Some pf' -> parser_inv pf -> parser_inv pf'.
Proof.
  unfold parseHTTP. intros Hp Hpf. case_if_in Hp; [by simplify_eq|]. case_if_in Hp.
  - case_if_in Hp; [|simplify_eq; by apply (parser_inv_frame pf)].
    destruct (index (pf_Payload pf) 9) as [c|] eqn:Hc; [|done]. cbn [mbind option_bind] in Hp.
    case_if_in Hp; [|simplify_eq; by apply (parser_inv_frame pf)].
    rewrite slice_ok in Hp by lia. cbn [mbind option_bind] in Hp.
    rewrite ParseUint_blank in Hp; [simplify_eq/=; by apply (parser_inv_frame pf)|].
    unfold index in Hc. rewrite head_lookup, lookup_take_lt, lookup_drop by lia.
    rewrite Nat.add_0_r. etrans; [exact Hc|]. f_equal. apply (inj bv). by rewrite bv_chr by lia.
  - destruct (httpRequestLine _) as [[m p] ok]. case_if_in Hp; [by simplify_eq|].
    destruct (bytes_Cut _ _) as [[hd bd] ?]. simplify_eq.
    match goal with |- parser_inv (foldl _ ?x _) => assert (parser_inv x) as Hx end.
    { case_if; by apply (parser_inv_frame pf). }
    revert Hx. match goal with |- parser_inv ?x -> _ => generalize x end.
    induction (strings_Split _ _) as [|l ls IH]; intros q Hq; [done|].
    simpl. apply IH. by apply parseHTTPLine_inv.
Qed.
Lemma parseTLS_inv pf pf' : parseTLS pf = Some pf' -> parser_inv pf -> parser_inv pf'.
Proof.
  unfold parseTLS. destruct (tlsClientHelloSNI _) as [[h ok]|]; [|done].
  cbn [mbind option_bind]. intros [= <-] Hpf. case_if; [by apply (parser_inv_frame pf)|done].
Qed.
Lemma parseDNSOverTCP_inv pf pf' : parseDNSOverTCP pf = Some pf' -> parser_inv pf -> parser_inv pf'.
Proof.
  unfold parseDNSOverTCP. intros Hp Hpf. case_if_in Hp; [by simplify_eq|].
  destruct (index _ 0) as [h|]; [|done]. destruct (index _ 1) as [l|]; [|done].
  cbn [mbind option_bind] in Hp. case_if_in Hp; [by simplify_eq|].
  destruct (slice _ _ _) as [msg|]; [|done]. cbn [mbind option_bind] in Hp. simplify_eq.
  destruct (dns_Decode msg) as [d|]; [|done]. destruct (fillDNS_frame d pf) as (? & ? & ?).
  by apply (parser_inv_frame pf).
Qed.
Lemma parseTCP_inv tcp pf pf' : parseTCP tcp pf = Some pf' -> parser_inv pf -> parser_inv pf'.
Proof.
  unfold parseTCP. cbv zeta. intros Hp Hpf.
  destruct (parseHTTP _) as [pf1|] eqn:E1; [|done]. cbn [mbind option_bind] in Hp.
  assert (parser_inv pf1) as H1.
  { eapply parseHTTP_inv; [exact E1|]. case_if; by apply (parser_inv_frame pf). }
  destruct (parseTLS pf1) as [pf2|] eqn:E2; [|done]. cbn [mbind option_bind] in Hp.
  pose proof (parseTLS_inv _ _ E2 H1) as H2.
  match type of Hp with context [parseDNSOverTCP ?q] => set (pf3 := q) in * end.
  assert (parser_inv pf3) as H3.
  { unfold pf3. repeat case_if; try done; by apply (parser_inv_frame pf2). }
  case_if_in Hp; [by eapply parseDNSOverTCP_inv|by simplify_eq].
Qed.

Lemma zero_inv : parser_inv zero_PacketFeature.
Proof. split; [apply map_Forall_empty|done]. Qed.
Lemma Parse_inv packet now : parser_inv (Parse packet now).1.
Proof.
  unfold Parse. destruct packet as [packet|]; [|apply zero_inv]. cbn [mbind option_bind].
  destruct (Parse_body packet now) as [[pf e]|] eqn:E; [|apply zero_inv]. simpl fst.
  revert E. unfold Parse_body. cbv zeta.
  match goal with |- context [Some (?q, Some ErrNoNetwork)] => assert (parser_inv q) as H1 end.
  { case_if; apply (parser_inv_frame zero_PacketFeature), zero_inv; done. }
  revert H1. match goal with |- parser_inv ?q -> _ => generalize q end. intros pf0 H1 E.
  destruct (match pk_IPv4 packet with Some ip => Some ip | None => pk_IPv6 packet end) as [ip|];
    [|by simplify_eq].
  destruct (pk_TCP packet) as [tcp|].
  { destruct (parseTCP tcp _) as [pf1|] eqn:E1; simplify_eq/=.
    eapply parseTCP_inv; [exact E1|]. by apply (parser_inv_frame pf0). }
  destruct (pk_UDP packet) as [udp|].
  { simplify_eq. unfold parseDNS. destruct (pk_DNS packet) as [d|]; [|by apply (parser_inv_frame pf0)].
    match goal with |- parser_inv (fillDNS d ?q) => destruct (fillDNS_frame d q) as (? & ? & ?) end.
    by eapply (parser_inv_frame pf0). }
  destruct (pk_ICMPv4 packet) as [icmp|].
  - destruct (parseICMP icmp _) as [pf1|] eqn:E1; simplify_eq/=.
    assert (parser_inv pf1).
    { unfold parseICMP in E1. case_if_in E1; [|simplify_eq; by apply (parser_inv_frame pf0)].
      destruct (index icmp 4); [|done]. destruct (index icmp 5); simplify_eq/=.
      by apply (parser_inv_frame pf0). }
    case_if; [by apply (parser_inv_frame pf1)|done].
  - simplify_eq/=. case_if; by apply (parser_inv_frame pf0).
Qed.


(** Credential headers never leave the parser: every header that Parse
    stores for events is in the allow list, so Cookie, Authorization and the
    like are never forwarded. *)
Theorem Parse_headers_allowlisted (packet : option Packet) (now : Z) :
  map_Forall (fun key _ => key ∈ safeHTTPHeaders) (pf_HTTPHeaders (Parse packet now).1)
  /\ "cookie" ∉ safeHTTPHeaders /\ "authorization" ∉ safeHTTPHeaders
  /\ "proxy-authorization" ∉ safeHTTPHeaders.
Proof.
  split; [apply Parse_inv|]. by repeat split; apply (bool_decide_unpack _); vm_compute.
Qed.

(** A response status is never recorded: the test for the blank looks at
    byte 9 of the status line, where the first digit of the status stands, so
    the digits handed to ParseUint start with a blank whenever the test
    succeeds and HTTPStatusCode keeps its zero value for every packet. *)
Theorem Parse_status_never_set (packet : option Packet) (now : Z) :
  pf_HTTPStatusCode (Parse packet now).1 = 0.
Proof. apply Parse_inv. Qed.
End parse_facts.

(** *** Samples *)

Lemma length_hex b : slen (hex_EncodeToString b) = 2 * len b.
Proof.
  unfold slen, hex_EncodeToString. rewrite byt_str.
  induction b as [|c b IH]; [done|]. simpl. rewrite !len_cons, IH. lia.
Qed.
Lemma samplePayload_bound b : slen (samplePayload b) <= 128.
Proof.
  unfold samplePayload. cbv zeta.
  set (q := if 64 <? len b then take 64 b else b).
  assert (len q <= 64) by (unfold q; case_if; [rewrite len_take; lia|lia]).
  case_if; [unfold slen; rewrite byt_str; lia|rewrite length_hex; lia].
Qed.
