(* ===== verification/Counter.v ===== *)
(** * Counter: the bounded sliding-window hit counter

    internal/counter/counter.go.  Times are nanoseconds; the mutex makes each
    method one step.  The abstract view of a counter is the list of hits it
    has accepted; the theorems relate every answer to that list. *)

From S2P Require Import Prelude GoStrings.

Definition defaultMaxStamps : Z := 1024.

Record Window := mkWindow {
  w_window : Z;
  w_maxKeys : Z;
  w_maxStamps : Z;
  w_entries : gmap string (list Z)
}.
#[global] Instance settable_Window : Settable Window := fun r =>
  mkWindow (w_window r) (w_maxKeys r) (w_maxStamps r) (w_entries r).

Definition second : Z := 1000000000.

Definition counter_New (window maxKeys : Z) : Window :=
  let window := if window <=? 0 then 60 * second else window in
  let maxKeys := if maxKeys <=? 0 then 100000 else maxKeys in
  mkWindow window maxKeys defaultMaxStamps ∅.

(** The loop [for i < len(stamps) && !stamps[i].After(cutoff)] and the
    compaction of what follows. *)
Fixpoint pruneBefore (stamps : list Z) (cutoff : Z) : list Z :=
  match stamps with
  | [] => []
  | t :: r => if cutoff <? t then stamps else pruneBefore r cutoff
  end.

(** [len(e.stamps) == 0 || !e.stamps[len(e.stamps)-1].After(cutoff)] *)
Definition idle (cutoff : Z) (stamps : list Z) : bool :=
  match last stamps with None => true | Some t => negb (cutoff <? t) end.

Definition counter_Len (w : Window) : Z := Z.of_nat (size (w_entries w)).

Section ops.
Context `{RangeOrder}.

Definition evictIdleLocked (w : Window) (cutoff : Z) : Window * Z :=
  let '(entries, removed) := range_delete (fun _ stamps => idle cutoff stamps) (w_entries w) in
  (w <| w_entries := entries |>, removed).

(** Record the hit on an entry with stamps [stamps]. *)
Definition counter_push (w : Window) (key : string) (now : Z) (stamps : list Z) : Window * (Z * Z) :=
  let stamps := pruneBefore stamps (now - w_window w) ++ [now] in
  let stamps := if w_maxStamps w <? len stamps
                then drop (Z.to_nat (len stamps - w_maxStamps w)) stamps else stamps in
  (w <| w_entries ::= <[key := stamps]> |>, (len stamps, default now (head stamps))).

Definition counter_Hit (w : Window) (key : string) (now : Z) : Window * (Z * Z) :=
  let cutoff := now - w_window w in
  match w_entries w !! key with
  | Some stamps => counter_push w key now stamps
  | None =>
      if w_maxKeys w <=? counter_Len w then
        let '(w, _) := evictIdleLocked w cutoff in
        if w_maxKeys w <=? counter_Len w then (w, (1, now))
        else counter_push w key now []
      else counter_push w key now []
  end.

Definition counter_Cleanup (w : Window) (now : Z) : Window * Z :=
  evictIdleLocked w (now - w_window w).
End ops.

(** ** The specification *)

(** Times of the accepted hits on a key, oldest first. *)
Definition times (key : string) (H : list (string * Z)) : list Z :=
  snd <$> filter (fun h => h.1 = key) H.
(** Those inside the window that ends at [now]. *)
Definition in_window (window now : Z) (ts : list Z) : list Z :=
  filter (fun t => now - window < t) ts.
(** The [m] most recent. *)
Definition recent (m : Z) (ts : list Z) : list Z := drop (Z.to_nat (len ts - m)) ts.

(** Runs of a counter: the state, the hits accepted so far and the latest
    time.  A hit counts as accepted when its key is in the map afterwards;
    time does not go backwards, and the iteration order is free at each step. *)
Definition tracked (w : Window) (key : string) : Prop := is_Some (w_entries w !! key).
Inductive counter_run : Window -> list (string * Z) -> Z -> Prop :=
| run_new window maxKeys now : counter_run (counter_New window maxKeys) [] now
| run_hit (O : RangeOrder) w H t key now w' r :
    counter_run w H t -> t <= now -> counter_Hit w key now = (w', r) -> tracked w' key ->
    counter_run w' (H ++ [(key, now)]) now
| run_refused (O : RangeOrder) w H t key now w' r :
    counter_run w H t -> t <= now -> counter_Hit w key now = (w', r) -> ~ tracked w' key ->
    counter_run w' H now
| run_cleanup (O : RangeOrder) w H t now w' n :
    counter_run w H t -> t <= now -> counter_Cleanup w now = (w', n) -> counter_run w' H now.

(** ** Lemmas *)

Section evict.
Context `{RangeOrder}.

Lemma evict_lookup w cutoff key :
  w_entries (evictIdleLocked w cutoff).1 !! key
  = match w_entries w !! key with Some s => if idle cutoff s then None else Some s | None => None end.
Proof.
  unfold evictIdleLocked. pose proof (range_delete_lookup (fun _ s => idle cutoff s) (w_entries w) key).
  by destruct (range_delete _ _).
Qed.
Lemma evict_size w cutoff : counter_Len (evictIdleLocked w cutoff).1 <= counter_Len w.
Proof.
  unfold evictIdleLocked, counter_Len.
  pose proof (range_delete_size (fun _ s => idle cutoff s) (w_entries w)).
  destruct (range_delete _ _); simpl in *; lia.
Qed.
Lemma evict_params w cutoff :
  let w' := (evictIdleLocked w cutoff).1 in
  w_window w' = w_window w /\ w_maxKeys w' = w_maxKeys w /\ w_maxStamps w' = w_maxStamps w.
Proof. unfold evictIdleLocked. by destruct (range_delete _ _). Qed.
End evict.

Lemma pruneBefore_filter s c : StronglySorted Z.le s -> pruneBefore s c = filter (fun t => c < t) s.
Proof.
  induction 1 as [|x s Hs IH Hx]; simpl; [done|]. case_if.
  - rewrite filter_cons_True by lia. f_equal. symmetry. apply list_filter_id.
    eapply Forall_impl; [exact Hx|]. simpl. lia.
  - rewrite filter_cons_False by lia. done.
Qed.
Lemma sorted_filter_drop s c j :
  StronglySorted Z.le s ->
  filter (fun t => c < t) (drop j s)
  = drop (j - (length s - length (filter (fun t => c < t) s))) (filter (fun t => c < t) s).
Proof.
  intros Hs. revert j; induction Hs as [|x s Hs IH Hx]; intros j; [by rewrite filter_nil, !drop_nil|].
  destruct (decide (c < x)).
  - assert (filter (fun t => c < t) (x :: s) = x :: s) as ->.
    { apply list_filter_id. constructor; [done|]. eapply Forall_impl; [exact Hx|]. simpl; lia. }
    rewrite Nat.sub_diag, Nat.sub_0_r. apply list_filter_id. apply Forall_drop.
    constructor; [done|]. eapply Forall_impl; [exact Hx|]. simpl; lia.
  - rewrite (filter_cons_False _ x) by done. destruct j as [|j]; simpl drop.
    + rewrite (filter_cons_False _ x) by done. done.
    + rewrite IH. f_equal. pose proof (length_filter (fun t => c < t) s). simpl. lia.
Qed.
Lemma sorted_drop s j : StronglySorted Z.le s -> StronglySorted Z.le (drop j s).
Proof. intros Hs. revert j; induction Hs; intros [|j]; simpl; try constructor; auto. Qed.
Lemma sorted_filter (P : Z -> Prop) `{!forall x, Decision (P x)} s :
  StronglySorted Z.le s -> StronglySorted Z.le (filter P s).
Proof.
  induction 1 as [|x s Hs IH Hx]; [constructor|]. destruct (decide (P x)).
  - rewrite filter_cons_True by done. constructor; [done|].
    apply Forall_forall. intros y [_ Hy]%list_elem_of_filter. rewrite Forall_forall in Hx. auto.
  - by rewrite filter_cons_False.
Qed.
Lemma sorted_snoc s x : StronglySorted Z.le s -> Forall (fun y => y <= x) s -> StronglySorted Z.le (s ++ [x]).
Proof.
  induction 1 as [|y s Hs IH Hy]; intros Hx; simpl; [by repeat constructor|].
  apply Forall_cons in Hx as [? ?]. constructor; [auto|]. apply Forall_app. split; [done|by constructor].
Qed.

Lemma recent_filter m s c :
  StronglySorted Z.le s ->
  filter (fun t => c < t) (recent m s) = recent m (filter (fun t => c < t) s).
Proof.
  intros Hs. unfold recent. rewrite sorted_filter_drop by done. f_equal.
  pose proof (length_filter (fun t => c < t) s). unfold len. lia.
Qed.
Lemma recent_snoc m s x : 0 <= m -> recent m (recent m s ++ [x]) = recent m (s ++ [x]).
Proof.
  intros Hm. unfold recent. rewrite !len_app, len_drop. change (len [x]) with 1.
  destruct (decide (len s <= m)) as [Hle|Hgt].
  - replace (Z.to_nat (len s - m)) with 0%nat by lia. simpl. f_equal. unfold len; lia.
  - pose proof (len_nonneg s). set (k := Z.to_nat (len s - m)).
    assert ((k <= length s)%nat) by (unfold k, len; lia).
    rewrite <-(drop_app_le s [x] k) by done. rewrite drop_drop. f_equal. unfold k. lia.
Qed.
Lemma len_recent m s : 0 <= m -> len (recent m s) = Z.min m (len s).
Proof. intros. unfold recent. rewrite len_drop. pose proof (len_nonneg s). lia. Qed.
Lemma in_window_in_window w l now s :
  l <= now -> in_window w now (in_window w l s) = in_window w now s.
Proof.
  intros Hl. unfold in_window. induction s as [|x s IH]; [done|].
  destruct (decide (l - w < x)).
  - rewrite (filter_cons_True (fun t => l - w < t)) by done.
    destruct (decide (now - w < x)); [rewrite !filter_cons_True by done|rewrite !filter_cons_False by done];
      by rewrite IH.
  - rewrite (filter_cons_False (fun t => l - w < t)), (filter_cons_False (fun t => now - w < t)) by lia. done.
Qed.
Lemma in_window_snoc w now s : 0 < w -> in_window w now (s ++ [now]) = in_window w now s ++ [now].
Proof.
  intros. unfold in_window. rewrite filter_app, (filter_cons_True _ now) by lia. done.
Qed.
Lemma in_window_stale w t now s : Forall (fun x => x <= t - w) s -> t <= now -> in_window w now s = [].
Proof.
  intros Hs Ht. unfold in_window. apply list_filter_nil, Forall_forall.
  rewrite Forall_forall in Hs. intros x Hx%Hs. lia.
Qed.

Lemma times_snoc_eq key H now : times key (H ++ [(key, now)]) = times key H ++ [now].
Proof. unfold times. rewrite filter_app, filter_cons_True, fmap_app by done. done. Qed.
Lemma times_snoc_ne key key' H now : key <> key' -> times key (H ++ [(key', now)]) = times key H.
Proof.
  intros. unfold times. rewrite filter_app, filter_cons_False by (simpl; congruence).
  by rewrite app_nil_r.
Qed.

(** What a run maintains.  The entry of a key holds exactly the most recent
    accepted hits of the window that ended at its last hit; a key without an
    entry has no hit left in the current window. *)
Definition entry_ok (w : Window) (t : Z) (ts : list Z) (e : option (list Z)) : Prop :=
  match e with
  | Some s => exists ts0 l, ts = ts0 ++ [l] /\ s = recent (w_maxStamps w) (in_window (w_window w) l ts)
  | None => Forall (fun x => x <= t - w_window w) ts
  end.
Record counter_inv (w : Window) (H : list (string * Z)) (t : Z) : Prop := {
  ci_window : 0 < w_window w;
  ci_keys : 0 < w_maxKeys w;
  ci_stamps : w_maxStamps w = defaultMaxStamps;
  ci_size : counter_Len w <= w_maxKeys w;
  ci_sorted key : StronglySorted Z.le (times key H);
  ci_past key : Forall (fun x => x <= t) (times key H);
  ci_entry key : entry_ok w t (times key H) (w_entries w !! key)
}.

Lemma counter_push_spec w H t key now s w' r :
  counter_inv w H t -> t <= now -> counter_Len w < w_maxKeys w \/ is_Some (w_entries w !! key) ->
  s = default [] (w_entries w !! key) -> counter_push w key now s = (w', r) ->
  let hits := in_window (w_window w) now (times key (H ++ [(key, now)])) in
  w' = w <| w_entries ::= <[key := recent (w_maxStamps w) hits]> |>
  /\ r = (len (recent (w_maxStamps w) hits), default now (head (recent (w_maxStamps w) hits))).
Proof.
  intros [Hw Hk Hm Hs Hso Hp He] Ht Hroom -> Hpush hits. unfold counter_push in Hpush.
  assert (forall l, (if w_maxStamps w <? len l then drop (Z.to_nat (len l - w_maxStamps w)) l else l)
    = recent (w_maxStamps w) l) as Hrec.
  { intros l. unfold recent. case_if; [done|]. by replace (Z.to_nat _) with 0%nat by lia. }
  rewrite Hrec in Hpush.
  assert (recent (w_maxStamps w) (pruneBefore (default [] (w_entries w !! key)) (now - w_window w) ++ [now])
          = recent (w_maxStamps w) hits) as Heq; [|rewrite Heq in Hpush; by simplify_eq].
  unfold hits. rewrite times_snoc_eq, in_window_snoc by done.
  specialize (He key). specialize (Hso key). specialize (Hp key).
  destruct (w_entries w !! key) as [s|]; simpl in *.
  - destruct He as (ts0 & l & Hts & ->).
    rewrite pruneBefore_filter by (unfold recent, in_window; by apply sorted_drop, sorted_filter).
    rewrite recent_filter by (unfold in_window; by apply sorted_filter).
    rewrite recent_snoc by (rewrite Hm; done).
    rewrite <-(in_window_in_window _ l now (times key H)); [done|].
    rewrite Hts in Hp. rewrite Forall_app, Forall_singleton in Hp. lia.
  - by rewrite (in_window_stale _ t).
Qed.

Lemma counter_push_inv w H t key now s w' r :
  counter_inv w H t -> t <= now -> counter_Len w < w_maxKeys w \/ is_Some (w_entries w !! key) ->
  s = default [] (w_entries w !! key) -> counter_push w key now s = (w', r) ->
  counter_inv w' (H ++ [(key, now)]) now.
Proof.
  intros Hinv Ht Hroom Hs Hpush.
  destruct (counter_push_spec _ _ _ _ _ _ _ _ Hinv Ht Hroom Hs Hpush) as [-> _].
  destruct Hinv as [Hw Hk Hm Hsz Hso Hp He]. constructor; try done.
  - unfold counter_Len. simpl. destruct (w_entries w !! key) as [e|] eqn:E.
    + rewrite map_size_insert_Some by eauto. done.
    + rewrite map_size_insert_None by done. destruct Hroom as [?|[? ?]]; [|congruence].
      unfold counter_Len in *. lia.
  - intros k. destruct (decide (k = key)) as [->|Hne]; [|by rewrite times_snoc_ne].
    rewrite times_snoc_eq. apply sorted_snoc; [done|]. eapply Forall_impl; [apply Hp|]. simpl; lia.
  - intros k. destruct (decide (k = key)) as [->|Hne].
    + rewrite times_snoc_eq. apply Forall_app. split; [|by repeat constructor].
      eapply Forall_impl; [apply Hp|]. simpl; lia.
    + rewrite times_snoc_ne by done. eapply Forall_impl; [apply Hp|]. simpl; lia.
  - intros k. simpl. destruct (decide (k = key)) as [->|Hne].
    + rewrite lookup_insert_eq. exists (times key H), now. by rewrite times_snoc_eq.
    + rewrite lookup_insert_ne by congruence. rewrite (times_snoc_ne k) by done. specialize (He k).
      destruct (w_entries w !! k); [done|]. eapply Forall_impl; [exact He|]. simpl; lia.
Qed.

Lemma idle_stale w t now ts s :
  0 < w_window w -> 0 < w_maxStamps w ->
  StronglySorted Z.le ts -> entry_ok w t ts (Some s) -> idle (now - w_window w) s = true ->
  Forall (fun x => x <= now - w_window w) ts.
Proof.
  intros Hw Hm Hso (ts0 & l & Hts & ->) Hidle.
  assert (last (recent (w_maxStamps w) (in_window (w_window w) l ts)) = Some l) as Hlast.
  { rewrite Hts, in_window_snoc by done. unfold recent. rewrite len_app. change (len [l]) with 1.
    pose proof (len_nonneg (in_window (w_window w) l ts0)).
    rewrite drop_app_le by (unfold len; lia). apply last_snoc. }
  unfold idle in Hidle. rewrite Hlast in Hidle. b2p.
  rewrite Hts in *. clear Hlast Hts. induction ts0 as [|y ts0 IH]; [by repeat constructor|].
  simpl in Hso. inversion Hso as [|? ? Hso' Hy]; subst. constructor; [|by apply IH].
  rewrite Forall_app, Forall_singleton in Hy. lia.
Qed.

Lemma evict_inv (O : RangeOrder) w H t now :
  counter_inv w H t -> t <= now -> counter_inv (evictIdleLocked w (now - w_window w)).1 H now.
Proof.
  intros [Hw Hk Hm Hsz Hso Hp He] Ht.
  assert (w_window (evictIdleLocked w (now - w_window w)).1 = w_window w
    /\ w_maxKeys (evictIdleLocked w (now - w_window w)).1 = w_maxKeys w
    /\ w_maxStamps (evictIdleLocked w (now - w_window w)).1 = w_maxStamps w) as (E1 & E2 & E3).
  { apply evict_params. }
  constructor; rewrite ?E1, ?E2, ?E3; try done.
  - etrans; [apply evict_size|exact Hsz].
  - intros k. eapply Forall_impl; [apply Hp|]. simpl; lia.
  - intros k. rewrite evict_lookup. specialize (He k).
    destruct (w_entries w !! k) as [s|].
    + case_if; unfold entry_ok; rewrite ?E1, ?E3; [|exact He].
      eapply idle_stale; [done|rewrite Hm; done|apply Hso|exact He|done].
    + unfold entry_ok in *. rewrite E1. eapply Forall_impl; [exact He|]. simpl; lia.
Qed.

Lemma counter_Hit_cases (O : RangeOrder) w H t key now w' r :
  counter_inv w H t -> t <= now -> counter_Hit w key now = (w', r) ->
  (tracked w' key /\ counter_inv w' (H ++ [(key, now)]) now /\ w_window w' = w_window w /\
   let hits := in_window (w_window w) now (times key (H ++ [(key, now)])) in
   r = (len (recent (w_maxStamps w) hits), default now (head (recent (w_maxStamps w) hits))))
  \/ (~ tracked w' key /\ counter_inv w' H now /\ r = (1, now) /\ w_maxKeys w' <= counter_Len w').
Proof.
  intros Hinv Ht. unfold counter_Hit. cbv zeta.
  assert (forall w1, counter_inv w1 H t \/ counter_inv w1 H now -> w_window w1 = w_window w ->
    w_maxStamps w1 = w_maxStamps w ->
    counter_Len w1 < w_maxKeys w1 \/ is_Some (w_entries w1 !! key) ->
    counter_push w1 key now (default [] (w_entries w1 !! key)) = (w', r) ->
    tracked w' key /\ counter_inv w' (H ++ [(key, now)]) now /\ w_window w' = w_window w /\
    r = (len (recent (w_maxStamps w) (in_window (w_window w) now (times key (H ++ [(key, now)])))),
      default now (head (recent (w_maxStamps w) (in_window (w_window w) now (times key (H ++ [(key, now)]))))))) as Hp.
  { intros w1 H1 Hww Hms Hroom Hpush.
    assert (exists t', counter_inv w1 H t' /\ t' <= now) as (t' & Hi & Ht') by (destruct H1; eauto with lia).
    pose proof (counter_push_inv _ _ _ _ _ _ _ _ Hi Ht' Hroom eq_refl Hpush).
    destruct (counter_push_spec _ _ _ _ _ _ _ _ Hi Ht' Hroom eq_refl Hpush) as [-> ->].
    split; [unfold tracked; simpl; rewrite lookup_insert_eq; by eauto|].
    split; [done|]. split; [exact Hww|]. by rewrite Hww, Hms. }
  destruct (w_entries w !! key) as [s|] eqn:E.
  { intros Hpush. left. apply (Hp w); try done; [by left|rewrite E; eauto|by rewrite E]. }
  case_if.
  - destruct (evictIdleLocked w (now - w_window w)) as [w1 n] eqn:Ev.
    pose proof (evict_inv O w H t now Hinv Ht) as Hi. rewrite Ev in Hi. simpl in Hi.
    assert (w_entries w1 !! key = None) as E1.
    { pose proof (evict_lookup w (now - w_window w) key) as Hl. by rewrite Ev, E in Hl. }
    assert (w_window w1 = w_window w /\ w_maxStamps w1 = w_maxStamps w) as [Hww Hms].
    { pose proof (evict_params w (now - w_window w)) as Hp'. rewrite Ev in Hp'. naive_solver. }
    case_if; intros Hpush.
    + right. simplify_eq. split; [|done]. unfold tracked. rewrite E1. by intros [? ?].
    + left. apply (Hp w1); try done; [by right|by left|by rewrite E1].
  - intros Hpush. left. apply (Hp w); try done; [by left|by left|by rewrite E].
Qed.

Lemma counter_run_inv w H t : counter_run w H t -> counter_inv w H t.
Proof.
  induction 1 as [window maxKeys now|O w H t key now w' r _ IH Ht Hh Htr|
    O w H t key now w' r _ IH Ht Hh Htr|O w H t now w' n _ IH Ht Hc].
  - constructor; try done; simpl.
    + case_if; [done|lia].
    + case_if; lia.
    + unfold counter_Len. simpl. rewrite map_size_empty. case_if; lia.
    + intros key. constructor.
    + intros key. rewrite lookup_empty. constructor.
  - destruct (counter_Hit_cases _ _ _ _ _ _ _ _ IH Ht Hh) as [(_ & ? & _)|(? & _)]; done.
  - destruct (counter_Hit_cases _ _ _ _ _ _ _ _ IH Ht Hh) as [(? & _)|(_ & ? & _)]; done.
  - pose proof (evict_inv O w H t now IH Ht) as Hi. unfold counter_Cleanup in Hc. by rewrite Hc in Hi.
Qed.

(** C19.  The burst signal is exact up to its documented cap: in every run of
    the counter (any mix of hits and cleanups, any eviction, time not going
    backwards), an accepted hit reports the number of accepted hits on its key
    inside the trailing window, capped at the stamp limit, together with the
    oldest of those it counts.  Evicting idle keys never changes an answer. *)
Theorem counter_Hit_exact (O : RangeOrder) w H t key now w' c first :
  counter_run w H t -> t <= now ->
  counter_Hit w key now = (w', (c, first)) -> tracked w' key ->
  let hits := in_window (w_window w) now (times key (H ++ [(key, now)])) in
  c = Z.min defaultMaxStamps (len hits) /\ head (recent defaultMaxStamps hits) = Some first.
Proof.
  intros Hrun Ht Hh Htr hits. pose proof (counter_run_inv _ _ _ Hrun) as Hinv.
  destruct (counter_Hit_cases _ _ _ _ _ _ _ _ Hinv Ht Hh) as [(_ & _ & _ & Hr)|(? & _)]; [|done].
  cbv zeta in Hr. fold hits in Hr. destruct Hinv as [Hw _ Hm _ _ _ _]. rewrite Hm in Hr. simplify_eq.
  rewrite len_recent by done. split; [done|].
  assert (recent defaultMaxStamps hits <> []) as Hne.
  { intros E%len_zero. rewrite len_recent in E by done. unfold hits in E.
    rewrite times_snoc_eq, in_window_snoc, len_app in E by done.
    pose proof (len_nonneg (in_window (w_window w) now (times key H))).
    change (len [now]) with 1 in E. unfold defaultMaxStamps in E. lia. }
  by destruct (recent defaultMaxStamps hits).
Qed.

Lemma counter_Hit_exact_witness :
  let w := (@counter_Hit canonical_range (counter_New 100 2) "ioc|a" 1000).1 in
  counter_run w [("ioc|a", 1000)] 1000 /\ 
  (@counter_Hit canonical_range w "ioc|a" 1050).2 = (2, 1000) /\
  2 = Z.min defaultMaxStamps (len (in_window 100 1050 (times "ioc|a" [("ioc|a", 1000); ("ioc|a", 1050)]))).
Proof.
  intros w.
  assert (counter_run w [("ioc|a", 1000)] 1000) as Hrun.
  { apply (run_hit canonical_range (counter_New 100 2) [] 1000 "ioc|a" 1000 w (1, 1000));
      [apply run_new|lia|vm_compute; reflexivity|by apply (bool_decide_unpack _); vm_compute]. }
  split; [exact Hrun|]. split; [vm_compute; reflexivity|].
  apply (counter_Hit_exact canonical_range w [("ioc|a", 1000)] 1000 "ioc|a" 1050
           (@counter_Hit canonical_range w "ioc|a" 1050).1 2 1000);
    [exact Hrun|lia|vm_compute; reflexivity|by apply (bool_decide_unpack _); vm_compute].
Defined.

(** Bounded memory and graceful degradation: in every run the map never
    holds more than maxKeys keys nor a key more than 1024 stamps, and a hit is
    refused only when the map is full of keys that each have a hit inside the
    window; a refused hit reports itself only and leaves no trace. *)
Theorem counter_bounded (O : RangeOrder) w H t key now :
  counter_run w H t -> t <= now ->
  let '(w', r) := counter_Hit w key now in
  counter_Len w' <= w_maxKeys w'
  /\ map_Forall (fun _ s => len s <= defaultMaxStamps) (w_entries w')
  /\ (~ tracked w' key ->
      r = (1, now) /\ counter_Len w' = w_maxKeys w'
      /\ forall k s, w_entries w' !! k = Some s -> in_window (w_window w) now (times k H) <> []).
Proof.
  intros Hrun Ht. destruct (counter_Hit w key now) as [w' r] eqn:Hh.
  pose proof (counter_run_inv _ _ _ Hrun) as Hinv.
  assert (exists H' , counter_inv w' H' now) as [H' Hi].
  { destruct (counter_Hit_cases _ _ _ _ _ _ _ _ Hinv Ht Hh) as [(_ & ? & _)|(_ & ? & _)]; eauto. }
  split; [apply Hi|]. split.
  { intros k s Hs. pose proof (ci_entry _ _ _ Hi k) as He. rewrite Hs in He.
    destruct He as (ts0 & l & _ & ->). rewrite (ci_stamps _ _ _ Hi), len_recent by done. lia. }
  intros Hn. destruct (counter_Hit_cases _ _ _ _ _ _ _ _ Hinv Ht Hh) as [(? & _)|(_ & Hi' & -> & Hfull)]; [done|].
  split; [done|]. split; [pose proof (ci_size _ _ _ Hi'); lia|].
  intros k s Hs. revert Hh Hn. unfold counter_Hit, tracked. cbv zeta.
  destruct (w_entries w !! key) as [e|] eqn:E.
  { unfold counter_push. intros [= <-] Hn. exfalso. apply Hn. simpl. rewrite lookup_insert_eq. eauto. }
  assert (forall w1 : Window, counter_push w1 key now [] = (w', (1, now)) -> ~ is_Some (w_entries w' !! key) -> False) as Hno.
  { unfold counter_push. intros w1 [= <-] Hn. apply Hn. simpl. rewrite lookup_insert_eq. eauto. }
  case_if; [|intros Hh Hn; exfalso; eauto].
  destruct (evictIdleLocked w (now - w_window w)) as [w1 n] eqn:Ev.
  case_if; [|intros Hh Hn; exfalso; eauto]. intros [= <-] _.
  pose proof (evict_lookup w (now - w_window w) k) as Hl. rewrite Ev in Hl. simpl in Hl. rewrite Hs in Hl.
  pose proof (ci_entry _ _ _ Hinv k) as He.
  destruct (w_entries w !! k) as [s'|]; [|done]. destruct (idle (now - w_window w) s') eqn:Hid; [done|].
  destruct He as (ts0 & l & Hts & Hs'). unfold idle in Hid.
  destruct (last s') as [x|] eqn:Hx; [|done]. b2p.
  assert (x ∈ times k H) as Hin.
  { apply last_Some_elem_of in Hx. rewrite Hs' in Hx. unfold recent in Hx.
    apply subseteq_drop in Hx. by apply list_elem_of_filter in Hx as [_ ?]. }
  intros Hnil. eapply (filter_nil_not_elem_of (fun t => now - w_window w < t)); [exact Hnil| |exact Hin]. lia.
Qed.

Lemma counter_bounded_witness :
  let w := (@counter_Hit canonical_range (counter_New 100 1) "ioc|a" 1000).1 in
  counter_run w [("ioc|a", 1000)] 1000 /\
  counter_Len (@counter_Hit canonical_range w "ioc|b" 1050).1 <= 1 /\
  ~ tracked (@counter_Hit canonical_range w "ioc|b" 1050).1 "ioc|b".
Proof.
  intros w.
  assert (counter_run w [("ioc|a", 1000)] 1000) as Hrun.
  { apply (run_hit canonical_range (counter_New 100 1) [] 1000 "ioc|a" 1000 w (1, 1000));
      [apply run_new|lia|vm_compute; reflexivity|by apply (bool_decide_unpack _); vm_compute]. }
  split; [exact Hrun|].
  pose proof (counter_bounded canonical_range w [("ioc|a", 1000)] 1000 "ioc|b" 1050 Hrun ltac:(lia)) as Hb.
  destruct (@counter_Hit canonical_range w "ioc|b" 1050) as [w' r] eqn:E.
  assert (w' = (@counter_Hit canonical_range w "ioc|b" 1050).1) as -> by (by rewrite E).
  split; [exact (proj1 Hb)|]. apply (bool_decide_unpack _). vm_compute. exact I.
Defined.
