(* ===== verification/Fingerprint.v ===== *)
(** * Fingerprint: payload rules

    internal/fingerprint (pattern.go, loader.go, engine.go).  Regular
    expressions are Go's regexp package, the parameter [GoRegexp]; of a match
    only the reported bounds matter to the code. *)

From S2P Require Import Prelude GoStrings Parser.

(** A payload rule of patterns/threat.json. *)
Record PatternRule := mkPatternRule {
  pr_ID : string;
  pr_Type : string;
  pr_Name : string;
  pr_Version : string;
  pr_Protocol : string;
  pr_Port : Z;
  pr_IsHTTP : Z;
  pr_Part : string;
  pr_Regex : string;
  pr_Deleted : Z;
  pr_Class : string;
  pr_Confidence : Z
}.
#[global] Instance settable_PatternRule : Settable PatternRule := fun r =>
  mkPatternRule (pr_ID r) (pr_Type r) (pr_Name r) (pr_Version r) (pr_Protocol r) (pr_Port r)
    (pr_IsHTTP r) (pr_Part r) (pr_Regex r) (pr_Deleted r) (pr_Class r) (pr_Confidence r).
Definition zero_PatternRule : PatternRule := mkPatternRule "" "" "" "" "" 0 0 "" "" 0 "" 0.

(** A match of a rule on a packet. *)
Record FingerprintHit := mkFingerprintHit {
  fh_RuleID : string;
  fh_Type : string;
  fh_Name : string;
  fh_Version : string;
  fh_MatchFrom : Z;
  fh_MatchTo : Z;
  fh_HitTimeUsec : Z;
  fh_EvidenceFile : string;
  fh_Class : string;
  fh_Confidence : Z;
  fh_Sample : string
}.
#[global] Instance settable_FingerprintHit : Settable FingerprintHit := fun r =>
  mkFingerprintHit (fh_RuleID r) (fh_Type r) (fh_Name r) (fh_Version r) (fh_MatchFrom r)
    (fh_MatchTo r) (fh_HitTimeUsec r) (fh_EvidenceFile r) (fh_Class r) (fh_Confidence r)
    (fh_Sample r).
Definition zero_FingerprintHit : FingerprintHit := mkFingerprintHit "" "" "" "" 0 0 0 "" "" 0 "".

(** [regexp.Compile] ([None] is an error) and [FindIndex] ([None] is nil). *)
Class GoRegexp := {
  Regexp : Type;
  regexp_Compile : string -> option Regexp;
  regexp_FindIndex : Regexp -> bytes -> option (Z * Z)
}.
(** The documented result of [FindIndex]: a range of the input. *)
Class GoRegexpLaws `{GoRegexp} := {
  FindIndex_range : forall re b i j, regexp_FindIndex re b = Some (i, j) -> 0 <= i <= j /\ j <= len b
}.

(** An instance: an expression is a literal, found by its first occurrence. *)
Definition literal_regexp : GoRegexp :=
  {| Regexp := bytes;
     regexp_Compile := fun s => Some (byt s);
     regexp_FindIndex := fun re b =>
       match bytes_Index b re with Some i => Some (Z.of_nat i, Z.of_nat i + len re) | None => None end |}.

Section fingerprint.
Context `{GoUnicode} `{GoRegexp} `{RangeOrder}.

(** The rules of a decoded threat file, with their ids, without the deleted
    ones. *)
Definition LoadRules (rules : gmap string PatternRule) : list PatternRule :=
  foldl (fun out '(id, r) =>
    let r := r <| pr_ID := id |> in
    if pr_Deleted r =? 0 then out ++ [r] else out) [] (range_map rules).

Record compiledRule := mkCompiledRule { cr_rule : PatternRule; cr_re : Regexp }.

(** Rules whose expression does not compile are skipped. *)
Definition fingerprint_New (rules : list PatternRule) : list compiledRule :=
  foldl (fun acc r =>
    match regexp_Compile (pr_Regex r) with
    | None => acc
    | Some re => acc ++ [mkCompiledRule r re]
    end) [] rules.

Definition ruleApplies (rule : PatternRule) (pf : PacketFeature) : bool :=
  if negb (seqb (pr_Protocol rule) "") && negb (strings_EqualFold (pr_Protocol rule) (pf_Proto pf)) then false
  else if negb (pr_Port rule =? 0) && negb (pr_Port rule =? pf_SrcPort pf) && negb (pr_Port rule =? pf_DstPort pf)
  then false
  else if (pr_IsHTTP rule =? 1) && seqb (pf_HTTPMethod pf) "" then false
  else true.

Definition targetPayload (rule : PatternRule) (pf : PacketFeature) : bytes :=
  if pr_IsHTTP rule =? 1 then
    let part := strings_ToLower (pr_Part rule) in
    if seqb part "head" then pf_HTTPHeader pf
    else if seqb part "body" then pf_HTTPBody pf
    else pf_Payload pf
  else pf_Payload pf.

(** [None] would be a slice out of range. *)
Definition sampleHit (data : bytes) (loc : Z * Z) : option string :=
  let '(start, end_) := loc in
  if (start <? 0) || (len data <? end_) || (end_ <=? start) then Some ""
  else
    s ← slice data start end_;
    s ← (if 300 <? len s then slice_to s 300 else Some s);
    Some (str s).

Arguments sampleHit : simpl never.

Definition matchRule (pf : PacketFeature) (cr : compiledRule) : option (list FingerprintHit) :=
  let rule := cr_rule cr in
  if negb (ruleApplies rule pf) then Some []
  else
    let target := targetPayload rule pf in
    if len target =? 0 then Some []
    else match regexp_FindIndex (cr_re cr) target with
         | None => Some []
         | Some loc =>
             sample ← sampleHit target loc;
             Some [mkFingerprintHit (pr_ID rule) (pr_Type rule) (pr_Name rule) (pr_Version rule)
                     (fst loc) (snd loc) (pf_PacketTimeUsec pf) "" (pr_Class rule) (pr_Confidence rule) sample]
         end.

Fixpoint fingerprint_Match (rules : list compiledRule) (pf : PacketFeature) : option (list FingerprintHit) :=
  match rules with
  | [] => Some []
  | r :: rs => h ← matchRule pf r; hs ← fingerprint_Match rs pf; Some (h ++ hs)
  end.

(** ** Lemmas *)

Lemma sampleHit_total data loc : exists s, sampleHit data loc = Some s /\ slen s <= 300.
Proof.
  destruct loc as [i j]. unfold sampleHit. case_if; [by exists ""|].
  pose proof (len_nonneg data). slice_step. case_if.
  - destruct (slice_to_len t 300) as (u & -> & Hu); [lia|]. simpl. exists (str u).
    unfold slen. rewrite byt_str. split; [done|lia].
  - simpl. exists (str t). unfold slen. rewrite byt_str. split; [done|lia].
Qed.

(** The reference definition: the rules that apply, inspect a non-empty part
    of the packet and match it, in rule order. *)
Definition fires (pf : PacketFeature) (cr : compiledRule) : bool :=
  ruleApplies (cr_rule cr) pf
  && negb (len (targetPayload (cr_rule cr) pf) =? 0)
  && bool_decide (is_Some (regexp_FindIndex (cr_re cr) (targetPayload (cr_rule cr) pf))).

Definition hit_of (pf : PacketFeature) (cr : compiledRule) (h : FingerprintHit) : Prop :=
  let rule := cr_rule cr in
  let target := targetPayload rule pf in
  fh_RuleID h = pr_ID rule /\ fh_Type h = pr_Type rule /\ fh_Name h = pr_Name rule
  /\ fh_HitTimeUsec h = pf_PacketTimeUsec pf
  /\ regexp_FindIndex (cr_re cr) target = Some (fh_MatchFrom h, fh_MatchTo h)
  /\ (fh_MatchFrom h < fh_MatchTo h ->
      byt (fh_Sample h) = take 300 (take (Z.to_nat (fh_MatchTo h - fh_MatchFrom h))
                                      (drop (Z.to_nat (fh_MatchFrom h)) target))).

Lemma sampleHit_text `{!GoRegexpLaws} data i j s :
  0 <= i <= j /\ j <= len data -> sampleHit data (i, j) = Some s -> i < j ->
  byt s = take 300 (take (Z.to_nat (j - i)) (drop (Z.to_nat i) data)).
Proof.
  intros [Hij Hj] Hs Hlt. unfold sampleHit in Hs.
  assert ((i <? 0) || (len data <? j) || (j <=? i) = false) as E.
  { apply orb_false_iff. split; [apply orb_false_iff; split; apply Z.ltb_ge; lia|apply Z.leb_gt; lia]. }
  rewrite E, slice_ok in Hs by lia. cbn [mbind option_bind] in Hs.
  set (m := take (Z.to_nat (j - i)) (drop (Z.to_nat i) data)) in *.
  case_if_in Hs.
  - rewrite slice_to_ok in Hs by lia. simplify_eq/=. by rewrite byt_str.
  - simplify_eq/=. rewrite byt_str. rewrite take_ge; [done|]. unfold len in *. lia.
Qed.

(** A rule either fires with one faithful hit or contributes nothing. *)
Lemma matchRule_spec `{!GoRegexpLaws} pf cr :
  exists hs, matchRule pf cr = Some hs /\
  if fires pf cr then exists h, hs = [h] /\ hit_of pf cr h else hs = [].
Proof.
  unfold matchRule, fires. destruct (ruleApplies (cr_rule cr) pf); simpl; [|by eauto].
  case_if; simpl; [by eauto|].
  destruct (regexp_FindIndex (cr_re cr) (targetPayload (cr_rule cr) pf)) as [[i j]|] eqn:E; simpl.
  - destruct (sampleHit_total (targetPayload (cr_rule cr) pf) (i, j)) as (s & Hs & _).
    rewrite Hs. cbn [mbind option_bind]. eexists; split; [done|]. eexists; split; [done|].
    repeat split; simpl; try done. intros Hlt. eapply sampleHit_text; [|exact Hs|exact Hlt].
    by eapply FindIndex_range.
  - eauto.
Qed.

Lemma fingerprint_Match_spec `{!GoRegexpLaws} (rules : list compiledRule) (pf : PacketFeature) :
  exists hs, fingerprint_Match rules pf = Some hs
  /\ Forall2 (hit_of pf) (filter (fun cr => fires pf cr = true) rules) hs.
Proof.
  induction rules as [|cr rules IH]; simpl; [by eauto|].
  destruct (matchRule_spec pf cr) as (h & -> & Hh). destruct IH as (hs & -> & Hhs).
  cbn [mbind option_bind]. eexists; split; [done|].
  destruct (fires pf cr) eqn:E.
  - rewrite filter_cons_True by done. destruct Hh as (h' & -> & Hh). by constructor.
  - rewrite filter_cons_False by congruence. subst h. done.
Qed.

(** The fingerprint engine reports exactly the rules that fire: Match
    never panics, its hits correspond one to one and in order to the compiled
    rules that apply to the packet and match a non-empty part of it, and each
    hit carries the rule, the reported bounds and the matched text cut to 300
    bytes. *)
Theorem fingerprint_Match_exact `{!GoRegexpLaws} (rules : list compiledRule) (pf : PacketFeature) :
  exists hs, fingerprint_Match rules pf = Some hs
  /\ Forall2 (hit_of pf) (filter (fun cr => fires pf cr = true) rules) hs.
Proof. apply fingerprint_Match_spec. Qed.
End fingerprint.

#[global] Instance literal_regexp_laws : @GoRegexpLaws literal_regexp.
Proof.
  constructor. intros re b i j. simpl. destruct (bytes_Index b re) as [k|] eqn:E; [|done].
  intros [= <- <-]. apply bytes_Index_bound in E. unfold len. lia.
Qed.

Lemma fingerprint_Match_exact_witness :
  let rule := zero_PatternRule <| pr_ID := "r1" |> <| pr_Protocol := "TCP" |> <| pr_Regex := "evil" |> in
  let pf := zero_PacketFeature <| pf_Proto := "tcp" |> <| pf_Payload := byt "an evil text" |> in
  exists hs,
    @fingerprint_Match ascii_unicode literal_regexp [@mkCompiledRule literal_regexp rule (byt "evil")] pf = Some hs
    /\ length hs = 1%nat.
Proof.
  intros rule pf.
  pose proof (@fingerprint_Match_exact ascii_unicode literal_regexp literal_regexp_laws
    [@mkCompiledRule literal_regexp rule (byt "evil")] pf) as (hs & Hm & Hf).
  exists hs. split; [exact Hm|]. apply Forall2_length in Hf. rewrite <-Hf. vm_compute. reflexivity.
Defined.
