(* ===== verification/Flow.v ===== *)
(** * Flow: the per-flow and per-conversation aggregator

    internal/flow (flow.go, aggregator.go).  The wall clock is an argument:
    [Update] reads it when it has to make room, when it stamps the flow and
    when it stamps the conversation.  Counters are uint64 and wrap. *)

From S2P Require Import Prelude GoStrings GoNet Events Parser Fingerprint.

(** Counters of both directions of a conversation. *)
Record PairStats := mkPairStats {
  ps_ClientPackets : Z;
  ps_ServerPackets : Z;
  ps_ClientBytes : Z;
  ps_ServerBytes : Z;
  ps_ClientWireBytes : Z;
  ps_ServerWireBytes : Z;
  ps_FirstTime : Z;
  ps_LastTime : Z
}.
#[global] Instance settable_PairStats : Settable PairStats := fun r =>
  mkPairStats (ps_ClientPackets r) (ps_ServerPackets r) (ps_ClientBytes r) (ps_ServerBytes r)
    (ps_ClientWireBytes r) (ps_ServerWireBytes r) (ps_FirstTime r) (ps_LastTime r).
Definition zero_PairStats : PairStats := mkPairStats 0 0 0 0 0 0 0 0.

(** What is known of a flow when a packet arrives. *)
Record FlowFeature := mkFlowFeature {
  ff_FirstTime : Z;
  ff_LastTime : Z;
  ff_SrcIP : string;
  ff_SrcPort : Z;
  ff_DstIP : string;
  ff_DstPort : Z;
  ff_Proto : string;
  ff_Packets : Z;
  ff_Bytes : Z;
  ff_WireBytes : Z;
  ff_HTTPHost : string;
  ff_HTTPURL : string;
  ff_DNSQuery : string;
  ff_SNI : string;
  ff_HTTPMethod : string;
  ff_UserAgent : string;
  ff_HTTPHeaders : gmap string string;
  ff_HTTPBodySample : string;
  ff_HTTPStatusCode : Z;
  ff_DNSQType : Z;
  ff_DNSAnswers : list string;
  ff_PayloadSample : string;
  ff_ICMPSeq : Z;
  ff_RawPacket : bytes;
  ff_RawPayload : bytes;
  ff_CapturedLen : Z;
  ff_TriggerWireLen : Z;
  ff_MessageDirection : string;
  ff_DirectionSource : string;
  ff_DirectionConfidence : string;
  ff_TransportDirection : string;
  ff_PacketSequence : Z;
  ff_FingerprintHits : list FingerprintHit;
  ff_IntelHits : list ThreatIntel;
  ff_EvidenceFile : string;
  ff_PacketTimeUsec : Z;
  ff_PairStats : option PairStats
}.
#[global] Instance settable_FlowFeature : Settable FlowFeature := fun r =>
  mkFlowFeature (ff_FirstTime r) (ff_LastTime r) (ff_SrcIP r) (ff_SrcPort r) (ff_DstIP r)
    (ff_DstPort r) (ff_Proto r) (ff_Packets r) (ff_Bytes r) (ff_WireBytes r) (ff_HTTPHost r)
    (ff_HTTPURL r) (ff_DNSQuery r) (ff_SNI r) (ff_HTTPMethod r) (ff_UserAgent r) (ff_HTTPHeaders r)
    (ff_HTTPBodySample r) (ff_HTTPStatusCode r) (ff_DNSQType r) (ff_DNSAnswers r)
    (ff_PayloadSample r) (ff_ICMPSeq r) (ff_RawPacket r) (ff_RawPayload r) (ff_CapturedLen r)
    (ff_TriggerWireLen r) (ff_MessageDirection r) (ff_DirectionSource r) (ff_DirectionConfidence r)
    (ff_TransportDirection r) (ff_PacketSequence r) (ff_FingerprintHits r) (ff_IntelHits r)
    (ff_EvidenceFile r) (ff_PacketTimeUsec r) (ff_PairStats r).
Definition zero_FlowFeature : FlowFeature := mkFlowFeature 0 0 "" 0 "" 0 "" 0 0 0 "" "" "" "" "" ""
  ∅ "" 0 0 [] "" 0 [] [] 0 0 "" "" "" "" 0 [] [] "" 0 None.

(** ** Conversation keys (flow.go) *)

(** [fmt.Sprintf("%s:%d-%s:%d-%s", ...)] *)
Definition flow_key (srcIP : string) (srcPort : Z) (dstIP : string) (dstPort : Z) (proto : string) : string :=
  srcIP +:+ ":" +:+ strconv_Itoa srcPort +:+ "-" +:+ dstIP +:+ ":" +:+ strconv_Itoa dstPort +:+ "-" +:+ proto.

(** The test of PairKey: the source endpoint is the larger one. *)
Definition swapped (srcIP : string) (srcPort : Z) (dstIP : string) (dstPort : Z) : bool :=
  let a := ip_bytes (net_ParseIP srcIP) in
  let b := ip_bytes (net_ParseIP dstIP) in
  ip_gt a b || (bool_decide (a = b) && (dstPort <? srcPort)).

Definition PairKey (srcIP : string) (srcPort : Z) (dstIP : string) (dstPort : Z) (proto : string) : string :=
  if swapped srcIP srcPort dstIP dstPort
  then flow_key dstIP dstPort srcIP srcPort proto
  else flow_key srcIP srcPort dstIP dstPort proto.

Definition IsForward (srcIP : string) (srcPort : Z) (dstIP : string) (dstPort : Z) (proto : string) : bool :=
  seqb (PairKey srcIP srcPort dstIP dstPort proto) (flow_key srcIP srcPort dstIP dstPort proto).

(** ** The aggregator (aggregator.go) *)

Record flowState := mkFlowState { fs_feature : FlowFeature; fs_lastSeen : Z }.
#[global] Instance settable_flowState : Settable flowState := fun r =>
  mkFlowState (fs_feature r) (fs_lastSeen r).

Record pairState := mkPairState {
  pt_clientPackets : Z; pt_serverPackets : Z;
  pt_clientBytes : Z; pt_serverBytes : Z;
  pt_clientWireBytes : Z; pt_serverWireBytes : Z;
  pt_firstTime : Z; pt_lastTime : Z; pt_lastSeen : Z
}.
#[global] Instance settable_pairState : Settable pairState := fun r =>
  mkPairState (pt_clientPackets r) (pt_serverPackets r) (pt_clientBytes r) (pt_serverBytes r)
    (pt_clientWireBytes r) (pt_serverWireBytes r) (pt_firstTime r) (pt_lastTime r) (pt_lastSeen r).

Record Aggregator := mkAggregator {
  ag_flows : gmap string flowState;
  ag_pairs : gmap string pairState;
  ag_maxFlows : Z;
  ag_idleTimeout : Z;
  ag_packetSeq : Z
}.
#[global] Instance settable_Aggregator : Settable Aggregator := fun r =>
  mkAggregator (ag_flows r) (ag_pairs r) (ag_maxFlows r) (ag_idleTimeout r) (ag_packetSeq r).

Definition defaultMaxFlows : Z := 1000000.
Definition defaultIdleTimeout : Z := 120 * 1000000000.

Definition NewAggregator (maxFlows idleTimeout : Z) : Aggregator :=
  let maxFlows := if maxFlows <=? 0 then defaultMaxFlows else maxFlows in
  let idleTimeout := if idleTimeout <=? 0 then defaultIdleTimeout else idleTimeout in
  mkAggregator ∅ ∅ maxFlows idleTimeout 0.

(** [now.Sub(t)], which saturates at the bounds of a Duration. *)
Definition time_Sub (now t : Z) : Z := Z.max minInt64 (Z.min maxInt64 (now - t)).

Definition firstNonEmpty (old next : string) : string := if negb (seqb old "") then old else next.

Definition flows_Len (a : Aggregator) : Z := Z.of_nat (size (ag_flows a)).

Section aggregator.
Context `{RangeOrder}.

Definition flow_cleanupLocked (a : Aggregator) (now : Z) : Aggregator * Z :=
  let '(flows, removed) :=
    range_delete (fun _ st => ag_idleTimeout a <=? time_Sub now (fs_lastSeen st)) (ag_flows a) in
  let a := a <| ag_flows := flows |> in
  let '(pairs, _) :=
    range_delete (fun _ ps => ag_idleTimeout a <=? time_Sub now (pt_lastSeen ps)) (ag_pairs a) in
  (a <| ag_pairs := pairs |>, removed).

Definition flow_Cleanup (a : Aggregator) (now : Z) : Aggregator * Z := flow_cleanupLocked a now.

Definition attachAppContext (out : FlowFeature) (pf : PacketFeature) : FlowFeature :=
  let out := out
    <| ff_HTTPMethod := pf_HTTPMethod pf |>
    <| ff_UserAgent := pf_UserAgent pf |>
    <| ff_HTTPHeaders := pf_HTTPHeaders pf |>
    <| ff_HTTPBodySample := pf_HTTPBodySample pf |>
    <| ff_DNSQType := pf_DNSQType pf |>
    <| ff_DNSAnswers := pf_DNSAnswers pf |>
    <| ff_PayloadSample := pf_PayloadSample pf |>
    <| ff_ICMPSeq := pf_ICMPSeq pf |>
    <| ff_HTTPStatusCode := pf_HTTPStatusCode pf |>
    <| ff_RawPacket := pf_RawPacket pf |>
    <| ff_RawPayload := pf_Payload pf |>
    <| ff_CapturedLen := pf_CapturedLen pf |>
    <| ff_TriggerWireLen := pf_WireLen pf |>
    <| ff_MessageDirection := pf_MessageDirection pf |> in
  out
    <| ff_HTTPHost := firstNonEmpty (pf_HTTPHost pf) (ff_HTTPHost out) |>
    <| ff_HTTPURL := firstNonEmpty (pf_HTTPURL pf) (ff_HTTPURL out) |>
    <| ff_DNSQuery := firstNonEmpty (pf_DNSQuery pf) (ff_DNSQuery out) |>
    <| ff_SNI := firstNonEmpty (pf_SNI pf) (ff_SNI out) |>.

Definition transientFeature (pf : PacketFeature) (fpHits : list FingerprintHit)
    (intelHits : list ThreatIntel) (packetSeq : Z) : FlowFeature :=
  zero_FlowFeature
    <| ff_FirstTime := pf_PacketTimeUsec pf |>
    <| ff_LastTime := pf_PacketTimeUsec pf |>
    <| ff_PacketTimeUsec := pf_PacketTimeUsec pf |>
    <| ff_SrcIP := pf_SrcIP pf |> <| ff_SrcPort := pf_SrcPort pf |>
    <| ff_DstIP := pf_DstIP pf |> <| ff_DstPort := pf_DstPort pf |>
    <| ff_Proto := pf_Proto pf |>
    <| ff_Packets := 1 |>
    <| ff_Bytes := len (pf_Payload pf) |>
    <| ff_WireBytes := pf_WireLen pf |>
    <| ff_RawPacket := pf_RawPacket pf |>
    <| ff_RawPayload := pf_Payload pf |>
    <| ff_CapturedLen := pf_CapturedLen pf |>
    <| ff_TriggerWireLen := pf_WireLen pf |>
    <| ff_MessageDirection := pf_MessageDirection pf |>
    <| ff_PacketSequence := packetSeq |>
    <| ff_HTTPHost := pf_HTTPHost pf |> <| ff_HTTPURL := pf_HTTPURL pf |>
    <| ff_DNSQuery := pf_DNSQuery pf |> <| ff_SNI := pf_SNI pf |>
    <| ff_EvidenceFile := pf_EvidenceFile pf |>
    <| ff_FingerprintHits := fpHits |> <| ff_IntelHits := intelHits |>.

(** The composite literal of a new flow. *)
Definition new_feature (pf : PacketFeature) : FlowFeature :=
  zero_FlowFeature
    <| ff_FirstTime := pf_PacketTimeUsec pf |>
    <| ff_SrcIP := pf_SrcIP pf |> <| ff_SrcPort := pf_SrcPort pf |>
    <| ff_DstIP := pf_DstIP pf |> <| ff_DstPort := pf_DstPort pf |>
    <| ff_Proto := pf_Proto pf |>.

(** The counters and names that persist on the stored flow. *)
Definition bump_feature (pf : PacketFeature) (f : FlowFeature) : FlowFeature :=
  f <| ff_LastTime := pf_PacketTimeUsec pf |>
    <| ff_PacketTimeUsec := pf_PacketTimeUsec pf |>
    <| ff_Packets := u64 (ff_Packets f + 1) |>
    <| ff_Bytes := u64 (ff_Bytes f + len (pf_Payload pf)) |>
    <| ff_WireBytes := u64 (ff_WireBytes f + pf_WireLen pf) |>
    <| ff_HTTPHost := firstNonEmpty (ff_HTTPHost f) (pf_HTTPHost pf) |>
    <| ff_HTTPURL := firstNonEmpty (ff_HTTPURL f) (pf_HTTPURL pf) |>
    <| ff_DNSQuery := firstNonEmpty (ff_DNSQuery f) (pf_DNSQuery pf) |>
    <| ff_SNI := firstNonEmpty (ff_SNI f) (pf_SNI pf) |>
    <| ff_EvidenceFile := firstNonEmpty (ff_EvidenceFile f) (pf_EvidenceFile pf) |>.

Definition bump_pair (pf : PacketFeature) (nowPair : Z) (ps : pairState) : pairState :=
  let ps := ps <| pt_lastTime := pf_PacketTimeUsec pf |> in
  let ps := if (0 <? pf_PacketTimeUsec pf)
               && ((pt_firstTime ps =? 0) || (pf_PacketTimeUsec pf <? pt_firstTime ps))
            then ps <| pt_firstTime := pf_PacketTimeUsec pf |> else ps in
  let ps := ps <| pt_lastSeen := nowPair |> in
  if IsForward (pf_SrcIP pf) (pf_SrcPort pf) (pf_DstIP pf) (pf_DstPort pf) (pf_Proto pf)
  then ps <| pt_clientPackets := u64 (pt_clientPackets ps + 1) |>
          <| pt_clientBytes := u64 (pt_clientBytes ps + len (pf_Payload pf)) |>
          <| pt_clientWireBytes := u64 (pt_clientWireBytes ps + pf_WireLen pf) |>
  else ps <| pt_serverPackets := u64 (pt_serverPackets ps + 1) |>
          <| pt_serverBytes := u64 (pt_serverBytes ps + len (pf_Payload pf)) |>
          <| pt_serverWireBytes := u64 (pt_serverWireBytes ps + pf_WireLen pf) |>.

Definition pair_stats (ps : pairState) : PairStats :=
  mkPairStats (pt_clientPackets ps) (pt_serverPackets ps) (pt_clientBytes ps) (pt_serverBytes ps)
    (pt_clientWireBytes ps) (pt_serverWireBytes ps) (pt_firstTime ps) (pt_lastTime ps).

(** What happens once the flow has a state. *)
Definition update_tracked (a : Aggregator) (st : flowState) (pf : PacketFeature)
    (fpHits : list FingerprintHit) (intelHits : list ThreatIntel) (packetSeq nowFlow nowPair : Z)
    : Aggregator * FlowFeature :=
  let key := flow_key (pf_SrcIP pf) (pf_SrcPort pf) (pf_DstIP pf) (pf_DstPort pf) (pf_Proto pf) in
  let st := mkFlowState (bump_feature pf (fs_feature st)) nowFlow in
  let a := a <| ag_flows ::= <[key := st]> |> in
  let out := (fs_feature st)
    <| ff_FingerprintHits := fpHits |> <| ff_IntelHits := intelHits |>
    <| ff_PacketSequence := packetSeq |> in
  let out := attachAppContext out pf in
  let pairKey := PairKey (pf_SrcIP pf) (pf_SrcPort pf) (pf_DstIP pf) (pf_DstPort pf) (pf_Proto pf) in
  let ps := match ag_pairs a !! pairKey with
            | Some ps => ps
            | None => mkPairState 0 0 0 0 0 0 (pf_PacketTimeUsec pf) 0 0
            end in
  let ps := bump_pair pf nowPair ps in
  (a <| ag_pairs ::= <[pairKey := ps]> |>, out <| ff_PairStats := Some (pair_stats ps) |>).

Definition flow_Update (a : Aggregator) (pf : PacketFeature) (fpHits : list FingerprintHit)
    (intelHits : list ThreatIntel) (nowCleanup nowFlow nowPair : Z) : Aggregator * FlowFeature :=
  let key := flow_key (pf_SrcIP pf) (pf_SrcPort pf) (pf_DstIP pf) (pf_DstPort pf) (pf_Proto pf) in
  let a := a <| ag_packetSeq := u64 (ag_packetSeq a + 1) |> in
  let packetSeq := ag_packetSeq a in
  match ag_flows a !! key with
  | Some st => update_tracked a st pf fpHits intelHits packetSeq nowFlow nowPair
  | None =>
      let fresh := mkFlowState (new_feature pf) 0 in
      if ag_maxFlows a <=? flows_Len a then
        let '(a, _) := flow_cleanupLocked a nowCleanup in
        if ag_maxFlows a <=? flows_Len a
        then (a, transientFeature pf fpHits intelHits packetSeq)
        else update_tracked a fresh pf fpHits intelHits packetSeq nowFlow nowPair
      else update_tracked a fresh pf fpHits intelHits packetSeq nowFlow nowPair
  end.
End aggregator.

(** ** The specification: packet histories

    The abstract state of the aggregator keeps, for every live flow and every
    live conversation, the packets counted so far and when it was last seen.
    [conc] computes the concrete tables from it, with each counter written as
    a sum over the history. *)

Definition total (f : PacketFeature -> Z) (ps : list PacketFeature) : Z :=
  foldr (fun p acc => f p + acc) 0 ps.
Definition payload_len (pf : PacketFeature) : Z := len (pf_Payload pf).

Definition first_of (f : PacketFeature -> string) (ps : list PacketFeature) : string :=
  default ""%string (head (filter (fun s => s <> ""%string) (f <$> ps))).

(** The earliest positive packet time, 0 when there is none. *)
Definition earliest (ps : list PacketFeature) : Z :=
  match filter (fun t => 0 < t) (pf_PacketTimeUsec <$> ps) with
  | [] => 0
  | t :: r => foldl Z.min t r
  end.

Definition fwd (pf : PacketFeature) : bool :=
  IsForward (pf_SrcIP pf) (pf_SrcPort pf) (pf_DstIP pf) (pf_DstPort pf) (pf_Proto pf).
Definition from_client (ps : list PacketFeature) : list PacketFeature := filter (fun p => fwd p = true) ps.
Definition from_server (ps : list PacketFeature) : list PacketFeature := filter (fun p => fwd p = false) ps.

Definition packet_key (pf : PacketFeature) : string :=
  flow_key (pf_SrcIP pf) (pf_SrcPort pf) (pf_DstIP pf) (pf_DstPort pf) (pf_Proto pf).
Definition packet_pair (pf : PacketFeature) : string :=
  PairKey (pf_SrcIP pf) (pf_SrcPort pf) (pf_DstIP pf) (pf_DstPort pf) (pf_Proto pf).

Definition flow_summary (ps : list PacketFeature) : FlowFeature :=
  match ps, last ps with
  | p0 :: _, Some p1 =>
      zero_FlowFeature
        <| ff_FirstTime := pf_PacketTimeUsec p0 |>
        <| ff_LastTime := pf_PacketTimeUsec p1 |>
        <| ff_PacketTimeUsec := pf_PacketTimeUsec p1 |>
        <| ff_SrcIP := pf_SrcIP p0 |> <| ff_SrcPort := pf_SrcPort p0 |>
        <| ff_DstIP := pf_DstIP p0 |> <| ff_DstPort := pf_DstPort p0 |>
        <| ff_Proto := pf_Proto p0 |>
        <| ff_Packets := u64 (len ps) |>
        <| ff_Bytes := u64 (total payload_len ps) |>
        <| ff_WireBytes := u64 (total pf_WireLen ps) |>
        <| ff_HTTPHost := first_of pf_HTTPHost ps |>
        <| ff_HTTPURL := first_of pf_HTTPURL ps |>
        <| ff_DNSQuery := first_of pf_DNSQuery ps |>
        <| ff_SNI := first_of pf_SNI ps |>
        <| ff_EvidenceFile := first_of pf_EvidenceFile ps |>
  | _, _ => zero_FlowFeature
  end.

Definition pair_summary (ps : list PacketFeature) : PairStats :=
  mkPairStats (u64 (len (from_client ps))) (u64 (len (from_server ps)))
    (u64 (total payload_len (from_client ps))) (u64 (total payload_len (from_server ps)))
    (u64 (total pf_WireLen (from_client ps))) (u64 (total pf_WireLen (from_server ps)))
    (earliest ps) (default 0 (pf_PacketTimeUsec <$> last ps)).

Record FlowHist := mkFlowHist {
  h_flows : gmap string (list PacketFeature * Z);
  h_pairs : gmap string (list PacketFeature * Z);
  h_max : Z; h_idle : Z; h_seq : Z
}.

Definition conc_flow (h : list PacketFeature * Z) : flowState := mkFlowState (flow_summary h.1) h.2.
Definition conc_pair (h : list PacketFeature * Z) : pairState :=
  let s := pair_summary h.1 in
  mkPairState (ps_ClientPackets s) (ps_ServerPackets s) (ps_ClientBytes s) (ps_ServerBytes s)
    (ps_ClientWireBytes s) (ps_ServerWireBytes s) (ps_FirstTime s) (ps_LastTime s) h.2.
Definition conc (h : FlowHist) : Aggregator :=
  mkAggregator (conc_flow <$> h_flows h) (conc_pair <$> h_pairs h) (h_max h) (h_idle h) (h_seq h).

Definition live (idleTimeout now : Z) (h : list PacketFeature * Z) : Prop := time_Sub now h.2 < idleTimeout.
#[global] Instance live_dec idleTimeout now h : Decision (live idleTimeout now h).
Proof. unfold live. apply _. Defined.

Definition hist_cleanup (h : FlowHist) (now : Z) : FlowHist :=
  mkFlowHist (filter (fun p => live (h_idle h) now p.2) (h_flows h))
    (filter (fun p => live (h_idle h) now p.2) (h_pairs h)) (h_max h) (h_idle h) (h_seq h).

Definition history (m : gmap string (list PacketFeature * Z)) (k : string) : list PacketFeature :=
  default [] (fst <$> m !! k).

Definition hist_record (h : FlowHist) (pf : PacketFeature) (nowFlow nowPair : Z) : FlowHist :=
  mkFlowHist (<[packet_key pf := (history (h_flows h) (packet_key pf) ++ [pf], nowFlow)]> (h_flows h))
    (<[packet_pair pf := (history (h_pairs h) (packet_pair pf) ++ [pf], nowPair)]> (h_pairs h))
    (h_max h) (h_idle h) (h_seq h).

(** A packet is counted unless the table is full of live flows and none of
    them is its own; the flag says whether it was. *)
Definition hist_update (h : FlowHist) (pf : PacketFeature) (nowCleanup nowFlow nowPair : Z) : FlowHist * bool :=
  let h := mkFlowHist (h_flows h) (h_pairs h) (h_max h) (h_idle h) (u64 (h_seq h + 1)) in
  let room (h : FlowHist) := Z.of_nat (size (h_flows h)) <? h_max h in
  if bool_decide (is_Some (h_flows h !! packet_key pf)) || room h
  then (hist_record h pf nowFlow nowPair, true)
  else let h := hist_cleanup h nowCleanup in
       if room h then (hist_record h pf nowFlow nowPair, true) else (h, false).

(** Histories the aggregator can be in. *)
Inductive hist_reach : FlowHist -> Prop :=
| hist_new maxFlows idleTimeout :
    0 < maxFlows -> hist_reach (mkFlowHist ∅ ∅ maxFlows idleTimeout 0)
| hist_packet h pf nowCleanup nowFlow nowPair :
    hist_reach h -> 0 <= pf_PacketTimeUsec pf ->
    hist_reach (hist_update h pf nowCleanup nowFlow nowPair).1
| hist_tick h now : hist_reach h -> hist_reach (hist_cleanup h now).

(** ** Lemmas *)

Lemma u64_add_l a b : u64 (u64 a + b) = u64 (a + b).
Proof. unfold u64. apply Zplus_mod_idemp_l. Qed.

Lemma total_snoc f ps p : total f (ps ++ [p]) = total f ps + f p.
Proof. unfold total. induction ps as [|q ps IH]; simpl; [lia|]. rewrite IH. lia. Qed.

Lemma first_of_snoc f ps p : first_of f (ps ++ [p]) = firstNonEmpty (first_of f ps) (f p).
Proof.
  unfold first_of, firstNonEmpty. rewrite fmap_app, filter_app.
  destruct (filter (fun s => s <> ""%string) (f <$> ps)) as [|s r] eqn:E; simpl.
  - destruct (decide (f p = ""%string)) as [->|Hne]; [by rewrite filter_cons_False by naive_solver|].
    by rewrite filter_cons_True.
  - assert (s <> ""%string) as Hs.
    { assert (s ∈ filter (fun s => s <> ""%string) (f <$> ps)) as Hin by (rewrite E; left).
      by apply list_elem_of_filter in Hin as [? _]. }
    unfold seqb. by rewrite bool_decide_eq_false_2.
Qed.

Lemma foldl_min_le t r : foldl Z.min t r <= t.
Proof. revert t; induction r as [|x r IH]; intros t; simpl; [lia|]. specialize (IH (Z.min t x)). lia. Qed.
Lemma foldl_min_pos t r : 0 < t -> Forall (fun x => 0 < x) r -> 0 < foldl Z.min t r.
Proof.
  intros Ht Hr. revert t Ht. induction Hr as [|x r Hx Hr IH]; intros t Ht; simpl; [done|]. apply IH. lia.
Qed.

Lemma earliest_snoc ps p :
  0 <= pf_PacketTimeUsec p ->
  earliest (ps ++ [p])
  = if (0 <? pf_PacketTimeUsec p) && ((earliest ps =? 0) || (pf_PacketTimeUsec p <? earliest ps))
    then pf_PacketTimeUsec p else earliest ps.
Proof.
  intros Hp. unfold earliest. rewrite fmap_app, filter_app. set (l := filter _ (_ <$> ps)).
  change (pf_PacketTimeUsec <$> [p]) with [pf_PacketTimeUsec p].
  assert (Forall (fun t => 0 < t) l) as Hl.
  { apply Forall_forall. intros x [Hx _]%list_elem_of_filter. done. }
  destruct (Z.ltb_spec 0 (pf_PacketTimeUsec p)) as [Hlt|Hge].
  - rewrite (filter_cons_True _ (pf_PacketTimeUsec p)) by done. change (filter (fun t => 0 < t) []) with (@nil Z).
    destruct l as [|t r]; simpl; [done|]. inversion_clear Hl. rewrite foldl_app. simpl.
    assert (0 < foldl Z.min t r) by by apply foldl_min_pos.
    destruct (Z.eqb_spec (foldl Z.min t r) 0); [lia|]. simpl. case_if; lia.
  - rewrite (filter_cons_False _ (pf_PacketTimeUsec p)) by lia.
    change (filter (fun t => 0 < t) []) with (@nil Z). by rewrite app_nil_r.
Qed.

Lemma flow_summary_snoc ps pf :
  flow_summary (ps ++ [pf])
  = bump_feature pf (if bool_decide (ps = []) then new_feature pf else flow_summary ps).
Proof.
  case_if; [subst ps; simpl|].
  { unfold flow_summary, bump_feature, new_feature, zero_FlowFeature, len, total, payload_len. simpl.
    rewrite !Z.add_0_r. change (u64 1) with (u64 (0 + 1)).
    pose proof (first_of_snoc pf_HTTPHost [] pf) as E1. pose proof (first_of_snoc pf_HTTPURL [] pf) as E2.
    pose proof (first_of_snoc pf_DNSQuery [] pf) as E3. pose proof (first_of_snoc pf_SNI [] pf) as E4.
    pose proof (first_of_snoc pf_EvidenceFile [] pf) as E5. simpl in *.
    by rewrite E1, E2, E3, E4, E5. }
  destruct ps as [|p0 ps]; [done|]. unfold flow_summary.
  change ((p0 :: ps) ++ [pf]) with (p0 :: (ps ++ [pf])). cbv iota beta.
  change (p0 :: ps ++ [pf]) with ((p0 :: ps) ++ [pf]). rewrite last_snoc.
  rewrite !first_of_snoc, !total_snoc, len_app. change (len [pf]) with 1.
  destruct (last (p0 :: ps)) as [p1|] eqn:E; [|by apply last_None in E].
  unfold bump_feature, zero_FlowFeature. cbn -[last u64 total first_of len].
  rewrite !u64_add_l. reflexivity.
Qed.

Lemma from_client_snoc ps p : from_client (ps ++ [p]) = from_client ps ++ (if fwd p then [p] else []).
Proof. unfold from_client. rewrite filter_app. by destruct (fwd p) eqn:E; [rewrite filter_cons_True|rewrite filter_cons_False by congruence]. Qed.
Lemma from_server_snoc ps p : from_server (ps ++ [p]) = from_server ps ++ (if fwd p then [] else [p]).
Proof. unfold from_server. rewrite filter_app. by destruct (fwd p) eqn:E; [rewrite filter_cons_False by congruence|rewrite filter_cons_True]. Qed.

Lemma bump_pair_conc pf now ps t :
  0 <= pf_PacketTimeUsec pf -> bump_pair pf now (conc_pair (ps, t)) = conc_pair (ps ++ [pf], now).
Proof.
  intros Hp. unfold bump_pair, conc_pair, pair_summary. cbn [fst snd].
  rewrite from_client_snoc, from_server_snoc, earliest_snoc, last_snoc by done. fold (fwd pf).
  destruct (fwd pf) eqn:E; rewrite ?app_nil_r, ?total_snoc, ?len_app; change (len [pf]) with 1;
    cbn -[u64 total from_client from_server len earliest Z.ltb];
    destruct ((0 <? pf_PacketTimeUsec pf) && _) eqn:Ec;
    cbn -[u64 total from_client from_server len earliest Z.ltb]; rewrite ?u64_add_l; reflexivity.
Qed.

Lemma bump_pair_new pf now :
  0 <= pf_PacketTimeUsec pf ->
  bump_pair pf now (mkPairState 0 0 0 0 0 0 (pf_PacketTimeUsec pf) 0 0) = conc_pair ([pf], now).
Proof.
  intros Hp. pose proof (bump_pair_conc pf now [] 0 Hp) as Hb. simpl app in Hb. rewrite <-Hb.
  unfold bump_pair, conc_pair, pair_summary, earliest. simpl.
  destruct (Z.ltb_spec 0 (pf_PacketTimeUsec pf)); simpl.
  - destruct (Z.eqb_spec (pf_PacketTimeUsec pf) 0); [lia|]. simpl. by rewrite Z.ltb_irrefl.
  - by replace (pf_PacketTimeUsec pf) with 0 by lia.
Qed.

Definition nonempty_hist (h : FlowHist) : Prop :=
  map_Forall (fun _ p => p.1 <> []) (h_flows h) /\ map_Forall (fun _ p => p.1 <> []) (h_pairs h).

Lemma hist_reach_nonempty h : hist_reach h -> nonempty_hist h.
Proof.
  assert (forall h now, nonempty_hist h -> nonempty_hist (hist_cleanup h now)) as Hc.
  { intros h0 now [Hf Hp]. split; intros k v Hk; simpl in Hk;
      apply map_lookup_filter_Some in Hk as [Hk _]; eauto. }
  assert (forall h pf n1 n2, nonempty_hist h -> nonempty_hist (hist_record h pf n1 n2)) as Hr.
  { intros h0 pf n1 n2 [Hf Hp]. split; simpl; apply map_Forall_insert_2; try done;
      simpl; by intros [_ ?]%app_eq_nil. }
  induction 1 as [m i Hm|h pf n1 n2 n3 _ IH _|h now _ IH]; [split; apply map_Forall_empty| |by apply Hc].
  unfold hist_update. cbv zeta. case_if; [by apply Hr|]. case_if; [|by apply Hc]. by apply Hr, Hc.
Qed.

Section refinement.
Context `{RangeOrder}.

Lemma cleanup_conc h now :
  flow_cleanupLocked (conc h) now
  = (conc (hist_cleanup h now), Z.of_nat (size (h_flows h)) - Z.of_nat (size (h_flows (hist_cleanup h now)))).
Proof.
  assert (forall {V} (c : list PacketFeature * Z -> V) (seen : V -> Z) (m : gmap string (list PacketFeature * Z)),
    (forall x, seen (c x) = x.2) ->
    filter (fun p => (h_idle h <=? time_Sub now (seen p.2)) = false) (c <$> m)
    = c <$> filter (fun p => live (h_idle h) now p.2) m) as Hf.
  { intros V c seen m Hs. rewrite map_filter_fmap. f_equal. apply map_filter_ext.
    intros k x _. simpl. rewrite Hs. unfold live. apply Z.leb_gt. }
  unfold flow_cleanupLocked. rewrite !range_delete_filter. unfold conc, hist_cleanup.
  cbn -[conc_flow conc_pair].
  rewrite (Hf _ conc_flow fs_lastSeen), (Hf _ conc_pair pt_lastSeen) by done.
  by rewrite !map_size_fmap.
Qed.

(** The feature reported for a counted packet. *)
Definition tracked_out (h : FlowHist) (pf : PacketFeature) (fpHits : list FingerprintHit)
    (intelHits : list ThreatIntel) : FlowFeature :=
  (attachAppContext
    ((flow_summary (history (h_flows h) (packet_key pf)))
       <| ff_FingerprintHits := fpHits |> <| ff_IntelHits := intelHits |>
       <| ff_PacketSequence := h_seq h |>) pf)
  <| ff_PairStats := Some (pair_summary (history (h_pairs h) (packet_pair pf))) |>.

Lemma update_tracked_conc h pf fp ih n2 n3 st :
  nonempty_hist h -> 0 <= pf_PacketTimeUsec pf ->
  fs_feature st = (match h_flows h !! packet_key pf with
                   | Some p => flow_summary p.1 | None => new_feature pf end) ->
  update_tracked (conc h) st pf fp ih (h_seq h) n2 n3
  = (conc (hist_record h pf n2 n3), tracked_out (hist_record h pf n2 n3) pf fp ih).
Proof.
  intros [Hf Hp] Ht Hst. unfold update_tracked. cbv zeta. fold (packet_key pf) (packet_pair pf). rewrite Hst.
  assert (bump_feature pf (match h_flows h !! packet_key pf with
            | Some p => flow_summary p.1 | None => new_feature pf end)
          = flow_summary (history (h_flows h) (packet_key pf) ++ [pf])) as Hb.
  { rewrite flow_summary_snoc. unfold history.
    destruct (h_flows h !! packet_key pf) as [p|] eqn:E; simpl; [|done].
    rewrite bool_decide_eq_false_2; [done|]. eapply Hf, E. }
  rewrite Hb.
  assert (bump_pair pf n3 (match ag_pairs (conc h) !! packet_pair pf with
            | Some ps => ps | None => mkPairState 0 0 0 0 0 0 (pf_PacketTimeUsec pf) 0 0 end)
          = conc_pair (history (h_pairs h) (packet_pair pf) ++ [pf], n3)) as Hq.
  { simpl. rewrite lookup_fmap. unfold history. destruct (h_pairs h !! packet_pair pf) as [[ps t]|]; simpl;
      [by rewrite bump_pair_conc|by rewrite bump_pair_new]. }
  cbn -[bump_pair flow_summary conc_pair attachAppContext] in *. rewrite Hq.
  unfold conc, hist_record, tracked_out. cbn -[flow_summary pair_summary attachAppContext].
  unfold history. rewrite !lookup_insert_eq, !fmap_insert.
  cbn -[flow_summary pair_summary attachAppContext]. reflexivity.
Qed.

Lemma update_conc h pf fp ih n1 n2 n3 h' tr :
  nonempty_hist h -> nonempty_hist (hist_cleanup h n1) -> 0 <= pf_PacketTimeUsec pf ->
  hist_update h pf n1 n2 n3 = (h', tr) ->
  flow_Update (conc h) pf fp ih n1 n2 n3
  = (conc h', if tr then tracked_out h' pf fp ih else transientFeature pf fp ih (h_seq h')).
Proof.
  intros Hne Hne' Ht. unfold hist_update, flow_Update. cbv zeta. fold (packet_key pf).
  set (h1 := mkFlowHist (h_flows h) (h_pairs h) (h_max h) (h_idle h) (u64 (h_seq h + 1))).
  change (upd ag_packetSeq (fun _ => u64 (ag_packetSeq (conc h) + 1)) (conc h)) with (conc h1).
  change (ag_packetSeq (conc h1)) with (h_seq h1).
  assert (forall hh, flows_Len (conc hh) = Z.of_nat (size (h_flows hh))) as Hlen.
  { intros hh. unfold flows_Len. simpl. by rewrite map_size_fmap. }
  change (ag_flows (conc h1)) with (conc_flow <$> h_flows h1). rewrite lookup_fmap, Hlen.
  change (ag_maxFlows (conc h1)) with (h_max h1).
  destruct (h_flows h1 !! packet_key pf) as [p|] eqn:E.
  { simpl. intros [= <- <-]. apply (update_tracked_conc h1); try done. by rewrite E. }
  rewrite bool_decide_eq_false_2 by (by intros [? ?]). cbn [fmap option_fmap option_map orb].
  rewrite Z.ltb_antisym.
  destruct (h_max h1 <=? Z.of_nat (size (h_flows h1))) eqn:Efull; cbn [negb].
  - rewrite (cleanup_conc h1). rewrite Hlen. change (ag_maxFlows (conc (hist_cleanup h1 n1))) with (h_max h1).
    rewrite Z.ltb_antisym. change (h_max (hist_cleanup h1 n1)) with (h_max h1).
    destruct (h_max h1 <=? Z.of_nat (size (h_flows (hist_cleanup h1 n1)))); cbn [negb]; intros [= <- <-].
    + done.
    + change (h_seq h1) with (h_seq (hist_cleanup h1 n1)). apply update_tracked_conc; try done.
      destruct (h_flows (hist_cleanup h1 n1) !! packet_key pf) as [q|] eqn:Eq; [|done].
      simpl in Eq. apply map_lookup_filter_Some in Eq as [Eq _]. simpl in E. congruence.
  - intros [= <- <-]. apply (update_tracked_conc h1); try done. by rewrite E.
Qed.
End refinement.

Lemma hist_reach_cleanup_nonempty h now : hist_reach h -> nonempty_hist (hist_cleanup h now).
Proof. intros Hr. by apply hist_reach_nonempty, hist_tick. Qed.

(** C20.  Flow accounting: the aggregator refines a table of packet histories.
    From every state it can reach, Update moves to the state of the extended
    histories, and what it reports for a counted packet is computed from the
    packets of that flow and of that conversation since their entry was made:
    the number of packets, the payload and wire bytes (modulo 2^64), the first
    and last time, and for the conversation the same counters split by
    direction.  A packet is left uncounted only when the table is full of live
    flows, and then the answer describes that packet alone. *)
Theorem flow_Update_accounts (O : RangeOrder) h pf fp ih n1 n2 n3 h' tr :
  hist_reach h -> 0 <= pf_PacketTimeUsec pf -> hist_update h pf n1 n2 n3 = (h', tr) ->
  exists out, flow_Update (conc h) pf fp ih n1 n2 n3 = (conc h', out)
  /\ ff_FingerprintHits out = fp /\ ff_IntelHits out = ih /\ ff_PacketSequence out = h_seq h'
  /\ if tr then
       let ps := history (h_flows h') (packet_key pf) in
       last ps = Some pf
       /\ ff_Packets out = u64 (len ps) /\ ff_Bytes out = u64 (total payload_len ps)
       /\ ff_WireBytes out = u64 (total pf_WireLen ps)
       /\ Some (ff_FirstTime out) = pf_PacketTimeUsec <$> head ps
       /\ ff_LastTime out = pf_PacketTimeUsec pf
       /\ ff_PairStats out = Some (pair_summary (history (h_pairs h') (packet_pair pf)))
     else
       h_max h <= Z.of_nat (size (h_flows h'))
       /\ map_Forall (fun _ p => live (h_idle h) n1 p) (h_flows h')
       /\ ff_Packets out = 1 /\ ff_Bytes out = payload_len pf /\ ff_PairStats out = None.
Proof.
  intros Hr Ht Hu. eexists. split.
  { apply update_conc; [by apply hist_reach_nonempty|by apply hist_reach_cleanup_nonempty|done|exact Hu]. }
  destruct tr; (split; [done|]); (split; [done|]); (split; [done|]).
  - assert (exists h0, h' = hist_record h0 pf n2 n3) as [h0 ->].
    { revert Hu. unfold hist_update. cbv zeta. case_if; [intros [= <-]; eauto|].
      case_if; intros [= <-]; eauto. }
    unfold tracked_out. cbn -[flow_summary pair_summary history u64 last].
    set (ps := history _ (packet_key pf)).
    assert (exists p0, ps = p0 ++ [pf]) as [p0 Hps].
    { unfold ps, history. simpl. rewrite lookup_insert_eq. simpl. eauto. }
    assert (last ps = Some pf) as Hl by (rewrite Hps; apply last_snoc).
    rewrite Hl. clearbody ps. destruct ps as [|q qs]; [by destruct p0|].
    unfold flow_summary. rewrite Hl. done.
  - revert Hu. unfold hist_update. cbv zeta. case_if; [done|]. case_if; [done|]. intros [= <-]. simpl in *.
    split; [done|]. split; [|done]. intros k v Hv. by apply map_lookup_filter_Some in Hv as [_ ?].
Qed.

Definition demo_packet (t wire : Z) : PacketFeature :=
  zero_PacketFeature <| pf_SrcIP := "10.0.0.1"%string |> <| pf_SrcPort := 1234 |>
    <| pf_DstIP := "10.0.0.2"%string |> <| pf_DstPort := 80 |> <| pf_Proto := "TCP"%string |>
    <| pf_PacketTimeUsec := t |> <| pf_WireLen := wire |>.

Lemma flow_Update_accounts_witness :
  let h := mkFlowHist ∅ ∅ 1 1000 0 in
  hist_reach h /\
  exists out, @flow_Update canonical_range (conc h) (demo_packet 7 60) [] [] 5 5 5
              = (conc (hist_update h (demo_packet 7 60) 5 5 5).1, out)
  /\ ff_Packets out = 1 /\ ff_WireBytes out = 60.
Proof.
  intros h. assert (hist_reach h) as Hr by (by apply hist_new).
  split; [exact Hr|].
  destruct (flow_Update_accounts canonical_range h (demo_packet 7 60) [] [] 5 5 5
              (hist_update h (demo_packet 7 60) 5 5 5).1 true) as (out & E & _ & _ & _ & _ & Hp & _ & Hw & _);
    [exact Hr|vm_compute; discriminate|vm_compute; reflexivity|].
  exists out. split; [exact E|]. split; [rewrite Hp; vm_compute; reflexivity|rewrite Hw; vm_compute; reflexivity].
Defined.

(** Runs of the aggregator itself. *)
Inductive flow_run : Aggregator -> Prop :=
| flow_run_new maxFlows idleTimeout : flow_run (NewAggregator maxFlows idleTimeout)
| flow_run_update (O : RangeOrder) a pf fp ih n1 n2 n3 :
    flow_run a -> flow_run (flow_Update a pf fp ih n1 n2 n3).1
| flow_run_cleanup (O : RangeOrder) a now : flow_run a -> flow_run (flow_Cleanup a now).1.

(** What a stored flow may keep: nothing of the packets but counters, times,
    endpoints and the first non-empty names. *)
Definition bare (f : FlowFeature) : Prop :=
  ff_FingerprintHits f = [] /\ ff_IntelHits f = [] /\ ff_RawPacket f = [] /\ ff_RawPayload f = []
  /\ ff_HTTPHeaders f = ∅ /\ ff_HTTPBodySample f = ""%string /\ ff_PayloadSample f = ""%string
  /\ ff_DNSAnswers f = [] /\ ff_PairStats f = None.

Definition table_ok (a : Aggregator) : Prop :=
  0 < ag_maxFlows a /\ flows_Len a <= ag_maxFlows a /\ map_Forall (fun _ st => bare (fs_feature st)) (ag_flows a).

Section table.
Context `{RangeOrder}.

Lemma cleanup_table_ok a now : table_ok a -> table_ok (flow_cleanupLocked a now).1.
Proof.
  intros (Hm & Hs & Hb). unfold flow_cleanupLocked. rewrite !range_delete_filter. simpl.
  split; [done|]. split.
  - etrans; [|exact Hs]. unfold flows_Len. simpl. apply inj_le, map_subseteq_size, map_filter_subseteq.
  - intros k v Hk. simpl in Hk. apply map_lookup_filter_Some in Hk as [Hk _]. by eapply Hb.
Qed.

Lemma update_tracked_table_ok a st pf fp ih sq n2 n3 :
  table_ok a -> bare (fs_feature st) ->
  flows_Len a < ag_maxFlows a \/ is_Some (ag_flows a !! packet_key pf) ->
  table_ok (update_tracked a st pf fp ih sq n2 n3).1.
Proof.
  intros (Hm & Hs & Hb) Hst Hroom. unfold update_tracked. cbv zeta. fold (packet_key pf). simpl.
  split; [done|]. split.
  - unfold flows_Len in *. simpl. destruct (ag_flows a !! packet_key pf) as [x|] eqn:E.
    + by rewrite map_size_insert_Some by eauto.
    + rewrite map_size_insert_None by done. destruct Hroom as [?|[? ?]]; [lia|done].
  - apply map_Forall_insert_2; [exact Hst|done].
Qed.
Lemma flow_Update_table_ok a pf fp ih n1 n2 n3 : table_ok a -> table_ok (flow_Update a pf fp ih n1 n2 n3).1.
Proof.
  intros Hok. unfold flow_Update. cbv zeta. fold (packet_key pf).
  set (a1 := upd ag_packetSeq _ a). assert (table_ok a1) as H1 by exact Hok.
  assert (bare (fs_feature (mkFlowState (new_feature pf) 0))) as Hnew by done.
  destruct (ag_flows a1 !! packet_key pf) as [st|] eqn:E.
  { apply update_tracked_table_ok; [done| |rewrite E; right; eauto]. destruct H1 as (_ & _ & Hb). by eapply Hb. }
  case_if; [|apply update_tracked_table_ok; [done|done|by left]].
  pose proof (cleanup_table_ok a1 n1 H1) as Hc. destruct (flow_cleanupLocked a1 n1) as [a2 r]. simpl in Hc.
  case_if; [done|]. apply update_tracked_table_ok; [done|done|by left].
Qed.
Lemma flow_Update_hits a pf fp ih n1 n2 n3 :
  let f := (flow_Update a pf fp ih n1 n2 n3).2 in
  ff_FingerprintHits f = fp /\ ff_IntelHits f = ih /\ ff_PacketSequence f = u64 (ag_packetSeq a + 1).
Proof.
  unfold flow_Update. cbv zeta. destruct (ag_flows _ !! _) as [st|]; [done|].
  case_if; [|done]. destruct (flow_cleanupLocked _ n1) as [a2 r]. by case_if.
Qed.
Lemma flow_Update_max a pf fp ih n1 n2 n3 : ag_maxFlows (flow_Update a pf fp ih n1 n2 n3).1 = ag_maxFlows a.
Proof.
  unfold flow_Update. cbv zeta. destruct (ag_flows _ !! _) as [st|]; [done|].
  case_if; [|done]. unfold flow_cleanupLocked. rewrite !range_delete_filter. by case_if.
Qed.
End table.

Lemma flow_run_table_ok a : flow_run a -> table_ok a.
Proof.
  intros Hr. induction Hr as [m i|O a pf fp ih n1 n2 n3 _ IH|O a now _ IH]; [| |by apply cleanup_table_ok].
  - unfold table_ok, NewAggregator, flows_Len, defaultMaxFlows. simpl. rewrite map_size_empty.
    split; [case_if; lia|]. split; [case_if; lia|]. apply map_Forall_empty.
  - by apply flow_Update_table_ok.
Qed.

(** Bounded memory: however many packets arrive and whenever cleanups
    run, the aggregator never holds more than maxFlows flows, and no stored
    flow retains hits, packet bytes, headers, body or payload samples of the
    packets that went through it. *)
Theorem flow_table_bounded a :
  flow_run a ->
  flows_Len a <= ag_maxFlows a /\ map_Forall (fun _ st => bare (fs_feature st)) (ag_flows a).
Proof.
  intros (_ & ? & ?)%flow_run_table_ok. done.
Qed.

Lemma flow_table_bounded_witness :
  let a := (@flow_Update canonical_range (NewAggregator 1 0) (demo_packet 7 60) [] [] 5 5 5).1 in
  flow_run a /\ flows_Len a <= ag_maxFlows a.
Proof.
  intros a. assert (flow_run a) as Hr by apply flow_run_update, flow_run_new.
  split; [exact Hr|]. exact (proj1 (flow_table_bounded a Hr)).
Defined.

(** The byte order on addresses is a strict total order. *)
Lemma ip_gt_asym a b : ip_gt a b = true -> ip_gt b a = false.
Proof.
  revert b; induction a as [|x a IH]; intros [|y b]; simpl; try done.
  destruct (Z.ltb_spec y x), (Z.ltb_spec x y); try done; try lia. apply IH.
Qed.
Lemma ip_gt_total a b : a <> b -> ip_gt a b = false -> ip_gt b a = true.
Proof.
  revert b; induction a as [|x a IH]; intros [|y b] Hne; simpl; try done.
  destruct (Z.ltb_spec y x), (Z.ltb_spec x y); try done.
  apply IH. intros ->. apply Hne. f_equal. lia.
Qed.

(** Two endpoints that PairKey tells apart: different addresses, or different
    ports of one address. *)
Definition endpoints_differ (srcIP : string) (srcPort : Z) (dstIP : string) (dstPort : Z) : Prop :=
  ip_bytes (net_ParseIP srcIP) <> ip_bytes (net_ParseIP dstIP) \/ srcPort <> dstPort.

Lemma swapped_flip s sp d dp :
  endpoints_differ s sp d dp -> swapped d dp s sp = negb (swapped s sp d dp).
Proof.
  unfold endpoints_differ, swapped. set (a := ip_bytes (net_ParseIP s)). set (b := ip_bytes (net_ParseIP d)).
  intros Hd. destruct (decide (a = b)) as [Heq|Hne].
  - rewrite Heq. destruct Hd as [?|Hp]; [done|].
    assert (ip_gt b b = false) as ->.
    { destruct (ip_gt b b) eqn:E; [|done]. by rewrite (ip_gt_asym _ _ E) in E. }
    rewrite bool_decide_eq_true_2 by done. simpl. destruct (Z.ltb_spec sp dp), (Z.ltb_spec dp sp); simpl; lia.
  - rewrite !bool_decide_eq_false_2 by congruence. simpl. rewrite !orb_false_r.
    destruct (ip_gt a b) eqn:E; [by apply ip_gt_asym|by apply ip_gt_total].
Qed.

(** Both directions of a conversation share one entry: the conversation
    key does not depend on which endpoint sent the packet, and exactly one of
    the two directions keeps its own order, so client and server counters are
    never mixed up. *)
Theorem PairKey_symmetric s sp d dp proto :
  endpoints_differ s sp d dp ->
  PairKey s sp d dp proto = PairKey d dp s sp proto
  /\ swapped d dp s sp = negb (swapped s sp d dp)
  /\ (swapped s sp d dp = false -> IsForward s sp d dp proto = true)
  /\ (swapped s sp d dp = true -> IsForward d dp s sp proto = true).
Proof.
  intros Hd. pose proof (swapped_flip _ _ _ _ Hd) as Hf.
  unfold IsForward, PairKey. rewrite Hf.
  destruct (swapped s sp d dp); simpl; (split; [done|]); (split; [done|]); split; try done; intros _; by apply seqb_refl.
Qed.

Lemma PairKey_symmetric_witness :
  endpoints_differ "10.0.0.1" 1234 "10.0.0.2" 80
  /\ PairKey "10.0.0.1" 1234 "10.0.0.2" 80 "TCP" = PairKey "10.0.0.2" 80 "10.0.0.1" 1234 "TCP".
Proof.
  assert (endpoints_differ "10.0.0.1" 1234 "10.0.0.2" 80) as Hd by (right; lia).
  split; [exact Hd|]. exact (proj1 (PairKey_symmetric _ _ _ _ "TCP" Hd)).
Defined.
