(* ===== verification/IntelStore.v ===== *)
(** * IntelStore: the indicator store

    internal/intel/store.go and file_loader.go.  The operation mutex makes
    every method one step on the pair of the in-memory set and the disk.  The
    clock and the generated identifiers are arguments; [uuid i] is the i-th
    identifier an operation draws.  The YAML codec is a parameter ([GoYAML]),
    and a file operation can fail at each of its system calls. *)

From S2P Require Import Prelude GoStrings GoNet Events.

(** ** Files (file_loader.go) *)

(** [yaml.Marshal(File{Items: items})] and [yaml.Unmarshal] of gopkg.in/yaml.v3. *)
Class GoYAML := {
  yaml_Marshal : list ThreatIntel -> bytes;
  yaml_Unmarshal : bytes -> res (list ThreatIntel)
}.
(** What the store relies on: a file it wrote is read back. *)
Class GoYAMLLaws `{GoYAML} := {
  yaml_roundtrip : forall items, yaml_Unmarshal (yaml_Marshal items) = Ok items
}.

Notation Disk := (gmap string bytes).

(** Which system call of a save fails, and how much of the temporary file was
    written when the write is the one that does. *)
Inductive save_fault :=
| no_fault
| fail_mkdir
| fail_create
| fail_write (written : nat)
| fail_sync
| fail_close
| fail_rename.

(** The disk after each system call of the save, and the error it returns.
    [tmp] is the name CreateTemp chose; the deferred Remove is the last call
    (after a successful rename there is nothing left to remove). *)
Definition SaveFileAtomicBytes (path tmp : string) (data : bytes) (fault : save_fault) (d : Disk)
    : list Disk * option string :=
  match fault with
  | fail_mkdir => ([d], Some "mkdir"%string)
  | fail_create => ([d], Some "create temp"%string)
  | fail_write n =>
      ([<[tmp := []]> d; <[tmp := take n data]> d; delete tmp d], Some "write"%string)
  | fail_sync => ([<[tmp := []]> d; <[tmp := data]> d; delete tmp d], Some "sync"%string)
  | fail_close => ([<[tmp := []]> d; <[tmp := data]> d; delete tmp d], Some "close"%string)
  | fail_rename => ([<[tmp := []]> d; <[tmp := data]> d; delete tmp d], Some "rename"%string)
  | no_fault =>
      ([<[tmp := []]> d; <[tmp := data]> d; delete tmp (<[path := data]> d)], None)
  end.

(** ** The store *)

Record Store := mkStore {
  st_items : gmap string ThreatIntel;
  st_path : string;
  st_version : Z
}.
#[global] Instance settable_Store : Settable Store := fun r =>
  mkStore (st_items r) (st_path r) (st_version r).

Record Filter := mkFilter { fl_Query : string; fl_Type : string; fl_Category : string }.

Record StoreStats := mkStoreStats {
  ss_Total : Z; ss_Enabled : Z; ss_Expired : Z;
  ss_ByType : gmap string Z; ss_BySource : gmap string Z;
  ss_LastUpdatedAt : Z; ss_Version : Z
}.
#[global] Instance settable_StoreStats : Settable StoreStats := fun r =>
  mkStoreStats (ss_Total r) (ss_Enabled r) (ss_Expired r) (ss_ByType r) (ss_BySource r)
    (ss_LastUpdatedAt r) (ss_Version r).

(** What the environment supplies to one saving operation. *)
Record save_env := mkSaveEnv { se_tmp : string; se_fault : save_fault }.

Section store.
Context `{GoUnicode} `{GoYAML} `{RangeOrder}.

Definition SaveFileAtomic (path : string) (items : list ThreatIntel) (e : save_env) (d : Disk)
    : Disk * option string :=
  let '(trace, err) := SaveFileAtomicBytes path (se_tmp e) (yaml_Marshal items) (se_fault e) d in
  (default d (last trace), err).

(** [LoadFile], [None] being a file that does not exist. *)
Definition LoadFile (path : string) (d : Disk) : option (res (list ThreatIntel)) :=
  yaml_Unmarshal <$> d !! path.

Definition normalize (uuid : string) (it : ThreatIntel) (now : Z) : ThreatIntel :=
  let it := it <| ti_Type := strings_ToLower (strings_TrimSpace (ti_Type it)) |> in
  let it := it <| ti_Value := strings_TrimSpace (ti_Value it) |> in
  let it := it <| ti_Source := strings_TrimSpace (ti_Source it) |> in
  let it := it <| ti_ID ::= fun id => if seqb id "" then "ioc-" +:+ uuid else id |> in
  let it := it <| ti_Source ::= fun src => if seqb src "" then "local"%string else src |> in
  let it := it <| ti_Severity ::= fun sev => if seqb sev "" then "medium"%string else sev |> in
  let it := it <| ti_CreatedAt ::= fun t => if t =? 0 then now else t |> in
  it <| ti_UpdatedAt := now |>.

Definition canonicalIP (value : string) : string :=
  match net_ParseIP (strings_TrimSpace value) with None => "" | Some ip => IP_String ip end.
Definition canonicalDomain (value : string) : string :=
  strings_TrimSuffix (strings_ToLower (strings_TrimSpace value)) ".".

Definition canonicalValue (t v : string) : string :=
  let t := strings_ToLower (strings_TrimSpace t) in
  let fallback := strings_ToLower (strings_TrimSpace v) in
  if seqb t "ip" then (let c := canonicalIP v in if negb (seqb c "") then c else fallback)
  else if seqb t "domain" then canonicalDomain v
  else fallback.

Definition CanonicalKey (it : ThreatIntel) : string :=
  strings_ToLower (strings_TrimSpace (ti_Type it)) +:+ "|" +:+ canonicalValue (ti_Type it) (ti_Value it).

Definition snapshotLocked (s : Store) : list ThreatIntel := snd <$> range_map (st_items s).

Definition bump_version (s : Store) : Store := s <| st_version := i64 (st_version s + 1) |>.

(** The tail that the mutating methods share: the snapshot is saved when the
    store has a file. *)
Definition persist (s : Store) (e : save_env) (d : Disk) : Disk * option string :=
  if negb (seqb (st_path s) "") then SaveFileAtomic (st_path s) (snapshotLocked s) e d else (d, None).

(** The loop of Reload and Sync that builds a new set. *)
Definition load_items (uuid : nat -> string) (now : Z) (loaded : list ThreatIntel) : gmap string ThreatIntel :=
  foldl (fun m '(i, it) => let it := normalize (uuid i) it now in <[ti_ID it := it]> m)
    ∅ (imap pair loaded).

Definition Reload (s : Store) (d : Disk) (uuid : nat -> string) (now : Z) : Store * option string :=
  let finish loaded :=
    (bump_version (s <| st_items := load_items uuid now loaded |>), None) in
  if seqb (st_path s) "" then finish []
  else match LoadFile (st_path s) d with
       | None => finish []
       | Some (Err e) => (s, Some e)
       | Some (Ok loaded) => finish loaded
       end.

Definition NewStore (path : string) (d : Disk) (uuid : nat -> string) (now : Z) : res Store :=
  let s := mkStore ∅ path 0 in
  if negb (seqb path "") then
    match Reload s d uuid now with
    | (_, Some e) => Err e
    | (s, None) => Ok s
    end
  else Ok s.

Definition List_ (s : Store) : list ThreatIntel := snd <$> range_map (st_items s).

(** The conditions under which ListFiltered skips an item. *)
Definition filter_skips (f : Filter) (query : string) (it : ThreatIntel) : bool :=
  (negb (seqb (fl_Type f) "") && negb (strings_EqualFold (ti_Type it) (fl_Type f)))
  || (negb (seqb (fl_Category f) "") && negb (seqb (ti_Category it) (fl_Category f)))
  || (negb (seqb query "") && negb (strings_Contains (strings_ToLower (ti_ID it)) query)
      && negb (strings_Contains (strings_ToLower (ti_Value it)) query)
      && negb (strings_Contains (strings_ToLower (ti_Description it)) query)).

Definition id_le (a b : ThreatIntel) : Prop := sle (ti_ID a) (ti_ID b).
#[global] Instance id_le_dec : RelDecision id_le.
Proof. intros a b. unfold id_le. apply _. Defined.

Definition ListFiltered (s : Store) (offset limit : Z) (f : Filter) : option (list ThreatIntel * Z) :=
  let query := strings_ToLower (strings_TrimSpace (fl_Query f)) in
  let out := filter (fun it => filter_skips f query it = false) (List_ s) in
  let out := merge_sort id_le out in
  let total := len out in
  if total <=? offset then Some ([], total)
  else let end_ := i64 (offset + limit) in
       let end_ := if total <? end_ then total else end_ in
       page ← slice out offset end_; Some (page, total).
Definition ListPaged (s : Store) (offset limit : Z) : option (list ThreatIntel * Z) :=
  ListFiltered s offset limit (mkFilter "" "" "").

Definition Get (s : Store) (id : string) : option ThreatIntel := st_items s !! id.
Definition Version (s : Store) : Z := st_version s.

Definition Add (s : Store) (d : Disk) (it : ThreatIntel) (uuid : string) (now : Z) (e : save_env)
    : Store * Disk * (ThreatIntel * option string) :=
  let it := normalize uuid it now in
  let s := bump_version (s <| st_items ::= <[ti_ID it := it]> |>) in
  let '(d, err) := persist s e d in (s, d, (it, err)).

Definition Delete (s : Store) (d : Disk) (id : string) (e : save_env) : Store * Disk * option string :=
  match st_items s !! id with
  | None => (s, d, Some "intel not found"%string)
  | Some _ =>
      let s := bump_version (s <| st_items ::= delete id |>) in
      let '(d, err) := persist s e d in (s, d, err)
  end.

Definition Sync (s : Store) (d : Disk) (items : list ThreatIntel) (uuid : nat -> string) (now : Z) (e : save_env)
    : Store * Disk * option string :=
  let s := bump_version (s <| st_items := load_items uuid now items |>) in
  let '(d, err) := persist s e d in (s, d, err).

(** The body of the upsert loops: normalize, keep the creation time of the
    entry that is replaced when the new one has none, store. *)
Definition upsert_one (uuid : string) (now : Z) (m : gmap string ThreatIntel) (it : ThreatIntel)
    : gmap string ThreatIntel :=
  let createdAt := ti_CreatedAt it in
  let it := normalize uuid it now in
  let it := match m !! ti_ID it with
            | Some existing => if createdAt =? 0 then it <| ti_CreatedAt := ti_CreatedAt existing |> else it
            | None => it
            end in
  <[ti_ID it := it]> m.

Definition UpsertMany (s : Store) (d : Disk) (items : list ThreatIntel) (uuid : nat -> string) (now : Z) (e : save_env)
    : Store * Disk * option string :=
  let m := foldl (fun m '(i, it) => upsert_one (uuid i) now m it) (st_items s) (imap pair items) in
  let s := bump_version (s <| st_items := m |>) in
  let '(d, err) := persist s e d in (s, d, err).

Definition SyncSource (s : Store) (d : Disk) (source : string) (items : list ThreatIntel)
    (uuid : nat -> string) (now : Z) (e : save_env) : Store * Disk * option string :=
  let source := strings_TrimSpace source in
  if seqb source "" then (s, d, Some "source required"%string) else
  let normalized := imap (fun i it => normalize (uuid i) (it <| ti_Source := source |>) now) items in
  let '(m, _) := range_delete (fun _ it => seqb (ti_Source it) source) (st_items s) in
  let m := foldl (fun m it => <[ti_ID it := it]> m) m normalized in
  let s := bump_version (s <| st_items := m |>) in
  let '(d, err) := persist s e d in (s, d, err).

Definition expired (it : ThreatIntel) (now : Z) : bool := (0 <? ti_ExpireAt it) && (ti_ExpireAt it <? now).

Definition Stats (s : Store) (now : Z) : StoreStats :=
  foldl (fun st '(_, it) =>
    let st := if ti_Enabled it then st <| ss_Enabled ::= Z.add 1 |> else st in
    let st := if expired it now then st <| ss_Expired ::= Z.add 1 |> else st in
    let bump (k : string) (m : gmap string Z) := <[k := default 0 (m !! k) + 1]> m in
    let st := st <| ss_ByType ::= bump (strings_ToLower (ti_Type it)) |> in
    let st := st <| ss_BySource ::= bump (ti_Source it) |> in
    if ss_LastUpdatedAt st <? ti_UpdatedAt it then st <| ss_LastUpdatedAt := ti_UpdatedAt it |> else st)
    (mkStoreStats (Z.of_nat (size (st_items s))) 0 0 ∅ ∅ 0 (st_version s))
    (range_map (st_items s)).

Definition PruneExpired (s : Store) (d : Disk) (now : Z) (e : save_env) : Store * Disk * Z :=
  let '(m, deleted) := range_delete (fun _ it => expired it now) (st_items s) in
  let s := s <| st_items := m |> in
  if deleted =? 0 then (s, d, 0) else
  let s := bump_version s in
  let '(d, _) := persist s e d in (s, d, deleted).

(** The first loop of UpsertDedup: one candidate per canonical key, the newest. *)
Definition dedup_batch (items : list ThreatIntel) : gmap string ThreatIntel :=
  foldl (fun batch it =>
    let k := CanonicalKey it in
    match batch !! k with
    | Some ex => if ti_UpdatedAt it <=? ti_UpdatedAt ex then batch else <[k := it]> batch
    | None => <[k := it]> batch
    end) ∅ items.

(** [existing]: the identifier under which each canonical key is stored. *)
Definition existing_ids (s : Store) : gmap string string :=
  foldl (fun m '(id, it) => <[CanonicalKey it := id]> m) ∅ (range_map (st_items s)).

Definition dedup_one (existing : gmap string string) (uuid : string) (now : Z)
    (m : gmap string ThreatIntel) (k : string) (it : ThreatIntel) : gmap string ThreatIntel :=
  let it := match existing !! k with Some id => it <| ti_ID := id |> | None => it end in
  upsert_one uuid now m it.

Definition UpsertDedup (s : Store) (d : Disk) (items : list ThreatIntel) (uuid : nat -> string) (now : Z) (e : save_env)
    : Store * Disk * option string :=
  let batch := dedup_batch items in
  if Z.of_nat (size batch) =? 0 then (s, d, None) else
  let existing := existing_ids s in
  let m := foldl (fun m '(i, (k, it)) => dedup_one existing (uuid i) now m k it)
             (st_items s) (imap pair (range_map batch)) in
  let s := bump_version (s <| st_items := m |>) in
  let '(d, err) := persist s e d in (s, d, err).
End store.

(** ** Well-formed stores *)

(** An item is stored under its own identifier and normalized. *)
Definition item_ok `{GoUnicode} (id : string) (it : ThreatIntel) : Prop :=
  ti_ID it = id /\ id <> ""%string
  /\ strings_ToLower (strings_TrimSpace (ti_Type it)) = ti_Type it
  /\ strings_TrimSpace (ti_Value it) = ti_Value it
  /\ strings_TrimSpace (ti_Source it) = ti_Source it /\ ti_Source it <> ""%string
  /\ ti_Severity it <> ""%string /\ ti_CreatedAt it <> 0.
Definition items_ok `{GoUnicode} (m : gmap string ThreatIntel) : Prop := map_Forall item_ok m.

Section wf.
Context `{GoUnicodeLaws} `{GoYAML} `{RangeOrder}.

Lemma normalize_fields uuid it now :
  let n := normalize uuid it now in
  ti_ID n = (if seqb (ti_ID it) "" then "ioc-" +:+ uuid else ti_ID it)
  /\ ti_Type n = strings_ToLower (strings_TrimSpace (ti_Type it))
  /\ ti_Value n = strings_TrimSpace (ti_Value it)
  /\ ti_Source n = (if seqb (strings_TrimSpace (ti_Source it)) "" then "local"%string
                    else strings_TrimSpace (ti_Source it))
  /\ ti_Severity n = (if seqb (ti_Severity it) "" then "medium"%string else ti_Severity it)
  /\ ti_CreatedAt n = (if ti_CreatedAt it =? 0 then now else ti_CreatedAt it)
  /\ ti_UpdatedAt n = now.
Proof. done. Qed.

Lemma normalize_ok uuid it now : 0 < now -> item_ok (ti_ID (normalize uuid it now)) (normalize uuid it now).
Proof.
  intros Hn. pose proof (normalize_fields uuid it now) as Hf. cbv zeta in Hf. revert Hf.
  generalize (normalize uuid it now). intros n (E1 & E2 & E3 & E4 & E5 & E6 & _).
  unfold item_ok. rewrite E2, E3, E4, E5, E6, E1. split; [done|].
  split; [destruct (seqb (ti_ID it) "") eqn:E; [done|by apply seqb_neq in E]|].
  split; [apply ToLower_TrimSpace_stable|]. split; [apply strings_TrimSpace_idem|].
  split; [case_if; [done|apply strings_TrimSpace_idem]|].
  split; [destruct (seqb (strings_TrimSpace _) "") eqn:E; [done|by apply seqb_neq in E]|].
  split; [destruct (seqb (ti_Severity it) "") eqn:E; [done|by apply seqb_neq in E]|].
  case_if; lia.
Qed.
Lemma CanonicalKey_normalize uuid it now : CanonicalKey (normalize uuid it now) = CanonicalKey it.
Proof.
  destruct (normalize_fields uuid it now) as (_ & Et & Ev & _). unfold CanonicalKey. rewrite Et, Ev.
  rewrite ToLower_TrimSpace_stable. f_equal. f_equal. unfold canonicalValue, canonicalIP, canonicalDomain.
  by rewrite ToLower_TrimSpace_stable, strings_TrimSpace_idem.
Qed.

Lemma item_ok_created id it t : item_ok id it -> t <> 0 -> item_ok id (it <| ti_CreatedAt := t |>).
Proof. destruct it. intros (? & ? & ? & ? & ? & ? & ? & _) Ht. by repeat split. Qed.

(** What an upsert stores: the normalized item, possibly with the creation
    time of the entry it replaces. *)
Lemma upsert_one_spec uuid now m it :
  exists it', upsert_one uuid now m it = <[ti_ID it' := it']> m
  /\ CanonicalKey it' = CanonicalKey it
  /\ ti_ID it' = (if seqb (ti_ID it) "" then "ioc-" +:+ uuid else ti_ID it)
  /\ (0 < now -> items_ok m -> item_ok (ti_ID it') it').
Proof.
  unfold upsert_one. set (n := normalize uuid it now).
  assert (ti_ID n = if seqb (ti_ID it) "" then "ioc-" +:+ uuid else ti_ID it) as Hid by done.
  assert (CanonicalKey n = CanonicalKey it) as Hk by apply CanonicalKey_normalize.
  destruct (m !! ti_ID n) as [ex|] eqn:E; [case_if|].
  - eexists. split; [done|]. split; [done|]. split; [done|]. intros Hn Hm.
    apply item_ok_created; [by apply normalize_ok|]. by destruct (Hm _ _ E) as (_ & _ & _ & _ & _ & _ & _ & ?).
  - exists n. repeat (split; [done|]). intros. by apply normalize_ok.
  - exists n. repeat (split; [done|]). intros. by apply normalize_ok.
Qed.

Lemma upsert_one_ok uuid now m it : 0 < now -> items_ok m -> items_ok (upsert_one uuid now m it).
Proof.
  intros Hn Hm. destruct (upsert_one_spec uuid now m it) as (it' & -> & _ & _ & Hok).
  by apply map_Forall_insert_2; [apply Hok|].
Qed.

Lemma insert_normalized_ok (l : list ThreatIntel) m :
  items_ok m -> Forall (fun it => item_ok (ti_ID it) it) l ->
  items_ok (foldl (fun m it => <[ti_ID it := it]> m) m l).
Proof.
  intros Hm Hl. apply (foldl_inv items_ok); [done|]. intros m' it Hin Hm'.
  apply map_Forall_insert_2; [|done]. rewrite Forall_forall in Hl. by apply Hl.
Qed.

Lemma load_items_ok uuid now (l : list ThreatIntel) :
  0 < now ->
  items_ok (load_items uuid now l).
Proof.
  intros Hn. unfold load_items. apply (foldl_inv items_ok); [apply map_Forall_empty|]. intros m [i it] _ Hm.
  apply map_Forall_insert_2; [by apply normalize_ok|done].
Qed.

Lemma range_delete_ok f m : items_ok m -> items_ok (range_delete f m).1.
Proof.
  intros Hm k v Hk. rewrite range_delete_lookup in Hk. destruct (m !! k) eqn:E; [|done].
  case_if_in Hk; [done|]. simplify_eq. by apply Hm.
Qed.
End wf.

(** ** Runs of the store *)

Inductive store_op :=
| OpReload (uuid : nat -> string) (now : Z)
| OpAdd (it : ThreatIntel) (uuid : string) (now : Z) (e : save_env)
| OpDelete (id : string) (e : save_env)
| OpSync (items : list ThreatIntel) (uuid : nat -> string) (now : Z) (e : save_env)
| OpUpsertMany (items : list ThreatIntel) (uuid : nat -> string) (now : Z) (e : save_env)
| OpSyncSource (source : string) (items : list ThreatIntel) (uuid : nat -> string) (now : Z) (e : save_env)
| OpUpsertDedup (items : list ThreatIntel) (uuid : nat -> string) (now : Z) (e : save_env)
| OpPrune (now : Z) (e : save_env).

Section run.
Context `{GoUnicode} `{GoYAML}.

Definition store_exec (O : RangeOrder) (op : store_op) (s : Store) (d : Disk) : Store * Disk :=
  match op with
  | OpReload uuid now => ((Reload s d uuid now).1, d)
  | OpAdd it uuid now e => (Add s d it uuid now e).1
  | OpDelete id e => (Delete s d id e).1
  | OpSync items uuid now e => (Sync s d items uuid now e).1
  | OpUpsertMany items uuid now e => (UpsertMany s d items uuid now e).1
  | OpSyncSource source items uuid now e => (SyncSource s d source items uuid now e).1
  | OpUpsertDedup items uuid now e => (UpsertDedup s d items uuid now e).1
  | OpPrune now e => (PruneExpired s d now e).1
  end.

(** The clock shows a time after the epoch, and the temporary file's name is new. *)
Definition op_ok (s : Store) (d : Disk) (op : store_op) : Prop :=
  match op with
  | OpReload _ now => 0 < now
  | OpDelete _ e => se_tmp e <> st_path s /\ d !! se_tmp e = None
  | OpAdd _ _ now e | OpSync _ _ now e | OpUpsertMany _ _ now e | OpSyncSource _ _ _ now e
  | OpUpsertDedup _ _ now e | OpPrune now e =>
      0 < now /\ se_tmp e <> st_path s /\ d !! se_tmp e = None
  end.

(** Whether the file is up to date afterwards: a save that succeeded makes it
    so, one that failed makes it stale, and an operation that does not save
    leaves it as it was. *)
Definition op_saved (op : store_op) (s s' : Store) (clean : bool) : bool :=
  if st_version s' =? st_version s then clean else
  match op with
  | OpReload _ _ => clean
  | OpAdd _ _ _ e | OpDelete _ e | OpSync _ _ _ e | OpUpsertMany _ _ _ e | OpSyncSource _ _ _ _ e
  | OpUpsertDedup _ _ _ e | OpPrune _ e => match se_fault e with no_fault => true | _ => false end
  end.

(** A run: the store is opened, then operations follow, and anybody may edit
    the files in between.  The flag tells whether the last save succeeded and
    nobody edited the file since. *)
Inductive store_run : Store -> Disk -> bool -> Prop :=
| store_open path d uuid now s :
    0 < now -> NewStore path d uuid now = Ok s -> store_run s d false
| store_step (O : RangeOrder) op s d c s' d' :
    store_run s d c -> op_ok s d op -> store_exec O op s d = (s', d') ->
    store_run s' d' (op_saved op s s' c)
| store_edit s d c d' : store_run s d c -> store_run s d' false.

(** Every operation either leaves store and disk alone, or replaces the set,
    advances the version and then saves what it holds. *)
Lemma store_exec_shape (O : RangeOrder) op s d s' d' :
  store_exec O op s d = (s', d') ->
  (st_items s' = st_items s /\ st_version s' = st_version s /\ d' = d /\ st_path s' = st_path s)
  \/ (exists m, s' = bump_version (s <| st_items := m |>)
      /\ match op with
         | OpReload _ _ => d' = d
         | OpAdd _ _ _ e | OpDelete _ e | OpSync _ _ _ e | OpUpsertMany _ _ _ e | OpSyncSource _ _ _ _ e
         | OpUpsertDedup _ _ _ e | OpPrune _ e => d' = (persist s' e d).1
         end).
Proof.
  destruct op; simpl.
  - unfold Reload. intros [= <- <-]. destruct (seqb (st_path s) ""); [right; simpl; eauto|].
    destruct (LoadFile (st_path s) d) as [[l|err]|]; simpl; [right; eauto|left; done|right; eauto].
  - unfold Add. set (s1 := bump_version _). destruct (persist s1 e d) as [d1 err] eqn:E.
    intros [= <- <-]. right. exists (<[ti_ID (normalize uuid it now) := normalize uuid it now]> (st_items s)).
    split; [done|]. by rewrite E.
  - unfold Delete. destruct (st_items s !! id); [|intros [= <- <-]; by left].
    set (s1 := bump_version _). destruct (persist s1 e d) as [d1 err] eqn:E.
    intros [= <- <-]. right. exists (delete id (st_items s)). split; [done|]. by rewrite E.
  - unfold Sync. set (s1 := bump_version _). destruct (persist s1 e d) as [d1 err] eqn:E.
    intros [= <- <-]. right. eexists. split; [done|]. by rewrite E.
  - unfold UpsertMany. set (s1 := bump_version _). destruct (persist s1 e d) as [d1 err] eqn:E.
    intros [= <- <-]. right. eexists. split; [done|]. by rewrite E.
  - unfold SyncSource. cbv zeta. destruct (seqb (strings_TrimSpace source) ""); [intros [= <- <-]; by left|].
    destruct (range_delete _ _) as [m n]. set (s1 := bump_version _).
    destruct (persist s1 e d) as [d1 err] eqn:E.
    intros [= <- <-]. right. eexists. split; [done|]. by rewrite E.
  - unfold UpsertDedup. cbv zeta. case_if; [intros [= <- <-]; by left|]. set (s1 := bump_version _).
    destruct (persist s1 e d) as [d1 err] eqn:E.
    intros [= <- <-]. right. eexists. split; [done|]. by rewrite E.
  - unfold PruneExpired. rewrite range_delete_filter. cbv zeta. case_if.
    + intros [= <- <-]. left. split; [|done]. simpl. apply map_subseteq_size_eq; [apply map_filter_subseteq|lia].
    + set (s1 := bump_version _). destruct (persist s1 e d) as [d1 err] eqn:E.
      intros [= <- <-]. right. eexists. split; [done|]. by rewrite E.
Qed.
End run.

Section invariants.
Context `{GoUnicodeLaws} `{GoYAML}.

Lemma store_exec_items_ok (O : RangeOrder) op s d s' d' :
  items_ok (st_items s) -> op_ok s d op -> store_exec O op s d = (s', d') -> items_ok (st_items s').
Proof.
  intros Hm Hop. destruct op; simpl in *.
  - unfold Reload. intros [= <- _]. destruct (seqb (st_path s) ""); [apply map_Forall_empty|].
    destruct (LoadFile (st_path s) d) as [[l|err]|]; simpl;
      [by apply load_items_ok|done|apply map_Forall_empty].
  - unfold Add. destruct (persist _ e d). intros [= <- _]. simpl.
    apply map_Forall_insert_2; [apply normalize_ok, Hop|done].
  - unfold Delete. destruct (st_items s !! id); [|by intros [= <- _]].
    destruct (persist _ e d). intros [= <- _]. simpl. by apply map_Forall_delete.
  - unfold Sync. destruct (persist _ e d). intros [= <- _]. apply load_items_ok, Hop.
  - unfold UpsertMany. destruct (persist _ e d). intros [= <- _]. simpl.
    apply (foldl_inv items_ok); [done|]. intros m [i it] _ Hm'. apply upsert_one_ok; [apply Hop|done].
  - unfold SyncSource. cbv zeta. destruct (seqb (strings_TrimSpace source) ""); [by intros [= <- _]|].
    destruct (range_delete _ (st_items s)) as [m n] eqn:Er. destruct (persist _ e d). intros [= <- _]. simpl.
    apply insert_normalized_ok.
    + pose proof (range_delete_ok (fun _ it => seqb (ti_Source it) (strings_TrimSpace source)) _ Hm) as Hr.
      by rewrite Er in Hr.
    + apply Forall_forall. intros x Hx. apply list_elem_of_lookup in Hx as [i Hx].
      rewrite list_lookup_imap in Hx. destruct (items !! i); [|done]. simplify_eq/=. apply normalize_ok, Hop.
  - unfold UpsertDedup. cbv zeta. case_if; [by intros [= <- _]|]. destruct (persist _ e d).
    intros [= <- _]. simpl. apply (foldl_inv items_ok); [done|]. intros m [i [k it]] _ Hm'.
    unfold dedup_one. apply upsert_one_ok; [apply Hop|done].
  - unfold PruneExpired. destruct (range_delete _ (st_items s)) as [m n] eqn:Er.
    pose proof (range_delete_ok (fun _ it => expired it now) _ Hm) as Hr. rewrite Er in Hr.
    cbv zeta. case_if; [by intros [= <- _]|]. destruct (persist _ e d). by intros [= <- _].
Qed.

Lemma store_run_items_ok s d c : store_run s d c -> items_ok (st_items s).
Proof.
  induction 1 as [path d uuid now s Hn Ho|O op s d c s' d' _ IH Hop He|]; [|by eapply store_exec_items_ok|done].
  unfold NewStore in Ho. case_if_in Ho; [|simplify_eq; apply map_Forall_empty].
  assert (items_ok (st_items (Reload (mkStore ∅ path 0) d uuid now).1)) as Hok.
  { apply (store_exec_items_ok canonical_range (OpReload uuid now) (mkStore ∅ path 0) d _ d); try done;
      apply map_Forall_empty. }
  destruct (Reload _ _ _ _) as [s' [err|]]; by simplify_eq.
Qed.

(** Whatever operations run, in whatever order the maps are traversed
    and whatever the files hold, each stored indicator sits under its own
    non-empty identifier and is normalized: lower-case trimmed type, trimmed
    value and source, a source, a severity and a creation time. *)
Theorem store_items_normalized s d c :
  store_run s d c -> map_Forall item_ok (st_items s).
Proof. apply store_run_items_ok. Qed.

(** *** Durability *)

Definition touch (it : ThreatIntel) : ThreatIntel := it <| ti_UpdatedAt := 0 |>.

Lemma normalize_stable uuid id it now :
  item_ok id it -> normalize uuid it now = it <| ti_UpdatedAt := now |>.
Proof.
  intros (Hid & Hne & Ht & Hv & Hs & Hs' & Hsev & Hc). unfold normalize. destruct it. simpl in *.
  rewrite Ht, Hv, Hs. subst id.
  rewrite (proj2 (seqb_neq _ _) Hne), (proj2 (seqb_neq _ _) Hs'), (proj2 (seqb_neq _ _) Hsev).
  by rewrite (proj2 (Z.eqb_neq _ _) Hc).
Qed.

(** Loading the values of a well-formed set gives the set back, with the time
    of the load. *)
Lemma load_roundtrip uuid now (m : gmap string ThreatIntel) l :
  items_ok m -> l ≡ₚ (map_to_list m).*2 ->
  load_items uuid now l = (fun it => it <| ti_UpdatedAt := now |>) <$> m.
Proof.
  intros Hm Hl. set (stamp := fun it : ThreatIntel => it <| ti_UpdatedAt := now |>).
  assert (forall it, it ∈ l -> m !! ti_ID it = Some it) as Hin.
  { intros it Hit. rewrite Hl in Hit. apply list_elem_of_fmap in Hit as ([k v] & -> & Hk).
    apply elem_of_map_to_list in Hk. simpl. by destruct (Hm _ _ Hk) as (-> & _). }
  assert (forall it, it ∈ l -> forall u, normalize u it now = stamp it) as Hn.
  { intros it Hit u. apply (normalize_stable u (ti_ID it)). by eapply Hm, Hin. }
  assert (forall k : string,
    (k ∈ ti_ID <$> (imap pair l).*2 -> load_items uuid now l !! k = stamp <$> m !! k)
    /\ (k ∉ ti_ID <$> (imap pair l).*2 -> load_items uuid now l !! k = None)) as Hk.
  { intros k. unfold load_items.
    apply (foldl_prefix_ind (fun (pre : list (nat * ThreatIntel)) (acc : gmap string ThreatIntel) =>
      (k ∈ ti_ID <$> pre.*2 -> acc !! k = stamp <$> m !! k) /\ (k ∉ ti_ID <$> pre.*2 -> acc !! k = None))).
    - split; [by intros ?%not_elem_of_nil|done].
    - intros pre [i it] post acc Hsplit [IH1 IH2]. cbv zeta.
      assert (it ∈ l) as Hit.
      { apply (elem_of_imap_pair _ i). rewrite Hsplit. apply elem_of_app. right. left. }
      rewrite (Hn it Hit), !fmap_app. simpl. change (ti_ID (stamp it)) with (ti_ID it).
      rewrite elem_of_app, list_elem_of_singleton. destruct (decide (k = ti_ID it)) as [->|Hne].
      + rewrite lookup_insert_eq, (Hin it Hit). split; [done|naive_solver].
      + rewrite lookup_insert_ne by done. split; [naive_solver|intros; apply IH2; naive_solver]. }
  apply map_eq. intros k. rewrite lookup_fmap. destruct (Hk k) as [Hk1 Hk2]. rewrite imap_pair_snd in Hk1, Hk2.
  destruct (decide (k ∈ ti_ID <$> l)) as [Hd|Hd]; [by apply Hk1|]. rewrite (Hk2 Hd).
  destruct (m !! k) as [it|] eqn:E; [|done]. exfalso. apply Hd.
  rewrite Hl. destruct (Hm _ _ E) as (Hid & _). apply list_elem_of_fmap. exists it. split; [done|].
  apply list_elem_of_fmap. exists (k, it). split; [done|]. by apply elem_of_map_to_list.
Qed.
End invariants.

Section durability.
Context `{GoUnicodeLaws} `{GoYAMLLaws}.

(** The file holds the set, up to the times of the last update. *)
Definition synced (s : Store) (d : Disk) : Prop :=
  exists m0 l, d !! st_path s = Some (yaml_Marshal l) /\ l ≡ₚ (map_to_list m0).*2
    /\ items_ok m0 /\ touch <$> m0 = touch <$> st_items s.

Lemma persist_file (O : RangeOrder) s e d :
  st_path s <> ""%string -> se_tmp e <> st_path s -> d !! se_tmp e = None ->
  (persist s e d).1 !! st_path s
  = match se_fault e with no_fault => Some (yaml_Marshal (snapshotLocked s)) | _ => d !! st_path s end.
Proof.
  intros Hp Ht Hf. unfold persist. rewrite (proj2 (seqb_neq _ _) Hp). cbn [negb].
  unfold SaveFileAtomic, SaveFileAtomicBytes.
  destruct (se_fault e); simpl; rewrite ?lookup_delete_ne by done; try done.
  by rewrite lookup_insert_eq.
Qed.

Lemma bump_version_ne s : st_version (bump_version s) <> st_version s.
Proof.
  simpl. unfold i64. intros E. set (v := st_version s) in *.
  pose proof (Z_div_mod_eq_full (v + 1 + 2 ^ 63) (2 ^ 64)). lia.
Qed.

Lemma items_ok_touch m : items_ok (touch <$> m) <-> items_ok m.
Proof.
  split; intros Hm k it Hk.
  - apply (Hm k (touch it)). by rewrite lookup_fmap, Hk.
  - rewrite lookup_fmap in Hk. destruct (m !! k) as [x|] eqn:E; [|done]. simplify_eq/=. by apply Hm in E.
Qed.

Lemma reload_synced s d uuid now :
  st_path s <> ""%string -> synced s d ->
  Reload s d uuid now
  = (bump_version (s <| st_items := (fun it => it <| ti_UpdatedAt := now |>) <$> st_items s |>), None).
Proof.
  intros Hp (m0 & l & Hd & Hl & Hok & Ht). unfold Reload.
  rewrite (proj2 (seqb_neq _ _) Hp). unfold LoadFile. rewrite Hd. simpl. rewrite yaml_roundtrip.
  rewrite (load_roundtrip _ _ m0) by done. f_equal. f_equal. f_equal.
  apply map_eq. intros k. assert ((touch <$> m0) !! k = (touch <$> st_items s) !! k) as Hk by by rewrite Ht.
  rewrite !lookup_fmap in *. destruct (m0 !! k) as [a|], (st_items s !! k) as [b|]; simpl in *; try done.
  apply (inj Some) in Hk. f_equal.
  change ((touch a) <| ti_UpdatedAt := now |> = (touch b) <| ti_UpdatedAt := now |>). by rewrite Hk.
Qed.

Lemma store_run_synced s d c : store_run s d c -> c = true -> st_path s <> ""%string -> synced s d.
Proof.
  induction 1 as [path d uuid now s Hn Ho|O op s d c s' d' Hrun IH Hop He|]; intros Hc Hp; [done| |done].
  pose proof (store_run_items_ok _ _ _ Hrun) as Hok.
  pose proof (store_exec_items_ok O op s d s' d' Hok Hop He) as Hok'.
  destruct (store_exec_shape O op s d s' d' He) as [(Hi & Hv & -> & Hpp)|(m & -> & Hd)].
  - unfold op_saved in Hc. rewrite Hv, Z.eqb_refl in Hc. rewrite Hpp in Hp.
    destruct (IH Hc Hp) as (m0 & l & ? & ? & ? & ?). exists m0, l. by rewrite Hpp, Hi.
  - unfold op_saved in Hc. case_if_in Hc; [exfalso; by eapply (bump_version_ne (s <| st_items := m |>))|].
    change (st_path (bump_version (s <| st_items := m |>))) with (st_path s) in *.
    assert (forall e, se_tmp e <> st_path s /\ d !! se_tmp e = None ->
      match se_fault e with no_fault => true | _ => false end = true ->
      d' = (persist (bump_version (s <| st_items := m |>)) e d).1 ->
      synced (bump_version (s <| st_items := m |>)) d') as Hsave.
    { intros e [Ht Hf] Hfault ->. exists m, (snapshotLocked (bump_version (s <| st_items := m |>))).
      rewrite persist_file by done. destruct (se_fault e); try done. split; [done|].
      split; [|done]. unfold snapshotLocked. simpl. by rewrite range_map_perm. }
    destruct op; simpl in Hop, Hd; try (eapply Hsave; [|exact Hc|exact Hd]; tauto).
    subst d'. pose proof (IH Hc Hp) as Hs. pose proof (reload_synced s d uuid now Hp Hs) as Hr.
    simpl in He. rewrite Hr in He. simplify_eq/=. destruct Hs as (m0 & l & ? & ? & ? & Ht).
    exists m0, l. repeat (split; [done|]). rewrite Ht. simpl. rewrite <-map_fmap_compose.
    apply map_fmap_ext. done.
Qed.

(** C37.  Durability: in any run, when the last save went through and nobody
    edited the file since, restarting loses nothing: Reload succeeds and
    brings back exactly the set in memory, with the time of the reload as
    update time.  (A save can fail at any of its system calls.) *)
Theorem store_durable s d uuid now :
  store_run s d true -> st_path s <> ""%string ->
  exists s', Reload s d uuid now = (s', None)
  /\ st_path s' = st_path s
  /\ st_items s' = (fun it => it <| ti_UpdatedAt := now |>) <$> st_items s.
Proof.
  intros Hrun Hp. pose proof (store_run_synced _ _ _ Hrun eq_refl Hp) as Hs.
  eexists. split; [by apply reload_synced|done].
Qed.
End durability.

(** Crash safety of a save: after every one of its system calls, whether
    it goes on to succeed or fails anywhere, the indicator file holds either
    its old or the complete new contents, no other file is touched, and the
    temporary file is gone at the end. *)
Theorem SaveFileAtomicBytes_atomic path tmp data fault d trace err :
  tmp <> path -> d !! tmp = None ->
  SaveFileAtomicBytes path tmp data fault d = (trace, err) ->
  Forall (fun d' => (d' !! path = d !! path \/ d' !! path = Some data)
                    /\ forall p, p <> path -> p <> tmp -> d' !! p = d !! p) trace
  /\ exists final, last trace = Some final /\ final !! tmp = None
     /\ final !! path = (if err then d !! path else Some data).
Proof.
  intros Hne Hf. unfold SaveFileAtomicBytes.
  assert (forall b, (<[tmp := b]> d !! path = d !! path \/ <[tmp := b]> d !! path = Some data)
    /\ forall p, p <> path -> p <> tmp -> <[tmp := b]> d !! p = d !! p) as Hins.
  { intros b. split; [left; by rewrite lookup_insert_ne|]. intros p _ Hp. by rewrite lookup_insert_ne. }
  assert ((delete tmp d !! path = d !! path \/ delete tmp d !! path = Some data)
    /\ forall p, p <> path -> p <> tmp -> delete tmp d !! p = d !! p) as Hdel.
  { split; [left; by rewrite lookup_delete_ne|]. intros p _ Hp. by rewrite lookup_delete_ne. }
  assert (exists final, Some (delete tmp d) = Some final /\ final !! tmp = None /\ final !! path = d !! path) as Hfin.
  { eexists. split; [done|]. by rewrite lookup_delete_eq, lookup_delete_ne. }
  assert ((d !! path = d !! path \/ d !! path = Some data)
    /\ forall p, p <> path -> p <> tmp -> d !! p = d !! p) as Hid by (split; [by left|done]).
  assert ((delete tmp (<[path := data]> d) !! path = d !! path
           \/ delete tmp (<[path := data]> d) !! path = Some data)
    /\ forall p, p <> path -> p <> tmp -> delete tmp (<[path := data]> d) !! p = d !! p) as Hren.
  { split; [right; by rewrite lookup_delete_ne, lookup_insert_eq|].
    intros p ? ?. by rewrite lookup_delete_ne, lookup_insert_ne. }
  destruct fault; intros [= <- <-]; (split; [repeat (apply Forall_cons; split; [auto|]); by apply Forall_nil|]);
    simpl; try exact Hfin; try (exists d; by rewrite Hf).
  eexists. split; [done|]. by rewrite lookup_delete_eq, lookup_delete_ne, lookup_insert_eq.
Qed.

(** ** Feeds *)

Section feeds.
Context `{GoUnicodeLaws} `{GoYAML}.

(** No two stored indicators have one canonical key. *)
Definition keys_unique (m : gmap string ThreatIntel) : Prop :=
  forall id1 it1 id2 it2, m !! id1 = Some it1 -> m !! id2 = Some it2 ->
    CanonicalKey it1 = CanonicalKey it2 -> id1 = id2.

Lemma dedup_batch_key items k it : dedup_batch items !! k = Some it -> CanonicalKey it = k /\ it ∈ items.
Proof.
  unfold dedup_batch. revert k it.
  apply (foldl_prefix_ind (fun pre (b : gmap string ThreatIntel) =>
    forall k it, b !! k = Some it -> CanonicalKey it = k /\ it ∈ pre)); [done|].
  intros pre x post b _ IH k it. cbv zeta.
  assert (b !! k = Some it -> CanonicalKey it = k /\ it ∈ pre ++ [x]) as Hold.
  { intros Hb. destruct (IH _ _ Hb). split; [done|]. apply elem_of_app. by left. }
  assert (<[CanonicalKey x := x]> b !! k = Some it -> CanonicalKey it = k /\ it ∈ pre ++ [x]) as Hnew.
  { intros [[<- <-]|[_ ?]]%lookup_insert_Some; [|by apply Hold].
    split; [done|]. apply elem_of_app. right. left. }
  destruct (b !! CanonicalKey x); [case_if|]; auto.
Qed.

Lemma existing_ids_spec (O : RangeOrder) s k id :
  existing_ids s !! k = Some id -> exists it, st_items s !! id = Some it /\ CanonicalKey it = k.
Proof.
  unfold existing_ids. set (l := range_map (st_items s)).
  assert (forall id it, (id, it) ∈ l -> st_items s !! id = Some it) as Hl by (intros; by apply elem_of_range).
  apply (foldl_inv (fun m : gmap string string => m !! k = Some id ->
    exists it, st_items s !! id = Some it /\ CanonicalKey it = k)); [done|].
  intros m [id' it'] Hin IH [[<- <-]|[_ ?]]%lookup_insert_Some; [|auto]. eauto.
Qed.

Lemma existing_ids_complete (O : RangeOrder) s id it :
  st_items s !! id = Some it -> is_Some (existing_ids s !! CanonicalKey it).
Proof.
  intros Hit. apply elem_of_range in Hit. unfold existing_ids. revert Hit.
  apply (foldl_prefix_ind (fun pre (m : gmap string string) => (id, it) ∈ pre -> is_Some (m !! CanonicalKey it)));
    [by intros ?%not_elem_of_nil|].
  intros pre [id' it'] post m _ IH [Hp|Heq%list_elem_of_singleton]%elem_of_app.
  - destruct (decide (CanonicalKey it' = CanonicalKey it)) as [->|]; [rewrite lookup_insert_eq; eauto|].
    rewrite lookup_insert_ne by done. by apply IH.
  - simplify_eq. rewrite lookup_insert_eq. eauto.
Qed.

(** One step of the merge: what was there stays or was written under a key of
    the batch, and keys stay unique. *)
Lemma dedup_one_unique (O : RangeOrder) s uuid now (pre : list string) m k it :
  items_ok (st_items s) -> keys_unique (st_items s) -> CanonicalKey it = k -> k ∉ pre ->
  (forall id x, m !! id = Some x -> CanonicalKey x ∉ pre -> st_items s !! id = Some x) ->
  keys_unique m ->
  let m' := dedup_one (existing_ids s) uuid now m k it in
  (forall id x, m' !! id = Some x -> CanonicalKey x ∉ pre ++ [k] -> st_items s !! id = Some x) /\ keys_unique m'.
Proof.
  intros Hok Hu Hk Hpre Hold Hum m'. unfold m', dedup_one.
  set (it1 := match existing_ids s !! k with Some id => it <| ti_ID := id |> | None => it end).
  assert (CanonicalKey it1 = k) as Hk1 by (unfold it1; by destruct (existing_ids s !! k)).
  destruct (upsert_one_spec uuid now m it1) as (n & -> & Hnk & Hnid & _). rewrite Hk1 in Hnk.
  assert (forall id x, m !! id = Some x -> CanonicalKey x = k -> id = ti_ID n) as Hsame.
  { intros id x Hx Hxk. assert (st_items s !! id = Some x) as Hsx by (apply Hold; [done|by rewrite Hxk]).
    destruct (existing_ids_complete O s id x Hsx) as [id0 He]. rewrite Hxk in He.
    destruct (existing_ids_spec O s k id0 He) as (y & Hy & Hyk).
    assert (id = id0) as -> by (eapply Hu; [done|done|congruence]).
    rewrite Hnid. unfold it1. rewrite He. simpl.
    destruct (Hok _ _ Hy) as (_ & Hne & _). by rewrite (proj2 (seqb_neq _ _) Hne). }
  split.
  - intros id x [[<- <-]|[Hne Hx]]%lookup_insert_Some Hnot.
    + exfalso. apply Hnot. rewrite Hnk. apply elem_of_app. right. left.
    + apply Hold; [done|]. intros ?. apply Hnot. apply elem_of_app. by left.
  - intros i1 x1 i2 x2 [[<- <-]|[Hn1 H1']]%lookup_insert_Some [[<- <-]|[Hn2 H2']]%lookup_insert_Some Heq; try done.
    + symmetry. eapply Hsame; [done|congruence].
    + eapply Hsame; [done|congruence].
    + by eapply Hum.
Qed.

Lemma UpsertDedup_keys_unique (O : RangeOrder) s d items uuid now e :
  items_ok (st_items s) -> keys_unique (st_items s) ->
  keys_unique (st_items (UpsertDedup s d items uuid now e).1.1).
Proof.
  intros Hok Hu. unfold UpsertDedup. cbv zeta. case_if; [done|]. destruct (persist _ e d). simpl.
  set (l := imap pair (range_map (dedup_batch items))).
  assert (NoDup ((fun p : nat * (string * ThreatIntel) => p.2.1) <$> l)) as Hnd.
  { unfold l. replace ((fun p : nat * (string * ThreatIntel) => p.2.1) <$> _)
      with ((range_map (dedup_batch items)).*1); [apply NoDup_range_fst|].
    rewrite <-(imap_pair_snd (range_map (dedup_batch items))) at 1. by rewrite <-list_fmap_compose. }
  assert (forall i k it, (i, (k, it)) ∈ l -> CanonicalKey it = k) as Hkey.
  { intros i k it Hin%elem_of_imap_pair%elem_of_range. by apply dedup_batch_key in Hin as [? _]. }
  assert ((forall id x, (foldl (fun m '(i, (k, it)) => dedup_one (existing_ids s) (uuid i) now m k it) (st_items s) l) !! id = Some x ->
    CanonicalKey x ∉ (fun p : nat * (string * ThreatIntel) => p.2.1) <$> l -> st_items s !! id = Some x) /\
    keys_unique (foldl (fun m '(i, (k, it)) => dedup_one (existing_ids s) (uuid i) now m k it) (st_items s) l)) as [_ ?]; [|done].
  apply (foldl_prefix_ind (fun (pre : list (nat * (string * ThreatIntel))) (m : gmap string ThreatIntel) =>
    (forall id x, m !! id = Some x -> CanonicalKey x ∉ (fun p => p.2.1) <$> pre -> st_items s !! id = Some x)
    /\ keys_unique m)); [done|].
  intros pre [i [k it]] post m Hsplit [Hold Hum]. rewrite fmap_app.
  apply dedup_one_unique; try done.
  - apply (Hkey i). rewrite Hsplit. apply elem_of_app. right. left.
  - rewrite Hsplit, fmap_app, NoDup_app in Hnd. intros Hin. destruct Hnd as (_ & Hnd & _).
    eapply Hnd; [exact Hin|]. left.
Qed.

Lemma foldl_insert_lookup (l : list ThreatIntel) (m : gmap string ThreatIntel) id :
  foldl (fun m it => <[ti_ID it := it]> m) m l !! id
  = match last (filter (fun it => ti_ID it = id) l) with Some it => Some it | None => m !! id end.
Proof.
  revert m. induction l as [|x l IH] using rev_ind; intros m; [done|].
  rewrite foldl_app, filter_app. simpl. destruct (decide (ti_ID x = id)) as [<-|Hne].
  - rewrite (filter_cons_True _ x) by done. change (filter _ []) with (@nil ThreatIntel).
    by rewrite lookup_insert_eq, last_snoc.
  - rewrite (filter_cons_False _ x) by done. change (filter _ []) with (@nil ThreatIntel).
    by rewrite app_nil_r, lookup_insert_ne, IH.
Qed.
End feeds.

Section feed_claims.
Context `{GoUnicodeLaws} `{GoYAML}.

(** Merging a feed never creates a duplicate: if no two stored
    indicators denote the same (type, value), that is still so after
    UpsertDedup, for every feed (including one that repeats an indicator
    under several spellings or identifiers), every generated identifier and
    every map order. *)
Theorem UpsertDedup_no_duplicates (O : RangeOrder) s d items uuid now e s' d' r :
  items_ok (st_items s) -> keys_unique (st_items s) ->
  UpsertDedup s d items uuid now e = (s', d', r) -> keys_unique (st_items s').
Proof.
  intros Hok Hu He. pose proof (UpsertDedup_keys_unique O s d items uuid now e Hok Hu) as Hk. by rewrite He in Hk.
Qed.

(** Replacing one source: SyncSource refuses a blank source; otherwise
    the entry under an identifier is the last feed item with that identifier,
    normalized and attributed to the source; where the feed has none, entries
    of the source are gone and entries of other sources are untouched. *)
Theorem SyncSource_exact (O : RangeOrder) s d source items uuid now e s' d' r :
  SyncSource s d source items uuid now e = (s', d', r) ->
  let src := strings_TrimSpace source in
  let fed := imap (fun i it => normalize (uuid i) (it <| ti_Source := src |>) now) items in
  (src = ""%string -> s' = s /\ d' = d /\ r = Some "source required"%string)
  /\ (src <> ""%string ->
      Forall (fun it => ti_Source it = src) fed
      /\ forall id, st_items s' !! id
         = match last (filter (fun it => ti_ID it = id) fed) with
           | Some it => Some it
           | None => match st_items s !! id with
                     | Some it => if seqb (ti_Source it) src then None else Some it
                     | None => None
                     end
           end).
Proof.
  intros He src fed. unfold SyncSource in He. cbv zeta in He. fold src fed in He.
  destruct (seqb src "") eqn:Es.
  { apply seqb_spec in Es. simplify_eq. split; [done|]. by intros ?. }
  apply seqb_neq in Es. split; [by intros ?|]. intros _.
  destruct (range_delete _ (st_items s)) as [m n] eqn:Er.
  destruct (persist _ e d) as [d1 r1] in He. simplify_eq/=. split.
  - apply Forall_forall. intros x Hx. apply list_elem_of_lookup in Hx as [i Hx].
    unfold fed in Hx. rewrite list_lookup_imap in Hx. destruct (items !! i); [|done]. simplify_eq/=.
    assert (strings_TrimSpace src = src) as -> by apply strings_TrimSpace_idem.
    by rewrite (proj2 (seqb_neq _ _) Es).
  - intros id. rewrite foldl_insert_lookup. destruct (last _); [done|].
    pose proof (range_delete_lookup (fun _ it => seqb (ti_Source it) src) (st_items s) id) as Hl.
    by rewrite Er in Hl.
Qed.

(** Expiry: PruneExpired removes exactly the indicators whose expiry
    time is set and past, reports how many, keeps every indicator that could
    still match, and advances the version (so that matchers rebuild) exactly
    when something was removed. *)
Theorem PruneExpired_exact (O : RangeOrder) s d now e s' d' n :
  PruneExpired s d now e = (s', d', n) ->
  st_items s' = filter (fun p => expired p.2 now = false) (st_items s)
  /\ n = Z.of_nat (size (st_items s)) - Z.of_nat (size (st_items s'))
  /\ (n = 0 -> d' = d /\ st_version s' = st_version s)
  /\ (n <> 0 -> st_version s' = i64 (st_version s + 1)
      /\ (st_path s <> ""%string -> se_fault e = no_fault ->
          exists trace, SaveFileAtomicBytes (st_path s) (se_tmp e) (yaml_Marshal (snapshotLocked s')) no_fault d
                        = (trace, None) /\ last trace = Some d')).
Proof.
  unfold PruneExpired. rewrite range_delete_filter. cbv zeta. case_if.
  - intros [= <- <- <-]. simpl. split; [done|]. split; [lia|]. split; done.
  - set (s1 := bump_version _). destruct (persist s1 e d) as [d1 r1] eqn:Ep. intros [= <- <- <-].
    split; [done|]. split; [done|]. split; [done|]. intros _. split; [done|]. intros Hp Hf.
    unfold persist in Ep. change (st_path s1) with (st_path s) in Ep.
    rewrite (proj2 (seqb_neq _ _) Hp) in Ep. cbn [negb] in Ep. unfold SaveFileAtomic in Ep. rewrite Hf in Ep.
    eexists. split; [done|]. by simplify_eq/=.
Qed.
End feed_claims.

(** ** Listing *)

Section listing.
Context `{GoUnicode}.

(** The matches of a filter, in the order of their identifiers. *)
Definition matches (O : RangeOrder) (s : Store) (f : Filter) : list ThreatIntel :=
  merge_sort id_le (filter (fun it => filter_skips f (strings_ToLower (strings_TrimSpace (fl_Query f))) it = false)
                      (List_ s)).

#[local] Instance id_le_trans : Transitive id_le.
Proof. intros a b c. unfold id_le. apply sle_trans. Qed.
#[local] Instance id_le_total : Total id_le.
Proof. intros a b. unfold id_le. apply sle_total. Qed.

Lemma elem_of_matches O s f it :
  it ∈ matches O s f <->
  filter_skips f (strings_ToLower (strings_TrimSpace (fl_Query f))) it = false
  /\ exists id, st_items s !! id = Some it.
Proof.
  unfold matches. rewrite merge_sort_Permutation, list_elem_of_filter. unfold List_.
  rewrite list_elem_of_fmap. split.
  - intros [Hf ([k x] & -> & Hx)]. split; [done|]. exists k. by apply elem_of_range.
  - intros [Hf [k Hk]]. split; [done|]. exists (k, it). split; [done|]. by apply elem_of_range.
Qed.

(** The listing does not depend on the order in which the map is traversed. *)
Lemma matches_order O O' s f : items_ok (st_items s) -> matches O s f = matches O' s f.
Proof.
  intros Hok. apply (StronglySorted_unique_strong id_le).
  - intros a b [_ [ka Ha]]%elem_of_matches [_ [kb Hb]]%elem_of_matches Hab Hba.
    destruct (Hok _ _ Ha) as (Ea & _). destruct (Hok _ _ Hb) as (Eb & _).
    assert (ti_ID a = ti_ID b) as E by (by apply (anti_symm sle)). congruence.
  - apply (StronglySorted_merge_sort id_le).
  - apply (StronglySorted_merge_sort id_le).
  - unfold matches. rewrite !merge_sort_Permutation. unfold List_. by rewrite !range_map_perm.
Qed.

(** Paging: with a non-negative offset and limit, ListFiltered never
    panics and returns the window [offset, offset+limit) of one fixed list,
    the matching indicators sorted by identifier, and its length; the list is
    the same whatever order the map is traversed in, so consecutive pages
    neither overlap nor skip an indicator. *)
Theorem ListFiltered_pages s f :
  items_ok (st_items s) ->
  exists all, StronglySorted id_le all
  /\ (forall it, it ∈ all <->
       filter_skips f (strings_ToLower (strings_TrimSpace (fl_Query f))) it = false
       /\ exists id, st_items s !! id = Some it)
  /\ NoDup (ti_ID <$> all)
  /\ forall (O : RangeOrder) offset limit, 0 <= offset -> 0 <= limit -> offset + limit <= maxInt64 ->
     ListFiltered s offset limit f
     = Some (take (Z.to_nat limit) (drop (Z.to_nat offset) all), len all).
Proof.
  intros Hok. exists (matches canonical_range s f). split; [apply (StronglySorted_merge_sort id_le)|].
  split; [intros it; apply elem_of_matches|]. split.
  - set (O := canonical_range). unfold matches. rewrite merge_sort_Permutation. unfold List_. apply (sublist_NoDup _ (ti_ID <$> (range_map (st_items s)).*2)).
    + rewrite <-list_fmap_compose. replace (_ <$> range_map (st_items s)) with (range_map (st_items s)).*1.
      * apply NoDup_range_fst.
      * apply list_fmap_ext. intros i [k x] Hx. simpl.
        assert (st_items s !! k = Some x) as Hk by (apply elem_of_range, list_elem_of_lookup; eauto).
        by destruct (Hok _ _ Hk) as (-> & _).
    + apply fmap_sublist, sublist_filter.
  - intros O offset limit Ho Hl Hmax. unfold ListFiltered. cbv zeta.
    change (merge_sort id_le _) with (matches O s f). rewrite (matches_order O canonical_range) by done.
    set (all := matches _ s f). pose proof (len_nonneg all) as Hall. case_if.
    + rewrite drop_ge by (unfold len in *; lia). by rewrite take_nil.
    + replace (i64 (offset + limit)) with (offset + limit) by (unfold i64, maxInt64 in *; rewrite Z.mod_small; lia).
      case_if.
      * rewrite slice_ok by lia. simpl. f_equal. f_equal. apply take_ge_eq.
        all: rewrite length_drop; unfold len in *; lia.
      * rewrite slice_ok by lia. simpl. by replace (offset + limit - offset) with limit by lia.
Qed.

(** A negative offset, which the HTTP handler passes through, makes
    ListFiltered slice out of range: the request panics. *)
Theorem ListFiltered_negative_offset (O : RangeOrder) s offset limit f :
  offset < 0 -> ListFiltered s offset limit f = None.
Proof.
  intros Ho. unfold ListFiltered. cbv zeta. set (all := merge_sort _ _). pose proof (len_nonneg all).
  destruct (Z.leb_spec (len all) offset); [lia|]. unfold slice.
  by rewrite (proj2 (Z.leb_gt 0 offset) Ho).
Qed.
End listing.

(** ** Witnesses *)

(** A codec for the examples: any countable type written as a string of bits. *)
Fixpoint bits_of (p : positive) : bytes :=
  match p with xH => [] | xO p => chr 48 :: bits_of p | xI p => chr 49 :: bits_of p end.
Fixpoint of_bits (b : bytes) : positive :=
  match b with [] => xH | c :: r => if bv c =? 48 then xO (of_bits r) else xI (of_bits r) end.
Lemma of_bits_of p : of_bits (bits_of p) = p.
Proof. induction p as [p IH|p IH|]; simpl; [by rewrite IH|by rewrite IH|done]. Qed.

#[global] Instance IntelEvidence_eq_dec : EqDecision IntelEvidence.
Proof. solve_decision. Defined.
#[global] Program Instance IntelEvidence_countable : Countable IntelEvidence :=
  inj_countable' (fun r => (ie_Activity r, ie_ThreatLabels r, ie_Source r, ie_CrossCheck r, ie_Confidence r,
                            ie_TLP r, ie_MISPEventID r, ie_Narrative r))
                 (fun '(a, b, c, d, e, f, g, h) => mkIntelEvidence a b c d e f g h) _.
Next Obligation. by intros []. Qed.
#[global] Instance ThreatIntel_eq_dec : EqDecision ThreatIntel.
Proof. solve_decision. Defined.
#[global] Program Instance ThreatIntel_countable : Countable ThreatIntel :=
  inj_countable' (fun r => (ti_ID r, ti_Type r, ti_Value r, ti_Category r, ti_Severity r, ti_Source r,
                            ti_Description r, ti_Tags r, ti_Enabled r, ti_CreatedAt r, ti_UpdatedAt r,
                            ti_ExpireAt r, ti_RecommendedAction r, ti_Evidence r))
                 (fun '(a, b, c, d, e, f, g, h, i, j, k, l, m, n) =>
                    mkThreatIntel a b c d e f g h i j k l m n) _.
Next Obligation. by intros []. Qed.

Definition bits_yaml : GoYAML :=
  {| yaml_Marshal := fun items => bits_of (encode items);
     yaml_Unmarshal := fun b => match decode (of_bits b) with Some l => Ok l | None => Err "yaml" end |}.
#[global] Instance bits_yaml_laws : @GoYAMLLaws bits_yaml.
Proof. constructor. intros items. simpl. by rewrite of_bits_of, decode_encode. Qed.

Definition demo_ioc (id ty v : string) : ThreatIntel :=
  zero_ThreatIntel <| ti_ID := id |> <| ti_Type := ty |> <| ti_Value := v |> <| ti_Enabled := true |>.
Definition demo_save : save_env := mkSaveEnv "dir/.ioc.yaml.tmp-1" no_fault.

#[local] Existing Instance ascii_unicode.
#[local] Existing Instance bits_yaml.

Definition demo_store : Store := mkStore ∅ "dir/ioc.yaml" 1.
Definition demo_added : Store * Disk :=
  store_exec canonical_range (OpAdd (demo_ioc "i1" " IP " "192.0.2.1 ") "u" 100 demo_save) demo_store ∅.

Lemma demo_run : store_run demo_added.1 demo_added.2 true.
Proof.
  assert (store_run demo_store ∅ false) as H0.
  { eapply (store_open "dir/ioc.yaml" ∅ (fun _ => ""%string) 50); [lia|]. reflexivity. }
  apply (store_step canonical_range (OpAdd (demo_ioc "i1" " IP " "192.0.2.1 ") "u" 100 demo_save)
           demo_store ∅ false demo_added.1 demo_added.2 H0); [|reflexivity].
  split; [lia|]. split; [discriminate|apply lookup_empty].
Defined.

Lemma store_items_normalized_witness :
  store_run demo_added.1 demo_added.2 true /\ map_Forall item_ok (st_items demo_added.1).
Proof. split; [exact demo_run|]. exact (store_items_normalized _ _ _ demo_run). Defined.

Lemma store_durable_witness :
  store_run demo_added.1 demo_added.2 true /\ st_path demo_added.1 <> ""%string /\
  exists s', Reload demo_added.1 demo_added.2 (fun _ => "u"%string) 200 = (s', None)
  /\ st_items s' = (fun it => it <| ti_UpdatedAt := 200 |>) <$> st_items demo_added.1.
Proof.
  split; [exact demo_run|]. assert (st_path demo_added.1 <> ""%string) as Hp by discriminate.
  split; [exact Hp|].
  destruct (store_durable demo_added.1 demo_added.2 (fun _ => "u"%string) 200 demo_run Hp) as (s' & E & _ & Hi).
  exists s'. split; [exact E|exact Hi].
Defined.

Definition demo_disk : Disk := {["p"%string := byt "old"]}.

Lemma SaveFileAtomicBytes_atomic_witness :
  "t"%string <> "p"%string /\
  exists final, last (SaveFileAtomicBytes "p" "t" (byt "new") fail_rename demo_disk).1 = Some final
    /\ final !! "p"%string = Some (byt "old").
Proof.
  assert ("t"%string <> "p"%string) as Hne by discriminate. split; [exact Hne|].
  destruct (SaveFileAtomicBytes_atomic "p" "t" (byt "new") fail_rename demo_disk
    _ _ Hne ltac:(vm_compute; reflexivity) eq_refl) as (_ & final & Hl & _ & Hp).
  exists final. split; [exact Hl|]. rewrite Hp. vm_compute. reflexivity.
Defined.

Lemma keys_unique_empty : keys_unique ∅.
Proof. intros id1 it1 id2 it2 Hx. by rewrite lookup_empty in Hx. Qed.

Lemma UpsertDedup_no_duplicates_witness :
  let feed := [demo_ioc "a" "ip" "192.0.2.1"; demo_ioc "b" " IP" " 192.0.2.1"] in
  let r := @UpsertDedup _ _ canonical_range demo_store ∅ feed (fun _ => "u"%string) 100 demo_save in
  items_ok (st_items demo_store) /\ keys_unique (st_items demo_store)
  /\ keys_unique (st_items r.1.1) /\ size (st_items r.1.1) = 1%nat.
Proof.
  intros feed r. assert (items_ok (st_items demo_store)) as Hok by apply map_Forall_empty.
  split; [exact Hok|]. split; [exact keys_unique_empty|].
  split; [|vm_compute; reflexivity].
  destruct r as [[s' d'] r'] eqn:E.
  exact (UpsertDedup_no_duplicates canonical_range demo_store ∅ feed (fun _ => "u"%string) 100 demo_save
           s' d' r' Hok keys_unique_empty E).
Defined.

Lemma SyncSource_exact_witness :
  let r := @SyncSource _ _ canonical_range demo_added.1 ∅ " feed " [demo_ioc "i2" "domain" "evil.example"]
             (fun _ => "u"%string) 100 demo_save in
  st_items r.1.1 !! "i1"%string = st_items demo_added.1 !! "i1"%string.
Proof.
  intros r. destruct r as [[s' d'] r'] eqn:E. simpl.
  destruct (SyncSource_exact canonical_range _ _ _ _ _ _ _ _ _ _ E) as [_ Hx].
  rewrite (proj2 (Hx ltac:(vm_compute; discriminate)) "i1"%string). vm_compute. reflexivity.
Defined.

Lemma PruneExpired_exact_witness :
  let s := mkStore {["a"%string := (demo_ioc "a" "ip" "192.0.2.1") <| ti_ExpireAt := 10 |>]} "" 1 in
  let r := @PruneExpired _ canonical_range s ∅ 11 demo_save in
  st_items r.1.1 = filter (fun p => expired p.2 11 = false) (st_items s).
Proof.
  intros s r. destruct r as [[s' d'] n] eqn:E. simpl.
  exact (proj1 (PruneExpired_exact canonical_range s ∅ 11 demo_save s' d' n E)).
Defined.

Lemma ListFiltered_pages_witness :
  items_ok (st_items demo_added.1) /\
  exists all, ListFiltered (H1 := canonical_range) demo_added.1 0 10 (mkFilter "" "" "") = Some (take 10 (drop 0 all), len all).
Proof.
  assert (items_ok (st_items demo_added.1)) as Hok by exact (store_run_items_ok _ _ _ demo_run).
  split; [exact Hok|].
  destruct (ListFiltered_pages demo_added.1 (mkFilter "" "" "") Hok) as (all & _ & _ & _ & Hp).
  exists all. apply (Hp canonical_range 0 10); [lia|lia|vm_compute; discriminate].
Defined.

Lemma ListFiltered_negative_offset_witness :
  -1 < 0 /\ ListFiltered (H1 := canonical_range) demo_added.1 (-1) 100 (mkFilter "" "" "") = None.
Proof. split; [lia|]. apply ListFiltered_negative_offset. lia. Defined.
