(* ===== verification/IntelMatcher.v ===== *)
(** * IntelMatcher: matching packets against the indicators

    internal/intel/matcher.go.  The matcher keeps an index of the store and
    rebuilds it when the store's version has changed.  The specification is a
    scan of the store: [denotes] says when an indicator applies to a packet. *)

From S2P Require Import Prelude GoStrings GoNet Events Parser IntelStore.

Record CIDRIntel := mkCIDRIntel { ci_Network : IPNet; ci_Intel : ThreatIntel }.

Record Matcher := mkMatcher {
  mt_ipSet : gmap string (list ThreatIntel);
  mt_cidrs : list CIDRIntel;
  mt_domainMap : gmap string (list ThreatIntel);
  mt_urlMap : gmap string (list ThreatIntel);
  mt_urlList : list ThreatIntel;
  mt_version : Z
}.
#[global] Instance settable_Matcher : Settable Matcher := fun r =>
  mkMatcher (mt_ipSet r) (mt_cidrs r) (mt_domainMap r) (mt_urlMap r) (mt_urlList r) (mt_version r).

Definition NewMatcher : Matcher := mkMatcher ∅ [] ∅ ∅ [] 0.

Definition active (it : ThreatIntel) (now : Z) : bool :=
  ti_Enabled it && ((ti_ExpireAt it =? 0) || (now <=? ti_ExpireAt it)).

(** [m[k] = append(m[k], it)] *)
Definition append_at (k : string) (it : ThreatIntel) (m : gmap string (list ThreatIntel))
    : gmap string (list ThreatIntel) := <[k := default [] (m !! k) ++ [it]]> m.
Definition lookup_all (k : string) (m : gmap string (list ThreatIntel)) : list ThreatIntel :=
  default [] (m !! k).

(** The closure addHit: the hits so far and the keys already seen. *)
Definition hit_key (it : ThreatIntel) : string :=
  if seqb (ti_ID it) "" then ti_Type it +:+ ":" +:+ ti_Value it else ti_ID it.
Definition addHit (now : Z) (acc : list ThreatIntel * gset string) (it : ThreatIntel)
    : list ThreatIntel * gset string :=
  let '(hits, seen) := acc in
  if negb (bool_decide (hit_key it ∈ seen)) && active it now
  then (hits ++ [it], {[hit_key it]} ∪ seen) else (hits, seen).

Section matcher.
Context `{GoUnicode} `{RangeOrder}.

(** One iteration of the loop of rebuildIndex. *)
Definition index_item (m : Matcher) (it : ThreatIntel) : Matcher :=
  let t := strings_ToLower (ti_Type it) in
  if seqb t "ip" then
    let ip := canonicalIP (ti_Value it) in
    if negb (seqb ip "") then m <| mt_ipSet ::= append_at ip it |> else m
  else if seqb t "cidr" then
    match net_ParseCIDR (ti_Value it) with
    | Some network => m <| mt_cidrs ::= fun l => l ++ [mkCIDRIntel network it] |>
    | None => m
    end
  else if seqb t "domain" then
    let domain := canonicalDomain (ti_Value it) in
    if negb (seqb domain "") then m <| mt_domainMap ::= append_at domain it |> else m
  else if seqb t "url" then
    let value := strings_ToLower (strings_TrimSpace (ti_Value it)) in
    if seqb value "" then m
    else m <| mt_urlMap ::= append_at value it |> <| mt_urlList ::= fun l => l ++ [it] |>
  else m.

Definition rebuildIndex (s : Store) (version : Z) : Matcher :=
  (foldl index_item NewMatcher (List_ s)) <| mt_version := version |>.

Definition ensureIndex (s : Store) (m : Matcher) : Matcher :=
  let version := Version s in
  if mt_version m =? version then m else rebuildIndex s version.

Definition matchDomainLocked (m : Matcher) (value : string) : list ThreatIntel :=
  let value := canonicalDomain value in
  if seqb value "" then [] else
  foldl (fun hits '(domain, items) =>
    if seqb value domain || strings_HasSuffix value ("." +:+ domain) then hits ++ items else hits)
    [] (range_map (mt_domainMap m)).

(** What one address contributes. *)
Definition match_ip (m : Matcher) (ip : string) : list ThreatIntel :=
  match net_ParseIP ip with
  | None => []
  | Some parsed =>
      if IP_IsLoopback parsed || IP_IsUnspecified parsed then [] else
      lookup_all (canonicalIP ip) (mt_ipSet m)
      ++ (ci_Intel <$> filter (fun c => IPNet_Contains (ci_Network c) parsed = true) (mt_cidrs m))
  end.

Definition match_url (m : Matcher) (url : string) : list ThreatIntel :=
  if seqb url "" then [] else
  let lowerURL := strings_ToLower url in
  lookup_all lowerURL (mt_urlMap m)
  ++ filter (fun it => strings_Contains lowerURL (strings_ToLower (ti_Value it)) = true) (mt_urlList m).

Definition MatchPacket (s : Store) (m : Matcher) (pf : PacketFeature) (now : Z) : Matcher * list ThreatIntel :=
  let m := ensureIndex s m in
  let ips := [pf_SrcIP pf; pf_DstIP pf] ++ pf_DNSAnswers pf in
  let acc := ([], ∅) in
  let acc := foldl (fun acc ip => foldl (addHit now) acc (match_ip m ip)) acc ips in
  let acc := foldl (addHit now) acc (matchDomainLocked m (pf_DNSQuery pf)) in
  let acc := foldl (addHit now) acc (matchDomainLocked m (pf_HTTPHost pf)) in
  let acc := foldl (addHit now) acc (matchDomainLocked m (pf_SNI pf)) in
  let acc := foldl (fun acc ans =>
      if bool_decide (is_Some (net_ParseIP ans)) then acc
      else foldl (addHit now) acc (matchDomainLocked m ans)) acc (pf_DNSAnswers pf) in
  let acc := foldl (addHit now) acc (match_url m (pf_HTTPURL pf)) in
  (m, acc.1).

(** ** The specification *)

(** An address can match unless it is loopback or unspecified. *)
Definition routable (ip : string) : option (list Z) :=
  match net_ParseIP ip with
  | Some p => if IP_IsLoopback p || IP_IsUnspecified p then None else Some p
  | None => None
  end.
(** A name and those below it. *)
Definition covers (domain name : string) : bool :=
  let name := canonicalDomain name in
  negb (seqb name "") && (seqb name domain || strings_HasSuffix name ("." +:+ domain)).

Definition packet_ips (pf : PacketFeature) : list string := [pf_SrcIP pf; pf_DstIP pf] ++ pf_DNSAnswers pf.
Definition packet_names (pf : PacketFeature) : list string :=
  [pf_DNSQuery pf; pf_HTTPHost pf; pf_SNI pf]
  ++ filter (fun ans => net_ParseIP ans = None) (pf_DNSAnswers pf).

(** The indicator applies to the packet. *)
Definition denotes (it : ThreatIntel) (pf : PacketFeature) : Prop :=
  (strings_ToLower (ti_Type it) = "ip"%string /\ canonicalIP (ti_Value it) <> ""%string /\
   exists ip, ip ∈ packet_ips pf /\ is_Some (routable ip) /\ canonicalIP ip = canonicalIP (ti_Value it))
  \/ (strings_ToLower (ti_Type it) = "cidr"%string /\
   exists ip p net, ip ∈ packet_ips pf /\ routable ip = Some p /\
     net_ParseCIDR (ti_Value it) = Some net /\ IPNet_Contains net p = true)
  \/ (strings_ToLower (ti_Type it) = "domain"%string /\ canonicalDomain (ti_Value it) <> ""%string /\
   exists name, name ∈ packet_names pf /\ covers (canonicalDomain (ti_Value it)) name = true)
  \/ (strings_ToLower (ti_Type it) = "url"%string /\ strings_ToLower (ti_Value it) <> ""%string /\ pf_HTTPURL pf <> ""%string /\
   strings_Contains (strings_ToLower (pf_HTTPURL pf)) (strings_ToLower (ti_Value it)) = true).
End matcher.

(** ** The index *)

Lemma elem_of_append_at it k k' x m :
  it ∈ lookup_all k (append_at k' x m) <-> it ∈ lookup_all k m \/ (k = k' /\ it = x).
Proof.
  unfold lookup_all, append_at. destruct (decide (k = k')) as [->|Hne].
  - rewrite lookup_insert_eq. simpl. rewrite elem_of_app, list_elem_of_singleton. naive_solver.
  - rewrite lookup_insert_ne by done. naive_solver.
Qed.

(** Extending the list by an element that does not concern a field of the index. *)
Lemma snoc_skip {A K} (B P : A -> K -> Prop) l x :
  (forall y k, B y k <-> y ∈ l /\ P y k) -> (forall k, ~ P x k) ->
  forall y k, B y k <-> y ∈ l ++ [x] /\ P y k.
Proof. intros HB Hx y k. rewrite HB, elem_of_app, list_elem_of_singleton. naive_solver. Qed.
Lemma snoc_skip1 {A} (B P : A -> Prop) l x :
  (forall y, B y <-> y ∈ l /\ P y) -> ~ P x -> forall y, B y <-> y ∈ l ++ [x] /\ P y.
Proof. intros HB Hx y. rewrite HB, elem_of_app, list_elem_of_singleton. naive_solver. Qed.

Section index.
Context `{GoUnicode}.

(** The index of a list of indicators, as a set of facts. *)
Record indexes (m : Matcher) (l : list ThreatIntel) : Prop := {
  ix_ip it k : it ∈ lookup_all k (mt_ipSet m) <->
    it ∈ l /\ strings_ToLower (ti_Type it) = "ip"%string /\ canonicalIP (ti_Value it) = k /\ k <> ""%string;
  ix_cidr c : c ∈ mt_cidrs m <->
    ci_Intel c ∈ l /\ strings_ToLower (ti_Type (ci_Intel c)) = "cidr"%string
    /\ net_ParseCIDR (ti_Value (ci_Intel c)) = Some (ci_Network c);
  ix_domain it k : it ∈ lookup_all k (mt_domainMap m) <->
    it ∈ l /\ strings_ToLower (ti_Type it) = "domain"%string /\ canonicalDomain (ti_Value it) = k /\ k <> ""%string;
  ix_url it k : it ∈ lookup_all k (mt_urlMap m) <->
    it ∈ l /\ strings_ToLower (ti_Type it) = "url"%string
    /\ strings_ToLower (strings_TrimSpace (ti_Value it)) = k /\ k <> ""%string;
  ix_urls it : it ∈ mt_urlList m <->
    it ∈ l /\ strings_ToLower (ti_Type it) = "url"%string
    /\ strings_ToLower (strings_TrimSpace (ti_Value it)) <> ""%string
}.

Lemma indexes_nil : indexes NewMatcher [].
Proof.
  assert (forall (it : ThreatIntel) k, it ∉ lookup_all k ∅) as Hn.
  { intros it k. unfold lookup_all. rewrite lookup_empty. apply not_elem_of_nil. }
  constructor; intros; simpl; rewrite ?elem_of_nil; split; try (by intros ?%Hn); naive_solver.
Qed.

Local Ltac skip H :=
  first [apply (snoc_skip _ _ _ _ H); intros ? (? & _); congruence
        |apply (snoc_skip1 _ _ _ _ H); intros (? & _); congruence].

Lemma indexes_snoc m l x : indexes m l -> indexes (index_item m x) (l ++ [x]).
Proof.
  intros [Hip Hci Hdo Hur Hul].
  assert (strings_ToLower (ti_Type x) <> "cidr"%string \/ net_ParseCIDR (ti_Value x) = None ->
    forall c, c ∈ mt_cidrs m <-> ci_Intel c ∈ l ++ [x] /\ strings_ToLower (ti_Type (ci_Intel c)) = "cidr"%string
      /\ net_ParseCIDR (ti_Value (ci_Intel c)) = Some (ci_Network c)) as Hci'.
  { intros Hx [cn ci]. rewrite Hci. simpl. rewrite elem_of_app, list_elem_of_singleton.
    split; [naive_solver|]. intros ([?| ->] & ? & ?); [done|]. destruct Hx; congruence. }
  unfold index_item. cbv zeta.
  destruct (seqb (strings_ToLower (ti_Type x)) "ip") eqn:E1.
  { apply seqb_spec in E1. destruct (seqb (canonicalIP (ti_Value x)) "") eqn:E2; simpl;
    [apply seqb_spec in E2|apply seqb_neq in E2];
    (constructor; simpl; [|apply Hci'; left; congruence|skip Hdo|skip Hur|skip Hul]).
    - apply (snoc_skip _ _ _ _ Hip). intros k (_ & <- & ?). done.
    - intros it k. rewrite elem_of_append_at, Hip, elem_of_app, list_elem_of_singleton. naive_solver. }
  apply seqb_neq in E1. destruct (seqb (strings_ToLower (ti_Type x)) "cidr") eqn:E2.
  { apply seqb_spec in E2. destruct (net_ParseCIDR (ti_Value x)) as [n|] eqn:E3;
    (constructor; simpl; [skip Hip| |skip Hdo|skip Hur|skip Hul]); [|apply Hci'; by right].
    intros [cn ci]. simpl. rewrite elem_of_app, list_elem_of_singleton, Hci. simpl.
    rewrite elem_of_app, list_elem_of_singleton. split.
    - intros [(? & ? & ?)|[= -> ->]]; [by auto|by auto].
    - intros ([?| ->] & ? & ?); [by auto|]. right. congruence. }
  apply seqb_neq in E2. destruct (seqb (strings_ToLower (ti_Type x)) "domain") eqn:E3.
  { apply seqb_spec in E3. destruct (seqb (canonicalDomain (ti_Value x)) "") eqn:E4; simpl;
    [apply seqb_spec in E4|apply seqb_neq in E4];
    (constructor; simpl; [skip Hip|apply Hci'; by left| |skip Hur|skip Hul]).
    - apply (snoc_skip _ _ _ _ Hdo). intros k (_ & <- & ?). done.
    - intros it k. rewrite elem_of_append_at, Hdo, elem_of_app, list_elem_of_singleton. naive_solver. }
  apply seqb_neq in E3. destruct (seqb (strings_ToLower (ti_Type x)) "url") eqn:E4.
  { apply seqb_spec in E4. destruct (seqb (strings_ToLower (strings_TrimSpace (ti_Value x))) "") eqn:E5;
    [apply seqb_spec in E5|apply seqb_neq in E5];
    (constructor; simpl; [skip Hip|apply Hci'; by left|skip Hdo| |]).
    - apply (snoc_skip _ _ _ _ Hur). intros k (_ & <- & ?). done.
    - apply (snoc_skip1 _ _ _ _ Hul). intros (_ & ?). done.
    - intros it k. rewrite elem_of_append_at, Hur, elem_of_app, list_elem_of_singleton. naive_solver.
    - intros it. rewrite elem_of_app, list_elem_of_singleton, Hul, elem_of_app, list_elem_of_singleton. naive_solver. }
  apply seqb_neq in E4. constructor; [skip Hip|apply Hci'; by left|skip Hdo|skip Hur|skip Hul].
Qed.

Lemma indexes_fold l : indexes (foldl index_item NewMatcher l) l.
Proof.
  apply (foldl_prefix_ind (fun pre m => indexes m pre)); [apply indexes_nil|].
  intros pre x post m _. apply indexes_snoc.
Qed.
End index.

(** ** Collecting the hits *)

Lemma foldl_addHit_spec now (c : list ThreatIntel) :
  (forall a b, a ∈ c -> b ∈ c -> hit_key a = hit_key b -> a = b) ->
  let hits := (foldl (addHit now) ([], ∅) c).1 in
  NoDup (hit_key <$> hits) /\ forall it, it ∈ hits <-> it ∈ c /\ active it now = true.
Proof.
  intros Hinj.
  assert (let '(hits, seen) := foldl (addHit now) ([], ∅) c in
    NoDup (hit_key <$> hits) /\ (forall k, k ∈ seen <-> k ∈ hit_key <$> hits)
    /\ (forall it, it ∈ hits -> it ∈ c /\ active it now = true)
    /\ (forall it, it ∈ c -> active it now = true -> hit_key it ∈ seen)) as Hinv.
  { apply (foldl_prefix_ind (fun pre '(hits, seen) =>
      NoDup (hit_key <$> hits) /\ (forall k, k ∈ seen <-> k ∈ hit_key <$> hits)
      /\ (forall it, it ∈ hits -> it ∈ pre /\ active it now = true)
      /\ (forall it, it ∈ pre -> active it now = true -> hit_key it ∈ seen))).
    { split; [constructor|]. split; [set_solver|]. split; intros it ?%not_elem_of_nil; done. }
    intros pre x post [hits seen] Hsplit (Hnd & Hseen & Hin & Hall). unfold addHit.
    destruct (decide (hit_key x ∈ seen)) as [Hx|Hx].
    { rewrite bool_decide_eq_true_2 by done. simpl. split; [done|]. split; [done|]. split.
      - intros it Hit. destruct (Hin _ Hit). rewrite elem_of_app. auto.
      - intros it [?| ->%list_elem_of_singleton]%elem_of_app ?; auto. }
    rewrite bool_decide_eq_false_2 by done. simpl. destruct (active x now) eqn:Ea.
    - rewrite fmap_app. simpl. split; [|split; [|split]].
      + apply NoDup_app. split; [done|]. split; [|apply NoDup_singleton].
        intros k Hk ->%list_elem_of_singleton. apply Hx. by apply Hseen.
      + intros k. rewrite elem_of_union, elem_of_singleton, elem_of_app, list_elem_of_singleton, Hseen. tauto.
      + intros it [Hit| ->%list_elem_of_singleton]%elem_of_app; rewrite elem_of_app.
        * destruct (Hin _ Hit). auto.
        * split; [|done]. right. by apply list_elem_of_singleton.
      + intros it [Hit| ->%list_elem_of_singleton]%elem_of_app ?; set_solver.
    - split; [done|]. split; [done|]. split.
      + intros it Hit. destruct (Hin _ Hit). rewrite elem_of_app. auto.
      + intros it [?| ->%list_elem_of_singleton]%elem_of_app ?; [auto|congruence]. }
  destruct (foldl _ _ c) as [hits seen]. destruct Hinv as (Hnd & Hseen & Hin & Hall). simpl.
  split; [done|]. intros it. split; [apply Hin|]. intros [Hc Ha].
  apply Hall in Hc as Hk; [|done]. rewrite Hseen, list_elem_of_fmap in Hk. destruct Hk as (y & Hk & Hy).
  destruct (Hin _ Hy). by rewrite (Hinj it y).
Qed.

Section collect.
Context `{GoUnicode} `{RangeOrder}.

Lemma elem_of_matchDomain m name it :
  it ∈ matchDomainLocked m name <->
  exists domain, it ∈ lookup_all domain (mt_domainMap m) /\ covers domain name = true.
Proof.
  unfold matchDomainLocked, covers. cbv zeta. set (v := canonicalDomain name).
  destruct (seqb v "") eqn:E; simpl.
  { split; [by intros ?%not_elem_of_nil|naive_solver]. }
  assert (it ∈ foldl (fun hits '(domain, items) =>
      if seqb v domain || strings_HasSuffix v ("." +:+ domain) then hits ++ items else hits)
      [] (range_map (mt_domainMap m))
    <-> exists domain items, (domain, items) ∈ range_map (mt_domainMap m)
        /\ (seqb v domain || strings_HasSuffix v ("." +:+ domain)) = true /\ it ∈ items) as ->.
  { apply (foldl_prefix_ind (fun (pre : list (string * list ThreatIntel)) hits => it ∈ hits <->
      exists domain items, (domain, items) ∈ pre
        /\ (seqb v domain || strings_HasSuffix v ("." +:+ domain)) = true /\ it ∈ items)).
    { split; [by intros ?%not_elem_of_nil|]. intros (? & ? & ?%not_elem_of_nil & _). done. }
    intros pre [dm items] post hits _ IH. setoid_rewrite elem_of_app. setoid_rewrite list_elem_of_singleton.
    destruct (_ || _) eqn:Ec; rewrite ?elem_of_app, IH; split.
    - intros [(a & b & ? & ? & ?)|?]; [exists a, b; auto|exists dm, items; auto].
    - intros (a & b & [?|[= -> ->]] & ? & ?); [left; exists a, b; auto|by right].
    - intros (a & b & ? & ? & ?). exists a, b. auto.
    - intros (a & b & [?|[= -> ->]] & ? & ?); [exists a, b; auto|congruence]. }
  setoid_rewrite elem_of_range. unfold lookup_all. split.
  - intros (dm & items & Hl & Hc & Hit). exists dm. by rewrite Hl.
  - intros (dm & Hit & Hc). destruct (mt_domainMap m !! dm) as [items|] eqn:Hl;
      [by eauto|by apply not_elem_of_nil in Hit].
Qed.

(** All the candidates of MatchPacket, in the order it meets them. *)
Definition candidates (m : Matcher) (pf : PacketFeature) : list ThreatIntel :=
  concat (match_ip m <$> packet_ips pf) ++ concat (matchDomainLocked m <$> packet_names pf)
  ++ match_url m (pf_HTTPURL pf).

Lemma foldl_concat {A B C} (f : A -> B -> A) (g : C -> list B) (a : A) (l : list C) :
  foldl (fun a x => foldl f a (g x)) a l = foldl f a (concat (g <$> l)).
Proof. revert a; induction l as [|x l IH]; intros a; simpl; [done|]. by rewrite foldl_app, IH. Qed.
Lemma foldl_filter {A C} (f : A -> C -> A) (p : C -> Prop) `{!forall x, Decision (p x)} (a : A) (l : list C) :
  foldl (fun a x => if bool_decide (p x) then a else f a x) a l = foldl f a (filter (fun x => ~ p x) l).
Proof.
  revert a; induction l as [|x l IH]; intros a; simpl; [done|]. rewrite IH. case_if.
  - by rewrite filter_cons_False by auto.
  - by rewrite filter_cons_True.
Qed.

Lemma MatchPacket_candidates s m pf now :
  MatchPacket s m pf now
  = (ensureIndex s m, (foldl (addHit now) ([], ∅) (candidates (ensureIndex s m) pf)).1).
Proof.
  unfold MatchPacket. cbv zeta. set (m' := ensureIndex s m). f_equal. f_equal.
  rewrite (foldl_filter (fun acc ans => foldl (addHit now) acc (matchDomainLocked m' ans))
             (fun ans => is_Some (net_ParseIP ans))).
  rewrite !foldl_concat. unfold candidates, packet_names, packet_ips.
  rewrite !fmap_app, !concat_app, !foldl_app. cbn [concat fmap list_fmap]. rewrite !foldl_app. cbn [foldl].
  replace (filter (fun ans => ~ is_Some (net_ParseIP ans)) (pf_DNSAnswers pf))
    with (filter (fun ans => net_ParseIP ans = None) (pf_DNSAnswers pf)); [done|].
  apply list_filter_iff. intros x. by rewrite eq_None_not_Some.
Qed.
End collect.

Section correctness.
Context `{GoUnicodeLaws}.

Lemma contains_refl s : strings_Contains s s = true.
Proof.
  unfold strings_Contains. apply bool_decide_eq_true_2. unfold bytes_Index.
  destruct (byt s) as [|c r]; [eauto|]. rewrite (proj2 (bytes_HasPrefix_spec _ _)); [eauto|].
  exists []. by rewrite app_nil_r.
Qed.

Lemma routable_match_ip (O : RangeOrder) m l ip it :
  indexes m l ->
  it ∈ match_ip m ip <->
  it ∈ l /\ exists p, routable ip = Some p /\
    ((strings_ToLower (ti_Type it) = "ip"%string /\ canonicalIP (ti_Value it) <> ""%string
      /\ canonicalIP ip = canonicalIP (ti_Value it))
     \/ (strings_ToLower (ti_Type it) = "cidr"%string
         /\ exists net, net_ParseCIDR (ti_Value it) = Some net /\ IPNet_Contains net p = true)).
Proof.
  intros Hx. unfold match_ip, routable. destruct (net_ParseIP ip) as [p|];
    [|split; [by intros ?%not_elem_of_nil|naive_solver]].
  destruct (IP_IsLoopback p || IP_IsUnspecified p); [split; [by intros ?%not_elem_of_nil|naive_solver]|].
  rewrite elem_of_app, (ix_ip _ _ Hx), list_elem_of_fmap. split.
  - intros [(Hl & Ht & Hv & Hne)|(c & -> & [Hc Hin]%list_elem_of_filter)].
    + split; [done|]. exists p. split; [done|]. left. by rewrite Hv.
    + apply (ix_cidr _ _ Hx) in Hin as (Hl & Ht & Hp). split; [done|]. exists p. split; [done|]. right. eauto.
  - intros (Hl & p' & [= <-] & [(Ht & Hne & Hv)|(Ht & n & Hp & Hc)]).
    + left. by rewrite Hv.
    + right. exists (mkCIDRIntel n it). split; [done|]. apply list_elem_of_filter. split; [done|].
      by apply (ix_cidr _ _ Hx).
Qed.

Lemma elem_of_match_url (O : RangeOrder) m l url it :
  indexes m l -> (forall x, x ∈ l -> strings_TrimSpace (ti_Value x) = ti_Value x) ->
  it ∈ match_url m url <->
  it ∈ l /\ strings_ToLower (ti_Type it) = "url"%string /\ strings_ToLower (ti_Value it) <> ""%string
  /\ url <> ""%string /\ strings_Contains (strings_ToLower url) (strings_ToLower (ti_Value it)) = true.
Proof.
  intros Hx Htrim. unfold match_url. destruct (seqb url "") eqn:E.
  { apply seqb_spec in E. split; [by intros ?%not_elem_of_nil|naive_solver]. }
  apply seqb_neq in E. cbv zeta. rewrite elem_of_app, (ix_url _ _ Hx), list_elem_of_filter, (ix_urls _ _ Hx). split.
  - intros [(Hl & Ht & Hv & Hne)|(Hc & Hl & Ht & Hne)]; rewrite Htrim in * by done.
    + rewrite Hv. repeat (split; [done|]). apply contains_refl.
    + done.
  - intros (Hl & Ht & Hne & _ & Hc). right. by rewrite Htrim.
Qed.

Lemma elem_of_candidates (O : RangeOrder) m l pf it :
  indexes m l -> (forall x, x ∈ l -> strings_TrimSpace (ti_Value x) = ti_Value x) ->
  it ∈ candidates m pf <-> it ∈ l /\ denotes it pf.
Proof.
  intros Hx Htrim. unfold candidates. rewrite !elem_of_app, !elem_of_concat_map.
  rewrite (elem_of_match_url O m l) by done. unfold denotes. split.
  - intros [(ip & Hip & Hm)|[(name & Hn & Hm)|(Hl & Hu)]].
    + apply (routable_match_ip O m l) in Hm as (Hl & p & Hr & [(Ht & Hne & Hv)|(Ht & n & Hp & Hc)]); [| |done];
        (split; [done|]).
      * left. repeat (split; [done|]). exists ip. eauto.
      * right; left. split; [done|]. exists ip, p, n. auto.
    + apply elem_of_matchDomain in Hm as (dm & Hit & Hc). apply (ix_domain _ _ Hx) in Hit as (Hl & Ht & <- & Hne).
      split; [done|]. right; right; left. eauto.
    + split; [done|]. by right; right; right.
  - intros (Hl & [(Ht & Hne & ip & Hip & [p Hr] & Hv)|[(Ht & ip & p & n & Hip & Hr & Hp & Hc)|
      [(Ht & Hne & name & Hn & Hc)|Hu]]]).
    + left. exists ip. split; [done|]. apply (routable_match_ip O m l); [done|]. split; [done|].
      exists p. split; [done|]. by left.
    + left. exists ip. split; [done|]. apply (routable_match_ip O m l); [done|]. split; [done|].
      exists p. split; [done|]. right. eauto.
    + right; left. exists name. split; [done|]. apply elem_of_matchDomain. exists (canonicalDomain (ti_Value it)).
      split; [|done]. by apply (ix_domain _ _ Hx).
    + right; right. done.
Qed.
End correctness.

(** ** Runs of a store with its matcher *)

Section run.
Context `{GoUnicode} `{GoYAML}.

(** [n] counts the steps. *)
Inductive match_run : Store -> Disk -> Matcher -> Z -> Prop :=
| match_open path d uuid now s :
    0 < now -> NewStore path d uuid now = Ok s -> match_run s d NewMatcher 1
| match_store (O : RangeOrder) op s d m n s' d' :
    match_run s d m n -> op_ok s d op -> store_exec O op s d = (s', d') -> match_run s' d' m (n + 1)
| match_edit s d m n d' : match_run s d m n -> match_run s d' m n
| match_packet (O : RangeOrder) s d m n pf now m' hits :
    match_run s d m n -> MatchPacket s m pf now = (m', hits) -> match_run s d m' n.
End run.

Section coherence.
Context `{GoUnicodeLaws} `{GoYAML}.

(** The index describes the items of the store. *)
Definition coherent (m : Matcher) (s : Store) : Prop :=
  exists l, l ≡ₚ (map_to_list (st_items s)).*2 /\ indexes m l.

Lemma indexes_version m l v : indexes m l -> indexes (m <| mt_version := v |>) l.
Proof. by intros [? ? ? ? ?]; constructor. Qed.

Lemma rebuild_coherent (O : RangeOrder) s v : coherent (rebuildIndex s v) s.
Proof.
  exists (List_ s). split; [unfold List_; by rewrite range_map_perm|].
  apply indexes_version, indexes_fold.
Qed.

Definition joint_inv (s : Store) (m : Matcher) (n : Z) : Prop :=
  items_ok (st_items s) /\
  (n < 2 ^ 63 -> 0 <= st_version s <= n /\ mt_version m <= st_version s
                 /\ (mt_version m = st_version s -> coherent m s)).

Lemma ensureIndex_inv (O : RangeOrder) s m n : joint_inv s m n -> n < 2 ^ 63 ->
  joint_inv s (ensureIndex s m) n /\ coherent (ensureIndex s m) s.
Proof.
  intros [Hok Hv] Hn. destruct (Hv Hn) as (Hs & Hm & Hc). unfold ensureIndex, Version. case_if.
  - split; [|by apply Hc]. by split.
  - split; [|apply rebuild_coherent]. split; [done|]. intros _. split; [done|]. split; [simpl; lia|].
    intros _. apply rebuild_coherent.
Qed.

Lemma match_run_inv s d m n : match_run s d m n -> joint_inv s m n.
Proof.
  induction 1 as [path d uuid now s Hn Ho|O op s d m n s' d' _ [Hok Hv] Hop He|s d m n d' _ IH|
    O s d m n pf now m' hits _ IH Hm]; [| |done|].
  - split; [eapply (store_run_items_ok s d false), store_open; eauto|]. intros _.
    assert (st_version s = 1 \/ (st_version s = 0 /\ st_items s = ∅)) as Hs.
    { unfold NewStore in Ho. case_if_in Ho; [|right; by simplify_eq].
      left. unfold Reload in Ho. simpl in Ho.
      destruct (seqb path ""); [by simplify_eq|].
      destruct (LoadFile path d) as [[l|e]|]; by simplify_eq. }
    destruct Hs as [-> |[-> Hi]]; simpl; (split; [lia|]); (split; [lia|]); [lia|]. intros _.
    exists []. rewrite Hi, map_to_list_empty. split; [done|]. apply indexes_nil.
  - split; [by eapply store_exec_items_ok|]. intros Hn. destruct (Hv ltac:(lia)) as (Hs & Hm & Hc).
    destruct (store_exec_shape O op s d s' d' He) as [(Hi & Hver & _ & _)|(items & -> & _)].
    + rewrite Hver. split; [lia|]. split; [done|]. intros Heq. unfold coherent. rewrite Hi. by apply Hc.
    + simpl. unfold i64. rewrite Z.mod_small by lia. split; [lia|]. split; [lia|]. intros ?. lia.
  - destruct (decide (n < 2 ^ 63)) as [Hn|Hn].
    + rewrite MatchPacket_candidates in Hm. simplify_eq. by apply ensureIndex_inv.
    + destruct IH as [Hok _]. split; [done|]. intros ?. lia.
Qed.

Lemma MatchPacket_spec (O : RangeOrder) s m n pf now m' hits :
  joint_inv s m n -> n < 2 ^ 63 -> MatchPacket s m pf now = (m', hits) ->
  NoDup (ti_ID <$> hits)
  /\ forall it, it ∈ hits <->
       (exists id, st_items s !! id = Some it) /\ active it now = true /\ denotes it pf.
Proof.
  intros Hinv Hn Hm. destruct (ensureIndex_inv O s m n Hinv Hn) as [_ (l & Hl & Hx)]. destruct Hinv as [Hok _].
  rewrite MatchPacket_candidates in Hm. simplify_eq.
  assert (forall it, it ∈ l <-> exists id, st_items s !! id = Some it) as Hmem.
  { intros it. rewrite Hl, list_elem_of_fmap. split.
    - intros ([k x] & -> & Hk). exists k. by apply elem_of_map_to_list.
    - intros [k Hk]. exists (k, it). split; [done|]. by apply elem_of_map_to_list. }
  assert (forall it, it ∈ l -> strings_TrimSpace (ti_Value it) = ti_Value it) as Htrim.
  { intros it [id Hid]%Hmem. by destruct (Hok _ _ Hid) as (_ & _ & _ & ? & _). }
  assert (forall it, it ∈ l -> hit_key it = ti_ID it) as Hkey.
  { intros it [id Hid]%Hmem. destruct (Hok _ _ Hid) as (Hi & Hne & _). unfold hit_key. subst id.
    by rewrite (proj2 (seqb_neq _ _) Hne). }
  assert (forall it, it ∈ candidates (ensureIndex s m) pf <-> it ∈ l /\ denotes it pf) as Hcand.
  { intros it. by apply elem_of_candidates. }
  destruct (foldl_addHit_spec now (candidates (ensureIndex s m) pf)) as [Hnd Hspec].
  - intros a b [Ha _]%Hcand [Hb _]%Hcand. rewrite !Hkey by done. intros Heq.
    apply Hmem in Ha as [ia Ha], Hb as [ib Hb].
    destruct (Hok _ _ Ha) as (<- & _), (Hok _ _ Hb) as (<- & _). congruence.
  - split.
    + replace (ti_ID <$> _) with (hit_key <$> (foldl (addHit now) ([], ∅) (candidates (ensureIndex s m) pf)).1); [done|].
      apply list_fmap_ext. intros i x Hi. apply Hkey.
      apply list_elem_of_lookup_2, Hspec in Hi as [[? _]%Hcand _]. done.
    + intros it. rewrite Hspec, Hcand, Hmem. tauto.
Qed.

End coherence.

#[local] Existing Instance ascii_unicode.
#[local] Existing Instance bits_yaml.

Lemma demo_match_run : match_run demo_added.1 demo_added.2 NewMatcher 2.
Proof.
  assert (match_run demo_store ∅ NewMatcher 1) as H0.
  { eapply (match_open "dir/ioc.yaml" ∅ (fun _ => ""%string) 50); [lia|]. reflexivity. }
  apply (match_store canonical_range (OpAdd (demo_ioc "i1" " IP " "192.0.2.1 ") "u" 100 demo_save)
             demo_store ∅ NewMatcher 1 demo_added.1 demo_added.2 H0); [|reflexivity].
    split; [lia|]. split; [discriminate|apply lookup_empty].
Qed.

