(* ===== verification/Feeds.v ===== *)
(** * Feeds: importing indicator packs (internal/iocsync/extract.go, sync.go)

    SyncOnce reads the packs in the configured directories, zip archives of
    YAML files and plain YAML files, adds the indicators whose canonical key is
    new to the store, and removes packs that are past their retention.  The
    files are given by what the system calls answer; logging is left out. *)

From S2P Require Import Prelude GoStrings GoNet Events IntelStore.

(** ** The file system *)

(** An entry of a zip archive: opening it may fail; reading yields some bytes
    and then ends or fails. *)
Record zip_entry := mkZipEntry { ze_Name : string; ze_open : option string; ze_data : bytes; ze_error : option string }.
(** What the calls answer: Glob of a directory and a pattern; Stat ([None] is
    an error, else whether it is a directory and its modification time in
    nanoseconds); ReadFile; zip.OpenReader; Remove. *)
Record feed_fs := mkFeedFS {
  fs_Glob : string -> string -> list string;
  fs_Stat : string -> option (bool * Z);
  fs_ReadFile : string -> option bytes;
  fs_OpenZip : string -> option (list zip_entry);
  fs_Remove : string -> option string
}.

Record Syncer := mkSyncer { sy_dirs : list string; sy_retainDays : Z; sy_maxItems : Z }.

Definition errIncomplete : string := "zip incomplete".
(** 256 << 20 *)
Definition maxZipUncompressed : Z := 268435456.

(** io.ReadAll(io.LimitReader(rc, n)): an error is seen only when the data ends
    within the limit. *)
Definition read_limited (z : zip_entry) (n : Z) : res bytes :=
  if n <=? len (ze_data z) then Ok (take (Z.to_nat n) (ze_data z))
  else match ze_error z with Some e => Err e | None => Ok (ze_data z) end.

Section iocsync.
Context `{GoUnicode} `{GoYAML} `{RangeOrder}.

Definition isYAML (path : string) : bool :=
  let n := strings_ToLower path in strings_HasSuffix n ".yaml" || strings_HasSuffix n ".yml".

Definition extractPlainYAML (fs : feed_fs) (path : string) : res (list ThreatIntel) :=
  match fs_ReadFile fs path with
  | None => Err errIncomplete
  | Some data => if maxZipUncompressed <? len data then Err "yaml exceeds the limit" else yaml_Unmarshal data
  end.
(** The loop over the entries of a zip, with what is read so far. *)
Fixpoint extract_entries (maxItems : Z) (items : list ThreatIntel) (total : Z) (entries : list zip_entry) : res (list ThreatIntel) :=
  match entries with
  | [] => Ok items
  | z :: entries =>
      let name := strings_ToLower (ze_Name z) in
      if negb (strings_HasSuffix name ".yaml") && negb (strings_HasSuffix name ".yml") then extract_entries maxItems items total entries
      else match ze_open z with
           | Some e => Err e
           | None =>
               data ← read_limited z (maxZipUncompressed - total + 1);
               let total := total + len data in
               if maxZipUncompressed <? total then Err "zip exceeds the limit" else
               more ← yaml_Unmarshal data;
               let items := items ++ more in
               if (0 <? maxItems) && (maxItems <? len items) then Ok (take (Z.to_nat maxItems) items)
               else extract_entries maxItems items total entries
           end
  end.
Definition extractItems (fs : feed_fs) (path : string) (maxItems : Z) : res (list ThreatIntel) :=
  match fs_OpenZip fs path with
  | None => Err errIncomplete
  | Some entries => extract_entries maxItems [] 0 entries
  end.

Definition feed_paths (fs : feed_fs) (s : Syncer) : list string :=
  concat ((fun dir => fs_Glob fs dir "*.zip" ++ fs_Glob fs dir "*.yaml" ++ fs_Glob fs dir "*.yml") <$> sy_dirs s).
(** The items of one path; [None] when it is skipped. *)
Definition scan_path (fs : feed_fs) (s : Syncer) (p : string) : option (list ThreatIntel) :=
  match fs_Stat fs p with
  | None | Some (true, _) => None
  | Some (false, _) =>
      match (if isYAML p then extractPlainYAML fs p else extractItems fs p (sy_maxItems s)) with
      | Ok items => Some items
      | Err _ => None
      end
  end.
(** The inner loop: an item is a candidate when its key was not seen. *)
Definition pick (acc : gset string * list ThreatIntel) (it : ThreatIntel) : gset string * list ThreatIntel :=
  let '(seen, candidates) := acc in
  let k := CanonicalKey it in
  if bool_decide (k ∈ seen) then acc else ({[k]} ∪ seen, candidates ++ [it]).
Definition scan_paths (fs : feed_fs) (s : Syncer) (acc : gset string * list ThreatIntel) (paths : list string) : gset string * list ThreatIntel :=
  foldl (fun acc p => match scan_path fs s p with Some items => foldl pick acc items | None => acc end) acc paths.

(** Removal of the packs that are older than the retention, in UTC days. *)
Definition too_old (fs : feed_fs) (cutoff : Z) (p : string) : bool :=
  match fs_Stat fs p with Some (false, mtime) => mtime <? cutoff | _ => false end.
Definition cleanupOldFiles (fs : feed_fs) (s : Syncer) (now : Z) : list string :=
  if sy_retainDays s <=? 0 then []
  else let cutoff := now - sy_retainDays s * (86400 * 1000000000) in
       List.filter (fun p => too_old fs cutoff p && bool_decide (fs_Remove fs p = None)) (feed_paths fs s).

(** [now] is the clock of the store, [clock] the one of the cleanup; the last
    component are the removed paths. *)
Definition SyncOnce (fs : feed_fs) (s : Syncer) (store : Store) (d : Disk) (uuid : nat -> string) (now clock : Z) (e : save_env)
    : Store * Disk * res Z * list string :=
  let allPaths := merge_sort sle (feed_paths fs s) in
  let seen : gset string := list_to_set (CanonicalKey <$> List_ store) in
  let '(_, candidates) := scan_paths fs s (seen, []) allPaths in
  match candidates with
  | [] => (store, d, Ok 0, cleanupOldFiles fs s clock)
  | _ =>
      let '(store, d, err) := UpsertDedup store d candidates uuid now e in
      match err with
      | Some e => (store, d, Err e, [])
      | None => (store, d, Ok (len candidates), cleanupOldFiles fs s clock)
      end
  end.
End iocsync.

(** ** What a scan picks *)

Section picks.
Context `{GoUnicodeLaws} `{GoYAML} `{RangeOrder}.

(** All items of the paths that can be read. *)
Definition offered (fs : feed_fs) (s : Syncer) (paths : list string) : list ThreatIntel :=
  concat (omap (scan_path fs s) paths).
Lemma scan_paths_offered fs s acc paths : scan_paths fs s acc paths = foldl pick acc (offered fs s paths).
Proof.
  unfold scan_paths, offered. revert acc. induction paths as [|p paths IH]; intros acc; [done|]. cbn. rewrite IH.
  destruct (scan_path fs s p) as [items|]; [|done]. cbn. by rewrite foldl_app.
Qed.
(** The candidates: one item per new key, the first one. *)
Lemma pick_spec seen items : let '(seen', cs) := foldl pick (seen, []) items in
  seen' = list_to_set (CanonicalKey <$> items) ∪ seen /\ cs `sublist_of` items
  /\ NoDup (CanonicalKey <$> cs) /\ (forall it, it ∈ cs -> CanonicalKey it ∉ seen)
  /\ (forall k, k ∈ CanonicalKey <$> cs <-> k ∈ CanonicalKey <$> items /\ k ∉ seen).
Proof.
  induction items as [|it items IH] using rev_ind; cbn [foldl].
  - split_and!; [set_solver|done|constructor|by intros it ?%elem_of_nil|]. intros k. cbn. set_solver.
  - rewrite foldl_app. destruct (foldl pick (seen, []) items) as [seen' cs]. destruct IH as (Es & Hsub & Hnd & Hnew & Hk).
    cbn [foldl]. unfold pick. case_bool_decide as Hin.
    + split_and!; [|by apply sublist_inserts_r|done|done|].
      * rewrite fmap_app, list_to_set_app_L. cbn. set_solver.
      * intros k. rewrite Hk, fmap_app, elem_of_app. cbn. rewrite list_elem_of_singleton. set_solver.
    + split_and!.
      * rewrite fmap_app, list_to_set_app_L. cbn. set_solver.
      * by apply sublist_app.
      * rewrite fmap_app, NoDup_app. split_and!; [done| |apply NoDup_singleton]. intros k Hkc ->%list_elem_of_singleton.
        apply Hk in Hkc as [Hkc _]. apply Hin. rewrite Es. apply elem_of_union_l. by apply elem_of_list_to_set.
      * intros x [Hx| ->%list_elem_of_singleton]%elem_of_app; [by apply Hnew|]. intros Hs. apply Hin. rewrite Es. by apply elem_of_union_r.
      * intros k. rewrite !fmap_app, !elem_of_app, Hk. cbn. rewrite !list_elem_of_singleton. split; [|set_solver].
        intros [?| ->]; [set_solver|]. split; [by right|]. intros Hs. apply Hin. rewrite Es. by apply elem_of_union_r.
Qed.

(** *** Storing new indicators *)

Lemma NoDup_fmap_inj {A B} (f : A -> B) l a b : NoDup (f <$> l) -> a ∈ l -> b ∈ l -> f a = f b -> a = b.
Proof.
  intros Hnd [i Hi]%list_elem_of_lookup [j Hj]%list_elem_of_lookup E. assert (i = j) as ->; [|congruence].
  eapply (NoDup_lookup _ i j (f a)); [exact Hnd| |]; rewrite list_lookup_fmap; [by rewrite Hi|]. rewrite Hj. cbn. by rewrite E.
Qed.

Lemma dedup_batch_new items k it : NoDup (CanonicalKey <$> items) -> dedup_batch items !! k = Some it <-> it ∈ items /\ CanonicalKey it = k.
Proof.
  intros Hnd. split; [intros Hb; by destruct (dedup_batch_key _ _ _ Hb)|]. intros [Hin <-].
  induction items as [|x items IH] using rev_ind; [by apply elem_of_nil in Hin|].
  rewrite fmap_app, NoDup_app in Hnd. destruct Hnd as (Hnd & Hx & _).
  assert (dedup_batch items !! CanonicalKey x = None) as Hnone.
  { destruct (dedup_batch items !! CanonicalKey x) as [y|] eqn:E; [|done]. exfalso. apply dedup_batch_key in E as [E Hy].
    eapply (Hx (CanonicalKey x)); [rewrite <- E; by apply list_elem_of_fmap_2|left]. }
  unfold dedup_batch. rewrite foldl_app. cbn [foldl]. fold (dedup_batch items). cbv zeta. rewrite Hnone.
  apply elem_of_app in Hin as [Hin| ->%list_elem_of_singleton]; [|apply lookup_insert_eq].
  rewrite lookup_insert_ne; [by apply IH|]. intros E. eapply (Hx (CanonicalKey it)); [by apply list_elem_of_fmap_2|rewrite <- E; left].
Qed.

(** Entries with new keys and new names are added as they are. *)
Lemma dedup_fold_new existing uuid now (l : list (nat * (string * ThreatIntel))) (m : gmap string ThreatIntel) :
  (forall i k it, (i, (k, it)) ∈ l -> existing !! k = None /\ ti_ID it <> "" /\ m !! ti_ID it = None) ->
  NoDup ((fun p => ti_ID p.2.2) <$> l) ->
  let m' := foldl (fun m '(i, (k, it)) => dedup_one existing (uuid i) now m k it) m l in
  (forall id x, m !! id = Some x -> m' !! id = Some x)
  /\ (forall i k it, (i, (k, it)) ∈ l -> m' !! ti_ID it = Some (normalize (uuid i) it now))
  /\ (forall id x, m' !! id = Some x -> m !! id = Some x \/ exists i k it, (i, (k, it)) ∈ l /\ x = normalize (uuid i) it now).
Proof.
  revert m. induction l as [|[i [k it]] l IH]; intros m Hl Hnd; cbn [foldl].
  - split; [done|]. split; [by intros i k it ?%elem_of_nil|]. auto.
  - rewrite fmap_cons, NoDup_cons in Hnd. destruct Hnd as [Hni Hnd]. cbn in Hni.
    destruct (Hl i k it ltac:(left)) as (He & Hne & Hm).
    assert (E : dedup_one existing (uuid i) now m k it = <[ti_ID it := normalize (uuid i) it now]> m).
    { unfold dedup_one, upsert_one. rewrite He. destruct (normalize_fields (uuid i) it now) as (En & _).
      rewrite (proj2 (seqb_neq _ _) Hne) in En. rewrite En, Hm. by rewrite En. }
    rewrite E. destruct (IH (<[ti_ID it := normalize (uuid i) it now]> m)) as (H1' & H2' & H3').
    + intros j k' it' Hin. destruct (Hl j k' it' ltac:(by right)) as (? & ? & ?). split_and!; [done|done|].
      rewrite lookup_insert_ne; [done|]. intros Eid. apply Hni. rewrite Eid. apply (list_elem_of_fmap_2 (fun p : nat * (string * ThreatIntel) => ti_ID p.2.2) _ _ Hin).
    + done.
    + split_and!.
      * intros id x Hx. apply H1'. rewrite lookup_insert_ne; [done|]. intros <-. congruence.
      * intros j k' it' [[= -> -> ->]|Hin]%elem_of_cons; [|by eapply H2']. apply H1', lookup_insert_eq.
      * intros id x Hx. destruct (H3' id x Hx) as [[[<- <-]|[_ ?]]%lookup_insert_Some|(j & k' & it' & Hin & ->)].
        -- right. exists i, k, it. split; [left|done].
        -- by left.
        -- right. exists j, k', it'. split; [by right|done].
Qed.
Lemma UpsertDedup_new s d items uuid now e : NoDup (CanonicalKey <$> items) -> NoDup (ti_ID <$> items) ->
  (forall it, it ∈ items -> ti_ID it <> "" /\ st_items s !! ti_ID it = None
     /\ forall id x, st_items s !! id = Some x -> CanonicalKey x <> CanonicalKey it) ->
  let m := st_items (UpsertDedup s d items uuid now e).1.1 in
  (forall id x, st_items s !! id = Some x -> m !! id = Some x)
  /\ (forall it, it ∈ items -> exists u, m !! ti_ID it = Some (normalize u it now))
  /\ (forall id x, m !! id = Some x -> st_items s !! id = Some x \/ exists it u, it ∈ items /\ x = normalize u it now).
Proof.
  intros Hk Hi Hnew. unfold UpsertDedup. cbv zeta.
  destruct (Z.of_nat (size (dedup_batch items)) =? 0) eqn:E0.
  { b2p. cbn. split_and!; [done| |auto]. intros it Hin. exfalso.
    assert (dedup_batch items = ∅) as Eb by (apply map_size_empty_inv; lia).
    assert (dedup_batch items !! CanonicalKey it = Some it) as Hb by (by apply dedup_batch_new). by rewrite Eb in Hb. }
  destruct (persist _ e d). cbn [fst snd].
  set (l := imap pair (range_map (dedup_batch items))).
  assert (Hl : forall i k it, (i, (k, it)) ∈ l -> it ∈ items /\ CanonicalKey it = k).
  { intros i k it Hin%elem_of_imap_pair%elem_of_range. by apply dedup_batch_new in Hin. }
  destruct (dedup_fold_new (existing_ids s) uuid now l (st_items s)) as (H1' & H2' & H3').
  - intros i k it Hin. destruct (Hl _ _ _ Hin) as [Hit <-]. destruct (Hnew it Hit) as (Hne & Hid & Hkey). split_and!; [|done|done].
    destruct (existing_ids s !! CanonicalKey it) as [id|] eqn:E; [|done]. destruct (existing_ids_spec _ _ _ _ E) as (x & Hx & Ex). by destruct (Hkey id x).
  - unfold l. replace ((fun p : nat * (string * ThreatIntel) => ti_ID p.2.2) <$> imap pair (range_map (dedup_batch items)))
      with ((fun p : string * ThreatIntel => ti_ID p.2) <$> range_map (dedup_batch items)).
    2:{ rewrite <- (imap_pair_snd (range_map (dedup_batch items))) at 1. by rewrite <- list_fmap_compose. }
    apply NoDup_fmap_2_strong; [|apply (NoDup_fmap_1 fst), NoDup_range_fst].
    intros [k it] [k' it'] Ha%elem_of_range Hb%elem_of_range E. cbn in E.
    apply dedup_batch_new in Ha as [Ha <-], Hb as [Hb <-]; [|done..]. by rewrite (NoDup_fmap_inj ti_ID items it it' Hi Ha Hb E).
  - split_and!; [done| |].
    + intros it Hin. assert ((CanonicalKey it, it) ∈ range_map (dedup_batch items)) as Hr by (apply elem_of_range; by apply dedup_batch_new).
      rewrite <- (imap_pair_snd (range_map (dedup_batch items))) in Hr. apply list_elem_of_fmap in Hr as ([i [k x]] & [= <- <-] & Hr).
      exists (uuid i). by eapply H2'.
    + intros id x Hx. destruct (H3' id x Hx) as [?|(i & k & it & Hin & ->)]; [by left|]. right. destruct (Hl _ _ _ Hin). eauto.
Qed.
End picks.

(** ** A synchronisation *)

Section sync.
Context `{GoUnicodeLaws} `{GoYAML} `{RangeOrder}.

Definition store_keys (s : Store) : gset string := list_to_set (CanonicalKey <$> List_ s).
Lemma elem_of_store_keys s k : k ∈ store_keys s <-> exists id it, st_items s !! id = Some it /\ CanonicalKey it = k.
Proof.
  unfold store_keys, List_. rewrite elem_of_list_to_set, list_elem_of_fmap. split.
  - intros (it & -> & ([id x] & -> & Hin)%list_elem_of_fmap). apply elem_of_range in Hin. eauto.
  - intros (id & it & Hin & <-). exists it. split; [done|]. apply list_elem_of_fmap. exists (id, it). split; [done|]. by apply elem_of_range.
Qed.
(** An identifier names one indicator, in the packs and in the store. *)
Definition names_agree (s : Store) (items : list ThreatIntel) : Prop :=
  (forall a, a ∈ items -> ti_ID a <> "")
  /\ (forall a b, a ∈ items -> b ∈ items -> ti_ID a = ti_ID b -> CanonicalKey a = CanonicalKey b)
  /\ (forall a x, a ∈ items -> st_items s !! ti_ID a = Some x -> CanonicalKey a = CanonicalKey x).
(** The items a synchronisation can read. *)
Definition pack_items (fs : feed_fs) (s : Syncer) : list ThreatIntel := offered fs s (merge_sort sle (feed_paths fs s)).

Lemma UpsertDedup_error s d items uuid now e : (UpsertDedup s d items uuid now e).2 = None \/ se_fault e <> no_fault.
Proof.
  unfold UpsertDedup. cbv zeta. case_if; [by left|]. unfold persist, SaveFileAtomic, SaveFileAtomicBytes.
  destruct (negb _); [|by left]. destruct (se_fault e); cbn; auto.
Qed.
(** The store after the candidates were merged. *)
Lemma SyncOnce_store fs s store d uuid now clock e : names_agree store (pack_items fs s) ->
  let '(store', _, r, removed) := SyncOnce fs s store d uuid now clock e in
  (forall id it, st_items store !! id = Some it -> st_items store' !! id = Some it)
  /\ store_keys store' = list_to_set (CanonicalKey <$> pack_items fs s) ∪ store_keys store
  /\ match r with
     | Ok n => n = Z.of_nat (size (list_to_set (CanonicalKey <$> pack_items fs s) ∖ store_keys store)) /\ removed = cleanupOldFiles fs s clock
     | Err _ => se_fault e <> no_fault /\ removed = []
     end.
Proof.
  intros (Hne & Hsame & Hstored). unfold SyncOnce. rewrite scan_paths_offered. fold (pack_items fs s) (store_keys store).
  pose proof (pick_spec (store_keys store) (pack_items fs s)) as Hp. destruct (foldl pick _ _) as [seen' cs]. destruct Hp as (_ & Hsub & Hnd & Hnew & Hk).
  assert (Hin : forall it, it ∈ cs -> it ∈ pack_items fs s) by (intros it Hit; by eapply sublist_subseteq).
  assert (Hsize : len cs = Z.of_nat (size (list_to_set (CanonicalKey <$> pack_items fs s) ∖ store_keys store))).
  { unfold len. f_equal. rewrite <- (length_fmap CanonicalKey), <- (size_list_to_set (C := gset string)) by done. f_equal. apply set_eq.
    intros k. rewrite elem_of_list_to_set, Hk. by rewrite elem_of_difference, elem_of_list_to_set. }
  assert (Hgoal : forall k, k ∈ CanonicalKey <$> cs \/ k ∈ store_keys store <-> k ∈ list_to_set (CanonicalKey <$> pack_items fs s) ∪ store_keys store).
  { intros k. rewrite elem_of_union, elem_of_list_to_set, Hk. destruct (decide (k ∈ store_keys store)); tauto. }
  destruct cs as [|c cs']; [|remember (c :: cs') as cs eqn:Ecs].
  - split_and!; [done| |done|done]. apply set_eq. intros k. rewrite <- Hgoal. cbn. rewrite elem_of_nil. tauto.
  - destruct (UpsertDedup_new store d cs uuid now e) as (H1' & H2' & H3'); [done| | |].
    { apply NoDup_fmap_2_strong; [|by eapply NoDup_fmap_1]. intros a b Ha Hb E. eapply (NoDup_fmap_inj CanonicalKey); [done..|]. by apply Hsame; auto. }
    { intros it Hit. split; [auto|]. assert (Hn : forall id x, st_items store !! id = Some x -> CanonicalKey x <> CanonicalKey it).
      { intros id x Hx E. apply (Hnew it Hit). apply elem_of_store_keys. eauto. }
      split; [|done]. destruct (st_items store !! ti_ID it) as [x|] eqn:E; [|done]. exfalso. eapply Hn; [exact E|]. symmetry. by apply Hstored; [apply Hin|]. }
    pose proof (UpsertDedup_error store d cs uuid now e) as Herr.
    destruct (UpsertDedup store d cs uuid now e) as [[store' d'] err]. cbn [fst snd] in *.
    assert (Hkeys : store_keys store' = list_to_set (CanonicalKey <$> pack_items fs s) ∪ store_keys store).
    { apply set_eq. intros k. rewrite <- Hgoal, !elem_of_store_keys. split.
      - intros (id & x & Hx & <-). destruct (H3' id x Hx) as [?|(it & u & Hit & ->)]; [eauto|]. left. rewrite CanonicalKey_normalize. by apply list_elem_of_fmap_2.
      - intros [(it & -> & Hit)%list_elem_of_fmap|(id & x & Hx & <-)]; [|eauto]. destruct (H2' it Hit) as [u Hu]. eexists _, _. split; [exact Hu|]. apply CanonicalKey_normalize. }
    rewrite Ecs in Hsize |- *. destruct err as [err|]; [destruct Herr as [?|?]; [done|]|]; split_and!; done.
Qed.
(** Packs without a new key leave everything as it is. *)
Lemma SyncOnce_nothing fs s store d uuid now clock e : (forall k, k ∈ CanonicalKey <$> pack_items fs s -> k ∈ store_keys store) ->
  SyncOnce fs s store d uuid now clock e = (store, d, Ok 0, cleanupOldFiles fs s clock).
Proof.
  intros Hall. unfold SyncOnce. rewrite scan_paths_offered. fold (pack_items fs s) (store_keys store).
  pose proof (pick_spec (store_keys store) (pack_items fs s)) as Hp. destruct (foldl pick _ _) as [seen' cs]. destruct Hp as (_ & Hsub & _ & Hnew & _).
  destruct cs as [|c cs]; [done|]. exfalso. apply (Hnew c ltac:(left)). apply Hall, list_elem_of_fmap_2. eapply sublist_subseteq; [exact Hsub|left].
Qed.
Lemma cleanup_spec fs s clock p : p ∈ cleanupOldFiles fs s clock -> p ∈ feed_paths fs s /\ 0 < sy_retainDays s
  /\ exists mtime, fs_Stat fs p = Some (false, mtime) /\ mtime < clock - sy_retainDays s * (86400 * 1000000000).
Proof.
  unfold cleanupOldFiles. destruct (sy_retainDays s <=? 0) eqn:E; [by intros ?%elem_of_nil|]. b2p.
  intros [Hp Hf]%list_elem_of_In%filter_In. apply list_elem_of_In in Hp. unfold too_old in Hf. split; [done|]. split; [lia|].
  destruct (fs_Stat fs p) as [[[] mtime]|]; [done| |done]. apply andb_prop in Hf as [Hf _]. apply Z.ltb_lt in Hf. by exists mtime.
Qed.

End sync.

#[local] Existing Instance ascii_unicode.
#[local] Existing Instance canonical_range.

Definition demo_syncer : Syncer := mkSyncer ["/feed"] 10 100.
(** A decoder that knows one file. *)
Definition one_file (items : list ThreatIntel) : GoYAML := {| yaml_Marshal := fun _ => []; yaml_Unmarshal := fun _ => Ok items |}.
(** One YAML pack, 20 days old on day 30. *)
Definition demo_fs : feed_fs :=
  mkFeedFS (fun dir pat => if seqb pat "*.yaml" then ["/feed/a.yaml"] else []) (fun _ => Some (false, 10 * 86400 * 1000000000))
    (fun _ => Some []) (fun _ => None) (fun _ => None).
Definition demo_sync (items : list ThreatIntel) (store : Store) :=
  @SyncOnce _ (one_file items) _ demo_fs demo_syncer store ∅ (fun _ => "u"%string) 100 (30 * 86400 * 1000000000) demo_save.


(** Two indicators of a pack with one identifier: both are counted as added,
    one is stored, and the next run adds the other one in its place. *)
Theorem SyncOnce_collision :
  let items := [demo_ioc "g1" "domain" "a.example"; demo_ioc "g1" "domain" "b.example"] in
  let store1 := (demo_sync items demo_store).1.1.1 in
  let store2 := (demo_sync items store1).1.1.1 in
  (demo_sync items demo_store).1.2 = Ok 2 /\ size (st_items store1) = 1%nat
  /\ (demo_sync items store1).1.2 = Ok 1 /\ size (st_items store2) = 1%nat /\ store_keys store1 ≠ store_keys store2.
Proof.
  intros items store1 store2.
  assert (Hall : bool_decide ((demo_sync items demo_store).1.2 = Ok 2) && bool_decide (size (st_items store1) = 1%nat)
    && bool_decide ((demo_sync items store1).1.2 = Ok 1) && bool_decide (size (st_items store2) = 1%nat) && bool_decide (store_keys store1 ≠ store_keys store2) = true)
    by (vm_compute; reflexivity).
  repeat (apply andb_prop in Hall as [Hall ?%bool_decide_eq_true]). apply bool_decide_eq_true in Hall. by split_and!.
Qed.
