(* ===== verification/Reassembly.v ===== *)
(** * Reassembly: the bounded TCP reassembly of one direction

    internal/correlation/reassembly.go, with the Options and the sideState of
    tracker.go.  A side keeps a window of the byte stream with holes; only the
    contiguous prefix is exposed.  Index expressions that could panic return
    [None]. *)

From S2P Require Import Prelude GoStrings Events Parser.

Record Options := mkOptions {
  op_MaxSessions : Z;
  op_MaxTransactionsPerSession : Z;
  op_MaxPacketsPerTransaction : Z;
  op_MaxReassemblyBytesPerSide : Z;
  op_MaxOutOfOrderBytes : Z;
  op_ResponseWait : Z;
  op_SessionIdleTimeout : Z;
  op_StorePacketIndex : bool;
  op_RevisionInterval : Z
}.
#[global] Instance settable_Options : Settable Options := fun r =>
  mkOptions (op_MaxSessions r) (op_MaxTransactionsPerSession r) (op_MaxPacketsPerTransaction r)
    (op_MaxReassemblyBytesPerSide r) (op_MaxOutOfOrderBytes r) (op_ResponseWait r)
    (op_SessionIdleTimeout r) (op_StorePacketIndex r) (op_RevisionInterval r).

Record sideState := mkSideState {
  sd_context : ExchangeMessageContext;
  sd_payload : bytes;
  sd_seen : gset string;
  sd_baseSeq : Z;
  sd_seqSet : bool;
  sd_data : bytes;
  sd_present : list bool;
  sd_expectedEnd : Z;
  sd_limited : bool
}.
#[global] Instance settable_sideState : Settable sideState := fun r =>
  mkSideState (sd_context r) (sd_payload r) (sd_seen r) (sd_baseSeq r) (sd_seqSet r) (sd_data r)
    (sd_present r) (sd_expectedEnd r) (sd_limited r).
Definition zero_sideState : sideState := mkSideState zero_ExchangeMessageContext [] ∅ 0 false [] [] 0 false.

(** [make([]byte, n)] and [make([]bool, n)] *)
Definition make_bytes (n : Z) : bytes := replicate (Z.to_nat n) (chr 0).
Definition make_bools (n : Z) : list bool := replicate (Z.to_nat n) false.

Definition refuse (side : sideState) : sideState :=
  side <| sd_limited := true |>
       <| sd_context ::= fun c => c <| em_Truncated := true |> <| em_ReassemblyIncomplete := true |> |>.

(** The sequence number of the first payload byte. *)
Definition payload_seq (pf : PacketFeature) : Z :=
  if pf_TCPSYN pf then u32 (pf_TCPSeq pf + 1) else pf_TCPSeq pf.

(** The loop [for i := offset; i < end; i++] over the values to store. *)
Record fill_state := mkFill { fi_data : bytes; fi_present : list bool; fi_added : bool; fi_conflict : bool }.
Fixpoint fill (values : bytes) (i : nat) (st : fill_state) : option fill_state :=
  match values with
  | [] => Some st
  | value :: rest =>
      p ← fi_present st !! i;
      d ← fi_data st !! i;
      fill rest (S i)
        (if negb p then mkFill (<[i := value]> (fi_data st)) (<[i := true]> (fi_present st)) true (fi_conflict st)
         else if negb (bool_decide (d = value)) then mkFill (fi_data st) (fi_present st) (fi_added st) true
         else st)
  end.

(** [for n < len(present) && present[n] { n++ }] from [n]. *)
Fixpoint run_of (present : list bool) : nat :=
  match present with true :: r => S (run_of r) | _ => O end.
Definition extend_run (present : list bool) (n : Z) : Z := n + Z.of_nat (run_of (drop (Z.to_nat n) present)).

(** From the growth of the window on: store the bytes up to [end_] and expose
    the new prefix. *)
Definition store_values (side : sideState) (payload : bytes) (offset contiguous end_ : Z)
    : option (sideState * bool) :=
  let side := if len (sd_data side) <? end_
    then side <| sd_data := sd_data side ++ make_bytes (end_ - len (sd_data side)) |>
              <| sd_present := sd_present side ++ make_bools (end_ - len (sd_present side)) |>
    else side in
  values ← (if offset <? end_ then slice_to payload (end_ - offset) else Some []);
  st ← fill values (Z.to_nat offset) (mkFill (sd_data side) (sd_present side) false false);
  let side := side <| sd_data := fi_data st |> <| sd_present := fi_present st |>
                   <| sd_limited := sd_limited side || fi_conflict st |> in
  let n := extend_run (sd_present side) contiguous in
  payload ← slice_to (sd_data side) n;
  let side := side <| sd_payload := payload |> in
  let side := side <| sd_context ::= fun c =>
      c <| em_ReassemblyIncomplete := sd_limited side || (n <? sd_expectedEnd side) |> |> in
  Some (side, negb (fi_added st) && (offset <? end_)).

(** What follows once the segment's offset is not negative. *)
Definition place (opts : Options) (side : sideState) (pf : PacketFeature) (offset contiguous : Z)
    : option (sideState * bool) :=
  if (contiguous <? offset) && (op_MaxOutOfOrderBytes opts <? offset - contiguous)
  then Some (refuse side, false) else
  let expected := offset + len (pf_Payload pf) in
  let expected := if (0 <? pf_CapturedLen pf) && (pf_CapturedLen pf <? pf_WireLen pf)
                  then expected + (pf_WireLen pf - pf_CapturedLen pf) else expected in
  let side := if sd_expectedEnd side <? expected then side <| sd_expectedEnd := expected |> else side in
  let end_ := offset + len (pf_Payload pf) in
  if op_MaxReassemblyBytesPerSide opts <? end_
  then store_values (side <| sd_limited := true |> <| sd_context ::= fun c => c <| em_Truncated := true |> |>)
         (pf_Payload pf) offset contiguous (op_MaxReassemblyBytesPerSide opts)
  else store_values side (pf_Payload pf) offset contiguous end_.

(** The window extended to the left by [prefix] holes. *)
Definition rebase (side : sideState) (seq prefix : Z) : sideState :=
  side <| sd_data := make_bytes prefix ++ sd_data side |>
       <| sd_present := make_bools prefix ++ sd_present side |>
       <| sd_expectedEnd := sd_expectedEnd side + prefix |>
       <| sd_baseSeq := seq |>.

Definition reassemble (opts : Options) (side : sideState) (pf : PacketFeature) : option (sideState * bool) :=
  let seq := payload_seq pf in
  let side := if sd_seqSet side then side else side <| sd_baseSeq := seq |> <| sd_seqSet := true |> in
  let contiguous := len (sd_payload side) in
  let offset := i32 (seq - sd_baseSeq side) in
  if offset <? 0 then
    let prefix := - offset in
    if (op_MaxOutOfOrderBytes opts <? prefix)
       || (op_MaxReassemblyBytesPerSide opts <? prefix + len (sd_data side))
    then Some (refuse side, false)
    else place opts (rebase side seq prefix) pf 0 0
  else place opts side pf offset contiguous.

(** ** The invariant *)

(** The window is bounded, and the exposed payload is the data before the
    first hole. *)
Record side_ok (opts : Options) (side : sideState) : Prop := {
  so_len : len (sd_data side) = len (sd_present side);
  so_max : len (sd_data side) <= op_MaxReassemblyBytesPerSide opts;
  so_payload : sd_payload side = take (run_of (sd_present side)) (sd_data side)
}.

Lemma side_ok_zero opts : 0 <= op_MaxReassemblyBytesPerSide opts -> side_ok opts zero_sideState.
Proof. by constructor. Qed.

Lemma run_of_le p : (run_of p <= length p)%nat.
Proof. induction p as [|[] p IH]; simpl; lia. Qed.
Lemma run_of_app_true n p : run_of (replicate n true ++ p) = (n + run_of p)%nat.
Proof. induction n as [|n IH]; simpl; [done|]. by rewrite IH. Qed.
Lemma run_of_spec p : take (run_of p) p = replicate (run_of p) true /\ p !! run_of p <> Some true.
Proof.
  induction p as [|[] p [IH1 IH2]]; simpl; [by split| |by split]. split; [by rewrite IH1|done].
Qed.
Lemma run_of_lookup p i : (i < run_of p)%nat -> p !! i = Some true.
Proof.
  intros Hi. pose proof (run_of_le p). rewrite <-(lookup_take_lt p (run_of p)) by done.
  destruct (run_of_spec p) as [-> _]. by rewrite lookup_replicate_2.
Qed.
(** Counting on from a position below the first hole finds the first hole. *)
Lemma extend_run_spec p n :
  (n <= run_of p)%nat -> extend_run p (Z.of_nat n) = Z.of_nat (run_of p).
Proof.
  intros Hn. unfold extend_run. rewrite Nat2Z.id.
  assert (run_of p = (n + run_of (drop n p))%nat) as ->; [|lia].
  revert n Hn; induction p as [|b p IH]; intros n Hn; simpl in *.
  { rewrite drop_nil. simpl. lia. }
  destruct b; [|assert (n = 0%nat) as -> by lia; done].
  destruct n as [|n]; simpl; [done|]. f_equal. apply IH. lia.
Qed.

(** What the fill loop does to each position. *)
Lemma fill_spec values i st :
  length (fi_data st) = length (fi_present st) ->
  values = [] \/ (i + length values <= length (fi_data st))%nat ->
  exists st', fill values i st = Some st'
  /\ length (fi_data st') = length (fi_data st) /\ length (fi_present st') = length (fi_present st)
  /\ (forall k, fi_present st' !! k
       = if decide (i <= k < i + length values)%nat then Some true else fi_present st !! k)
  /\ (forall k, fi_data st' !! k
       = if decide ((i <= k < i + length values)%nat /\ fi_present st !! k = Some false)
         then values !! (k - i)%nat else fi_data st !! k)
  /\ (fi_added st' = true <-> fi_added st = true
       \/ exists k, (i <= k < i + length values)%nat /\ fi_present st !! k = Some false)
  /\ (fi_conflict st' = true <-> fi_conflict st = true
       \/ exists k, (i <= k < i + length values)%nat /\ fi_present st !! k = Some true
                    /\ fi_data st !! k <> values !! (k - i)%nat).
Proof.
  revert i st. induction values as [|value rest IH]; intros i st Hlen Hi; simpl in *.
  { exists st. split; [done|]. split; [done|]. split; [done|].
    split; [intros k; by rewrite decide_False by lia|].
    split; [intros k; by rewrite decide_False by (intros [? _]; lia)|].
    split; (split; [by left|]); intros [?|(k & ? & _)]; [done|lia|done|lia]. }
  destruct Hi as [?|Hi]; [done|].
  destruct (lookup_lt_is_Some_2 (fi_present st) i) as [p Hp]; [lia|].
  destruct (lookup_lt_is_Some_2 (fi_data st) i) as [d Hd]; [lia|].
  rewrite Hp, Hd. simpl. set (st1 := if negb p then _ else _).
  assert (length (fi_data st1) = length (fi_data st) /\ length (fi_present st1) = length (fi_present st)) as [L1 L2].
  { unfold st1. destruct p; simpl; [case_if|]; simpl; by rewrite ?length_insert. }
  assert (forall k, fi_present st1 !! k = if decide (k = i) then Some true else fi_present st !! k) as Hp1.
  { intros k. unfold st1. destruct (decide (k = i)) as [->|Hne].
    - destruct p; simpl; [case_if; done|]. apply list_lookup_insert_eq. lia.
    - destruct p; simpl; [case_if; done|]. by apply list_lookup_insert_ne. }
  assert (forall k, fi_data st1 !! k = if decide (k = i /\ p = false) then Some value else fi_data st !! k) as Hd1.
  { intros k. unfold st1. destruct p; simpl.
    - rewrite decide_False by naive_solver. by case_if.
    - destruct (decide (k = i)) as [->|Hne].
      + rewrite decide_True by done. apply list_lookup_insert_eq. lia.
      + rewrite decide_False by naive_solver. by apply list_lookup_insert_ne. }
  assert (fi_added st1 = true <-> fi_added st = true \/ p = false) as Ha1.
  { unfold st1. destruct p; simpl; [|naive_solver]. case_if; naive_solver. }
  assert (fi_conflict st1 = true <-> fi_conflict st = true \/ (p = true /\ d <> value)) as Hc1.
  { unfold st1. destruct p; simpl; [|naive_solver]. case_if; naive_solver. }
  clearbody st1. destruct (IH (S i) st1) as (st' & -> & L3 & L4 & Hp' & Hd' & Ha' & Hc'); [lia|right; lia|].
  exists st'. split; [done|]. split; [lia|]. split; [lia|]. split; [|split; [|split]].
  - intros k. rewrite Hp', Hp1. repeat case_decide; try done; lia.
  - intros k. rewrite Hd', Hd1, Hp1. destruct (decide (k = i)) as [->|Hne].
    + rewrite (decide_False (P := (S i <= i < _)%nat /\ _)) by lia. rewrite Hp. destruct p.
      * rewrite !decide_False by naive_solver. done.
      * rewrite !decide_True by (naive_solver lia). by rewrite Nat.sub_diag.
    + rewrite (decide_False (P := k = i /\ p = false)) by naive_solver.
      destruct (decide ((S i <= k < S i + length rest)%nat /\ fi_present st !! k = Some false)) as [[? ?]|Hn].
      * rewrite decide_True by (split; [lia|done]). by replace (k - i)%nat with (S (k - S i)) by lia.
      * rewrite decide_False; [done|]. intros [? ?]. apply Hn. split; [lia|done].
  - rewrite Ha', Ha1. split.
    + intros [[?| ->]|(k & ? & Hk)]; [by left|right; exists i; split; [lia|done]|].
      rewrite Hp1 in Hk. case_decide; [done|]. right. exists k. split; [lia|done].
    + intros [?|(k & ? & Hk)]; [by auto|]. destruct (decide (k = i)) as [->|Hne].
      * left; right. congruence.
      * right. exists k. rewrite Hp1, decide_False by done. split; [lia|done].
  - rewrite Hc', Hc1. split.
    + intros [[?|[-> ?]]|(k & ? & Hk & Hdk)]; [by left|right; exists i; rewrite Hp, Hd, Nat.sub_diag; simpl; split; [lia|]; split; [done|congruence]|].
      rewrite Hp1 in Hk. rewrite Hd1 in Hdk. destruct (decide (k = i)); [lia|].
      rewrite decide_False in Hdk by naive_solver. right. exists k. split; [lia|]. split; [done|].
      by replace (k - i)%nat with (S (k - S i)) by lia.
    + intros [?|(k & ? & Hk & Hdk)]; [by auto|]. destruct (decide (k = i)) as [->|Hne].
      * left; right. rewrite Hd, Nat.sub_diag in Hdk. simpl in Hdk. split; congruence.
      * right. exists k. rewrite Hp1, Hd1, decide_False, decide_False by naive_solver.
        split; [lia|]. split; [done|]. by replace (k - i)%nat with (S (k - S i)) in Hdk by lia.
Qed.

Lemma run_of_ge p n : (forall k, (k < n)%nat -> p !! k = Some true) -> (n <= run_of p)%nat.
Proof.
  revert n; induction p as [|b p IH]; intros n Hn.
  { destruct n; [lia|]. specialize (Hn 0%nat ltac:(lia)). done. }
  destruct n as [|n]; [lia|]. pose proof (Hn 0%nat ltac:(lia)) as Hb. simpl in Hb. simplify_eq. simpl.
  apply le_n_S, IH. intros k Hk. by apply (Hn (S k) ltac:(lia)).
Qed.

(** The part of the segment that fits the window. *)
Definition fitting (opts : Options) (offset : Z) (payload : bytes) : bytes :=
  take (Z.to_nat (op_MaxReassemblyBytesPerSide opts - offset)) payload.

(** How a window is extended by values from [offset] on: positions that were
    filled keep their byte, the others get the new one. *)
Definition extends (side side' : sideState) (offset : nat) (values : bytes) : Prop :=
  (forall k, sd_present side' !! k = Some true <->
     (offset <= k < offset + length values)%nat \/ sd_present side !! k = Some true)
  /\ (forall k, sd_present side !! k = Some true -> sd_data side' !! k = sd_data side !! k)
  /\ (forall k, (offset <= k < offset + length values)%nat -> sd_present side !! k <> Some true ->
       sd_data side' !! k = values !! (k - offset)%nat).

Lemma slice_fitting opts offset payload :
  0 <= offset ->
  let end_ := if op_MaxReassemblyBytesPerSide opts <? offset + len payload
              then op_MaxReassemblyBytesPerSide opts else offset + len payload in
  (if offset <? end_ then slice_to payload (end_ - offset) else Some []) = Some (fitting opts offset payload)
  /\ (offset <? end_) = negb (bool_decide (fitting opts offset payload = []))
  /\ (0 < len (fitting opts offset payload) -> offset + len (fitting opts offset payload) = end_).
Proof.
  intros Ho end_. unfold fitting. set (mx := op_MaxReassemblyBytesPerSide opts).
  pose proof (len_nonneg payload) as Hp.
  assert (len (take (Z.to_nat (mx - offset)) payload) = Z.max 0 (Z.min (mx - offset) (len payload))) as Hl.
  { rewrite len_take. lia. }
  unfold end_. fold mx. destruct (Z.ltb_spec mx (offset + len payload)).
  - destruct (Z.ltb_spec offset mx).
    + rewrite slice_to_ok by lia. split; [done|]. split; [|lia].
      rewrite bool_decide_eq_false_2; [done|]. rewrite <-len_zero. lia.
    + replace (Z.to_nat (mx - offset)) with 0%nat by lia. rewrite take_0. split; [done|]. split; [done|].
      unfold len; simpl; lia.
  - rewrite take_ge by (unfold len in *; lia). destruct (Z.ltb_spec offset (offset + len payload)).
    + replace (offset + len payload - offset) with (len payload) by lia. rewrite slice_to_all.
      split; [done|]. split; [|lia]. rewrite bool_decide_eq_false_2; [done|]. rewrite <-len_zero. lia.
    + assert (payload = []) as -> by (apply len_zero; lia). split; [done|]. split; [done|]. unfold len; simpl; lia.
Qed.

(** A window grown with holes. *)
Lemma grown_lookup (p : list bool) n k : (p ++ make_bools n) !! k = Some true <-> p !! k = Some true.
Proof.
  rewrite lookup_app. destruct (p !! k); [done|]. unfold make_bools.
  split; [|done]. by intros [? _]%lookup_replicate.
Qed.

Definition stored (opts : Options) (side side' : sideState) (offset : Z) (values : bytes) (r : bool) : Prop :=
  side_ok opts side' /\ sd_baseSeq side' = sd_baseSeq side /\ sd_seqSet side' = sd_seqSet side
  /\ extends side side' (Z.to_nat offset) values
  /\ (r = true <-> values <> []
      /\ forall k, (Z.to_nat offset <= k < Z.to_nat offset + length values)%nat -> sd_present side !! k = Some true).

Lemma store_values_spec opts side payload offset contiguous end_ values :
  len (sd_data side) = len (sd_present side) -> len (sd_data side) <= op_MaxReassemblyBytesPerSide opts ->
  end_ <= op_MaxReassemblyBytesPerSide opts ->
  0 <= offset -> 0 <= contiguous <= Z.of_nat (run_of (sd_present side)) ->
  (if offset <? end_ then slice_to payload (end_ - offset) else Some []) = Some values ->
  (offset <? end_) = negb (bool_decide (values = [])) ->
  (0 < len values -> offset + len values = end_) ->
  exists side' r, store_values side payload offset contiguous end_ = Some (side', r)
    /\ stored opts side side' offset values r.
Proof.
  intros Hlen Hmax He Ho Hc Hv Hne Hend. unfold store_values. cbv zeta. rewrite Hv. cbn [mbind option_bind].
  set (side1 := if len (sd_data side) <? end_ then _ else side).
  assert (len (sd_data side1) = Z.max (len (sd_data side)) end_ /\ len (sd_present side1) = len (sd_data side1)
    /\ (forall k, sd_present side1 !! k = Some true <-> sd_present side !! k = Some true)
    /\ (forall k, (k < length (sd_data side))%nat -> sd_data side1 !! k = sd_data side !! k)
    /\ sd_baseSeq side1 = sd_baseSeq side /\ sd_seqSet side1 = sd_seqSet side) as (L1 & L2 & Hp1 & Hd1 & Eb & Es).
  { pose proof (len_nonneg (sd_data side)). unfold side1. case_if; simpl.
    - rewrite !len_app. unfold make_bytes, make_bools. rewrite !len_replicate. split; [lia|]. split; [lia|].
      split; [intros; apply grown_lookup|]. split; [|done]. intros k Hk. by rewrite lookup_app_l.
    - split; [lia|]. by rewrite Hlen. }
  clearbody side1. pose proof (len_nonneg values) as Hvl.
  destruct (fill_spec values (Z.to_nat offset) (mkFill (sd_data side1) (sd_present side1) false false))
    as (st & -> & L3 & L4 & Hp & Hd & Ha & _); simpl in *; [unfold len in *; lia| |].
  { destruct values as [|v vs]; [by left|]. right. rewrite len_cons in *. pose proof (len_nonneg vs).
    unfold len in *. simpl. lia. }
  assert (forall k, fi_present st !! k = Some true <->
    (Z.to_nat offset <= k < Z.to_nat offset + length values)%nat \/ sd_present side !! k = Some true) as Hpres.
  { intros k. rewrite Hp. case_decide; [naive_solver|]. rewrite Hp1. naive_solver. }
  assert (run_of (sd_present side) <= run_of (fi_present st))%nat as Hrun.
  { apply run_of_ge. intros k Hk. apply Hpres. right. by apply run_of_lookup. }
  assert (extend_run (fi_present st) contiguous = Z.of_nat (run_of (fi_present st))) as ->.
  { rewrite <-(extend_run_spec _ (Z.to_nat contiguous)) by lia. f_equal. lia. }
  pose proof (run_of_le (fi_present st)) as Hle.
  rewrite slice_to_ok by (unfold len in *; lia). cbn [mbind option_bind]. rewrite Nat2Z.id.
  eexists _, _. split; [reflexivity|]. unfold stored. simpl.
  split; [|split; [done|split; [done|split]]].
  - constructor; simpl; [unfold len in *; lia|unfold len in *; lia|done].
  - split; [exact Hpres|]. simpl. split.
    + intros k Hk. rewrite Hd, decide_False.
      * apply Hd1. apply lookup_lt_Some in Hk. unfold len in *. lia.
      * intros [_ Hf]. assert (sd_present side1 !! k = Some true) by (by apply Hp1). congruence.
    + intros k Hk Hn. rewrite Hd, decide_True; [done|]. split; [done|].
      destruct (sd_present side1 !! k) as [[]|] eqn:E; [by apply Hp1 in E|done|].
      apply lookup_ge_None in E. unfold len in *.
      assert (0 < Z.of_nat (length values)) as Hlv by lia. specialize (Hend Hlv). lia.
  - rewrite Hne, andb_true_iff, !negb_true_iff, bool_decide_eq_false. split.
    + intros [Hadd Hv']. split; [done|]. intros k Hk. apply Hp1.
      destruct (sd_present side1 !! k) as [[]|] eqn:E; [done| |].
      * rewrite (proj2 Ha) in Hadd; [done|]. right. eauto.
      * apply lookup_ge_None in E. unfold len in *. assert (0 < Z.of_nat (length values)) as Hlv by lia.
        specialize (Hend Hlv). lia.
    + intros [Hv' Hall]. split; [|done]. apply not_true_iff_false. rewrite Ha.
      intros [?|(k & Hk & Hf)]; [done|]. apply Hall, Hp1 in Hk. congruence.
Qed.

Lemma place_spec opts side pf offset contiguous :
  len (sd_data side) = len (sd_present side) -> len (sd_data side) <= op_MaxReassemblyBytesPerSide opts ->
  0 <= offset -> 0 <= contiguous <= Z.of_nat (run_of (sd_present side)) ->
  (contiguous < offset /\ op_MaxOutOfOrderBytes opts < offset - contiguous
   /\ place opts side pf offset contiguous = Some (refuse side, false))
  \/ (exists side' r, place opts side pf offset contiguous = Some (side', r)
      /\ stored opts side side' offset (fitting opts offset (pf_Payload pf)) r).
Proof.
  intros Hlen Hmax Ho Hc. unfold place. cbv zeta. destruct ((contiguous <? offset) && _) eqn:E; b2p; [by left|].
  right. set (expected := if (0 <? pf_CapturedLen pf) && _ then _ else _).
  set (side1 := if sd_expectedEnd side <? expected then _ else side).
  destruct (slice_fitting opts offset (pf_Payload pf) Ho) as (Hv & Hne & Hend). cbv zeta in *.
  assert (sd_data side1 = sd_data side /\ sd_present side1 = sd_present side
    /\ sd_baseSeq side1 = sd_baseSeq side /\ sd_seqSet side1 = sd_seqSet side) as (Ed & Ep & Eb & Es).
  { unfold side1. by case_if. }
  assert (forall side2 end_, sd_data side2 = sd_data side -> sd_present side2 = sd_present side ->
    sd_baseSeq side2 = sd_baseSeq side -> sd_seqSet side2 = sd_seqSet side ->
    end_ <= op_MaxReassemblyBytesPerSide opts ->
    end_ = (if op_MaxReassemblyBytesPerSide opts <? offset + len (pf_Payload pf)
            then op_MaxReassemblyBytesPerSide opts else offset + len (pf_Payload pf)) ->
    exists side' r, store_values side2 (pf_Payload pf) offset contiguous end_ = Some (side', r)
      /\ stored opts side side' offset (fitting opts offset (pf_Payload pf)) r) as Hgen.
  { intros side2 end_ E1 E2 E3 E4 He ->.
    unfold stored, extends. rewrite <-E1, <-E2, <-E3, <-E4.
    apply store_values_spec; rewrite ?E1, ?E2; done. }
  clearbody side1.
  case_if; apply Hgen; try done; by rewrite ?(proj2 (Z.ltb_lt _ _)), ?(proj2 (Z.ltb_ge _ _)).
Qed.

(** ** The whole routine *)

(** The side on which the segment is placed: positioned if it is the first
    one, and rebased when the segment starts before the window. *)
Definition positioned (side : sideState) (pf : PacketFeature) : sideState :=
  if sd_seqSet side then side else side <| sd_baseSeq := payload_seq pf |> <| sd_seqSet := true |>.
Definition segment_offset (side : sideState) (pf : PacketFeature) : Z :=
  i32 (payload_seq pf - sd_baseSeq (positioned side pf)).
Definition rebased (side : sideState) (pf : PacketFeature) : sideState :=
  rebase (positioned side pf) (payload_seq pf) (- segment_offset side pf).

Lemma positioned_fields side pf :
  sd_data (positioned side pf) = sd_data side /\ sd_present (positioned side pf) = sd_present side
  /\ sd_payload (positioned side pf) = sd_payload side /\ sd_seqSet (positioned side pf) = true
  /\ sd_expectedEnd (positioned side pf) = sd_expectedEnd side.
Proof. unfold positioned. by destruct (sd_seqSet side) eqn:E. Qed.

(** The three outcomes of reassemble: refused, stored in place, or stored
    after the window was extended to the left. *)
Inductive outcome (opts : Options) (side : sideState) (pf : PacketFeature) : sideState -> bool -> Prop :=
| out_refused : outcome opts side pf (refuse (positioned side pf)) false
| out_placed side' r :
    0 <= segment_offset side pf ->
    stored opts (positioned side pf) side' (segment_offset side pf)
      (fitting opts (segment_offset side pf) (pf_Payload pf)) r ->
    outcome opts side pf side' r
| out_rebased side' r :
    segment_offset side pf < 0 ->
    stored opts (rebased side pf) side' 0 (fitting opts 0 (pf_Payload pf)) r ->
    outcome opts side pf side' r.

Lemma reassemble_outcome opts side pf :
  side_ok opts side ->
  exists side' r, reassemble opts side pf = Some (side', r) /\ outcome opts side pf side' r.
Proof.
  intros [Hlen Hmax Hpay].
  destruct (positioned_fields side pf) as (Ed & Ep & Epl & Es & Ee).
  unfold reassemble. cbv zeta. change (if sd_seqSet side then side else _) with (positioned side pf).
  change (i32 (payload_seq pf - sd_baseSeq (positioned side pf))) with (segment_offset side pf).
  destruct (Z.ltb_spec (segment_offset side pf) 0) as [Hneg|Hpos].
  - case_if; [eexists _, _; split; [reflexivity|constructor]|]. fold (rebased side pf).
    assert (len (sd_data (rebased side pf)) = - segment_offset side pf + len (sd_data side)
      /\ len (sd_present (rebased side pf)) = - segment_offset side pf + len (sd_present side)) as [L1 L2].
    { unfold rebased, rebase, make_bytes, make_bools. simpl. rewrite !len_app, !len_replicate, Ed, Ep. lia. }
    rewrite Ed in *.
    destruct (place_spec opts (rebased side pf) pf 0 0) as [(? & _)|(side' & r & -> & Hst)]; [lia|lia|lia|lia|lia|].
    eexists _, _. split; [reflexivity|]. by apply out_rebased.
  - rewrite Epl, Hpay.
    pose proof (run_of_le (sd_present side)) as Hrun.
    destruct (place_spec opts (positioned side pf) pf (segment_offset side pf)
      (len (take (run_of (sd_present side)) (sd_data side)))) as [(_ & _ & ->)|(side' & r & -> & Hst)];
      rewrite ?Ed, ?Ep, ?len_take; try done.
    + pose proof (len_nonneg (sd_data side)). lia.
    + eexists _, _. split; [reflexivity|constructor].
    + eexists _, _. split; [reflexivity|]. by apply out_placed.
Qed.

Lemma refuse_ok opts side pf : side_ok opts side -> side_ok opts (refuse (positioned side pf)).
Proof.
  intros [Hlen Hmax Hpay]. destruct (positioned_fields side pf) as (Ed & Ep & Epl & _ & _).
  constructor; simpl; by rewrite ?Epl, ?Ed, ?Ep.
Qed.

Lemma outcome_ok opts side pf side' r : side_ok opts side -> outcome opts side pf side' r -> side_ok opts side'.
Proof. intros Hok []; [by apply refuse_ok|..]; by match goal with H : stored _ _ _ _ _ _ |- _ => destruct H end. Qed.

(** What reassembly leaves alone. *)
Definition same_index (side side' : sideState) : Prop :=
  sd_seen side' = sd_seen side /\ em_Packets (sd_context side') = em_Packets (sd_context side).

Lemma store_values_frame side payload offset contiguous end_ side' r :
  store_values side payload offset contiguous end_ = Some (side', r) -> same_index side side'.
Proof.
  unfold store_values. cbv zeta. set (side1 := if len (sd_data side) <? end_ then _ else side).
  assert (same_index side side1) as Hs by (unfold side1; by case_if). clearbody side1.
  destruct (if offset <? end_ then _ else _) as [values|]; simpl; [|done].
  destruct (fill _ _ _) as [st|]; simpl; [|done]. destruct (slice_to _ _) as [p|]; simpl; [|done].
  by intros [= <- _].
Qed.

Lemma place_frame opts side pf offset contiguous side' r :
  place opts side pf offset contiguous = Some (side', r) -> same_index side side'.
Proof.
  unfold place. cbv zeta. case_if; [by intros [= <- _]|].
  set (side1 := if sd_expectedEnd side <? _ then _ else side).
  assert (same_index side side1) as Hs by (unfold side1; by case_if). clearbody side1.
  case_if; intros Hst%store_values_frame; destruct Hs, Hst as [E1 E2]; split; (etrans; [eassumption|]); done.
Qed.

Lemma reassemble_frame opts side pf side' r :
  reassemble opts side pf = Some (side', r) -> same_index side side'.
Proof.
  unfold reassemble. cbv zeta. change (if sd_seqSet side then side else _) with (positioned side pf).
  assert (same_index side (positioned side pf)) as Hs by (unfold positioned; by destruct (sd_seqSet side)).
  destruct (_ <? 0).
  - case_if; [by intros [= <- _]|]. intros Hst%place_frame. destruct Hs, Hst. split; (etrans; [eassumption|]); done.
  - intros Hst%place_frame. destruct Hs, Hst. split; (etrans; [eassumption|]); done.
Qed.

(** Bounded, hole-free reassembly: from every well-formed side, for every
    segment, reassemble does not panic; the window stays within the configured
    size; the exposed payload is the data before the first hole; and a segment
    is reported as a retransmission only when it carries a byte inside the
    window and every position it covers there was already filled. *)
Theorem reassemble_bounded opts side pf :
  side_ok opts side ->
  exists side' r, reassemble opts side pf = Some (side', r)
  /\ len (sd_data side') = len (sd_present side')
  /\ len (sd_data side') <= op_MaxReassemblyBytesPerSide opts
  /\ sd_payload side' = take (run_of (sd_present side')) (sd_data side')
  /\ (r = true ->
      0 <= segment_offset side pf
      /\ fitting opts (segment_offset side pf) (pf_Payload pf) <> []
      /\ forall k, segment_offset side pf <= Z.of_nat k
                    < segment_offset side pf + len (fitting opts (segment_offset side pf) (pf_Payload pf)) ->
         sd_present side !! k = Some true).
Proof.
  intros Hok. destruct (reassemble_outcome opts side pf Hok) as (side' & r & Hr & Hout).
  exists side', r. split; [done|].
  destruct (outcome_ok opts side pf side' r Hok Hout) as [H1 H2 H3]. split; [done|]. split; [done|]. split; [done|].
  destruct (positioned_fields side pf) as (_ & Ep & _).
  intros ->. inversion Hout as [|? ? Hpos (_ & _ & _ & _ & [Hret _])|? ? Hneg (_ & _ & _ & _ & [Hret _])]; subst.
  - destruct (Hret eq_refl) as [Hne Hall]. split; [done|]. split; [done|]. intros k Hk. rewrite Ep in Hall.
    apply Hall. unfold len in Hk. lia.
  - exfalso. destruct (Hret eq_refl) as [Hne Hall]. specialize (Hall 0%nat).
    destruct (fitting opts 0 (pf_Payload pf)) as [|v vs]; [done|]. simpl in Hall. specialize (Hall ltac:(lia)).
    unfold make_bools in Hall. destruct (Z.to_nat (- segment_offset side pf)) eqn:E; [lia|done].
Qed.

(** ** Agreement with the sender's stream *)

Section stream.
(** The byte at each position of the stream one endpoint sends, and the
    sequence number of position 0. *)
Context (S : Z -> ascii) (isn : Z) (opts : Options).

(** The segment carries the stream from position [abs] on. *)
Definition segment_of (pf : PacketFeature) (abs : Z) : Prop :=
  payload_seq pf = u32 (isn + abs)
  /\ forall j b, pf_Payload pf !! j = Some b -> b = S (abs + Z.of_nat j).

(** Every filled position of the window, whose first byte is position [base]
    of the stream, holds the byte the sender sent. *)
Definition agrees (side : sideState) (base : Z) : Prop :=
  sd_baseSeq side = u32 (isn + base)
  /\ forall k, sd_present side !! k = Some true -> sd_data side !! k = Some (S (base + Z.of_nat k)).

(** Segments arrive in any order, overlapping, repeated or not at all, each
    within half the sequence space of the window's start. *)
Inductive stream_run : sideState -> option Z -> Prop :=
| stream_start : stream_run zero_sideState None
| stream_segment side ob pf abs side' r :
    stream_run side ob -> segment_of pf abs ->
    (forall base, ob = Some base -> - 2 ^ 31 <= abs - base < 2 ^ 31) ->
    reassemble opts side pf = Some (side', r) ->
    stream_run side' (Some (match ob with
                            | None => abs
                            | Some base => if sd_baseSeq side' =? sd_baseSeq side then base else abs
                            end)).

Lemma i32_diff a b : - 2 ^ 31 <= a - b < 2 ^ 31 -> i32 (u32 (isn + a) - u32 (isn + b)) = a - b.
Proof.
  intros Hd. unfold i32, u32. rewrite <-Zplus_mod_idemp_l, <-Zminus_mod, Zplus_mod_idemp_l.
  replace (isn + a - (isn + b)) with (a - b) by lia. rewrite Z.mod_small; lia.
Qed.
Lemma u32_inj_window a b : - 2 ^ 31 <= a - b < 2 ^ 31 -> u32 (isn + a) = u32 (isn + b) -> a = b.
Proof. intros Hd E. pose proof (i32_diff a b Hd) as Hi. rewrite E, Z.sub_diag in Hi. change (i32 0) with 0 in Hi. lia. Qed.

Lemma stored_agrees side side' base pf offset r :
  0 <= offset -> agrees side base -> (forall j b, pf_Payload pf !! j = Some b -> b = S (base + offset + Z.of_nat j)) ->
  stored opts side side' offset (fitting opts offset (pf_Payload pf)) r -> agrees side' base.
Proof.
  intros Ho [Hb Ha] Hseg (_ & Eb & _ & (Hp & Hold & Hnew) & _). split; [by rewrite Eb|].
  intros k Hk. destruct (decide (sd_present side !! k = Some true)) as [Hs|Hs]; [rewrite Hold by done; auto|].
  apply Hp in Hk as [Hk|Hk]; [|done]. rewrite Hnew by done.
  destruct (fitting opts offset (pf_Payload pf) !! (k - Z.to_nat offset)%nat) as [b|] eqn:E.
  - f_equal. unfold fitting in E. apply lookup_take_Some in E as [E _]. apply Hseg in E as ->. f_equal. lia.
  - apply lookup_ge_None in E. lia.
Qed.

Lemma stream_run_agrees side ob :
  0 <= op_MaxReassemblyBytesPerSide opts -> stream_run side ob ->
  side_ok opts side /\ match ob with
                       | None => sd_seqSet side = false /\ sd_present side = [] /\ sd_data side = []
                       | Some base => sd_seqSet side = true /\ agrees side base
                       end.
Proof.
  intros Hmax. induction 1 as [|side ob pf abs side' r _ [Hok IH] [Hseq Hseg] Hwin Hr]; [split; [by apply side_ok_zero|done]|].
  destruct (reassemble_outcome opts side pf Hok) as (side1 & r1 & Hr1 & Hout). assert (side1 = side' /\ r1 = r) as [-> ->] by (split; congruence).
  split; [by eapply outcome_ok|].
  set (base0 := default abs ob).
  destruct (positioned_fields side pf) as (Ed & Ep & _ & Es & _).
  assert (agrees (positioned side pf) base0 /\ - 2 ^ 31 <= abs - base0 < 2 ^ 31
    /\ (ob = None -> sd_baseSeq (positioned side pf) = payload_seq pf)
    /\ (is_Some ob -> sd_baseSeq (positioned side pf) = sd_baseSeq side)) as (Hag & Hd & Hn & Hs).
  { unfold base0, positioned. destruct ob as [base|]; simpl.
    - destruct IH as [-> Ha]. split; [done|]. split; [by apply Hwin|]. split; [done|done].
    - destruct IH as (-> & Hp & Hda). split; [|split; [lia|split; [done|by intros [? ?]]]].
      split; [done|]. simpl. by rewrite Hp. }
  assert (segment_offset side pf = abs - base0) as Hoff.
  { unfold segment_offset. destruct Hag as [Hb _]. rewrite Hb, Hseq. by apply i32_diff. }
  assert (sd_seqSet side' = true) as Hset.
  { destruct Hout as [|? ? _ (_ & _ & -> & _)|? ? _ (_ & _ & -> & _)]; simpl; by rewrite ?Es. }
  split; [done|].
  assert (forall base', agrees side' base' ->
    (sd_baseSeq side' = sd_baseSeq (positioned side pf) /\ base' = base0) \/ (base' = abs /\ abs <> base0) ->
    agrees side' (match ob with None => abs
                  | Some base => if sd_baseSeq side' =? sd_baseSeq side then base else abs end)) as Hfin.
  { intros base' Ha Hb. destruct ob as [base|]; simpl in *.
    - destruct Hb as [[Hb ->]|[-> Hne]].
      + rewrite Hb, Hs by eauto. by rewrite Z.eqb_refl.
      + case_if; [|done]. exfalso. apply Hne. destruct Ha as [Ha _]. destruct Hag as [Hg _].
        apply u32_inj_window; [done|]. rewrite <-Ha, <-Hg, Hs by eauto. done.
    - by destruct Hb as [[_ ->]|[-> _]]. }
  inversion Hout as [|? ? Hpos Hst|? ? Hneg Hst]; subst.
  - apply (Hfin base0); [exact Hag|by left].
  - apply (Hfin base0); [|left; split; [by destruct Hst as (_ & -> & _)|done]].
    eapply stored_agrees; [done|exact Hag| |exact Hst]. intros j b Hj. apply Hseg in Hj as ->. f_equal. lia.
  - apply (Hfin abs); [|right; split; [done|lia]].
    eapply (stored_agrees (rebased side pf) side' abs pf 0 r); [lia| | |exact Hst].
    + split; [exact Hseq|]. unfold rebased, rebase, make_bools, make_bytes. simpl. intros k Hk.
      rewrite lookup_app_Some in Hk. destruct Hk as [[? _]%lookup_replicate|[Hk1 Hk2]]; [done|].
      rewrite length_replicate in *. rewrite lookup_app_r by (by rewrite length_replicate). rewrite length_replicate.
      destruct Hag as [_ Ha]. rewrite (Ha _ Hk2). f_equal. f_equal. lia.
    + intros j b Hj. apply Hseg in Hj as ->. f_equal. lia.
Qed.

(** C27.  Reassembly is sound: however the segments of a stream arrive
    (reordered, overlapping, duplicated, lost, across a wrap-around of the
    sequence number), the exposed payload is a contiguous piece of what the
    sender sent, starting at the window's first byte; bytes from the two sides
    of a gap are never joined. *)
Theorem reassemble_stream side base :
  0 <= op_MaxReassemblyBytesPerSide opts -> stream_run side (Some base) ->
  sd_payload side = (fun k => S (base + Z.of_nat k)) <$> seq 0 (length (sd_payload side)).
Proof.
  intros Hmax Hrun. destruct (stream_run_agrees side (Some base) Hmax Hrun) as [[Hlen _ Hpay] [_ [_ Ha]]].
  apply list_eq. intros k. rewrite list_lookup_fmap. destruct (decide (k < length (sd_payload side))%nat) as [Hk|Hk].
  - rewrite lookup_seq_lt by done. simpl. rewrite Hpay in Hk |- *. rewrite length_take in Hk.
    rewrite lookup_take_lt by lia. apply Ha, run_of_lookup. lia.
  - rewrite (lookup_ge_None_2 (sd_payload side)) by lia. by rewrite lookup_seq_ge by lia.
Qed.
End stream.

(** ** Witnesses *)

Definition demo_options : Options := mkOptions 10 2 4 8 8 30000000000 120000000000 true 10000000000.
Definition demo_segment (seq : Z) (p : string) : PacketFeature :=
  zero_PacketFeature <| pf_TCPSeq := seq |> <| pf_Payload := byt p |>.

Lemma reassemble_bounded_witness :
  side_ok demo_options zero_sideState /\
  exists side' r, reassemble demo_options zero_sideState (demo_segment 7 "abc") = Some (side', r)
  /\ len (sd_data side') <= 8 /\ sd_payload side' = byt "abc".
Proof.
  assert (side_ok demo_options zero_sideState) as Hok by (apply side_ok_zero; vm_compute; discriminate).
  split; [exact Hok|].
  destruct (reassemble_bounded demo_options zero_sideState (demo_segment 7 "abc") Hok)
    as (side' & r & E & _ & Hmax & _).
  exists side', r. split; [exact E|]. split; [exact Hmax|]. vm_compute in E. inversion E. vm_compute. reflexivity.
Defined.

(** The stream of the example: position k holds the letter at k. *)
Definition demo_stream (k : Z) : ascii := chr (97 + k).

(** "cd" arrives first, at the top of the sequence space; "ab" completes it. *)
Lemma reassemble_stream_witness :
  exists side, stream_run demo_stream (2 ^ 32 - 1) demo_options side (Some 0)
  /\ sd_payload side = byt "abcd"
  /\ sd_payload side = (fun k => demo_stream (0 + Z.of_nat k)) <$> seq 0 (length (sd_payload side)).
Proof.
  destruct (reassemble demo_options zero_sideState (demo_segment 1 "cd")) as [[s1 r1]|] eqn:E1; [|vm_compute in E1; discriminate].
  destruct (reassemble demo_options s1 (demo_segment (2 ^ 32 - 1) "ab")) as [[s2 r2]|] eqn:E2;
    [|vm_compute in E1; inversion E1; subst; vm_compute in E2; discriminate].
  assert (forall sq p abs, sq = u32 (2 ^ 32 - 1 + abs) ->
    byt p = (fun k => demo_stream (abs + Z.of_nat k)) <$> seq 0 (length (byt p)) ->
    segment_of demo_stream (2 ^ 32 - 1) (demo_segment sq p) abs) as Hseg.
  { intros sq p abs Hq Hp. split; [exact Hq|]. intros j b Hj. unfold demo_segment in Hj. cbn in Hj. rewrite Hp in Hj.
    rewrite list_lookup_fmap in Hj. destruct (seq 0 (length (byt p)) !! j) as [x|] eqn:Ex; [|discriminate].
    apply lookup_seq in Ex as [-> _]. simpl in Hj. congruence. }
  assert (stream_run demo_stream (2 ^ 32 - 1) demo_options s2 (Some 0)) as Hrun.
  { assert (stream_run demo_stream (2 ^ 32 - 1) demo_options s1 (Some 2)) as H1.
    { apply (stream_segment _ _ _ zero_sideState None (demo_segment 1 "cd") 2 s1 r1);
        [constructor|apply Hseg; reflexivity|discriminate|exact E1]. }
    pose proof (stream_segment demo_stream (2 ^ 32 - 1) demo_options s1 (Some 2) (demo_segment (2 ^ 32 - 1) "ab") 0 s2 r2
      H1 ltac:(apply Hseg; reflexivity) ltac:(intros base [= <-]; lia) E2) as H2.
    vm_compute in E1. inversion E1; subst s1 r1. vm_compute in E2. inversion E2; subst s2 r2. exact H2. }
  exists s2. split; [exact Hrun|]. split.
  - vm_compute in E1. inversion E1; subst s1 r1. vm_compute in E2. inversion E2; subst. vm_compute. reflexivity.
  - apply (reassemble_stream demo_stream (2 ^ 32 - 1) demo_options s2 0); [vm_compute; discriminate|exact Hrun].
Defined.
