(* ===== verification/Tracker.v ===== *)
(** * Tracker: sessions, transactions and context revisions

    internal/correlation (tracker.go, direction.go).  Sessions are held by
    key, the transactions of a session in a list; a pointer to a transaction
    is its position in the list.  The mutex makes each method one step.
    Parsing of complete HTTP messages is net/http's ([GoHTTP]).  A step that
    would panic is [None]. *)

From S2P Require Import Prelude GoStrings GoNet Events Parser Reassembly.

(** What the tracker reads of a parsed HTTP message; [hr_BodyOK] says that the
    body could be read to its end. *)
Record HTTPRequest := mkHTTPRequest {
  hq_Method : string; hq_TransferEncoding : list string; hq_Upgrade : string; hq_ContentLength : Z }.
Record HTTPResponse := mkHTTPResponse {
  hr_StatusCode : Z; hr_ContentLength : Z; hr_TransferEncoding : list string; hr_BodyOK : bool }.
(** [http.ReadRequest] and [http.ReadResponse], [None] being an error. *)
Class GoHTTP := {
  http_ReadRequest : bytes -> option HTTPRequest;
  http_ReadResponse : bytes -> option HTTPResponse
}.

Record transactionState := mkTransactionState {
  tx_id : string;
  tx_lastUsec : Z;
  tx_lastReviseUsec : Z;
  tx_request : sideState;
  tx_response : sideState;
  tx_events : gmap string ThreatEvent;
  tx_final : bool
}.
#[global] Instance settable_transactionState : Settable transactionState := fun r =>
  mkTransactionState (tx_id r) (tx_lastUsec r) (tx_lastReviseUsec r) (tx_request r) (tx_response r)
    (tx_events r) (tx_final r).

Record sessionState := mkSessionState {
  sn_key : string;
  sn_id : string;
  sn_firstUsec : Z;
  sn_lastUsec : Z;
  sn_endpointA : string;
  sn_endpointB : string;
  sn_client : string;
  sn_directionClient : string;
  sn_directionConflict : bool;
  sn_midstream : bool;
  sn_aPackets : Z;
  sn_bPackets : Z;
  sn_aWireBytes : Z;
  sn_bWireBytes : Z;
  sn_hitCount : Z;
  sn_nextTxn : Z;
  sn_transactions : list transactionState
}.
#[global] Instance settable_sessionState : Settable sessionState := fun r =>
  mkSessionState (sn_key r) (sn_id r) (sn_firstUsec r) (sn_lastUsec r) (sn_endpointA r) (sn_endpointB r)
    (sn_client r) (sn_directionClient r) (sn_directionConflict r) (sn_midstream r) (sn_aPackets r)
    (sn_bPackets r) (sn_aWireBytes r) (sn_bWireBytes r) (sn_hitCount r) (sn_nextTxn r) (sn_transactions r).

Record Tracker := mkTracker {
  tk_opts : Options;
  tk_sessions : gmap string sessionState;
  tk_lastCleanup : Z
}.
#[global] Instance settable_Tracker : Settable Tracker := fun r =>
  mkTracker (tk_opts r) (tk_sessions r) (tk_lastCleanup r).

Record Observation := mkObservation {
  ob_Direction : DirectionAssessment;
  ob_SessionID : string;
  ob_TransactionID : string;
  ob_Exchange : option ExchangeContext;
  ob_SessionSummary : option SessionSummary;
  ob_ContextFinal : bool;
  ob_Updates : list ThreatEvent
}.

Definition tracker_New (opts : Options) : Tracker :=
  let pos (d v : Z) := if v <=? 0 then d else v in
  mkTracker (opts <| op_MaxSessions ::= pos 100000 |>
                  <| op_MaxTransactionsPerSession ::= pos 16 |>
                  <| op_MaxPacketsPerTransaction ::= pos 128 |>
                  <| op_MaxReassemblyBytesPerSide ::= pos (256 * 1024) |>
                  <| op_MaxOutOfOrderBytes ::= pos (64 * 1024) |>
                  <| op_ResponseWait ::= pos 30000000000 |>
                  <| op_SessionIdleTimeout ::= pos 120000000000 |>
                  <| op_RevisionInterval ::= pos 10000000000 |>) ∅ 0.

(** ** Names *)

Definition endpoint (ip : string) (port : Z) : string := net_JoinHostPort ip (strconv_Itoa port).

Definition stableID (prefix : string) (parts : list string) : string :=
  prefix +:+ "-" +:+ hex_EncodeToString (take 16 (sha256_Sum256 (byt (strings_Join parts "|")))).

Definition eventTime (usec : Z) : string := if usec =? 0 then "" else format_RFC3339Nano (i64 usec).

Definition max64 (a b : Z) : Z := if b <? a then a else b.

(** ** Direction (direction.go) *)

Definition is_message (d : string) : bool := seqb d "request" || seqb d "response".

Definition PacketDirection (pf : PacketFeature) : DirectionAssessment :=
  let d := mkDirectionAssessment "unknown" "unknown" "unknown" "unknown" in
  if is_message (pf_MessageDirection pf) then
    let d := d <| da_MessageDirection := pf_MessageDirection pf |>
               <| da_DirectionSource := "protocol"%string |> <| da_DirectionConfidence := "high"%string |> in
    if seqb (pf_Proto pf) "tcp" && pf_TCPSYN pf && seqb (pf_HTTPMethod pf) "" && seqb (pf_SNI pf) ""
       && negb (bytes_HasPrefix (pf_Payload pf) (byt "HTTP/"))
    then d <| da_DirectionSource := "handshake"%string |> else d
  else d.

Definition src_endpoint (pf : PacketFeature) : string := endpoint (pf_SrcIP pf) (pf_SrcPort pf).
Definition dst_endpoint (pf : PacketFeature) : string := endpoint (pf_DstIP pf) (pf_DstPort pf).

Definition assessDirection (st : sessionState) (pf : PacketFeature) : sessionState * DirectionAssessment :=
  let d := PacketDirection pf in
  if negb (seqb (pf_Proto pf) "tcp") then (st, d) else
  let candidate :=
    if pf_TCPSYN pf then (if pf_TCPACK pf then dst_endpoint pf else src_endpoint pf)
    else if seqb (da_MessageDirection d) "request" then src_endpoint pf
    else if seqb (da_MessageDirection d) "response" then dst_endpoint pf
    else ""%string in
  let st :=
    if negb (seqb candidate "") then
      if seqb (sn_directionClient st) "" then st <| sn_directionClient := candidate |>
      else if negb (seqb (sn_directionClient st) candidate) then st <| sn_directionConflict := true |>
      else st
    else st in
  let d :=
    if negb (seqb (sn_directionClient st) "") && negb (sn_directionConflict st) then
      d <| da_TransportDirection := if seqb (src_endpoint pf) (sn_directionClient st)
                                    then "client_to_server"%string else "server_to_client"%string |>
    else d in
  (st, d).

Section http.
Context `{GoHTTP}.

(** The body length of a length-framed message whose head is [head], if the
    continuation of such a message may be inferred. *)
Definition request_length (head : bytes) : option Z :=
  msg ← http_ReadRequest head;
  if negb (bool_decide (hq_TransferEncoding msg = [])) || negb (seqb (hq_Upgrade msg) "")
     || seqb (hq_Method msg) "CONNECT"
  then None else Some (hq_ContentLength msg).
Definition response_length (head request_payload : bytes) : option Z :=
  let special :=
    match http_ReadRequest request_payload with
    | Some req => seqb (hq_Method req) "HEAD" || seqb (hq_Method req) "CONNECT" || negb (seqb (hq_Upgrade req) "")
    | None => false
    end in
  if special then None else
  msg ← http_ReadResponse head;
  if negb (bool_decide (hr_TransferEncoding msg = [])) || (hr_StatusCode msg =? 101)
  then None else Some (hr_ContentLength msg).

Definition inferHTTPContinuation (d : DirectionAssessment) (st : sessionState) (tx : transactionState)
    (pf : PacketFeature) : DirectionAssessment :=
  if (0 <? pf_CapturedLen pf) && (pf_CapturedLen pf <? pf_WireLen pf) then d else
  if negb (seqb (da_MessageDirection d) "unknown") || sn_directionConflict st
     || seqb (sn_directionClient st) "" || (len (pf_Payload pf) =? 0)
     || pf_TCPSYN pf || pf_TCPFIN pf || pf_TCPRST pf then d else
  let '(side, direction) :=
    if seqb (src_endpoint pf) (sn_directionClient st)
    then (tx_request tx, "request"%string) else (tx_response tx, "response"%string) in
  if negb (sd_seqSet side) || em_Truncated (sd_context side) || sd_limited side then d else
  match bytes_Index (sd_payload side) (CRLF ++ CRLF) with
  | None => d
  | Some headEnd =>
      let body := Z.of_nat headEnd + 4 in
      let head := take (headEnd + 4) (sd_payload side) in
      let length := if seqb direction "request" then request_length head
                    else response_length head (sd_payload (tx_request tx)) in
      match length with
      | None => d
      | Some length =>
          if length <=? 0 then d else
          let offset := i32 (pf_TCPSeq pf - sd_baseSeq side) in
          if (offset <? body) || (i64 (body + length) <? offset + len (pf_Payload pf)) then d else
          d <| da_MessageDirection := direction |> <| da_DirectionSource := "session"%string |>
            <| da_DirectionConfidence := "medium"%string |>
      end
  end.

Definition httpMessageComplete (payload : bytes) (response : bool) : bool :=
  if negb response then false else
  match http_ReadResponse payload with
  | None => false
  | Some msg =>
      if hr_StatusCode msg <? 200 then false
      else if (hr_ContentLength msg <? 0) && bool_decide (hr_TransferEncoding msg = []) then false
      else hr_BodyOK msg
  end.

Definition responseComplete (side : sideState) : bool :=
  negb (em_Truncated (sd_context side)) && negb (em_ReassemblyIncomplete (sd_context side))
  && httpMessageComplete (sd_payload side) true.

(** ** One direction of a transaction *)

Definition packet_index (pf : PacketFeature) (packetSequence : Z) (retransmission : bool) : RawMessageContext :=
  let wireLen := if pf_WireLen pf <? pf_CapturedLen pf then pf_CapturedLen pf else pf_WireLen pf in
  mkRawMessageContext (eventTime (pf_PacketTimeUsec pf)) (pf_PacketTimeUsec pf) packetSequence
    (hex_EncodeToString (pf_RawPacket pf)) (hex_EncodeToString (pf_Payload pf)) (PayloadText (pf_Payload pf))
    (pf_CapturedLen pf) wireLen ((0 <? pf_CapturedLen pf) && (pf_CapturedLen pf <? wireLen))
    (pf_TCPSeq pf) (pf_TCPAck pf) retransmission.

Definition appendSide (opts : Options) (side : sideState) (pf : PacketFeature) (packetSequence : Z)
    : option sideState :=
  let key := strconv_Itoa (pf_TCPSeq pf) +:+ ":" +:+ strconv_Itoa (len (pf_Payload pf)) in
  let retransmission := bool_decide (key ∈ sd_seen side) in
  let side := side <| sd_context ::= fun c =>
    c <| em_PacketCount := u64 (em_PacketCount c + 1) |>
      <| em_CapturedBytes := u64 (em_CapturedBytes c + pf_CapturedLen pf) |>
      <| em_WireBytes := u64 (em_WireBytes c + pf_WireLen pf) |>
      <| em_CaptureStartTimeUsec := if em_CaptureStartTimeUsec c =? 0 then pf_PacketTimeUsec pf
                                    else em_CaptureStartTimeUsec c |>
      <| em_CaptureEndTimeUsec := pf_PacketTimeUsec pf |>
      <| em_Truncated := em_Truncated c || ((0 <? pf_CapturedLen pf) && (pf_CapturedLen pf <? pf_WireLen pf)) |> |> in
  let side := if Z.of_nat (size (sd_seen side)) <? op_MaxPacketsPerTransaction opts
              then side <| sd_seen ::= fun seen => {[key]} ∪ seen |> else side in
  '(side, retransmission) ← (if 0 <? len (pf_Payload pf) then reassemble opts side pf
                             else Some (side, retransmission));
  let side := if retransmission : bool
              then side <| sd_context ::= fun c => c <| em_Retransmissions := u64 (em_Retransmissions c + 1) |> |>
              else side in
  Some (if op_StorePacketIndex opts && (len (em_Packets (sd_context side)) <? op_MaxPacketsPerTransaction opts)
        then side <| sd_context ::= fun c => c <| em_Packets := em_Packets c ++ [packet_index pf packetSequence retransmission] |> |>
        else if op_StorePacketIndex opts
        then side <| sd_context ::= fun c => c <| em_Truncated := true |> |>
        else side).

Definition snapshotSide (side : sideState) : ExchangeMessageContext :=
  (sd_context side) <| em_ReassembledHex := hex_EncodeToString (sd_payload side) |>
                    <| em_ReassembledText := PayloadText (sd_payload side) |>.

Definition exchange (tx : transactionState) : ExchangeContext :=
  let ex := mkExchangeContext None None "pending" in
  let ex := if 0 <? em_PacketCount (sd_context (tx_request tx))
            then ex <| ex_Request := Some (snapshotSide (tx_request tx)) |> else ex in
  if 0 <? em_PacketCount (sd_context (tx_response tx)) then
    let r := snapshotSide (tx_response tx) in
    let reason :=
      if em_Truncated r then "capture_or_evidence_truncated"%string
      else if em_ReassemblyIncomplete r then "tcp_gap_or_conflicting_overlap"%string
      else if negb (httpMessageComplete (sd_payload (tx_response tx)) true) then "application_framing_unverified"%string
      else "verified_http_framing"%string in
    ex <| ex_Response := Some (r <| em_CompletenessReason := reason |>) |>
       <| ex_ResponseStatus := if responseComplete (tx_response tx) then "complete"%string else "partial"%string |>
  else if tx_final tx then ex <| ex_ResponseStatus := "not_captured"%string |>
  else ex.
End http.

(** ** Sessions *)

Definition summary (st : sessionState) : SessionSummary :=
  let '(cp, sp, cw, sw) :=
    if seqb (sn_client st) (sn_endpointB st)
    then (sn_bPackets st, sn_aPackets st, sn_bWireBytes st, sn_aWireBytes st)
    else (sn_aPackets st, sn_bPackets st, sn_aWireBytes st, sn_bWireBytes st) in
  mkSessionSummary (sn_firstUsec st) (sn_lastUsec st) cp sp cw sw (sn_hitCount st) (sn_midstream st).

(** The older fields of an event that mirror the exchange. *)
Definition applyLegacyExchange (ev : ThreatEvent) (ex : option ExchangeContext) : ThreatEvent :=
  match ev_RawPacket ev, ex with
  | Some raw, Some ex =>
      let raw := match ex_Request ex with
                 | Some side => match head (em_Packets side) with
                                | Some p => raw <| rp_Request := Some p |> | None => raw end
                 | None => raw
                 end in
      let raw := match ex_Response ex with
                 | Some side => match head (em_Packets side) with
                                | Some p => raw <| rp_Response := Some p |> | None => raw end
                 | None => raw
                 end in
      ev <| ev_RawPacket := Some raw |>
  | _, _ => ev
  end.

(** The copies exist because events share pointers; on values they are the
    identity. *)
Definition cloneExchange (ex : option ExchangeContext) : option ExchangeContext := ex.
Definition cloneSummary (s : option SessionSummary) : option SessionSummary := s.
Definition cloneEvent (ev : ThreatEvent) : ThreatEvent :=
  ev <| ev_Exchange := cloneExchange (ev_Exchange ev) |> <| ev_SessionSummary := cloneSummary (ev_SessionSummary ev) |>.

Definition by_id (a b : ThreatEvent) : Prop := sle (ev_EventID a) (ev_EventID b).
#[global] Instance by_id_dec : RelDecision by_id.
Proof. intros a b. unfold by_id. apply _. Defined.

(** [t.sessions] keyed by both endpoints in order, and whether the source is
    the first of them. *)
Definition canonicalKey `{GoUnicode} (pf : PacketFeature) : string * string * string * bool :=
  let a := src_endpoint pf in
  let b := dst_endpoint pf in
  let '(a, b, sourceIsA) := if sltb b a then (b, a, false) else (a, b, true) in
  (strings_ToLower (pf_Proto pf) +:+ "|" +:+ a +:+ "|" +:+ b, a, b, sourceIsA).

(** A duration in microseconds as uint64. *)
Definition usec_of (d : Z) : Z := u64 (d / 1000).

Section tracker.
Context `{GoUnicode} `{GoHTTP} `{RangeOrder}.

Definition revise_event (tx : transactionState) (st : sessionState) (stored : ThreatEvent) : ThreatEvent :=
  let stored := cloneEvent stored in
  let stored := stored <| ev_ContextRevision := u64 (ev_ContextRevision stored + 1) |>
                       <| ev_ContextFinal := tx_final tx |>
                       <| ev_Exchange := Some (exchange tx) |>
                       <| ev_SessionSummary := Some (summary st) |> in
  applyLegacyExchange stored (ev_Exchange stored).

Definition reviseTransaction (opts : Options) (st : sessionState) (tx : transactionState)
    : transactionState * list ThreatEvent :=
  if Z.of_nat (size (tx_events tx)) =? 0 then (tx, []) else
  if negb (tx_final tx) && negb (tx_lastReviseUsec tx =? 0)
     && (u64 (tx_lastUsec tx - tx_lastReviseUsec tx) <? usec_of (op_RevisionInterval opts))
  then (tx, []) else
  let tx := tx <| tx_lastReviseUsec := tx_lastUsec tx |> in
  let '(events, updates) :=
    foldl (fun '(events, updates) '(id, stored) =>
      let stored := revise_event tx st stored in
      (<[id := cloneEvent stored]> events, updates ++ [stored]))
      (tx_events tx, []) (range_map (tx_events tx)) in
  (tx <| tx_events := events |>, merge_sort by_id updates).

(** The loop over the transactions that marks them final and revises them,
    those that [p] selects. *)
Definition finalize_where (p : transactionState -> bool) (opts : Options) (st : sessionState)
    : sessionState * list ThreatEvent :=
  let '(txs, updates) :=
    foldl (fun '(txs, updates) tx =>
      if p tx then
        let '(tx, ups) := reviseTransaction opts st (tx <| tx_final := true |>) in (txs ++ [tx], updates ++ ups)
      else (txs ++ [tx], updates))
      ([], []) (sn_transactions st) in
  (st <| sn_transactions := txs |>, updates).

Definition finalizeSession (opts : Options) (st : sessionState) : sessionState * list ThreatEvent :=
  finalize_where (fun _ => true) opts st.

(** A transaction that waited long enough for its response. *)
Definition overdue (nowUsec waitUsec : Z) (tx : transactionState) : bool :=
  negb (tx_final tx) && (tx_lastUsec tx <=? nowUsec) && (waitUsec <=? nowUsec - tx_lastUsec tx).

Definition cleanupLocked (t : Tracker) (nowUsec : Z) : Tracker * list ThreatEvent :=
  if nowUsec =? 0 then (t, []) else
  if negb (tk_lastCleanup t =? 0) && (tk_lastCleanup t <=? nowUsec) && (nowUsec - tk_lastCleanup t <? 1000000)
  then (t, []) else
  let t := t <| tk_lastCleanup := nowUsec |> in
  let opts := tk_opts t in
  let waitUsec := usec_of (op_ResponseWait opts) in
  let idleUsec := usec_of (op_SessionIdleTimeout opts) in
  foldl (fun '(t, updates) '(key, st) =>
    let '(st, ups) := finalize_where (overdue nowUsec waitUsec) opts st in
    let updates := updates ++ ups in
    if (sn_lastUsec st <=? nowUsec) && (idleUsec <=? nowUsec - sn_lastUsec st) then
      (t <| tk_sessions ::= delete key |>, updates ++ (finalizeSession opts st).2)
    else (t <| tk_sessions ::= <[key := st]> |>, updates))
    (t, []) (range_map (tk_sessions t)).

Definition oldestSession (t : Tracker) : option (string * sessionState) :=
  foldl (fun oldest '(key, st) =>
    match oldest with
    | None => Some (key, st)
    | Some (_, o) => if sn_lastUsec st <? sn_lastUsec o then Some (key, st) else oldest
    end) None (range_map (tk_sessions t)).

(** ** Transactions *)

Fixpoint first_index (p : transactionState -> bool) (txs : list transactionState) : option nat :=
  match txs with
  | [] => None
  | tx :: r => if p tx then Some 0%nat else S <$> first_index p r
  end.

(** The transaction that makes room: the first final one, else the first. *)
Definition evicted_index (txs : list transactionState) : nat := default 0%nat (first_index tx_final txs).

Definition newTransaction (opts : Options) (st : sessionState) (usec : Z) : sessionState * nat :=
  let txs := sn_transactions st in
  let txs := if op_MaxTransactionsPerSession opts <=? len txs
             then take (evicted_index txs) txs ++ drop (S (evicted_index txs)) txs else txs in
  let st := st <| sn_transactions := txs |> <| sn_nextTxn := u64 (sn_nextTxn st + 1) |> in
  let tx := mkTransactionState (stableID "txn" [sn_id st; strconv_Itoa (sn_nextTxn st)])
              usec 0 zero_sideState zero_sideState ∅ false in
  (st <| sn_transactions := txs ++ [tx] |>, length txs).

Definition responseTransaction (opts : Options) (st : sessionState) (usec : Z) : sessionState * nat :=
  match first_index (fun tx => negb (tx_final tx)) (sn_transactions st) with
  | Some i => (st, i)
  | None => newTransaction opts st usec
  end.

Definition last_index (p : transactionState -> bool) (txs : list transactionState) : option nat :=
  (fun i => length txs - 1 - i)%nat <$> first_index p (rev txs).

Definition continuationTransaction (st : sessionState) (source : string) : option nat :=
  if negb (seqb (sn_client st) "") && seqb source (sn_client st)
  then last_index (fun tx => negb (tx_final tx) && (em_PacketCount (sd_context (tx_response tx)) =? 0))
         (sn_transactions st)
  else first_index (fun tx => negb (tx_final tx)) (sn_transactions st).

(** Apply a step to the transaction at a position. *)
Definition with_tx (st : sessionState) (i : nat) (f : transactionState -> option transactionState) : option sessionState :=
  tx ← sn_transactions st !! i;
  tx' ← f tx;
  Some (st <| sn_transactions ::= <[i := tx']> |>).

Definition append_request (opts : Options) (pf : PacketFeature) (packetSequence : Z) (tx : transactionState)
    : option transactionState :=
  side ← appendSide opts (tx_request tx) pf packetSequence;
  Some (tx <| tx_request := side |>).
Definition append_response (opts : Options) (pf : PacketFeature) (packetSequence : Z) (tx : transactionState)
    : option transactionState :=
  side ← appendSide opts (tx_response tx) pf packetSequence;
  let tx := tx <| tx_response := side |> in
  Some (if responseComplete side then tx <| tx_final := true |> else tx).

(** The switch of Observe: which transaction the packet belongs to. *)
Definition observe_tx (opts : Options) (st : sessionState) (pf : PacketFeature) (packetSequence : Z)
    (direction : DirectionAssessment) : option (sessionState * option nat * DirectionAssessment) :=
  let source := src_endpoint pf in
  let tcp := seqb (pf_Proto pf) "tcp" in
  if tcp && seqb (pf_MessageDirection pf) "request" then
    let st := st <| sn_client := source |> in
    let '(st, i) := newTransaction opts st (pf_PacketTimeUsec pf) in
    st ← with_tx st i (append_request opts pf packetSequence);
    Some (st, Some i, direction)
  else if tcp && seqb (pf_MessageDirection pf) "response" then
    let st := if seqb (sn_client st) "" then st <| sn_client := dst_endpoint pf |> else st in
    let '(st, i) := responseTransaction opts st (pf_PacketTimeUsec pf) in
    st ← with_tx st i (append_response opts pf packetSequence);
    Some (st, Some i, direction)
  else if tcp && (0 <? len (pf_Payload pf)) then
    match continuationTransaction st source with
    | None => Some (st, None, direction)
    | Some i =>
        tx ← sn_transactions st !! i;
        let direction := inferHTTPContinuation direction st tx pf in
        st ← with_tx st i
          (if negb (seqb (sn_client st) "") && seqb source (sn_client st)
              && (em_PacketCount (sd_context (tx_response tx)) =? 0)
           then append_request opts pf packetSequence else append_response opts pf packetSequence);
        Some (st, Some i, direction)
    end
  else Some (st, None, direction).

(** Revise the transaction at a position. *)
Definition revise_at (opts : Options) (st : sessionState) (i : nat) : option (sessionState * list ThreatEvent) :=
  tx ← sn_transactions st !! i;
  let '(tx, ups) := reviseTransaction opts st tx in
  Some (st <| sn_transactions ::= <[i := tx]> |>, ups).

(** The composite literal of a new session. *)
Definition new_session (key endpointA endpointB : string) (pf : PacketFeature) (opening : bool) : sessionState :=
  mkSessionState key (stableID "ses" [key; strconv_Itoa (pf_PacketTimeUsec pf)])
    (pf_PacketTimeUsec pf) (pf_PacketTimeUsec pf) endpointA endpointB
    (if opening then src_endpoint pf else "") "" false (negb opening) 0 0 0 0 0 0 [].

(** [pf.Proto == "tcp" && pf.TCPSYN && !pf.TCPACK] *)
Definition opening (pf : PacketFeature) : bool :=
  seqb (pf_Proto pf) "tcp" && pf_TCPSYN pf && negb (pf_TCPACK pf).

(** Make room for one more session by finalizing the oldest. *)
Definition make_room (t : Tracker) : Tracker * list ThreatEvent :=
  if op_MaxSessions (tk_opts t) <=? Z.of_nat (size (tk_sessions t)) then
    match oldestSession t with
    | Some (oldestKey, oldest) =>
        (t <| tk_sessions ::= delete oldestKey |>, (finalizeSession (tk_opts t) oldest).2)
    | None => (t, [])
    end
  else (t, []).

(** The first part of Observe: the session of the packet, after the cleanup,
    a restart of the connection, or the creation of a session.  A session that
    was found is still in the tracker; a new one is not yet. *)
Definition obtain_session (t : Tracker) (pf : PacketFeature) : Tracker * sessionState * list ThreatEvent :=
  let '(t, updates) := cleanupLocked t (pf_PacketTimeUsec pf) in
  let '(key, endpointA, endpointB, _) := canonicalKey pf in
  let '(t, found, updates) :=
    match tk_sessions t !! key with
    | Some st => if opening pf
                 then (t <| tk_sessions ::= delete key |>, None, updates ++ (finalizeSession (tk_opts t) st).2)
                 else (t, Some st, updates)
    | None => (t, None, updates)
    end in
  match found with
  | Some st => (t, st, updates)
  | None =>
      let '(t, ups) := make_room t in
      (t, new_session key endpointA endpointB pf (opening pf), updates ++ ups)
  end.

(** The packet counters of the session. *)
Definition account (st : sessionState) (pf : PacketFeature) (sourceIsA : bool) : sessionState :=
  if sourceIsA
  then st <| sn_aPackets := u64 (sn_aPackets st + 1) |>
          <| sn_aWireBytes := u64 (sn_aWireBytes st + pf_WireLen pf) |>
  else st <| sn_bPackets := u64 (sn_bPackets st + 1) |>
          <| sn_bWireBytes := u64 (sn_bWireBytes st + pf_WireLen pf) |>.

(** The revisions the packet makes possible. *)
Definition revise_after (opts : Options) (st : sessionState) (pf : PacketFeature) (tx : option nat)
    : option (sessionState * list ThreatEvent) :=
  if seqb (pf_Proto pf) "tcp" && (pf_TCPFIN pf || pf_TCPRST pf)
  then Some (finalize_where (fun _ => true) opts st)
  else match tx with
       | Some i =>
           st ← with_tx st i (fun tx => Some (tx <| tx_lastUsec := pf_PacketTimeUsec pf |>));
           revise_at opts st i
       | None => Some (st, [])
       end.

Definition Observe (t : Tracker) (pf : PacketFeature) (packetSequence : Z) : option (Tracker * Observation) :=
  let opts := tk_opts t in
  let '(key, _, _, sourceIsA) := canonicalKey pf in
  let '(t, st, updates) := obtain_session t pf in
  let st := st <| sn_lastUsec := max64 (sn_lastUsec st) (pf_PacketTimeUsec pf) |> in
  let '(st, direction) := assessDirection st pf in
  let st := account st pf sourceIsA in
  '(st, tx, direction) ← observe_tx opts st pf packetSequence direction;
  '(st, ups) ← revise_after opts st pf tx;
  let the_tx := i ← tx; sn_transactions st !! i in
  let obs := mkObservation direction (sn_id st)
    (default "" (tx_id <$> the_tx)) (exchange <$> the_tx) (Some (summary st))
    (default false (tx_final <$> the_tx)) (updates ++ ups) in
  Some (t <| tk_sessions ::= <[key := st]> |>, obs).

(** The session with an identifier, and the position of the transaction. *)
Definition findTransaction (t : Tracker) (sessionID transactionID : string) : option (string * sessionState * option nat) :=
  match filter (fun p => sn_id p.2 = sessionID) (range_map (tk_sessions t)) with
  | [] => None
  | (key, st) :: _ =>
      Some (key, st, if seqb transactionID "" then None
                     else first_index (fun tx => seqb (tx_id tx) transactionID) (sn_transactions st))
  end.

Definition Register (t : Tracker) (obs : Observation) (ev : ThreatEvent) : Tracker * ThreatEvent :=
  let ev := ev <| ev_SessionID := ob_SessionID obs |> <| ev_TransactionID := ob_TransactionID obs |>
               <| ev_ContextRevision := 1 |> <| ev_ContextFinal := ob_ContextFinal obs |>
               <| ev_Exchange := cloneExchange (ob_Exchange obs) |>
               <| ev_SessionSummary := cloneSummary (ob_SessionSummary obs) |> in
  match findTransaction t (ob_SessionID obs) (ob_TransactionID obs) with
  | None => (t, ev)
  | Some (key, st, otx) =>
      let st := st <| sn_hitCount := u64 (sn_hitCount st + 1) |> in
      let ev := ev <| ev_SessionSummary := Some (summary st) |> in
      match otx with
      | None => (t <| tk_sessions ::= <[key := st]> |>, ev)
      | Some i =>
          let ev := applyLegacyExchange ev (ev_Exchange ev) in
          let st := st <| sn_transactions ::= alter (fun tx => tx <| tx_events ::= <[ev_EventID ev := cloneEvent ev]> |>) i |> in
          (t <| tk_sessions ::= <[key := st]> |>, ev)
      end
  end.

Definition Flush (t : Tracker) : Tracker * list ThreatEvent :=
  foldl (fun '(t, updates) '(key, st) =>
    (t <| tk_sessions ::= delete key |>, updates ++ (finalizeSession (tk_opts t) st).2))
    (t, []) (range_map (tk_sessions t)).
End tracker.

(** ** Revisions *)

Section revisions.
Context `{GoUnicode} `{GoHTTP} `{RangeOrder}.

(** What a revision changes of an event: never its identifier. *)
Lemma revise_event_fields tx st ev :
  ev_EventID (revise_event tx st ev) = ev_EventID ev
  /\ ev_ContextRevision (revise_event tx st ev) = u64 (ev_ContextRevision ev + 1)
  /\ ev_ContextFinal (revise_event tx st ev) = tx_final tx.
Proof.
  unfold revise_event, applyLegacyExchange. cbv zeta. simpl.
  by destruct (ev_RawPacket ev).
Qed.

(** The transaction is revised now: it has events, and is final, or has not
    been revised yet, or the interval has passed. *)
Definition revises (opts : Options) (tx : transactionState) : bool :=
  negb (Z.of_nat (size (tx_events tx)) =? 0)
  && negb (negb (tx_final tx) && negb (tx_lastReviseUsec tx =? 0)
           && (u64 (tx_lastUsec tx - tx_lastReviseUsec tx) <? usec_of (op_RevisionInterval opts))).

Lemma revise_fold tx st (l : list (string * ThreatEvent)) (m : gmap string ThreatEvent) ups :
  foldl (fun '(events, updates) '(id, stored) =>
      let stored := revise_event tx st stored in
      (<[id := cloneEvent stored]> events, updates ++ [stored])) (m, ups) l
  = (foldl (fun m p => <[p.1 := cloneEvent (revise_event tx st p.2)]> m) m l,
     ups ++ ((fun p => revise_event tx st p.2) <$> l)).
Proof.
  revert m ups; induction l as [|[id ev] l IH]; intros m ups; simpl; [by rewrite app_nil_r|].
  rewrite IH. by rewrite <-app_assoc.
Qed.

Lemma cloneEvent_id ev : cloneEvent ev = ev.
Proof. by destruct ev. Qed.

Lemma revise_map tx st (m : gmap string ThreatEvent) :
  foldl (fun m p => <[p.1 := cloneEvent (revise_event tx st p.2)]> m) m (range_map m)
  = revise_event tx st <$> m.
Proof.
  set (g := revise_event tx st).
  assert (forall k, (k ∈ (range_map m).*1 -> foldl (fun m p => <[p.1 := cloneEvent (g p.2)]> m) m (range_map m) !! k = g <$> m !! k)
    /\ (k ∉ (range_map m).*1 -> foldl (fun m p => <[p.1 := cloneEvent (g p.2)]> m) m (range_map m) !! k = m !! k)) as Hk.
  { intros k. apply (foldl_prefix_ind (fun (pre : list (string * ThreatEvent)) (acc : gmap string ThreatEvent) =>
      (k ∈ pre.*1 -> acc !! k = g <$> m !! k) /\ (k ∉ pre.*1 -> acc !! k = m !! k))).
    { split; [by intros ?%not_elem_of_nil|done]. }
    intros pre [id ev] post acc Hs [H1' H2']. rewrite fmap_app. change ([(id, ev)].*1) with [id].
    rewrite elem_of_app, list_elem_of_singleton. cbn [fst snd]. rewrite cloneEvent_id. destruct (decide (k = id)) as [->|Hne].
    - assert (m !! id = Some ev) as Hm.
      { apply elem_of_range. rewrite Hs. apply elem_of_app. right. left. }
      rewrite lookup_insert_eq, Hm. split; [done|tauto].
    - rewrite lookup_insert_ne by done. split; [intros [?|?]; [auto|done]|intros; apply H2'; tauto]. }
  apply map_eq. intros k. rewrite lookup_fmap. destruct (Hk k) as [Hin Hout].
  destruct (decide (k ∈ (range_map m).*1)) as [Hd|Hd]; [by apply Hin|]. rewrite (Hout Hd).
  destruct (m !! k) as [ev|] eqn:E; [|done]. exfalso. apply Hd, list_elem_of_fmap. exists (k, ev).
  split; [done|]. by apply elem_of_range.
Qed.

Lemma reviseTransaction_spec opts st tx :
  reviseTransaction opts st tx
  = if revises opts tx then
      let tx1 := tx <| tx_lastReviseUsec := tx_lastUsec tx |> in
      (tx1 <| tx_events := revise_event tx1 st <$> tx_events tx |>,
       merge_sort by_id ((fun p => revise_event tx1 st p.2) <$> range_map (tx_events tx)))
    else (tx, []).
Proof.
  unfold reviseTransaction, revises. destruct (Z.of_nat (size (tx_events tx)) =? 0); simpl; [done|].
  destruct (negb (tx_final tx) && _ && _); simpl; [done|].
  rewrite revise_fold. simpl. by rewrite revise_map.
Qed.

(** What reviseTransaction leaves alone. *)
Lemma reviseTransaction_frame opts st tx :
  let tx' := (reviseTransaction opts st tx).1 in
  tx_id tx' = tx_id tx /\ tx_request tx' = tx_request tx /\ tx_response tx' = tx_response tx
  /\ tx_final tx' = tx_final tx /\ tx_lastUsec tx' = tx_lastUsec tx.
Proof. rewrite reviseTransaction_spec. by destruct (revises opts tx). Qed.

Lemma elem_of_revise_updates opts st tx u :
  u ∈ (reviseTransaction opts st tx).2 <->
  revises opts tx = true /\ exists id ev, tx_events tx !! id = Some ev
    /\ u = revise_event (tx <| tx_lastReviseUsec := tx_lastUsec tx |>) st ev.
Proof.
  rewrite reviseTransaction_spec. destruct (revises opts tx); simpl.
  - rewrite merge_sort_Permutation, list_elem_of_fmap. split.
    + intros ([id ev] & -> & Hin%elem_of_range). simpl. eauto.
    + intros (_ & id & ev & Hev & ->). exists (id, ev). split; [done|]. by apply elem_of_range.
  - split; [by intros ?%not_elem_of_nil|naive_solver].
Qed.

Lemma revises_final opts tx id ev :
  tx_final tx = true -> tx_events tx !! id = Some ev -> revises opts tx = true.
Proof.
  intros Hf He. unfold revises. rewrite Hf. simpl. rewrite andb_true_r. apply negb_true_iff, Z.eqb_neq.
  intros E. assert (size (tx_events tx) = 0%nat) as E' by lia. apply map_size_empty_inv in E'.
  rewrite E', lookup_empty in He. done.
Qed.

(** The loop of finalize_where, transaction by transaction. *)
Definition finalized (p : transactionState -> bool) (opts : Options) (st : sessionState) (tx : transactionState)
    : transactionState * list ThreatEvent :=
  if p tx then reviseTransaction opts st (tx <| tx_final := true |>) else (tx, []).

Lemma finalize_where_spec p opts st :
  finalize_where p opts st
  = (st <| sn_transactions := fst ∘ finalized p opts st <$> sn_transactions st |>,
     concat (snd ∘ finalized p opts st <$> sn_transactions st)).
Proof.
  unfold finalize_where.
  assert (forall txs a b, foldl (fun '(txs, updates) tx =>
      if p tx then
        let '(tx, ups) := reviseTransaction opts st (tx <| tx_final := true |>) in (txs ++ [tx], updates ++ ups)
      else (txs ++ [tx], updates)) (a, b) txs
    = (a ++ (fst ∘ finalized p opts st <$> txs), b ++ concat (snd ∘ finalized p opts st <$> txs))) as Hf.
  { induction txs as [|tx txs IH]; intros a b; simpl; [by rewrite !app_nil_r|].
    unfold finalized at 1 3. simpl. destruct (p tx); simpl; [|by rewrite IH, <-app_assoc].
    destruct (reviseTransaction _ _ _) as [tx' ups]. rewrite IH. by rewrite <-!app_assoc. }
  by rewrite Hf.
Qed.
End revisions.

(** ** Finalization *)

(** A final revision of an event: the same event, marked final, with a later
    revision number. *)
Definition final_revision (ev u : ThreatEvent) : Prop :=
  ev_EventID u = ev_EventID ev /\ ev_ContextFinal u = true
  /\ ev_ContextRevision u = u64 (ev_ContextRevision ev + 1).

(** An event held by a session. *)
Definition pending (st : sessionState) (ev : ThreatEvent) : Prop :=
  exists tx id, tx ∈ sn_transactions st /\ tx_events tx !! id = Some ev.

Section finalization.
Context `{GoUnicode} `{GoHTTP} `{RangeOrder}.

(** finalizeSession emits one final revision per pending event and no other. *)
Lemma finalizeSession_final opts st :
  (forall ev, pending st ev -> exists u, u ∈ (finalizeSession opts st).2 /\ final_revision ev u)
  /\ (forall u, u ∈ (finalizeSession opts st).2 -> exists ev, pending st ev /\ final_revision ev u).
Proof.
  unfold finalizeSession. rewrite finalize_where_spec. simpl. split.
  - intros ev (tx & id & Htx & Hev). set (tx1 := tx <| tx_final := true |>).
    exists (revise_event (tx1 <| tx_lastReviseUsec := tx_lastUsec tx1 |>) st ev). split.
    + apply elem_of_concat. exists (finalized (fun _ => true) opts st tx).2. split.
      * apply list_elem_of_fmap. eauto.
      * unfold finalized. apply elem_of_revise_updates. split; [by eapply revises_final|]. eauto.
    + split; [apply revise_event_fields|]. split; [|apply revise_event_fields].
      etrans; [apply revise_event_fields|done].
  - intros u (l & (tx & -> & Htx)%list_elem_of_fmap & Hu)%elem_of_concat. unfold finalized in Hu. simpl in Hu.
    apply elem_of_revise_updates in Hu as (_ & id & ev & Hev & ->).
    exists ev. split; [by exists tx, id|].
    split; [apply revise_event_fields|]. split; [|apply revise_event_fields].
    etrans; [apply revise_event_fields|done].
Qed.

Lemma Flush_spec t :
  Flush t = (t <| tk_sessions := ∅ |>,
             concat ((fun p => (finalizeSession (tk_opts t) p.2).2) <$> range_map (tk_sessions t))).
Proof.
  unfold Flush.
  assert (forall l m ups, foldl (fun '(t, updates) '(key, st) =>
      (t <| tk_sessions ::= delete key |>, updates ++ (finalizeSession (tk_opts t) st).2))
      (t <| tk_sessions := m |>, ups) l
    = (t <| tk_sessions := foldl (fun m p => delete p.1 m) m l |>,
       ups ++ concat ((fun p => (finalizeSession (tk_opts t) p.2).2) <$> l))) as Hf.
  { induction l as [|[k st] l IH]; intros m ups; simpl; [by rewrite app_nil_r|].
    etrans; [apply (IH (delete k m))|]. by rewrite <-app_assoc. }
  replace t with (t <| tk_sessions := tk_sessions t |>) at 1 by (by destruct t).
  rewrite Hf. simpl. f_equal. f_equal. apply map_eq. intros k. rewrite lookup_empty.
  assert (forall m : gmap string sessionState, foldl (fun m p => delete p.1 m) m (range_map (tk_sessions t)) !! k = None
    \/ (k ∉ (range_map (tk_sessions t)).*1
        /\ foldl (fun m p => delete p.1 m) m (range_map (tk_sessions t)) !! k = m !! k)) as Hd.
  { intros m. apply (foldl_prefix_ind (fun (pre : list (string * sessionState)) (acc : gmap string sessionState) =>
      acc !! k = None \/ (k ∉ pre.*1 /\ acc !! k = m !! k))).
    { right. split; [apply not_elem_of_nil|done]. }
    intros pre [k' st] post acc _ IH. simpl. destruct (decide (k = k')) as [->|Hne].
    - left. apply lookup_delete_eq.
    - rewrite lookup_delete_ne by done. destruct IH as [?|[Hn Hs]]; [by left|]. right. split; [|done].
      rewrite fmap_app, elem_of_app. change ([(k', st)].*1) with [k']. rewrite list_elem_of_singleton. tauto. }
  destruct (Hd (tk_sessions t)) as [?|[Hn ->]]; [done|].
  destruct (tk_sessions t !! k) as [st|] eqn:E; [|done]. exfalso. apply Hn, list_elem_of_fmap.
  exists (k, st). split; [done|]. by apply elem_of_range.
Qed.
End finalization.

(** Nothing is left pending at shutdown: Flush empties the tracker and
    emits, for every event held by any transaction of any session, its next
    revision marked final, and emits nothing else. *)
Theorem Flush_finalizes `{GoUnicode} `{GoHTTP} (O : RangeOrder) t t' ups :
  Flush t = (t', ups) ->
  tk_sessions t' = ∅
  /\ (forall key st ev, tk_sessions t !! key = Some st -> pending st ev ->
       exists u, u ∈ ups /\ final_revision ev u)
  /\ (forall u, u ∈ ups -> exists key st ev, tk_sessions t !! key = Some st /\ pending st ev /\ final_revision ev u).
Proof.
  rewrite Flush_spec. intros [= <- <-]. split; [done|]. split.
  - intros key st ev Hst Hp. destruct (proj1 (finalizeSession_final (tk_opts t) st) ev Hp) as (u & Hu & Hf).
    exists u. split; [|done]. apply elem_of_concat. eexists. split; [|exact Hu].
    apply list_elem_of_fmap. exists (key, st). split; [done|]. by apply elem_of_range.
  - intros u (l & ([key st] & -> & Hin%elem_of_range)%list_elem_of_fmap & Hu)%elem_of_concat.
    destruct (proj2 (finalizeSession_final (tk_opts t) st) u Hu) as (ev & Hp & Hf). eauto 6.
Qed.

(** ** Bounds *)

Definition side_inv (opts : Options) (side : sideState) : Prop :=
  side_ok opts side /\ Z.of_nat (size (sd_seen side)) <= op_MaxPacketsPerTransaction opts
  /\ len (em_Packets (sd_context side)) <= op_MaxPacketsPerTransaction opts.
Definition tx_ok (opts : Options) (tx : transactionState) : Prop :=
  side_inv opts (tx_request tx) /\ side_inv opts (tx_response tx).
Definition session_ok (opts : Options) (st : sessionState) : Prop :=
  len (sn_transactions st) <= op_MaxTransactionsPerSession opts /\ Forall (tx_ok opts) (sn_transactions st).
Definition opts_ok (opts : Options) : Prop :=
  0 < op_MaxSessions opts /\ 0 < op_MaxTransactionsPerSession opts /\ 0 < op_MaxPacketsPerTransaction opts
  /\ 0 < op_MaxReassemblyBytesPerSide opts.
Definition tracker_ok (t : Tracker) : Prop :=
  opts_ok (tk_opts t) /\ Z.of_nat (size (tk_sessions t)) <= op_MaxSessions (tk_opts t)
  /\ map_Forall (fun _ => session_ok (tk_opts t)) (tk_sessions t).

Section bounds.
Context `{GoUnicode} `{GoHTTP} `{RangeOrder}.

Lemma side_inv_zero opts : opts_ok opts -> side_inv opts zero_sideState.
Proof.
  intros (_ & _ & Hp & Hr). split; [apply side_ok_zero; lia|]. split; [|unfold len; simpl; lia].
  change (sd_seen zero_sideState) with (∅ : gset string). rewrite size_empty. lia.
Qed.

(** A step that changes neither the window nor the bookkeeping. *)
Lemma side_inv_context opts side f :
  em_Packets (f (sd_context side)) = em_Packets (sd_context side) ->
  side_inv opts side -> side_inv opts (side <| sd_context ::= f |>).
Proof. intros Hf ([? ? ?] & ? & ?). split; [by constructor|]. split; [done|]. simpl. by rewrite Hf. Qed.

Lemma appendSide_ok opts side pf n :
  opts_ok opts -> side_inv opts side -> exists side', appendSide opts side pf n = Some side' /\ side_inv opts side'.
Proof.
  intros Hopts Hs. unfold appendSide. cbv zeta.
  set (side1 := side <| sd_context ::= _ |>).
  assert (side_inv opts side1) as H1' by (by apply side_inv_context).
  clearbody side1. set (key := _ +:+ _). set (retr := bool_decide (key ∈ sd_seen side)).
  set (side2 := if _ <? op_MaxPacketsPerTransaction opts then _ else side1).
  assert (side_inv opts side2) as H2'.
  { unfold side2. case_if; [|done]. destruct H1' as ([? ? ?] & Hseen & ?). split; [by constructor|]. split; [|done]. simpl.
    destruct (decide (key ∈ sd_seen side1)) as [Hin|Hin].
    - by replace ({[key]} ∪ sd_seen side1) with (sd_seen side1) by set_solver.
    - rewrite size_union, size_singleton by set_solver. lia. }
  clearbody side2.
  assert (exists side3 r, (if 0 <? len (pf_Payload pf) then reassemble opts side2 pf else Some (side2, retr))
    = Some (side3, r) /\ side_inv opts side3) as (side3 & r & -> & H3').
  { case_if; [|eauto]. destruct H2' as (Hok & Hseen & Hpk).
    destruct (reassemble_outcome opts side2 pf Hok) as (side3 & r & Hr & Hout).
    exists side3, r. split; [done|]. destruct (reassemble_frame _ _ _ _ _ Hr) as [E1 E2].
    split; [by eapply outcome_ok|]. by rewrite E1, E2. }
  cbn [mbind option_bind].
  set (side4 := if r then _ else side3).
  assert (side_inv opts side4) as H4' by (unfold side4; destruct r; [by apply side_inv_context|done]).
  clearbody side4. eexists. split; [reflexivity|].
  case_if.
  - destruct H4' as ([? ? ?] & ? & ?). split; [by constructor|]. split; [done|]. simpl. rewrite len_app.
    change (len [_]) with 1. lia.
  - case_if; [by apply side_inv_context|done].
Qed.

Lemma tx_ok_revise opts st tx : tx_ok opts tx -> tx_ok opts (reviseTransaction opts st tx).1.
Proof. destruct (reviseTransaction_frame opts st tx) as (_ & E1 & E2 & _). unfold tx_ok. by rewrite E1, E2. Qed.

Lemma finalize_where_ok p opts st :
  session_ok opts st -> session_ok opts (finalize_where p opts st).1.
Proof.
  intros [Hl Hf]. rewrite finalize_where_spec. split; simpl.
  - unfold len in *. by rewrite length_fmap.
  - apply Forall_fmap. eapply Forall_impl; [exact Hf|]. intros tx Htx. simpl. unfold finalized.
    destruct (p tx); [|done]. by apply tx_ok_revise.
Qed.

Lemma first_index_lt p txs i : first_index p txs = Some i -> (i < length txs)%nat.
Proof.
  revert i; induction txs as [|tx txs IH]; intros i; simpl; [done|]. destruct (p tx); [intros [= <-]; lia|].
  destruct (first_index p txs) as [j|]; simpl; [|done]. intros [= <-]. specialize (IH j eq_refl). lia.
Qed.
Lemma last_index_lt p txs i : last_index p txs = Some i -> (i < length txs)%nat.
Proof.
  unfold last_index. destruct (first_index p (rev txs)) as [j|] eqn:E; simpl; [|done].
  apply first_index_lt in E. rewrite length_rev in E. intros [= <-]. lia.
Qed.
Lemma evicted_index_lt txs : txs <> [] -> (evicted_index txs < length txs)%nat.
Proof.
  intros Hne. unfold evicted_index. destruct (first_index tx_final txs) as [i|] eqn:E; simpl.
  - by apply first_index_lt in E.
  - destruct txs; [done|]. simpl. lia.
Qed.

Lemma newTransaction_ok opts st usec st' i :
  opts_ok opts -> session_ok opts st -> newTransaction opts st usec = (st', i) ->
  session_ok opts st' /\ (i < length (sn_transactions st'))%nat.
Proof.
  intros Hopts [Hl Hf]. unfold newTransaction. set (txs := if _ <=? len _ then _ else _).
  assert (len txs < op_MaxTransactionsPerSession opts /\ Forall (tx_ok opts) txs) as [Hl' Hf'].
  { destruct Hopts as (_ & Hm & _). unfold txs. case_if; [|split; [lia|done]].
    assert (sn_transactions st <> []) as Hne by (intros E; rewrite E in *; unfold len in *; simpl in *; lia).
    pose proof (evicted_index_lt _ Hne). split.
    - unfold len in *. rewrite length_app, length_take, length_drop. lia.
    - apply Forall_app. split; [by apply Forall_take|by apply Forall_drop]. }
  intros [= <- <-]. split; [split|].
  - simpl. rewrite len_app. change (len [_]) with 1. lia.
  - simpl. apply Forall_app. split; [done|]. constructor; [|done]. split; by apply side_inv_zero.
  - simpl. rewrite length_app. simpl. lia.
Qed.

Lemma responseTransaction_ok opts st usec st' i :
  opts_ok opts -> session_ok opts st -> responseTransaction opts st usec = (st', i) ->
  session_ok opts st' /\ (i < length (sn_transactions st'))%nat.
Proof.
  intros Hopts Hok. unfold responseTransaction. destruct (first_index _ _) as [j|] eqn:E.
  - intros [= <- <-]. split; [done|]. by apply first_index_lt in E.
  - by apply newTransaction_ok.
Qed.

Lemma continuationTransaction_lt st source i :
  continuationTransaction st source = Some i -> (i < length (sn_transactions st))%nat.
Proof. unfold continuationTransaction. case_if; [apply last_index_lt|apply first_index_lt]. Qed.

Lemma with_tx_ok opts st i f :
  session_ok opts st -> (i < length (sn_transactions st))%nat ->
  (forall tx, tx_ok opts tx -> exists tx', f tx = Some tx' /\ tx_ok opts tx') ->
  exists st', with_tx st i f = Some st' /\ session_ok opts st'
    /\ length (sn_transactions st') = length (sn_transactions st).
Proof.
  intros [Hl Hf] Hi Hstep. unfold with_tx. destruct (lookup_lt_is_Some_2 _ _ Hi) as [tx Htx]. rewrite Htx. simpl.
  destruct (Hstep tx) as (tx' & -> & Hok'); [by eapply Forall_lookup_1|]. simpl.
  eexists. split; [reflexivity|]. simpl. rewrite length_insert. split; [|done]. split; simpl.
  - unfold len in *. by rewrite length_insert.
  - by apply Forall_insert.
Qed.

Lemma append_request_ok opts pf n tx :
  opts_ok opts -> tx_ok opts tx -> exists tx', append_request opts pf n tx = Some tx' /\ tx_ok opts tx'.
Proof.
  intros Hopts [H1' H2']. unfold append_request. destruct (appendSide_ok opts _ pf n Hopts H1') as (s & -> & Hs).
  simpl. eexists. split; [reflexivity|]. by split.
Qed.
Lemma append_response_ok opts pf n tx :
  opts_ok opts -> tx_ok opts tx -> exists tx', append_response opts pf n tx = Some tx' /\ tx_ok opts tx'.
Proof.
  intros Hopts [H1' H2']. unfold append_response. destruct (appendSide_ok opts _ pf n Hopts H2') as (s & -> & Hs).
  simpl. eexists. split; [reflexivity|]. case_if; by split.
Qed.
End bounds.

Section bounds2.
Context `{GoUnicode} `{GoHTTP} `{RangeOrder}.

Lemma observe_tx_ok opts st pf n d :
  opts_ok opts -> session_ok opts st ->
  exists st' otx d', observe_tx opts st pf n d = Some (st', otx, d') /\ session_ok opts st'
    /\ forall i, otx = Some i -> (i < length (sn_transactions st'))%nat.
Proof.
  intros Hopts Hok. unfold observe_tx. cbv zeta. case_if.
  { destruct (newTransaction opts _ _) as [st1 i] eqn:E.
    apply newTransaction_ok in E as [Hok1 Hi]; [|done|exact Hok].
    destruct (with_tx_ok opts st1 i (append_request opts pf n) Hok1 Hi) as (st2 & -> & Hok2 & Hl2);
      [intros; by apply append_request_ok|].
    simpl. eexists _, _, _. split; [reflexivity|]. split; [done|]. intros j [= <-]. lia. }
  case_if.
  { destruct (responseTransaction opts _ _) as [st1 i] eqn:E.
    apply responseTransaction_ok in E as [Hok1 Hi]; [|done|by destruct (seqb (sn_client st) "")].
    destruct (with_tx_ok opts st1 i (append_response opts pf n) Hok1 Hi) as (st2 & -> & Hok2 & Hl2);
      [intros; by apply append_response_ok|].
    simpl. eexists _, _, _. split; [reflexivity|]. split; [done|]. intros j [= <-]. lia. }
  case_if; [|eexists _, _, _; split; [reflexivity|]; done].
  destruct (continuationTransaction st (src_endpoint pf)) as [i|] eqn:E;
    [|eexists _, _, _; split; [reflexivity|]; done].
  apply continuationTransaction_lt in E as Hi. destruct (lookup_lt_is_Some_2 _ _ Hi) as [tx ->]. simpl.
  match goal with |- context [with_tx st i ?f] => destruct (with_tx_ok opts st i f Hok Hi) as (st2 & -> & Hok2 & Hl2) end.
  { intros tx0 Htx0. case_if; [by apply append_request_ok|by apply append_response_ok]. }
  simpl. eexists _, _, _. split; [reflexivity|]. split; [done|]. intros j [= <-]. lia.
Qed.

Lemma revise_after_ok opts st pf otx :
  session_ok opts st -> (forall i, otx = Some i -> (i < length (sn_transactions st))%nat) ->
  exists st' ups, revise_after opts st pf otx = Some (st', ups) /\ session_ok opts st'.
Proof.
  intros Hok Hi. unfold revise_after. case_if.
  { pose proof (finalize_where_ok (fun _ => true) opts st Hok) as Hf.
    destruct (finalize_where _ opts st) as [st' ups]. eauto. }
  destruct otx as [i|]; [|eauto]. specialize (Hi i eq_refl).
  destruct (with_tx_ok opts st i (fun tx => Some (tx <| tx_lastUsec := pf_PacketTimeUsec pf |>)) Hok Hi)
    as (st1 & -> & [Hl1 Hf1] & Hlen); [intros tx Htx; eexists; split; [reflexivity|done]|].
  simpl. unfold revise_at. destruct (lookup_lt_is_Some_2 (sn_transactions st1) i) as [tx Htx]; [lia|]. rewrite Htx. simpl.
  pose proof (tx_ok_revise opts st1 tx (Forall_lookup_1 _ _ _ _ Hf1 Htx)) as Htx'.
  destruct (reviseTransaction opts st1 tx) as [tx' ups]. simpl. eexists _, _. split; [reflexivity|].
  split; simpl; [unfold len in *; by rewrite length_insert|by apply Forall_insert].
Qed.

(** Loops that delete or replace entries while ranging over the sessions. *)
Lemma cleanup_ok t now : tracker_ok t -> tracker_ok (cleanupLocked t now).1 /\ tk_opts (cleanupLocked t now).1 = tk_opts t.
Proof.
  intros (Hopts & Hsize & Hall). unfold cleanupLocked. cbv zeta. case_if; [done|]. case_if; [done|].
  match goal with |- tracker_ok (foldl ?f ?a ?l).1 /\ _ => set (F := f); set (A0 := a); set (L := l) end.
  assert (let t' := (foldl F A0 L).1 in tk_opts t' = tk_opts t /\ dom (tk_sessions t') ⊆ dom (tk_sessions t)
    /\ map_Forall (fun _ => session_ok (tk_opts t)) (tk_sessions t')) as (Ho & Hd & Hf).
  { apply (foldl_inv (fun acc => let t' := acc.1 in tk_opts t' = tk_opts t
      /\ dom (tk_sessions t') ⊆ dom (tk_sessions t)
      /\ map_Forall (fun _ => session_ok (tk_opts t)) (tk_sessions t'))); [done|].
    intros [t1 ups] [key st] Hin (Ho & Hd & Hf). simpl in *.
    assert (tk_sessions t !! key = Some st) as Hst by (by apply elem_of_range in Hin).
    pose proof (finalize_where_ok (overdue now (usec_of (op_ResponseWait (tk_opts t)))) (tk_opts t) st (Hall _ _ Hst)) as Hs'.
    destruct (finalize_where _ _ st) as [st' ups']. simpl in Hs'. case_if; simpl.
    - split; [done|]. split; [rewrite dom_delete; set_solver|by apply map_Forall_delete].
    - split; [done|]. split; [|by apply map_Forall_insert_2].
      rewrite dom_insert. apply elem_of_dom_2 in Hst. set_solver. }
  split; [|done]. split; [by rewrite Ho|]. rewrite Ho. split; [|done].
  etrans; [|exact Hsize]. apply inj_le. rewrite <-!size_dom. by apply subseteq_size.
Qed.

Lemma oldestSession_in t k st : oldestSession t = Some (k, st) -> tk_sessions t !! k = Some st.
Proof.
  unfold oldestSession. rewrite <-elem_of_range.
  assert (forall p, foldl (fun oldest '(key, st) => match oldest with
      | None => Some (key, st)
      | Some (_, o) => if sn_lastUsec st <? sn_lastUsec o then Some (key, st) else oldest end) None
      (range_map (tk_sessions t)) = Some p -> p ∈ range_map (tk_sessions t)) as Hf; [|by apply Hf].
  apply (foldl_prefix_ind (fun (pre : list (string * sessionState)) o => forall p, o = Some p -> p ∈ pre)); [done|].
  intros pre [key x] post o _ IH p Hp. apply elem_of_app. rewrite list_elem_of_singleton.
  destruct o as [[k0 o]|]; [|right; congruence]. destruct (_ <? _); [right; congruence|left; by apply IH].
Qed.

Lemma oldestSession_None t : oldestSession t = None -> tk_sessions t = ∅.
Proof.
  unfold oldestSession. intros Hn.
  assert (range_map (tk_sessions t) = []) as Hr.
  { destruct (range_map (tk_sessions t)) as [|[k st] l]; [done|]. exfalso. revert Hn. simpl.
    assert (is_Some (foldl (fun oldest '(key, st) => match oldest with
      | None => Some (key, st)
      | Some (_, o) => if sn_lastUsec st <? sn_lastUsec o then Some (key, st) else oldest end) (Some (k, st)) l)) as [? ->]; [|done].
    apply foldl_inv; [eauto|]. intros [[? ?]|] [? ?] _ [? ?]; [case_if; eauto|eauto]. }
  apply map_eq. intros k. rewrite lookup_empty. destruct (tk_sessions t !! k) as [st|] eqn:E; [|done].
  apply elem_of_range in E. rewrite Hr in E. by apply not_elem_of_nil in E.
Qed.

Lemma make_room_ok t :
  tracker_ok t -> let t' := (make_room t).1 in
  tracker_ok t' /\ tk_opts t' = tk_opts t /\ Z.of_nat (size (tk_sessions t')) < op_MaxSessions (tk_opts t).
Proof.
  intros (Hopts & Hsize & Hall). unfold make_room. case_if; [|by simpl].
  destruct (oldestSession t) as [[k st]|] eqn:E; simpl.
  - apply oldestSession_in in E as Hk. destruct Hopts as [Hm ?].
    assert (size (tk_sessions t) <> 0%nat) by (intros Ez%map_size_empty_inv; rewrite Ez, lookup_empty in Hk; done).
    assert (Z.of_nat (size (delete k (tk_sessions t))) < op_MaxSessions (tk_opts t)) as Hlt.
    { rewrite map_size_delete, Hk. lia. }
    split; [|done]. split; [done|]. simpl. split; [lia|by apply map_Forall_delete].
  - apply oldestSession_None in E. destruct Hopts as [Hm _]. rewrite E, map_size_empty in *. lia.
Qed.

Lemma new_session_ok opts key a b pf o : opts_ok opts -> session_ok opts (new_session key a b pf o).
Proof. intros (_ & ? & _). split; simpl; [unfold len; simpl; lia|done]. Qed.

Lemma obtain_session_ok t pf t' st ups :
  tracker_ok t -> obtain_session t pf = (t', st, ups) ->
  tracker_ok t' /\ tk_opts t' = tk_opts t /\ session_ok (tk_opts t) st
  /\ (Z.of_nat (size (tk_sessions t')) < op_MaxSessions (tk_opts t)
      \/ is_Some (tk_sessions t' !! (canonicalKey pf).1.1.1)).
Proof.
  intros Hok. unfold obtain_session. pose proof (cleanup_ok t (pf_PacketTimeUsec pf) Hok) as [Hok1 Ho1].
  destruct (cleanupLocked t (pf_PacketTimeUsec pf)) as [t1 ups1]. simpl in Hok1, Ho1.
  destruct (canonicalKey pf) as [[[key a] b] sa] eqn:Ek. simpl.
  assert (forall t2, tracker_ok t2 -> tk_opts t2 = tk_opts t -> forall ups2,
    (let '(t0, ups) := make_room t2 in (t0, new_session key a b pf (opening pf), ups2 ++ ups)) = (t', st, ups) ->
    tracker_ok t' /\ tk_opts t' = tk_opts t /\ session_ok (tk_opts t) st
    /\ (Z.of_nat (size (tk_sessions t')) < op_MaxSessions (tk_opts t) \/ is_Some (tk_sessions t' !! key))) as Hnew.
  { intros t2 Hok2 Ho2 ups2. pose proof (make_room_ok t2 Hok2) as (H1' & H2' & H3').
    destruct (make_room t2) as [t3 ups3]. simpl in *. rewrite Ho2 in *. intros [= <- <- <-].
    split; [done|]. split; [done|]. split; [|by left]. apply new_session_ok, Hok. }
  destruct (tk_sessions t1 !! key) as [st0|] eqn:Es; [|by apply Hnew].
  destruct (opening pf).
  - apply Hnew; [|done]. destruct Hok1 as (Hp & Hs & Ha). split; [done|]. simpl. split; [|by apply map_Forall_delete].
    rewrite map_size_delete, Es. lia.
  - intros [= <- <- <-]. split; [done|]. split; [done|]. split; [|right; by rewrite Es].
    destruct Hok1 as (_ & _ & Ha). rewrite <-Ho1. by eapply Ha.
Qed.

Lemma assess_transactions st pf : sn_transactions (assessDirection st pf).1 = sn_transactions st.
Proof. unfold assessDirection. cbv zeta. repeat case_if; done. Qed.

Lemma Observe_ok t pf n :
  tracker_ok t -> exists t' obs, Observe t pf n = Some (t', obs) /\ tracker_ok t' /\ tk_opts t' = tk_opts t.
Proof.
  intros Hok. unfold Observe. destruct (obtain_session t pf) as [[t1 st0] ups0] eqn:Eo.
  apply obtain_session_ok in Eo as (Hok1 & Ho1 & Hst & Hroom); [|done].
  destruct (canonicalKey pf) as [[[key a] b] sa]. simpl in Hroom.
  pose proof (assess_transactions (st0 <| sn_lastUsec := max64 (sn_lastUsec st0) (pf_PacketTimeUsec pf) |>) pf) as Ht.
  destruct (assessDirection _ pf) as [st1 d]. simpl in Ht.
  assert (session_ok (tk_opts t) (account st1 pf sa)) as Hst1.
  { unfold session_ok, account. destruct sa; simpl; by rewrite Ht. }
  destruct (observe_tx_ok (tk_opts t) (account st1 pf sa) pf n d (proj1 Hok) Hst1) as (st2 & otx & d' & -> & Hst2 & Hi).
  cbn [mbind option_bind].
  destruct (revise_after_ok (tk_opts t) st2 pf otx Hst2 Hi) as (st3 & ups3 & -> & Hst3). cbn [mbind option_bind].
  eexists _, _. split; [reflexivity|]. split; [|done]. destruct Hok1 as (Hp & Hs & Ha). rewrite Ho1 in *.
  unfold tracker_ok. simpl. rewrite Ho1. split; [done|]. split; [|by apply map_Forall_insert_2].
  destruct (tk_sessions t1 !! key) as [x|] eqn:E.
  - rewrite map_size_insert_Some by eauto. done.
  - rewrite map_size_insert_None by done. destruct Hroom as [?|[? ?]]; [lia|done].
Qed.
End bounds2.

(** ** Where pending events go *)

(** A final revision of the event is among the updates. *)
Definition announced (ups : list ThreatEvent) (ev : ThreatEvent) : Prop :=
  exists u, u ∈ ups /\ ev_EventID u = ev_EventID ev /\ ev_ContextFinal u = true.
(** The session under [k] still holds the event. *)
Definition held (t : Tracker) (k : string) (ev : ThreatEvent) : Prop :=
  exists st ev', tk_sessions t !! k = Some st /\ pending st ev' /\ ev_EventID ev' = ev_EventID ev.

Section fate.
Context `{GoUnicode} `{GoHTTP} `{RangeOrder}.

Lemma announced_app_l ups ups' ev : announced ups ev -> announced (ups ++ ups') ev.
Proof. intros (u & Hu & ?). exists u. rewrite elem_of_app. auto. Qed.
Lemma announced_app_r ups ups' ev : announced ups' ev -> announced (ups ++ ups') ev.
Proof. intros (u & Hu & ?). exists u. rewrite elem_of_app. auto. Qed.
Lemma announced_id ups ev ev' : ev_EventID ev' = ev_EventID ev -> announced ups ev' -> announced ups ev.
Proof. intros E (u & ? & ? & ?). exists u. split; [done|]. split; [congruence|done]. Qed.

Lemma finalizeSession_announced opts st ev : pending st ev -> announced (finalizeSession opts st).2 ev.
Proof.
  intros Hp. destruct (proj1 (finalizeSession_final opts st) ev Hp) as (u & Hu & Hid & Hf & _). by exists u.
Qed.

Lemma finalize_where_pending p opts st ev :
  pending st ev -> exists ev', pending (finalize_where p opts st).1 ev' /\ ev_EventID ev' = ev_EventID ev.
Proof.
  intros (tx & id & Htx & Hev). rewrite finalize_where_spec.
  assert (exists ev', (finalized p opts st tx).1.(tx_events) !! id = Some ev' /\ ev_EventID ev' = ev_EventID ev) as (ev' & He & Hid).
  { unfold finalized. destruct (p tx); [|eauto]. rewrite reviseTransaction_spec.
    destruct (revises _ _); [|simpl; eauto]. simpl. rewrite lookup_fmap, Hev. simpl. eexists. split; [done|].
    apply revise_event_fields. }
  exists ev'. split; [|done]. exists (finalized p opts st tx).1, id. split; [|done]. simpl.
  apply list_elem_of_fmap. eauto.
Qed.

Lemma cleanup_fate t now k st ev :
  tk_sessions t !! k = Some st -> pending st ev ->
  held (cleanupLocked t now).1 k ev \/ announced (cleanupLocked t now).2 ev.
Proof.
  intros Hk Hp. unfold cleanupLocked. cbv zeta.
  assert (held t k ev) as Hheld by (by exists st, ev).
  case_if; [by left|]. case_if; [by left|].
  match goal with |- held (foldl ?f ?a ?l).1 _ _ \/ _ => set (F := f); set (A0 := a); set (L := l) end.
  assert (NoDup L.*1) as Hnd by apply NoDup_range_fst.
  assert ((k ∉ L.*1 -> tk_sessions (foldl F A0 L).1 !! k = tk_sessions t !! k)
    /\ (k ∈ L.*1 -> held (foldl F A0 L).1 k ev \/ announced (foldl F A0 L).2 ev)) as [_ Hin].
  { apply (foldl_prefix_ind (fun (pre : list (string * sessionState)) acc =>
      (k ∉ pre.*1 -> tk_sessions acc.1 !! k = tk_sessions t !! k)
      /\ (k ∈ pre.*1 -> held acc.1 k ev \/ announced acc.2 ev))).
    { split; [done|by intros ?%not_elem_of_nil]. }
    intros pre [key x] post [t1 ups] Hs [IH1 IH2]. rewrite fmap_app. change ([(key, x)].*1) with [key].
    rewrite elem_of_app, list_elem_of_singleton. unfold F. simpl in IH1, IH2.
    pose proof (finalize_where_pending (overdue now (usec_of (op_ResponseWait (tk_opts t)))) (tk_opts t) x) as Hpend.
    cbn [upd]. destruct (finalize_where (overdue now _) _ x) as [x' ups'] eqn:Ef. simpl in Hpend.
    destruct (decide (k = key)) as [->|Hne].
    - assert (x = st) as ->.
      { assert ((key, x) ∈ L) as HL by (rewrite Hs; apply elem_of_app; right; left).
        unfold L in HL. apply elem_of_range in HL. simpl in HL. congruence. }
      destruct (Hpend ev Hp) as (ev' & Hp' & Hid). split; [tauto|]. intros _. case_if; simpl.
      + right. apply announced_app_r. eapply announced_id; [exact Hid|]. by apply finalizeSession_announced.
      + left. exists x', ev'. simpl. rewrite lookup_insert_eq. done.
    - split.
      + intros Hn. case_if; simpl; rewrite ?lookup_delete_ne, ?lookup_insert_ne by done; apply IH1; tauto.
      + intros [Hin|?]; [|done]. destruct (IH2 Hin) as [(s0 & e0 & Hs0 & ?)|Ha].
        * left. exists s0, e0. case_if; simpl; by rewrite ?lookup_delete_ne, ?lookup_insert_ne by done.
        * right. case_if; simpl; [apply announced_app_l|]; by apply announced_app_l. }
  apply Hin. apply list_elem_of_fmap. exists (k, st). split; [done|]. by apply elem_of_range.
Qed.

Lemma held_flushed t k ev : held t k ev -> (Flush t).2 <> [].
Proof.
  intros (st & ev' & Hk & Hp & _). destruct (finalizeSession_announced (tk_opts t) st ev' Hp) as (u & Hu & _).
  rewrite Flush_spec. simpl. intros Hn.
  assert (u ∈ concat ((fun p => (finalizeSession (tk_opts t) p.2).2) <$> range_map (tk_sessions t))) as Hin.
  { apply elem_of_concat. eexists. split; [|exact Hu]. apply list_elem_of_fmap. exists (k, st).
    split; [done|]. by apply elem_of_range. }
  rewrite Hn in Hin. by apply not_elem_of_nil in Hin.
Qed.

Lemma make_room_fate t k ev :
  held t k ev -> held (make_room t).1 k ev \/ announced (make_room t).2 ev.
Proof.
  intros (st & ev' & Hk & Hp & Hid). unfold make_room. case_if; [|left; by exists st, ev'].
  destruct (oldestSession t) as [[k0 o]|] eqn:E; [|left; by exists st, ev']. simpl.
  destruct (decide (k0 = k)) as [->|Hne].
  - right. apply oldestSession_in in E. assert (o = st) as -> by congruence.
    eapply announced_id; [exact Hid|]. by apply finalizeSession_announced.
  - left. exists st, ev'. simpl. by rewrite lookup_delete_ne.
Qed.

Lemma obtain_fate t pf t' st ups k st0 ev :
  obtain_session t pf = (t', st, ups) ->
  tk_sessions t !! k = Some st0 -> pending st0 ev ->
  k <> (canonicalKey pf).1.1.1 \/ opening pf = true ->
  (k <> (canonicalKey pf).1.1.1 /\ held t' k ev) \/ announced ups ev.
Proof.
  intros Ho Hk Hp Hcase. unfold obtain_session in Ho.
  pose proof (cleanup_fate t (pf_PacketTimeUsec pf) k st0 ev Hk Hp) as Hc.
  destruct (cleanupLocked t (pf_PacketTimeUsec pf)) as [t1 ups1]. simpl in Hc.
  destruct (canonicalKey pf) as [[[key a] b] sa]. simpl in *.
  assert (forall t2 ups2, (k <> key /\ held t2 k ev) \/ announced ups2 ev ->
    (let '(t0, ups) := make_room t2 in (t0, new_session key a b pf (opening pf), ups2 ++ ups)) = (t', st, ups) ->
    (k <> key /\ held t' k ev) \/ announced ups ev) as Hnew.
  { intros t2 ups2 [[Hne Hh]|Ha].
    - pose proof (make_room_fate t2 k ev Hh) as Hm. destruct (make_room t2) as [t3 ups3]. simpl in Hm.
      intros [= <- <- <-]. destruct Hm as [?|?]; [by left|right; by apply announced_app_r].
    - destruct (make_room t2) as [t3 ups3]. intros [= <- <- <-]. right. by apply announced_app_l. }
  destruct (tk_sessions t1 !! key) as [s1|] eqn:Es; [destruct (opening pf) eqn:Eo|].
  - eapply Hnew; [|exact Ho]. destruct Hc as [(s & e & Hs & He & Hid)|Ha]; [|right; by apply announced_app_l].
    destruct (decide (k = key)) as [->|Hne].
    + right. assert (s = s1) as -> by congruence. apply announced_app_r.
      eapply announced_id; [exact Hid|]. by apply finalizeSession_announced.
    + left. split; [done|]. exists s, e. simpl. by rewrite lookup_delete_ne.
  - simplify_eq. destruct Hcase as [Hne|?]; [|done]. destruct Hc as [?|?]; [by left|by right].
  - eapply Hnew; [|exact Ho]. destruct Hc as [Hh|Ha]; [|by right].
    destruct (decide (k = key)) as [->|Hne]; [|by left].
    destruct Hh as (s & e & Hs & _). congruence.
Qed.
End fate.

(** ** Runs *)

Inductive tracker_run `{GoUnicode} `{GoHTTP} : Tracker -> Prop :=
| tracker_start opts : tracker_run (tracker_New opts)
| tracker_observe (O : RangeOrder) t pf n t' obs :
    tracker_run t -> Observe t pf n = Some (t', obs) -> tracker_run t'
| tracker_register (O : RangeOrder) t obs ev : tracker_run t -> tracker_run (Register t obs ev).1
| tracker_flush (O : RangeOrder) t : tracker_run t -> tracker_run (Flush t).1.

Section claims.
Context `{GoUnicode} `{GoHTTP}.

Lemma Register_ok (O : RangeOrder) t obs ev : tracker_ok t -> tracker_ok (Register t obs ev).1.
Proof.
  intros (Hopts & Hsize & Hall). unfold Register. cbv zeta.
  destruct (findTransaction t (ob_SessionID obs) (ob_TransactionID obs)) as [[[key st] otx]|] eqn:Ef; [|done].
  assert (tk_sessions t !! key = Some st) as Hk.
  { unfold findTransaction in Ef. destruct (filter _ _) as [|[k s] l] eqn:El; [done|]. simplify_eq.
    assert ((key, st) ∈ filter (fun p => sn_id p.2 = ob_SessionID obs) (range_map (tk_sessions t))) as Hin by (rewrite El; left).
    apply list_elem_of_filter in Hin as [_ Hin]. by apply elem_of_range in Hin. }
  assert (forall st', session_ok (tk_opts t) st' -> tracker_ok (t <| tk_sessions ::= <[key := st']> |>)) as Hins.
  { intros st' Hs'. split; [done|]. simpl. split; [by rewrite map_size_insert_Some by eauto|by apply map_Forall_insert_2]. }
  destruct (Hall _ _ Hk) as [Hl Hf]. destruct otx as [i|]; apply Hins; [|done]. split; simpl.
  - unfold len in *. by rewrite length_alter.
  - apply Forall_alter; [done|]. intros tx _ Htx. exact Htx.
Qed.

Lemma tracker_run_ok t : tracker_run t -> tracker_ok t.
Proof.
  induction 1 as [opts|O t pf n t' obs _ IH Ho|O t obs ev _ IH|O t _ IH].
  - split; [|split; [|apply map_Forall_empty]].
    + unfold opts_ok. simpl. repeat split; case_if; lia.
    + simpl. rewrite map_size_empty. case_if; lia.
  - destruct (Observe_ok t pf n IH) as (t1 & obs1 & Ho1 & Hok & _). congruence.
  - by apply Register_ok.
  - rewrite Flush_spec. destruct IH as ((? & ?) & _ & _). split; [done|]. simpl.
    rewrite map_size_empty. split; [lia|apply map_Forall_empty].
Qed.

(** C38.  Bounded memory and no panic: in every run of the tracker the number
    of sessions, the transactions of a session, the bytes buffered per
    direction, the packets indexed and the segment keys remembered stay within
    the configured limits, and the next packet, whatever it is, is processed
    without an index out of range. *)
Theorem tracker_bounded (O : RangeOrder) t pf n :
  tracker_run t ->
  Z.of_nat (size (tk_sessions t)) <= op_MaxSessions (tk_opts t)
  /\ (forall key st, tk_sessions t !! key = Some st ->
       len (sn_transactions st) <= op_MaxTransactionsPerSession (tk_opts t)
       /\ forall tx side, tx ∈ sn_transactions st -> side = tx_request tx \/ side = tx_response tx ->
          len (sd_data side) <= op_MaxReassemblyBytesPerSide (tk_opts t)
          /\ len (em_Packets (sd_context side)) <= op_MaxPacketsPerTransaction (tk_opts t)
          /\ Z.of_nat (size (sd_seen side)) <= op_MaxPacketsPerTransaction (tk_opts t))
  /\ exists t' obs, Observe t pf n = Some (t', obs).
Proof.
  intros Hr. apply tracker_run_ok in Hr as Hok. destruct Hok as (Hopts & Hsize & Hall). split; [done|]. split.
  - intros key st Hst. destruct (Hall _ _ Hst) as [Hl Hf]. split; [done|]. intros tx side Htx Hside.
    rewrite Forall_forall in Hf. destruct (Hf _ Htx) as [([_ ? _] & ? & ?) ([_ ? _] & ? & ?)].
    destruct Hside as [-> | ->]; done.
  - destruct (Observe_ok t pf n) as (t' & obs & ? & _); [done|]. eauto.
Qed.


(** Both directions of a connection belong to one session: swapping the
    endpoints of a packet leaves the session key and the two endpoint names
    unchanged and flips which of them is the source. *)
Theorem canonicalKey_symmetric pf :
  let back := pf <| pf_SrcIP := pf_DstIP pf |> <| pf_SrcPort := pf_DstPort pf |>
                 <| pf_DstIP := pf_SrcIP pf |> <| pf_DstPort := pf_SrcPort pf |> in
  (canonicalKey back).1 = (canonicalKey pf).1
  /\ (src_endpoint pf <> dst_endpoint pf -> (canonicalKey back).2 = negb (canonicalKey pf).2).
Proof.
  intros back. unfold canonicalKey.
  change (src_endpoint back) with (dst_endpoint pf). change (dst_endpoint back) with (src_endpoint pf).
  destruct (sltb (dst_endpoint pf) (src_endpoint pf)) eqn:E1, (sltb (src_endpoint pf) (dst_endpoint pf)) eqn:E2; simpl.
  - apply sltb_asym in E1. congruence.
  - done.
  - done.
  - assert (src_endpoint pf = dst_endpoint pf) as E by (by apply sltb_total). rewrite E. done.
Qed.
End claims.

(** ** Witnesses *)

(** An HTTP parser for the examples: nothing is a complete message. *)
Definition no_http : GoHTTP := {| http_ReadRequest := fun _ => None; http_ReadResponse := fun _ => None |}.
#[local] Existing Instance ascii_unicode.
#[local] Existing Instance no_http.
#[local] Existing Instance canonical_range.

Definition demo_request (t : Z) : PacketFeature :=
  zero_PacketFeature <| pf_SrcIP := "10.0.0.1"%string |> <| pf_SrcPort := 1234 |>
    <| pf_DstIP := "10.0.0.2"%string |> <| pf_DstPort := 80 |> <| pf_Proto := "tcp"%string |>
    <| pf_PacketTimeUsec := t |> <| pf_MessageDirection := "request"%string |> <| pf_Payload := byt "GET /" |>.
Definition demo_event : ThreatEvent := zero_ThreatEvent <| ev_EventID := "evt-1"%string |>.
Definition demo_key : string := "tcp|10.0.0.1:1234|10.0.0.2:80".

(** One request observed and one event registered on it, with room for one
    transaction per session. *)
Definition demo_tracker0 : Tracker := tracker_New (mkOptions 10 1 4 64 64 0 0 true 0).
Definition demo_observed : Tracker * Observation :=
  default (demo_tracker0, mkObservation zero_DirectionAssessment "" "" None None false [])
    (Observe demo_tracker0 (demo_request 1000) 1).
Definition demo_tracker : Tracker := (Register demo_observed.1 demo_observed.2 demo_event).1.

Lemma demo_tracker_run : tracker_run demo_tracker.
Proof.
  apply (tracker_register canonical_range).
  apply (tracker_observe canonical_range demo_tracker0 (demo_request 1000) 1 demo_observed.1 demo_observed.2);
    [apply tracker_start|vm_compute; reflexivity].
Defined.

(** The identifier of the event found by walking the tracker. *)
Definition demo_found : option string :=
  st ← tk_sessions demo_tracker !! demo_key;
  tx ← head (sn_transactions st);
  ev ← tx_events tx !! "evt-1"%string;
  Some (ev_EventID ev).

Lemma demo_pending :
  exists st ev, tk_sessions demo_tracker !! demo_key = Some st /\ pending st ev /\ ev_EventID ev = "evt-1"%string.
Proof.
  assert (demo_found = Some "evt-1"%string) as Hf by (vm_compute; reflexivity). unfold demo_found in Hf.
  destruct (tk_sessions demo_tracker !! demo_key) as [st|]; [|discriminate Hf]. cbn [mbind option_bind] in Hf.
  destruct (sn_transactions st) as [|tx txs] eqn:Et; [discriminate Hf|]. cbn [head mbind option_bind] in Hf.
  destruct (tx_events tx !! "evt-1"%string) as [ev|] eqn:Ee; [|discriminate Hf]. cbn [mbind option_bind] in Hf.
  exists st, ev. split; [reflexivity|]. split; [|congruence].
  exists tx, "evt-1"%string. split; [rewrite Et; left|exact Ee].
Qed.

Lemma Flush_finalizes_witness :
  exists u, u ∈ (Flush demo_tracker).2 /\ ev_EventID u = "evt-1"%string /\ ev_ContextFinal u = true.
Proof.
  destruct (Flush demo_tracker) as [t' ups] eqn:E.
  destruct (Flush_finalizes canonical_range demo_tracker t' ups E) as (_ & Hf & _).
  destruct demo_pending as (st & ev & Hs & Hp & Hid).
  destruct (Hf demo_key st ev Hs Hp) as (u & Hu & Hi & Hfin & _).
  exists u. split; [exact Hu|]. split; [congruence|exact Hfin].
Defined.

Lemma tracker_bounded_witness :
  tracker_run demo_tracker /\ Z.of_nat (size (tk_sessions demo_tracker)) <= op_MaxSessions (tk_opts demo_tracker).
Proof.
  split; [exact demo_tracker_run|].
  exact (proj1 (tracker_bounded canonical_range demo_tracker (demo_request 1000) 1 demo_tracker_run)).
Defined.

(** A new connection on the same endpoints. *)
Definition demo_syn : PacketFeature := (demo_request 2000) <| pf_TCPSYN := true |> <| pf_Payload := [] |>.


(** A pending event can be lost: when a session already has its maximum
    of transactions and none is final, the next request evicts the oldest
    transaction together with its events, without the final revision that the
    options promise; the event is neither held nor announced, and Flush will
    not mention it either. *)
Theorem newTransaction_drops_pending :
  exists t st ev t' obs,
    tracker_run t /\ tk_sessions t !! demo_key = Some st /\ pending st ev
    /\ Observe t (demo_request 2000) 2 = Some (t', obs)
    /\ ~ held t' demo_key ev /\ ~ announced (ob_Updates obs) ev /\ (Flush t').2 = [].
Proof.
  destruct demo_pending as (st & ev & Hs & Hp & Hid). exists demo_tracker, st, ev.
  assert (match Observe demo_tracker (demo_request 2000) 2 with
          | Some (t', obs) => (length (ob_Updates obs), length (Flush t').2) = (0%nat, 0%nat)
          | None => False
          end) as Hc by (vm_compute; reflexivity).
  destruct (Observe demo_tracker (demo_request 2000) 2) as [[t' obs]|]; [|destruct Hc].
  apply pair_equal_spec in Hc as [Hu%nil_length_inv Hfl%nil_length_inv].
  exists t', obs. split; [exact demo_tracker_run|]. split; [exact Hs|]. split; [exact Hp|]. split; [reflexivity|].
  split; [intros Hh; exact (held_flushed _ _ _ Hh Hfl)|]. split; [|exact Hfl].
  rewrite Hu. intros (u & Hin%not_elem_of_nil & _). exact Hin.
Qed.
