(* ===== verification/Detector.v ===== *)
(** * Detector: from a flow feature to threat events

    internal/detector/engine.go.  The engine is a record of its settings and
    of the burst counter it owns; Detect returns the engine with the counter
    advanced and the events.  Texts are the bytes of the source's UTF-8
    literals. *)

From S2P Require Import Prelude GoStrings GoNet Events Parser Counter Fingerprint Flow Tracker.

(** ** path/filepath on Unix *)

(** One element of the path on the stack of those kept so far, last first. *)
Definition clean_step (rooted : bool) (kept : list string) (elem : string) : list string :=
  if seqb elem "" || seqb elem "." then kept
  else if seqb elem ".." then
    match kept with
    | top :: rest => if seqb top ".." then elem :: kept else rest
    | [] => if rooted then [] else [elem]
    end
  else elem :: kept.
Definition filepath_Clean (path : string) : string :=
  let rooted := strings_HasPrefix path "/" in
  let kept := foldl (clean_step rooted) [] (strings_Split path "/") in
  let out := strings_Join (rev kept) "/" in
  if rooted then "/" +:+ out else if seqb out "" then "." else out.

Fixpoint drop_slashes (b : bytes) : bytes :=
  match b with c :: r => if bv c =? 47 then drop_slashes r else b | [] => [] end.
Definition filepath_Base (path : string) : string :=
  if seqb path "" then "." else
  let p := str (rev (drop_slashes (rev (byt path)))) in
  if seqb p "" then "/" else default p (last (strings_Split p "/")).

(** ** Numbers *)

Definition round_half_even (n d : Z) : Z :=
  let q := n / d in
  let r := n mod d in
  if 2 * r <? d then q else if d <? 2 * r then q + 1 else if Z.even q then q else q + 1.
(** [float64(z)] for a non-negative integer, as the integer it denotes. *)
Definition float64_of (z : Z) : Z :=
  if z <? 2 ^ 53 then z
  else let ulp := 2 ^ (Z.log2 z - 52) in round_half_even z ulp * ulp.
(** [fmt.Sprintf("%.1f", float64(z)/1024)] *)
Definition format_KB (z : Z) : string :=
  let tenths := round_half_even (10 * float64_of z) 1024 in
  strconv_Itoa (tenths / 10) +:+ "." +:+ strconv_Itoa (tenths mod 10).

(** ** The engine *)

Record DetectEngine := mkDetectEngine {
  en_deviceID : string;
  en_homeNet : list (option IPNet);
  en_sensorVersion : string;
  en_localHits : option Window;
  en_localWindow : Z;
  en_evidenceDir : string
}.
#[global] Instance settable_DetectEngine : Settable DetectEngine := fun r =>
  mkDetectEngine (en_deviceID r) (en_homeNet r) (en_sensorVersion r) (en_localHits r) (en_localWindow r)
    (en_evidenceDir r).

Definition detector_New (deviceID : string) : DetectEngine := mkDetectEngine deviceID [] "" None 0 "".
Definition WithLocalCounter (e : DetectEngine) (c : option Window) (windowSec : Z) : DetectEngine :=
  e <| en_localHits := c |> <| en_localWindow := windowSec |>.
Definition WithHomeNet (e : DetectEngine) (nets : list (option IPNet)) : DetectEngine := e <| en_homeNet := nets |>.
Definition WithSensorVersion (e : DetectEngine) (v : string) : DetectEngine := e <| en_sensorVersion := v |>.
Definition WithEvidenceDir (e : DetectEngine) (dir : string) : DetectEngine :=
  e <| en_evidenceDir := filepath_Clean dir |>.

(** ** Fields computed from the flow *)

Definition occurrenceTime (usec : Z) : string := if usec =? 0 then "" else format_RFC3339 (i64 usec).

Definition pairSummary (f : FlowFeature) : option SessionSummary :=
  match ff_PairStats f with
  | None => None
  | Some ps =>
      if (ps_ClientPackets ps =? 0) && (ps_ServerPackets ps =? 0) then None else
      let hitCount := len (ff_FingerprintHits f) + len (ff_IntelHits f) in
      Some (zero_SessionSummary
        <| ss_FirstTimeUsec := ps_FirstTime ps |> <| ss_LastTimeUsec := ps_LastTime ps |>
        <| ss_ClientPackets := ps_ClientPackets ps |> <| ss_ServerPackets := ps_ServerPackets ps |>
        <| ss_ClientWireBytes := ps_ClientWireBytes ps |> <| ss_ServerWireBytes := ps_ServerWireBytes ps |>
        <| ss_HitCount := hitCount |>)
  end.

Definition volumeRole (f : FlowFeature) (iocType iocValue : string) : string :=
  let by_volume : string :=
    match ff_PairStats f with
    | None => ""
    | Some ps =>
        let cb := ps_ClientBytes ps in
        let sb := ps_ServerBytes ps in
        if (0 <? cb) && (sb =? 0) then "client_only"
        else if (0 <? sb) && (cb =? 0) then "server_only"
        else if (0 <? sb) && (10 <=? cb / sb) then "upload_to_ioc"
        else if (0 <? cb) && (10 <=? sb / cb) then "download_from_ioc"
        else "bidirectional"
    end in
  if seqb iocType "ip" then
    if seqb iocValue (ff_DstIP f) then "to_ioc"
    else if seqb iocValue (ff_SrcIP f) then "from_ioc"
    else by_volume
  else if seqb iocType "cidr" then
    match net_ParseCIDR iocValue with
    | Some n => if IPNet_Contains n (ip_bytes (net_ParseIP (ff_DstIP f))) then "to_ioc"
                else if IPNet_Contains n (ip_bytes (net_ParseIP (ff_SrcIP f))) then "from_ioc"
                else by_volume
    | None => by_volume
    end
  else if seqb iocType "domain" || seqb iocType "url" then "to_ioc"
  else by_volume.

Definition ipInNets (ipStr : string) (nets : list (option IPNet)) : bool :=
  match net_ParseIP ipStr with
  | None => false
  | Some ip => existsb (fun n => match n with Some n => IPNet_Contains n ip | None => false end) nets
  end.

Definition direction (e : DetectEngine) (srcIP dstIP : string) : string :=
  if len (en_homeNet e) =? 0 then "unknown" else
  let srcLocal := ipInNets srcIP (en_homeNet e) in
  let dstLocal := ipInNets dstIP (en_homeNet e) in
  if srcLocal && dstLocal then "lateral"
  else if srcLocal && negb dstLocal then "outbound"
  else if negb srcLocal && dstLocal then "inbound"
  else "external".

Definition durationMs (firstUsec lastUsec : Z) : Z :=
  if lastUsec <=? firstUsec then 0 else (lastUsec - firstUsec) / 1000.

Definition appContext (f : FlowFeature) : option AppContext :=
  let app := mkAppContext (ff_HTTPMethod f) (ff_HTTPHost f) (ff_HTTPURL f) (ff_UserAgent f) (ff_HTTPHeaders f)
    (ff_HTTPBodySample f) (ff_DNSQuery f) (ff_DNSQType f) (ff_DNSAnswers f) (ff_SNI f) (ff_PayloadSample f)
    (ff_ICMPSeq f) in
  if seqb (app_HTTPMethod app) "" && seqb (app_HTTPHost app) "" && seqb (app_HTTPURL app) ""
     && seqb (app_UserAgent app) "" && bool_decide (app_HTTPHeaders app = ∅) && seqb (app_HTTPBody app) ""
     && seqb (app_DNSQuery app) "" && (app_DNSQType app =? 0) && (len (app_DNSAnswers app) =? 0)
     && seqb (app_TLSSNI app) "" && seqb (app_PayloadSample app) "" && (app_ICMPSeq app =? 0)
  then None else Some app.

Definition rawPacketContext (f : FlowFeature) : option RawPacketContext :=
  if len (ff_RawPacket f) =? 0 then None else
  let wireLen := if ff_TriggerWireLen f <? ff_CapturedLen f then ff_CapturedLen f else ff_TriggerWireLen f in
  let dir := if seqb (ff_MessageDirection f) "" then "unknown"%string else ff_MessageDirection f in
  let message := zero_RawMessageContext
    <| rm_CaptureTime := eventTime (ff_PacketTimeUsec f) |> <| rm_CaptureTimeUsec := ff_PacketTimeUsec f |>
    <| rm_PacketSequence := ff_PacketSequence f |>
    <| rm_PacketHex := hex_EncodeToString (ff_RawPacket f) |>
    <| rm_PayloadHex := hex_EncodeToString (ff_RawPayload f) |>
    <| rm_PayloadText := PayloadText (ff_RawPayload f) |>
    <| rm_CapturedLength := ff_CapturedLen f |> <| rm_WireLength := wireLen |>
    <| rm_CaptureTruncated := (0 <? ff_CapturedLen f) && (ff_CapturedLen f <? wireLen) |> in
  Some (mkRawPacketContext (eventTime (ff_FirstTime f)) (ff_FirstTime f) (rm_CaptureTime message)
    (rm_CaptureTimeUsec message) (rm_PacketSequence message) dir (ff_DirectionSource f)
    (ff_DirectionConfidence f) (ff_TransportDirection f) (rm_PacketHex message) (rm_PayloadHex message)
    (rm_PayloadText message) (rm_CapturedLength message) (rm_WireLength message) (rm_CaptureTruncated message)
    (if seqb dir "request" then Some message else None)
    (if seqb dir "request" then None else if seqb dir "response" then Some message else None)).

Definition evidenceList (e : DetectEngine) (f : FlowFeature) : list EvidenceFile :=
  if seqb (ff_EvidenceFile f) "" then [] else
  let rel := ff_EvidenceFile f in
  let rel := if negb (seqb (en_evidenceDir e) "")
             then strings_TrimPrefix (strings_TrimPrefix rel (en_evidenceDir e)) "/" else rel in
  [zero_EvidenceFile <| ef_ID := ff_EvidenceFile f |> <| ef_Name := filepath_Base rel |>
     <| ef_Type := "pcap"%string |> <| ef_PathRef := "/api/v1/evidence/" +:+ rel |>
     <| ef_Description := "触发包 PCAP 证据"%string |>].

Definition exfilData (f : FlowFeature) : option DataExfil :=
  match ff_PairStats f with
  | None => None
  | Some ps =>
      if (ps_ClientWireBytes ps =? 0) && (ps_ServerWireBytes ps =? 0) then None else
      let d := zero_DataExfil
        <| de_TotalWireBytes := u64 (ps_ClientWireBytes ps + ps_ServerWireBytes ps) |>
        <| de_TotalPackets := u64 (ps_ClientPackets ps + ps_ServerPackets ps) |>
        <| de_Dest := ff_DstIP f |> <| de_DestPort := ff_DstPort f |> in
      let d := if (ps_ServerWireBytes ps =? 0) && (0 <? ps_ClientWireBytes ps)
               then d <| de_ObservedEntries := ps_ClientPackets ps |> else d in
      Some (if (0 <? ps_ServerWireBytes ps) && (ps_ClientWireBytes ps =? 0)
            then d <| de_ObservedEntries := ps_ServerPackets ps |> else d)
  end.

Definition fillImpactHints (ev : ThreatEvent) (f : FlowFeature) : ThreatEvent :=
  let h := zero_ImpactHints in
  let h := if 0 <? ff_Packets f then h <| ih_AffectedEntries := ff_Packets f |> else h in
  let h := if seqb (ev_Proto ev) "tcp" && (5000 <? ev_DurationMs ev)
           then h <| ih_LatencyObservedMs := ev_DurationMs ev |> <| ih_LatencyDegraded := true |> else h in
  let h := match ff_PairStats f with
           | Some ps =>
               if (u64 (ps_ServerWireBytes ps * 10) <? ps_ClientWireBytes ps) && (0 <? ps_ServerWireBytes ps)
               then h <| ih_ObservedIntent := "exfiltration"%string |>
                      <| ih_IntentBasis := "单向大流量：客户端字节远超服务端"%string |>
               else h
           | None => h
           end in
  if ih_LatencyDegraded h || negb (seqb (ih_ObservedIntent h) "") || (0 <? ih_AffectedEntries h)
  then ev <| ev_ImpactHints := Some h |> else ev.

Definition actionHints (ev : ThreatEvent) : list ActionHint :=
  (if seqb (ev_IOCType ev) "ip"
   then [mkActionHint "block_ip" "immediate" ("命中 IP 型 IOC: " +:+ ev_IOCValue ev) ""] else [])
  ++ (if seqb (ev_IOCType ev) "domain" || seqb (ev_IOCType ev) "url"
      then [mkActionHint "block_domain" "immediate" ("命中域名型 IOC: " +:+ ev_IOCValue ev) ""] else [])
  ++ (if negb (seqb (ev_RecommendedAction ev) "")
      then [mkActionHint (ev_RecommendedAction ev) "followup" "情报推荐动作" ""] else [])
  ++ (if seqb (ev_Severity ev) "critical"
      then [mkActionHint "save_evidence" "immediate" "严重级别事件，需保存证据" (ev_EvidenceFile ev)] else []).

(** A contribution to the score and the reason for it. *)
Definition severity_part (sev : string) : Z * list string :=
  if seqb sev "critical" then (40, ["严重级别 IOC/规则"%string])
  else if seqb sev "high" then (25, ["高级别 IOC/规则"%string])
  else if seqb sev "medium" then (15, ["中级别 IOC/规则"%string])
  else (5, []).
Definition evidence_part (ev : ThreatEvent) (model : string) : Z * list string :=
  match ev_IOCEvidence ev with
  | Some i => if seqb model "threat_intel" then (15, ["情报源置信度: " +:+ ie_Confidence i]) else (0, [])
  | None => (0, [])
  end.
Definition burst_part (ev : ThreatEvent) : Z * list string :=
  if 10 <? ev_LocalHitCount ev then (20, ["窗口内高频命中 " +:+ strconv_Itoa (ev_LocalHitCount ev) +:+ " 次"])
  else if 1 <? ev_LocalHitCount ev then (10, ["窗口内命中 " +:+ strconv_Itoa (ev_LocalHitCount ev) +:+ " 次"])
  else (0, []).
Definition category_part (ev : ThreatEvent) : Z * list string :=
  if negb (seqb (ev_IOCCategory ev) "") && negb (seqb (ev_IOCCategory ev) "network_activity")
  then (10, ["威胁类型: " +:+ ev_IOCCategory ev]) else (0, []).
Definition c2_part (ev : ThreatEvent) : Z * list string :=
  if seqb (ev_EventType ev) "c2" then (10, ["C2 命令与控制通信"%string]) else (0, []).
Definition exfil_part (ev : ThreatEvent) : Z * list string :=
  match ev_DataExfil ev with
  | Some d => if 0 <? de_TotalWireBytes d
              then (10, ["观测到双向流量 " +:+ format_KB (de_TotalWireBytes d) +:+ " KB"]) else (0, [])
  | None => (0, [])
  end.

Definition scoreSeverity (ev : ThreatEvent) (model : string) : SeverityBasis :=
  let '(score, reasons) :=
    foldl (fun '(score, reasons) '(s, r) => (score + s, reasons ++ r)) (0, [])
      [severity_part (ev_Severity ev); evidence_part ev model; burst_part ev; category_part ev; c2_part ev; exfil_part ev] in
  let score := if 100 <? score then 100 else score in
  mkSeverityBasis score reasons.

Definition iocConfidence (hit : ThreatIntel) : string :=
  match ti_Evidence hit with
  | Some i => if negb (seqb (ie_Confidence i) "") then ie_Confidence i else ""
  | None => ""
  end.

Record classAgg := mkClassAgg { ca_count : Z; ca_totalReqs : Z; ca_confidence : Z; ca_sample : string }.

(** One fingerprint hit added to the aggregate of its class. *)
Definition add_class (totalReqs : Z) (aggs : gmap string classAgg) (hit : FingerprintHit) : gmap string classAgg :=
  let c := if seqb (fh_Class hit) "" then fh_Type hit else fh_Class hit in
  let a := default (mkClassAgg 0 totalReqs 0 "") (aggs !! c) in
  <[c := mkClassAgg (ca_count a + 1) (ca_totalReqs a)
           (if ca_confidence a <? fh_Confidence hit then fh_Confidence hit else ca_confidence a)
           (if seqb (ca_sample a) "" && negb (seqb (fh_Sample hit) "") then fh_Sample hit else ca_sample a)]> aggs.

Definition buildAppStats (f : FlowFeature) : option AppStats :=
  if seqb (ff_HTTPMethod f) "" && seqb (ff_HTTPURL f) "" && seqb (ff_HTTPHost f) "" && (ff_HTTPStatusCode f =? 0)
  then None else
  let st := zero_AppStats <| as_WindowStartUsec := ff_FirstTime f |> <| as_WindowEndUsec := ff_LastTime f |>
              <| as_RequestCount := 1 |> in
  let st := if 0 <? ff_HTTPStatusCode f then
              let st := st <| as_ResponseCount := 1 |> in
              if (400 <=? ff_HTTPStatusCode f) && (ff_HTTPStatusCode f <? 500) then st <| as_HTTP4xxCount := 1 |>
              else if 500 <=? ff_HTTPStatusCode f then st <| as_HTTP5xxCount := 1 |> else st
            else st in
  let dur := durationMs (ff_FirstTime f) (ff_LastTime f) in
  let st := if 0 <? dur then st <| as_P95LatencyMs := dur |> <| as_MaxLatencyMs := dur |> else st in
  Some (if negb (seqb (ff_HTTPURL f) "") then
          st <| as_Endpoints := [mkAppEndpoint (ff_HTTPMethod f) (ff_HTTPURL f) (ff_HTTPHost f) 1
                  (if negb (seqb (ff_UserAgent f) "") then [ff_UserAgent f] else []) (ff_HTTPBodySample f)] |>
        else st).

(** The well-known ports, in the order of the switch. *)
Definition service_ports : list (list Z * string) :=
  [([80; 8080; 8000; 8888], "HTTP"); ([443; 8443], "HTTPS"); ([53], "DNS"); ([22], "SSH"); ([21], "FTP");
   ([25; 587], "SMTP"); ([110; 995], "POP3"); ([143; 993], "IMAP"); ([3306], "MySQL"); ([5432], "PostgreSQL");
   ([6379], "Redis"); ([27017], "MongoDB")]%string.
Definition detectService (f : FlowFeature) : string :=
  if negb (seqb (ff_HTTPMethod f) "") then "HTTP"
  else if negb (seqb (ff_DNSQuery f) "") then "DNS"
  else if negb (seqb (ff_SNI f) "") then "HTTPS"
  else match find (fun p => existsb (Z.eqb (ff_DstPort f)) p.1) service_ports with
       | Some p => p.2
       | None => ""
       end.

Section detect.
Context `{GoUnicode} `{RangeOrder}.

Definition buildPayloadFeatures (f : FlowFeature) : list PayloadFeature :=
  let totalReqs := if negb (seqb (ff_HTTPMethod f) "") || negb (seqb (ff_HTTPURL f) "") || (0 <? ff_HTTPStatusCode f)
                   then 1 else 0 in
  let aggs := foldl (add_class totalReqs) ∅ (ff_FingerprintHits f) in
  (fun '(name, a) =>
     zero_PayloadFeature <| pl_Name := name |> <| pl_Count := ca_count a |> <| pl_TotalRequests := ca_totalReqs a |>
       <| pl_Sample := ca_sample a |>
       <| pl_Confidence := if ca_confidence a =? 0 then 80 else ca_confidence a |>)
  <$> range_map aggs.

Definition stableEventID (f : FlowFeature) (parts : list string) : string :=
  let packetOrdinal := if ff_PacketSequence f =? 0 then ff_Packets f else ff_PacketSequence f in
  let keyParts := [strconv_Itoa (ff_FirstTime f); strconv_Itoa (ff_PacketTimeUsec f); strconv_Itoa packetOrdinal;
    ff_SrcIP f; strconv_Itoa (ff_SrcPort f); ff_DstIP f; strconv_Itoa (ff_DstPort f);
    strings_ToLower (ff_Proto f)] ++ parts in
  "evt-" +:+ hex_EncodeToString (take 16 (sha256_Sum256 (byt (strings_Join keyParts "|")))).

(** [e.localHits.Hit(key, time.UnixMicro(...))], times in nanoseconds. *)
Definition stampLocalHits (e : DetectEngine) (ev : ThreatEvent) (flowTimeUsec : Z) (key : string)
    : DetectEngine * ThreatEvent :=
  match en_localHits e with
  | None => (e, ev)
  | Some w =>
      let '(w, (cnt, first)) := counter_Hit w key (i64 flowTimeUsec * 1000) in
      (e <| en_localHits := Some w |>,
       ev <| ev_LocalHitCount := cnt |> <| ev_LocalWindowSec := en_localWindow e |>
          <| ev_LocalFirstSeen := u64 (first / 1000) |> <| ev_LocalScope := "node"%string |>)
  end.

(** The event that the hits of the packet refine. *)
Definition base_event (e : DetectEngine) (f : FlowFeature) : ThreatEvent :=
  let base := zero_ThreatEvent
    <| ev_DeviceID := en_deviceID e |> <| ev_EventTime := ff_LastTime f |>
    <| ev_OccurrenceTime := occurrenceTime (ff_LastTime f) |>
    <| ev_SrcIP := ff_SrcIP f |> <| ev_SrcPort := ff_SrcPort f |>
    <| ev_DstIP := ff_DstIP f |> <| ev_DstPort := ff_DstPort f |>
    <| ev_Proto := ff_Proto f |> <| ev_Protocol := ff_Proto f |>
    <| ev_Direction := direction e (ff_SrcIP f) (ff_DstIP f) |>
    <| ev_FirstTime := ff_FirstTime f |>
    <| ev_DurationMs := durationMs (ff_FirstTime f) (ff_LastTime f) |>
    <| ev_Flows := 1 |> <| ev_Packets := ff_Packets f |> <| ev_Bytes := ff_Bytes f |>
    <| ev_WireBytes := ff_WireBytes f |>
    <| ev_App := appContext f |> <| ev_RawPacket := rawPacketContext f |>
    <| ev_EvidenceFile := ff_EvidenceFile f |> <| ev_PacketTimeUsec := ff_PacketTimeUsec f |>
    <| ev_SchemaVersion := SchemaVersion |> <| ev_SensorVersion := en_sensorVersion e |>
    <| ev_SessionSummary := pairSummary f |> <| ev_DataExfil := exfilData f |>
    <| ev_EvidenceFiles := evidenceList e f |> <| ev_AppStats := buildAppStats f |>
    <| ev_Service := detectService f |> in
  fillImpactHints base f.

Definition fingerprint_id (f : FlowFeature) (hit : FingerprintHit) : string :=
  stableEventID f ["fingerprint"%string; fh_RuleID hit; fh_Type hit; fh_Name hit;
                   strconv_Itoa (fh_MatchFrom hit) +:+ ":" +:+ strconv_Itoa (fh_MatchTo hit)].
Definition intel_id (f : FlowFeature) (hit : ThreatIntel) : string :=
  stableEventID f ["intel"%string; ti_ID hit; ti_Type hit; ti_Value hit; ti_Source hit].

(** The body of the first loop, after the duplicate test. *)
Definition fingerprint_event (e : DetectEngine) (f : FlowFeature) (base : ThreatEvent) (hit : FingerprintHit)
    : DetectEngine * ThreatEvent :=
  let ev := base
    <| ev_EventID := fingerprint_id f hit |>
    <| ev_EventType := fh_Type hit |> <| ev_EventName := fh_Name hit |> <| ev_Severity := "high"%string |>
    <| ev_Model := "threat_fingerprint"%string |> <| ev_ThreatSource := "payload_rule"%string |>
    <| ev_RuleID := fh_RuleID hit |>
    <| ev_ThreatIndex := strconv_Itoa (fh_MatchFrom hit) +:+ "," +:+ strconv_Itoa (fh_MatchTo hit) |>
    <| ev_PacketTimeUsec := fh_HitTimeUsec hit |>
    <| ev_EvidenceFile ::= fun file => if negb (seqb (fh_EvidenceFile hit) "") then fh_EvidenceFile hit else file |> in
  let '(e, ev) := stampLocalHits e ev (ff_LastTime f) ("fp|" +:+ fh_RuleID hit) in
  let ev := ev <| ev_RuleStats := [mkRuleStat (fh_RuleID hit) (fh_Name hit) (u64 (ev_LocalHitCount ev))
                                     (ev_LocalFirstSeen ev) (ff_LastTime f) "high" ""] |> in
  let ev := ev <| ev_ActionHints := actionHints ev |> in
  (e, ev <| ev_SeverityBasis := Some (scoreSeverity ev "threat_fingerprint") |>).

(** The body of the second loop. *)
Definition intel_event (e : DetectEngine) (f : FlowFeature) (base : ThreatEvent) (hit : ThreatIntel)
    : DetectEngine * ThreatEvent :=
  let ev := base
    <| ev_EventID := intel_id f hit |>
    <| ev_EventType := ti_Category hit |> <| ev_EventName := ti_Value hit |> <| ev_Severity := ti_Severity hit |>
    <| ev_Model := "threat_intel"%string |> <| ev_ThreatSource := "intel_" +:+ ti_Type hit |>
    <| ev_IOCType := ti_Type hit |> <| ev_IOCValue := ti_Value hit |> <| ev_IOCCategory := ti_Category hit |>
    <| ev_IOCID := ti_ID hit |> <| ev_IOCSource := ti_Source hit |> <| ev_IOCTags := ti_Tags hit |>
    <| ev_IOCDescription := ti_Description hit |> <| ev_IOCExpireAt := ti_ExpireAt hit |>
    <| ev_RecommendedAction := ti_RecommendedAction hit |> <| ev_IOCEvidence := ti_Evidence hit |>
    <| ev_VolumeRole := volumeRole f (ti_Type hit) (ti_Value hit) |> in
  let localKey := if seqb (ti_ID hit) "" then ti_Type hit +:+ "|" +:+ ti_Value hit else ti_ID hit in
  let '(e, ev) := stampLocalHits e ev (ff_LastTime f) ("ioc|" +:+ localKey) in
  let ev := ev <| ev_IOCStats := [mkIOCStat (ti_Value hit) (ti_Type hit) (u64 (ev_LocalHitCount ev))
                                    (ev_LocalFirstSeen ev) (ff_LastTime f) (ti_Source hit) (iocConfidence hit) []
                                    (ti_ExpireAt hit)] |> in
  let ev := ev <| ev_ActionHints := actionHints ev |> in
  (e, ev <| ev_SeverityBasis := Some (scoreSeverity ev "threat_intel") |>).

(** One iteration: the engine, the identifiers seen and the events so far. *)
Definition detect_step {A : Type} (id_of : A -> string) (make : DetectEngine -> A -> DetectEngine * ThreatEvent)
    (acc : DetectEngine * gset string * list ThreatEvent) (hit : A) : DetectEngine * gset string * list ThreatEvent :=
  let '(e, seen, events) := acc in
  if bool_decide (id_of hit ∈ seen) then acc else
  let '(e, ev) := make e hit in (e, {[id_of hit]} ∪ seen, events ++ [ev]).

Definition Detect (e : DetectEngine) (f : FlowFeature) : DetectEngine * list ThreatEvent :=
  let base := base_event e f in
  let acc := (e, ∅, []) in
  let acc := foldl (detect_step (fingerprint_id f) (fun e hit => fingerprint_event e f base hit)) acc (ff_FingerprintHits f) in
  let payloadFeatures := buildPayloadFeatures f in
  let '(e, _, events) :=
    foldl (detect_step (intel_id f) (fun e hit => intel_event e f base hit)) acc (ff_IntelHits f) in
  (e, (fun ev => ev <| ev_PayloadFeatures := payloadFeatures |>) <$> events).

(** ** Properties *)

Lemma stampLocalHits_fields e ev t key :
  ev_EventID (stampLocalHits e ev t key).2 = ev_EventID ev
  /\ ev_Severity (stampLocalHits e ev t key).2 = ev_Severity ev.
Proof.
  unfold stampLocalHits. destruct (en_localHits e) as [w|]; [|done].
  by destruct (counter_Hit w key _) as [w' [c first]].
Qed.

Definition event_for (id : string) (ev : ThreatEvent) : Prop :=
  ev_EventID ev = id /\ exists b, ev_SeverityBasis ev = Some b /\ 5 <= sb_Score b <= 100.

Lemma score_range ev model : 5 <= sb_Score (scoreSeverity ev model) <= 100.
Proof.
  unfold scoreSeverity. simpl.
  assert (5 <= (severity_part (ev_Severity ev)).1) as H1'.
  { unfold severity_part. repeat case_if; simpl; lia. }
  assert (forall p : Z * list string, p ∈ [evidence_part ev model; burst_part ev; category_part ev; c2_part ev; exfil_part ev] -> 0 <= p.1) as Hp.
  { intros p. rewrite !elem_of_cons. unfold evidence_part, burst_part, category_part, c2_part, exfil_part.
    intros [->|[->|[->|[->|[->|Hn%not_elem_of_nil]]]]]; [..|done];
      repeat match goal with |- context [match ?x with _ => _ end] => destruct x end; simpl; lia. }
  pose proof (Hp _ ltac:(left)) as P1. pose proof (Hp _ ltac:(right; left)) as P2.
  pose proof (Hp _ ltac:(do 2 right; left)) as P3. pose proof (Hp _ ltac:(do 3 right; left)) as P4.
  pose proof (Hp _ ltac:(do 4 right; left)) as P5.
  destruct (severity_part _), (evidence_part _ _), (burst_part _), (category_part _), (c2_part _), (exfil_part _).
  simpl in *. case_if; simpl; lia.
Qed.

Lemma fingerprint_event_for e f base hit : event_for (fingerprint_id f hit) (fingerprint_event e f base hit).2.
Proof.
  unfold fingerprint_event.
  match goal with |- context [stampLocalHits e ?x ?t ?k] => pose proof (stampLocalHits_fields e x t k) as [Hid _];
    destruct (stampLocalHits e x t k) as [e' ev'] end.
  split; [exact Hid|]. eexists. split; [reflexivity|]. apply score_range.
Qed.
Lemma intel_event_for e f base hit : event_for (intel_id f hit) (intel_event e f base hit).2.
Proof.
  unfold intel_event.
  match goal with |- context [stampLocalHits e ?x ?t ?k] => pose proof (stampLocalHits_fields e x t k) as [Hid _];
    destruct (stampLocalHits e x t k) as [e' ev'] end.
  split; [exact Hid|]. eexists. split; [reflexivity|]. apply score_range.
Qed.

(** What a loop of Detect maintains: the events have distinct identifiers,
    those of the hits met so far, each with a score. *)
Definition detect_inv (ids : list string) (acc : DetectEngine * gset string * list ThreatEvent) : Prop :=
  let '(_, seen, events) := acc in
  NoDup (ev_EventID <$> events)
  /\ (forall id, id ∈ seen <-> id ∈ ids) /\ (forall id, id ∈ seen <-> id ∈ ev_EventID <$> events)
  /\ Forall (fun ev => exists b, ev_SeverityBasis ev = Some b /\ 5 <= sb_Score b <= 100) events.

Lemma detect_loop_inv {A} (id_of : A -> string) make ids acc (hits : list A) :
  (forall e hit, event_for (id_of hit) (make e hit).2) -> detect_inv ids acc ->
  detect_inv (ids ++ (id_of <$> hits)) (foldl (detect_step id_of make) acc hits).
Proof.
  intros Hmake Hacc. apply (foldl_prefix_ind (fun pre acc => detect_inv (ids ++ (id_of <$> pre)) acc)).
  { by rewrite app_nil_r. }
  intros pre hit post [[e seen] events] _ (Hnd & Hseen & Hev & Hall). unfold detect_step.
  rewrite fmap_app, app_assoc. change (id_of <$> [hit]) with [id_of hit].
  destruct (decide (id_of hit ∈ seen)) as [Hin|Hin].
  - rewrite bool_decide_eq_true_2 by done. split; [done|]. split; [|done].
    intros id. rewrite elem_of_app, list_elem_of_singleton, <-Hseen. naive_solver.
  - rewrite bool_decide_eq_false_2 by done. specialize (Hmake e hit). destruct (make e hit) as [e' ev].
    destruct Hmake as [Hid Hb]. simpl in Hid, Hb. unfold detect_inv. rewrite fmap_app. simpl. rewrite Hid.
    split; [|split; [|split]].
    + apply NoDup_app. split; [done|]. split; [|apply NoDup_singleton].
      intros x Hx ->%list_elem_of_singleton. apply Hin. by apply Hev.
    + intros id. rewrite elem_of_union, elem_of_singleton, elem_of_app, list_elem_of_singleton, Hseen. tauto.
    + intros id. rewrite elem_of_union, elem_of_singleton, elem_of_app, list_elem_of_singleton, Hev. tauto.
    + apply Forall_app. split; [done|]. by constructor.
Qed.
End detect.

Lemma Detect_spec `{GoUnicode} (O : RangeOrder) e f e' events :
  Detect e f = (e', events) ->
  NoDup (ev_EventID <$> events)
  /\ (forall id, id ∈ ev_EventID <$> events <->
       id ∈ (fingerprint_id f <$> ff_FingerprintHits f) ++ (intel_id f <$> ff_IntelHits f))
  /\ Forall (fun ev => exists b, ev_SeverityBasis ev = Some b /\ 5 <= sb_Score b <= 100) events.
Proof.
  unfold Detect. cbv zeta. set (base := base_event e f).
  assert (detect_inv [] (e, ∅, [])) as H0 by (repeat split; try constructor; set_solver).
  pose proof (detect_loop_inv (fingerprint_id f) (fun e hit => fingerprint_event e f base hit) [] _
    (ff_FingerprintHits f) ltac:(intros; apply fingerprint_event_for) H0) as H1'.
  pose proof (detect_loop_inv (intel_id f) (fun e hit => intel_event e f base hit) _ _
    (ff_IntelHits f) ltac:(intros; apply intel_event_for) H1') as H2'.
  destruct (foldl _ _ (ff_IntelHits f)) as [[e2 seen] evs]. destruct H2' as (Hnd & Hseen & Hev & Hall).
  intros [= <- <-].
  assert (forall g, (forall ev, ev_EventID (g ev) = ev_EventID ev) -> ev_EventID <$> (g <$> evs) = ev_EventID <$> evs) as Hg.
  { intros g Hgev. rewrite <-list_fmap_compose. apply list_fmap_ext. intros ? ? _. apply Hgev. }
  rewrite Hg by done. split; [done|]. split; [intros id; by rewrite <-Hev, Hseen|].
  apply Forall_fmap. eapply Forall_impl; [exact Hall|]. done.
Qed.

(** One event per distinct hit: Detect emits events with pairwise
    different identifiers, and the identifiers are exactly those of the
    fingerprint and intelligence hits of the packet, so no hit is dropped,
    invented or reported twice; every event has a severity score between 5
    and 100. *)
Theorem Detect_events `{GoUnicode} (O : RangeOrder) e f e' events :
  Detect e f = (e', events) ->
  NoDup (ev_EventID <$> events)
  /\ (forall id, id ∈ ev_EventID <$> events <->
       id ∈ (fingerprint_id f <$> ff_FingerprintHits f) ++ (intel_id f <$> ff_IntelHits f))
  /\ Forall (fun ev => exists b, ev_SeverityBasis ev = Some b /\ 5 <= sb_Score b <= 100) events.
Proof. apply Detect_spec. Qed.

(** Direction is consistent with reversal: exchanging source and
    destination turns outbound into inbound and back, and leaves lateral,
    external and unknown as they are. *)
Theorem direction_reversed e src dst :
  direction e dst src
  = (if seqb (direction e src dst) "outbound" then "inbound"
     else if seqb (direction e src dst) "inbound" then "outbound" else direction e src dst)%string.
Proof.
  unfold direction. destruct (len (en_homeNet e) =? 0); [done|].
  by destruct (ipInNets src (en_homeNet e)), (ipInNets dst (en_homeNet e)).
Qed.

#[local] Existing Instance ascii_unicode.

(** A packet with one rule hit listed twice. *)
Definition demo_feature : FlowFeature :=
  zero_FlowFeature <| ff_LastTime := 5 |>
    <| ff_FingerprintHits := [zero_FingerprintHit <| fh_RuleID := "r1"%string |>;
                              zero_FingerprintHit <| fh_RuleID := "r1"%string |>] |>.

Lemma Detect_events_witness :
  exists e' events, @Detect _ canonical_range (detector_New "dev") demo_feature = (e', events)
  /\ length events = 1%nat /\ NoDup (ev_EventID <$> events).
Proof.
  assert (length (@Detect _ canonical_range (detector_New "dev") demo_feature).2 = 1%nat) as Hl
    by (vm_compute; reflexivity).
  destruct (@Detect _ canonical_range (detector_New "dev") demo_feature) as [e' events] eqn:E.
  exists e', events. split; [reflexivity|]. split; [exact Hl|].
  exact (proj1 (Detect_events canonical_range (detector_New "dev") demo_feature e' events E)).
Defined.
