(* ===== verification/Json.v ===== *)
(** * Json: encoding/json and encoding/base64 as the queue uses them

    Go values as [reflect] shows them to the marshaller ([gval]), their JSON
    text ([json_Marshal]), the syntax check ([json_Valid]), the one-level
    splitting of objects and arrays on which the typed decoders are built, and
    the standard base64 encoding of a []byte.

    Of encoding/json the nesting limit of 10000 is left out: no document of
    the queue comes near it. *)

From S2P Require Import Prelude GoStrings GoNet.

(** ** Values *)

(** The kinds that reach the queue's writer.  A struct lists its exported
    fields with the name and the [omitempty] option of the tag; a map lists its
    entries in the order of its keys, which both encoders sort. *)
Inductive gval :=
  | VNil
  | VBool (b : bool)
  | VInt (z : Z)
  | VNumber (n : bytes)
  | VString (s : bytes)
  | VPtr (v : gval)
  | VStruct (fs : list (bytes * bool * gval))
  | VMap (kvs : list (bytes * gval))
  | VSlice (vs : list gval).

(** [isEmptyValue] of encoding/json, to which [emptyValue] of content.go is
    identical. *)
Definition emptyValue (v : gval) : bool :=
  match v with
  | VNil => true
  | VBool b => negb b
  | VInt z => z =? 0
  | VNumber n => match n with [] => true | _ => false end
  | VString s => match s with [] => true | _ => false end
  | VPtr _ => false
  | VStruct _ => false
  | VMap kvs => match kvs with [] => true | _ => false end
  | VSlice vs => match vs with [] => true | _ => false end
  end.

(** ** Strings *)

(** Backslash escapes; [<], [>] and [&] are escaped for HTML. *)
Definition json_escape (c : ascii) : bytes :=
  if (bv c =? 34) || (bv c =? 92) then [chr 92; c]
  else if bv c =? 8 then byt "\b"
  else if bv c =? 12 then byt "\f"
  else if bv c =? 10 then byt "\n"
  else if bv c =? 13 then byt "\r"
  else if bv c =? 9 then byt "\t"
  else if (bv c <? 32) || (bv c =? 60) || (bv c =? 62) || (bv c =? 38) then byt "\u00" ++ hex_byte c
  else [c].
Definition is_line_sep (c0 c1 c2 : ascii) : bool :=
  (bv c0 =? 226) && (bv c1 =? 128) && ((bv c2 =? 168) || (bv c2 =? 169)).
Definition line_sep (c2 : ascii) : bytes := byt (if bv c2 =? 168 then "\u2028" else "\u2029").

Fixpoint quote_body (b : bytes) : bytes :=
  match b with
  | [] => []
  | c0 :: r0 =>
      let bad (_ : unit) := byt "\ufffd" ++ quote_body r0 in
      if bv c0 <? 128 then json_escape c0 ++ quote_body r0
      else if (194 <=? bv c0) && (bv c0 <=? 223) then
        match r0 with
        | c1 :: r1 => if utf8_second (bv c0) (bv c1) then [c0; c1] ++ quote_body r1 else bad tt
        | [] => bad tt
        end
      else if (224 <=? bv c0) && (bv c0 <=? 239) then
        match r0 with
        | c1 :: c2 :: r2 =>
            if utf8_second (bv c0) (bv c1) && utf8_cont c2
            then (if is_line_sep c0 c1 c2 then line_sep c2 else [c0; c1; c2]) ++ quote_body r2
            else bad tt
        | _ => bad tt
        end
      else if (240 <=? bv c0) && (bv c0 <=? 244) then
        match r0 with
        | c1 :: c2 :: c3 :: r3 =>
            if utf8_second (bv c0) (bv c1) && utf8_cont c2 && utf8_cont c3
            then [c0; c1; c2; c3] ++ quote_body r3 else bad tt
        | _ => bad tt
        end
      else bad tt
  end.
Definition json_quote (s : bytes) : bytes := chr 34 :: quote_body s ++ [chr 34].

(** ** json.Marshal *)

Fixpoint comma_join (l : list bytes) : bytes :=
  match l with
  | [] => []
  | [x] => x
  | x :: r => x ++ chr 44 :: comma_join r
  end.
Definition braces (l : list bytes) : bytes := chr 123 :: comma_join l ++ [chr 125].
Definition brackets (l : list bytes) : bytes := chr 91 :: comma_join l ++ [chr 93].
(** A member whose value is already text. *)
Definition json_member (k v : bytes) : bytes := json_quote k ++ chr 58 :: v.

Fixpoint json_Marshal (v : gval) : bytes :=
  match v with
  | VNil => byt "null"
  | VBool b => byt (if b then "true" else "false")
  | VInt z => byt (strconv_Itoa z)
  | VNumber n => n
  | VString s => json_quote s
  | VPtr w => json_Marshal w
  | VStruct fs =>
      braces ((fix emit (fs : list (bytes * bool * gval)) : list bytes :=
         match fs with
         | [] => []
         | (name, omit, w) :: r =>
             if omit && emptyValue w then emit r else json_member name (json_Marshal w) :: emit r
         end) fs)
  | VMap kvs =>
      braces ((fix emit (kvs : list (bytes * gval)) : list bytes :=
         match kvs with
         | [] => []
         | (k, w) :: r => json_member k (json_Marshal w) :: emit r
         end) kvs)
  | VSlice vs =>
      brackets ((fix emit (vs : list gval) : list bytes :=
         match vs with
         | [] => []
         | w :: r => json_Marshal w :: emit r
         end) vs)
  end.

(** ** The scanner *)

Definition json_space (c : ascii) : bool :=
  (bv c =? 32) || (bv c =? 9) || (bv c =? 10) || (bv c =? 13).
Fixpoint skip_ws (b : bytes) : bytes :=
  match b with
  | c :: r => if json_space c then skip_ws r else b
  | [] => []
  end.
Definition is_digit (c : ascii) : bool := (48 <=? bv c) && (bv c <=? 57).
Fixpoint skip_digits (b : bytes) : bytes :=
  match b with
  | c :: r => if is_digit c then skip_digits r else b
  | [] => []
  end.

(** At least one digit. *)
Definition scan_digits (b : bytes) : option bytes :=
  match b with
  | c :: r => if is_digit c then Some (skip_digits r) else None
  | [] => None
  end.
Definition scan_int (b : bytes) : option bytes :=
  match b with
  | c :: r => if bv c =? 48 then Some r else scan_digits b
  | [] => None
  end.
Definition scan_frac (b : bytes) : option bytes :=
  match b with
  | c :: r => if bv c =? 46 then scan_digits r else Some b
  | [] => Some b
  end.
Definition scan_exp (b : bytes) : option bytes :=
  match b with
  | c :: r =>
      if (bv c =? 101) || (bv c =? 69) then
        match r with
        | s :: r' => if (bv s =? 43) || (bv s =? 45) then scan_digits r' else scan_digits r
        | [] => None
        end
      else Some b
  | [] => Some b
  end.
Definition scan_number (b : bytes) : option bytes :=
  let b' := match b with c :: r => if bv c =? 45 then r else b | [] => b end in
  r1 ← scan_int b'; r2 ← scan_frac r1; scan_exp r2.

(** The bytes after the closing quote of a string literal. *)
Fixpoint scan_string (b : bytes) : option bytes :=
  match b with
  | [] => None
  | c :: r =>
      if bv c =? 34 then Some r
      else if bv c =? 92 then
        match r with
        | e :: r' =>
            if bool_decide (bv e ∈ [98; 102; 110; 114; 116; 92; 47; 34]) then scan_string r'
            else if bv e =? 117 then
              match r' with
              | h1 :: h2 :: h3 :: h4 :: r'' =>
                  if forallb (fun h => bool_decide (is_Some (hex_value h))) [h1; h2; h3; h4]
                  then scan_string r'' else None
              | _ => None
              end
            else None
        | [] => None
        end
      else if bv c <? 32 then None
      else scan_string r
  end.

Definition scan_literal (lit : string) (b : bytes) : option bytes :=
  if bytes_HasPrefix b (byt lit) then Some (drop (length (byt lit)) b) else None.

(** [SValue] expects a value, [SMembers] the members and [SElems] the elements
    that remain of a non-empty object or array. *)
Inductive scan_mode := SValue | SMembers | SElems.

Fixpoint scan (fuel : nat) (m : scan_mode) (b : bytes) : option bytes :=
  match fuel with
  | O => None
  | S f =>
      match m with
      | SValue =>
          match skip_ws b with
          | c :: r =>
              if bv c =? 123 then
                match skip_ws r with
                | d :: r' => if bv d =? 125 then Some r' else scan f SMembers r
                | [] => None
                end
              else if bv c =? 91 then
                match skip_ws r with
                | d :: r' => if bv d =? 93 then Some r' else scan f SElems r
                | [] => None
                end
              else if bv c =? 34 then scan_string r
              else if bv c =? 116 then scan_literal "true" (c :: r)
              else if bv c =? 102 then scan_literal "false" (c :: r)
              else if bv c =? 110 then scan_literal "null" (c :: r)
              else scan_number (c :: r)
          | [] => None
          end
      | SMembers =>
          match skip_ws b with
          | q :: r =>
              if bv q =? 34 then
                r1 ← scan_string r;
                match skip_ws r1 with
                | d :: r2 =>
                    if bv d =? 58 then
                      r3 ← scan f SValue r2;
                      match skip_ws r3 with
                      | e :: r4 =>
                          if bv e =? 44 then scan f SMembers r4
                          else if bv e =? 125 then Some r4 else None
                      | [] => None
                      end
                    else None
                | [] => None
                end
              else None
          | [] => None
          end
      | SElems =>
          r1 ← scan f SValue b;
          match skip_ws r1 with
          | e :: r2 =>
              if bv e =? 44 then scan f SElems r2
              else if bv e =? 93 then Some r2 else None
          | [] => None
          end
      end
  end.

(** Every two calls of [scan] consume a byte. *)
Definition scan_fuel (b : bytes) : nat := S (S (2 * length b)).
Definition scan_value (b : bytes) : option bytes := scan (scan_fuel b) SValue b.

Definition json_Valid (b : bytes) : bool :=
  match scan_value b with
  | Some r => bool_decide (skip_ws r = [])
  | None => false
  end.

(** [json.Compact] with HTML escaping, which Marshal applies to a RawMessage:
    spaces between tokens go, [<], [>], [&] and the line separators become
    escapes.  [instr] says that the bytes are inside a string literal. *)
Fixpoint compact_bytes (instr : bool) (b : bytes) : bytes :=
  match b with
  | [] => []
  | c :: r =>
      let esc := (bv c =? 60) || (bv c =? 62) || (bv c =? 38) in
      let text := if esc then byt "\u00" ++ hex_byte c else [c] in
      if instr then
        match r with
        | e :: r' =>
            if bv c =? 92 then c :: e :: compact_bytes true r'
            else match r' with
                 | e2 :: r'' =>
                     if is_line_sep c e e2 then line_sep e2 ++ compact_bytes true r''
                     else text ++ compact_bytes (negb (bv c =? 34)) r
                 | [] => text ++ compact_bytes (negb (bv c =? 34)) r
                 end
        | [] => text
        end
      else if json_space c then compact_bytes false r
      else c :: compact_bytes (bv c =? 34) r
  end.
Definition json_Compact (b : bytes) : option bytes :=
  if json_Valid b then Some (compact_bytes false b) else None.

(** ** Decoding *)

Definition four_hex (h1 h2 h3 h4 : ascii) : Z :=
  let d h := default 0 (hex_value h) in d h1 * 4096 + d h2 * 256 + d h3 * 16 + d h4.
Definition rune_error : bytes := [chr 239; chr 191; chr 189].
(** [utf8.AppendRune] of a code point that is not a surrogate. *)
Definition encode_rune (r : Z) : bytes :=
  if r <? 128 then [chr r]
  else if r <? 2048 then [chr (192 + r / 64); chr (128 + r mod 64)]
  else if r <? 65536 then [chr (224 + r / 4096); chr (128 + r / 64 mod 64); chr (128 + r mod 64)]
  else [chr (240 + r / 262144); chr (128 + r / 4096 mod 64); chr (128 + r / 64 mod 64);
        chr (128 + r mod 64)].
Definition is_surrogate (r : Z) : bool := (55296 <=? r) && (r <? 57344).
Definition simple_escape (e : ascii) : ascii :=
  if bv e =? 98 then chr 8
  else if bv e =? 102 then chr 12
  else if bv e =? 110 then chr 10
  else if bv e =? 114 then chr 13
  else if bv e =? 116 then chr 9
  else e.

(** The contents of a scanned literal; what is not UTF-8 and unpaired
    surrogates become U+FFFD. *)
Definition unquote_step (rec : bytes -> bytes) (b : bytes) : bytes :=
  match b with
  | [] => []
  | c0 :: r0 =>
      let bad (_ : unit) := rune_error ++ rec r0 in
      if bv c0 =? 92 then
        match r0 with
        | e :: r1 =>
            if bv e =? 117 then
              match r1 with
              | h1 :: h2 :: h3 :: h4 :: r2 =>
                  let hi := four_hex h1 h2 h3 h4 in
                  if is_surrogate hi then
                    match r2 with
                    | s :: u :: l1 :: l2 :: l3 :: l4 :: r3 =>
                        let lo := four_hex l1 l2 l3 l4 in
                        if (bv s =? 92) && (bv u =? 117) && (hi <? 56320)
                           && (56320 <=? lo) && (lo <? 57344)
                        then encode_rune ((hi - 55296) * 1024 + (lo - 56320) + 65536) ++ rec r3
                        else rune_error ++ rec r2
                    | _ => rune_error ++ rec r2
                    end
                  else encode_rune hi ++ rec r2
              | _ => []
              end
            else simple_escape e :: rec r1
        | [] => []
        end
      else if bv c0 <? 128 then c0 :: rec r0
      else if (194 <=? bv c0) && (bv c0 <=? 223) then
        match r0 with
        | c1 :: r1 => if utf8_second (bv c0) (bv c1) then [c0; c1] ++ rec r1 else bad tt
        | [] => bad tt
        end
      else if (224 <=? bv c0) && (bv c0 <=? 239) then
        match r0 with
        | c1 :: c2 :: r2 =>
            if utf8_second (bv c0) (bv c1) && utf8_cont c2
            then [c0; c1; c2] ++ rec r2 else bad tt
        | _ => bad tt
        end
      else if (240 <=? bv c0) && (bv c0 <=? 244) then
        match r0 with
        | c1 :: c2 :: c3 :: r3 =>
            if utf8_second (bv c0) (bv c1) && utf8_cont c2 && utf8_cont c3
            then [c0; c1; c2; c3] ++ rec r3 else bad tt
        | _ => bad tt
        end
      else bad tt
  end.
Fixpoint unquote (b : bytes) : bytes := unquote_step unquote b.

(** The bytes of [b] before the suffix [r]. *)
Definition before (b r : bytes) : bytes := take (length b - length r) b.

(** The decoded string at the head of [b], after its opening quote. *)
Definition read_string (b : bytes) : option (bytes * bytes) :=
  r ← scan_string b; Some (unquote (take (length b - length r - 1) b), r).

(** Key and value text of the members that remain of an object. *)
Fixpoint members (fuel : nat) (b : bytes) : option (list (bytes * bytes)) :=
  match fuel with
  | O => None
  | S f =>
      match skip_ws b with
      | q :: r =>
          if bv q =? 34 then
            '(k, r1) ← read_string r;
            match skip_ws r1 with
            | d :: r2 =>
                if bv d =? 58 then
                  let t := skip_ws r2 in
                  r3 ← scan_value t;
                  match skip_ws r3 with
                  | e :: r4 =>
                      if bv e =? 44 then rest ← members f r4; Some ((k, before t r3) :: rest)
                      else if bv e =? 125 then Some [(k, before t r3)] else None
                  | [] => None
                  end
                else None
            | [] => None
            end
          else None
      | [] => None
      end
  end.
Fixpoint elements (fuel : nat) (b : bytes) : option (list bytes) :=
  match fuel with
  | O => None
  | S f =>
      let t := skip_ws b in
      r1 ← scan_value t;
      match skip_ws r1 with
      | e :: r2 =>
          if bv e =? 44 then rest ← elements f r2; Some (before t r1 :: rest)
          else if bv e =? 93 then Some [before t r1] else None
      | [] => None
      end
  end.

(** The shape of the text of one value. *)
Inductive jshape :=
  | JNull
  | JObject (ms : list (bytes * bytes))
  | JArray (es : list bytes)
  | JString (s : bytes)
  | JOther (t : bytes).
Definition json_shape (b : bytes) : option jshape :=
  match skip_ws b with
  | c :: r =>
      if bv c =? 123 then
        match skip_ws r with
        | d :: _ => if bv d =? 125 then Some (JObject []) else JObject <$> members (length b) r
        | [] => None
        end
      else if bv c =? 91 then
        match skip_ws r with
        | d :: _ => if bv d =? 93 then Some (JArray []) else JArray <$> elements (length b) r
        | [] => None
        end
      else if bv c =? 34 then '(s, _) ← read_string r; Some (JString s)
      else if bv c =? 110 then Some JNull
      else Some (JOther b)
  | [] => None
  end.

(** Names are matched up to case folding: besides the letters, the Kelvin sign
    folds to k and the long s to s. *)
Fixpoint fold_name (b : bytes) : bytes :=
  match b with
  | c0 :: r0 =>
      match r0 with
      | c1 :: r1 =>
          if (bv c0 =? 197) && (bv c1 =? 191) then chr 115 :: fold_name r1
          else match r1 with
               | c2 :: r2 =>
                   if (bv c0 =? 226) && (bv c1 =? 132) && (bv c2 =? 170) then chr 107 :: fold_name r2
                   else lower_byte c0 :: fold_name r0
               | [] => lower_byte c0 :: fold_name r0
               end
      | [] => [lower_byte c0]
      end
  | [] => []
  end.
(** [k] names the field whose (lower-case) tag is [name]. *)
Definition names (k : bytes) (name : string) : bool := bool_decide (fold_name k = byt name).

(** [json.Unmarshal] into the types of the queue's records: null leaves the
    value as it is, another shape is an error. *)
Definition json_into_string (old : bytes) (t : bytes) : option bytes :=
  match json_shape t with
  | Some JNull => Some old
  | Some (JString s) => Some s
  | _ => None
  end.
Definition json_into_slice {A : Type} (f : bytes -> option A) (t : bytes) : option (list A) :=
  match json_shape t with
  | Some JNull => Some []
  | Some (JArray es) => mapM f es
  | _ => None
  end.
Definition json_into_struct {A : Type} (old : A) (f : A -> bytes * bytes -> option A) (t : bytes) : option A :=
  match json_shape t with
  | Some JNull => Some old
  | Some (JObject ms) => foldr (fun m k a => f a m ≫= k) Some ms old
  | _ => None
  end.
(** An integer literal between the bounds of the Go type. *)
Definition json_into_range (lo hi : Z) (old : Z) (t : bytes) : option Z :=
  match json_shape t with
  | Some JNull => Some old
  | Some (JOther b) =>
      let '(neg, ds) := match b with c :: r => if bv c =? 45 then (true, r) else (false, b) | [] => (false, b) end in
      match ds with
      | [] => None
      | _ => z ← parse_digits 0 ds;
             let z := if neg : bool then - z else z in
             if (lo <=? z) && (z <=? hi) then Some z else None
      end
  | _ => None
  end.
Definition json_into_int : Z -> bytes -> option Z := json_into_range minInt64 maxInt64.
Definition json_into_bool (old : bool) (t : bytes) : option bool :=
  match json_shape t with
  | Some JNull => Some old
  | Some (JOther b) =>
      if bool_decide (b = byt "true") then Some true
      else if bool_decide (b = byt "false") then Some false else None
  | _ => None
  end.

(** ** encoding/base64, the standard alphabet with padding *)

Definition b64_digit (z : Z) : ascii :=
  if z <? 26 then chr (65 + z)
  else if z <? 52 then chr (71 + z)
  else if z <? 62 then chr (z - 4)
  else if z =? 62 then chr 43 else chr 47.
Definition b64_value (c : ascii) : option Z :=
  let z := bv c in
  if (65 <=? z) && (z <=? 90) then Some (z - 65)
  else if (97 <=? z) && (z <=? 122) then Some (z - 71)
  else if (48 <=? z) && (z <=? 57) then Some (z + 4)
  else if z =? 43 then Some 62
  else if z =? 47 then Some 63
  else None.
Fixpoint base64_Encode (b : bytes) : bytes :=
  match b with
  | [] => []
  | [x] => [b64_digit (bv x / 4); b64_digit (bv x mod 4 * 16); chr 61; chr 61]
  | [x; y] => [b64_digit (bv x / 4); b64_digit (bv x mod 4 * 16 + bv y / 16);
               b64_digit (bv y mod 16 * 4); chr 61]
  | x :: y :: z :: r =>
      [b64_digit (bv x / 4); b64_digit (bv x mod 4 * 16 + bv y / 16);
       b64_digit (bv y mod 16 * 4 + bv z / 64); b64_digit (bv z mod 64)] ++ base64_Encode r
  end.
Fixpoint b64_quads (b : bytes) : option bytes :=
  match b with
  | [] => Some []
  | a :: b :: c :: d :: r =>
      x ← b64_value a; y ← b64_value b;
      if (bv c =? 61) && (bv d =? 61) then
        match r with [] => Some [chr (x * 4 + y / 16)] | _ => None end
      else
        z ← b64_value c;
        if bv d =? 61 then
          match r with [] => Some [chr (x * 4 + y / 16); chr (y mod 16 * 16 + z / 4)] | _ => None end
        else
          w ← b64_value d;
          rest ← b64_quads r;
          Some (chr (x * 4 + y / 16) :: chr (y mod 16 * 16 + z / 4) :: chr (z mod 4 * 64 + w) :: rest)
  | _ => None
  end.
(** Line breaks in the input are skipped. *)
Definition base64_Decode (b : bytes) : option bytes :=
  b64_quads (List.filter (fun c => negb ((bv c =? 10) || (bv c =? 13))) b).
Definition json_into_bytes (t : bytes) : option bytes :=
  match json_shape t with
  | Some JNull => Some []
  | Some (JString s) => base64_Decode s
  | _ => None
  end.

(** ** Strings: quoting, scanning, compacting and unquoting *)

(** A well-formed multi-byte sequence. *)
Inductive utf8_chunk : bytes -> Prop :=
  | chunk2 c0 c1 : 194 <= bv c0 <= 223 -> utf8_second (bv c0) (bv c1) = true -> utf8_chunk [c0; c1]
  | chunk3 c0 c1 c2 : 224 <= bv c0 <= 239 -> utf8_second (bv c0) (bv c1) = true -> utf8_cont c2 = true ->
      utf8_chunk [c0; c1; c2]
  | chunk4 c0 c1 c2 c3 : 240 <= bv c0 <= 244 -> utf8_second (bv c0) (bv c1) = true -> utf8_cont c2 = true ->
      utf8_cont c3 = true -> utf8_chunk [c0; c1; c2; c3].

(** [quoted s q]: [q] is the body of the literal for [s]. *)
Inductive quoted : bool -> bytes -> bytes -> Prop :=
  | q_nil : quoted true [] []
  | q_ascii v c s q : bv c < 128 -> quoted v s q -> quoted v (c :: s) (json_escape c ++ q)
  | q_chunk v k s q : utf8_chunk k -> (forall a b c, k = [a; b; c] -> is_line_sep a b c = false) ->
      quoted v s q -> quoted v (k ++ s) (k ++ q)
  | q_sep v a b c s q : is_line_sep a b c = true -> quoted v s q ->
      quoted v ([a; b; c] ++ s) (line_sep c ++ q)
  | q_bad v c s q : quoted v s q -> quoted false (c :: s) (byt "\ufffd" ++ q).

Lemma quote_body_quoted s : quoted (utf8_Valid s) s (quote_body s).
Proof.
  remember (length s) as n eqn:Hn; revert s Hn.
  induction n as [n IH] using lt_wf_ind; intros [|c0 r0] ->; [constructor|].
  assert (IHt : forall t, (length t <= length r0)%nat -> quoted (utf8_Valid t) t (quote_body t)).
  { intros t Ht; apply (IH (length t)); [cbn [length]; lia | done]. }
  cbn [utf8_Valid quote_body].
  destruct (bv c0 <? 128) eqn:E; [b2p; apply q_ascii; auto|].
  destruct ((194 <=? bv c0) && (bv c0 <=? 223)) eqn:E2.
  { destruct r0 as [|c1 r1]; [apply q_bad with (v := true); constructor|].
    destruct (utf8_second _ _) eqn:Es; [|eapply q_bad; eauto]. b2p.
    apply (q_chunk _ [c0; c1]); [by constructor|congruence|apply IHt; simpl; lia]. }
  destruct ((224 <=? bv c0) && (bv c0 <=? 239)) eqn:E3.
  { destruct r0 as [|c1 [|c2 r2]]; try (eapply q_bad; eauto; fail).
    destruct (utf8_second _ _ && utf8_cont c2) eqn:Es; [|eapply q_bad; eauto].
    destruct (is_line_sep c0 c1 c2) eqn:El; cbn [andb]; b2p.
    - apply (q_sep _ c0 c1 c2); [done|apply IHt; simpl; lia].
    - apply (q_chunk _ [c0; c1; c2]); [by constructor|congruence|apply IHt; simpl; lia]. }
  destruct ((240 <=? bv c0) && (bv c0 <=? 244)) eqn:E4; [|eapply q_bad; eauto].
  destruct r0 as [|c1 [|c2 [|c3 r3]]]; try (eapply q_bad; eauto; fail).
  destruct (utf8_second _ _ && utf8_cont c2 && utf8_cont c3) eqn:Es; [|eapply q_bad; eauto].
  cbn [andb]; b2p.
  apply (q_chunk _ [c0; c1; c2; c3]); [by constructor|congruence|apply IHt; simpl; lia].
Qed.

Lemma utf8_chunk_high k : utf8_chunk k -> Forall (fun c => 128 <= bv c) k.
Proof.
  intros H; inv H; repeat (apply Forall_cons; split); try apply Forall_nil_2; unfold utf8_second, utf8_cont in *;
    repeat match goal with H : (if ?b then _ else _) = true |- _ => destruct b end; b2p; lia.
Qed.

(** A fact about all ASCII bytes is checked on each of them. *)
Lemma ascii_all (P : ascii -> bool) :
  forallb (fun i => P (chr (Z.of_nat i))) (seq 0 128) = true -> forall c, bv c < 128 -> P c = true.
Proof.
  intros H c Hc. pose proof (bv_range c). rewrite forallb_forall in H.
  specialize (H (Z.to_nat (bv c))). rewrite Z2Nat.id, chr_bv in H by lia. apply H, in_seq. lia.
Qed.

Definition scans_over (k : bytes) : Prop := forall r, scan_string (k ++ r) = scan_string r.

Lemma scans_over_app k1 k2 : scans_over k1 -> scans_over k2 -> scans_over (k1 ++ k2).
Proof. intros H1 H2 r. by rewrite <- app_assoc, H1, H2. Qed.

Lemma scan_high c r : 128 <= bv c -> scan_string (c :: r) = scan_string r.
Proof. intros H. cbn [scan_string]. repeat case_if; b2p; try lia; done. Qed.

Lemma scan_high_all k : Forall (fun c => 128 <= bv c) k -> scans_over k.
Proof. intros H r. induction H; [done|]. cbn [app]. by rewrite scan_high. Qed.

(** The escape of an ASCII byte: the forms the scanner and the decoder meet. *)
Definition plain_hex (h : ascii) : bool :=
  bool_decide (is_Some (hex_value h)) && bool_decide (bv h ∉ [34; 92; 60; 62; 38]) && (32 <=? bv h) && (bv h <? 128).
Inductive escape_form (c : ascii) : bytes -> Prop :=
  | esc_self : 32 <= bv c < 128 -> bv c ∉ [34; 92; 60; 62; 38] -> escape_form c [c]
  | esc_two e : bv e ∈ [98; 102; 110; 114; 116; 92; 47; 34] -> simple_escape e = c -> escape_form c [chr 92; e]
  | esc_hex h1 h2 h3 h4 : forallb plain_hex [h1; h2; h3; h4] = true ->
      is_surrogate (four_hex h1 h2 h3 h4) = false -> encode_rune (four_hex h1 h2 h3 h4) = [c] ->
      escape_form c [chr 92; chr 117; h1; h2; h3; h4].

Definition escape_formb (c : ascii) (q : bytes) : bool :=
  match q with
  | [d] => bool_decide (d = c) && (32 <=? bv c) && (bv c <? 128) && bool_decide (bv c ∉ [34; 92; 60; 62; 38])
  | [a; e] => bool_decide (a = chr 92) && bool_decide (bv e ∈ [98; 102; 110; 114; 116; 92; 47; 34])
              && bool_decide (simple_escape e = c)
  | [a; u; h1; h2; h3; h4] =>
      bool_decide (a = chr 92) && bool_decide (u = chr 117) && forallb plain_hex [h1; h2; h3; h4]
      && negb (is_surrogate (four_hex h1 h2 h3 h4)) && bool_decide (encode_rune (four_hex h1 h2 h3 h4) = [c])
  | _ => false
  end.

Lemma escape_formb_sound c q : escape_formb c q = true -> escape_form c q.
Proof.
  unfold escape_formb. intros H.
  destruct q as [|a [|b [|h1 [|h2 [|h3 [|h4 [|]]]]]]]; try discriminate.
  all: repeat (apply andb_prop in H as [H ?]); rewrite ?bool_decide_eq_true in *; subst; b2p.
  - by apply esc_self.
  - by apply esc_two.
  - by apply esc_hex.
Qed.

Lemma json_escape_form c : bv c < 128 -> escape_form c (json_escape c).
Proof.
  intros Hc. apply escape_formb_sound. revert c Hc.
  apply (ascii_all (fun c => escape_formb c (json_escape c))). vm_compute. reflexivity.
Qed.

Lemma escape_scans c q : escape_form c q -> scans_over q.
Proof.
  intros H r. inv H; cbn [app scan_string].
  - repeat case_if; b2p; try done; try lia; set_solver.
  - rewrite bool_decide_eq_true_2 by done. done.
  - assert (E : bool_decide (bv (chr 117) ∈ [98; 102; 110; 114; 116; 92; 47; 34]) = false) by reflexivity.
    rewrite E. cbn [forallb] in *. b2p. unfold plain_hex in *. b2p.
    rewrite !bool_decide_eq_true_2 by done. reflexivity.
Qed.

Lemma quoted_scans v s q : quoted v s q -> scans_over q.
Proof.
  intros H. induction H as [| | | ? ? ? c | ]; try apply scans_over_app; try done.
  - by eapply escape_scans, json_escape_form.
  - by apply scan_high_all, utf8_chunk_high.
  - unfold line_sep; destruct (bv c =? 168); intros r; reflexivity.
Qed.

Lemma unquote_unfold b : unquote b = unquote_step unquote b.
Proof. destruct b; reflexivity. Qed.

(** The range test of a leading byte decides the branch. *)
Ltac lead_branch :=
  match goal with
  | |- context [if ?t then _ else _] =>
      first [ replace t with true by (symmetry; rewrite ?andb_true_iff; repeat split; first [done | lia])
            | replace t with false by (symmetry; rewrite ?andb_false_iff; lia) ]; cbv iota
  end.

Section unquote_steps.
Context (rec : bytes -> bytes).

Lemma step_simple c e r : bv c = 92 -> bv e <> 117 -> unquote_step rec (c :: e :: r) = simple_escape e :: rec r.
Proof. intros Hc%Z.eqb_eq He%Z.eqb_neq. cbn [unquote_step]. by rewrite Hc, He. Qed.
Lemma step_hex c e h1 h2 h3 h4 r : bv c = 92 -> bv e = 117 -> is_surrogate (four_hex h1 h2 h3 h4) = false ->
  unquote_step rec (c :: e :: h1 :: h2 :: h3 :: h4 :: r) = encode_rune (four_hex h1 h2 h3 h4) ++ rec r.
Proof. intros Hc%Z.eqb_eq He%Z.eqb_eq Hs. cbn [unquote_step]. by rewrite Hc, He, Hs. Qed.
Lemma step_plain c r : bv c <> 92 -> bv c < 128 -> unquote_step rec (c :: r) = c :: rec r.
Proof. intros Hc%Z.eqb_neq Hl%Z.ltb_lt. cbn [unquote_step]. by rewrite Hc, Hl. Qed.

Lemma step_chunk k r : utf8_chunk k -> unquote_step rec (k ++ r) = k ++ rec r.
Proof.
  intros H. inversion H as [c0 c1|c0 c1 c2|c0 c1 c2 c3]; subst; cbn [app unquote_step].
  - do 4 lead_branch. done.
  - do 5 lead_branch. done.
  - do 6 lead_branch. done.
Qed.
End unquote_steps.

Lemma escape_unquotes c q r : escape_form c q -> unquote (q ++ r) = c :: unquote r.
Proof.
  intros H. rewrite unquote_unfold. inversion H as [? Hn|e He|h1 h2 h3 h4 _ Hs Hr]; subst; cbn [app].
  - apply step_plain; [set_solver|lia].
  - apply step_simple; [done|]. intros E; rewrite E in He; set_solver.
  - rewrite step_hex, Hr by done. done.
Qed.

Lemma chunk_unquotes k r : utf8_chunk k -> unquote (k ++ r) = k ++ unquote r.
Proof. rewrite unquote_unfold. apply step_chunk. Qed.

Lemma line_sep_unquotes a b c r : is_line_sep a b c = true -> unquote (line_sep c ++ r) = [a; b; c] ++ unquote r.
Proof.
  unfold is_line_sep, line_sep. intros H. b2p.
  replace a with (chr 226) by (apply bv_inj; rewrite bv_chr; lia).
  replace b with (chr 128) by (apply bv_inj; rewrite bv_chr; lia).
  destruct (bv c =? 168) eqn:E; b2p.
  - replace c with (chr 168) by (apply bv_inj; rewrite bv_chr; lia). reflexivity.
  - cbn [orb] in *. b2p. replace c with (chr 169) by (apply bv_inj; rewrite bv_chr; lia). reflexivity.
Qed.

Lemma quoted_unquotes s q : quoted true s q -> unquote q = s.
Proof.
  intros H. remember true as v eqn:Hv.
  induction H as [|? c s q Hc ? IH|? k s q Hk ? ? IH|? a b c s q Hs ? IH|]; [done| | | |done].
  - rewrite escape_unquotes with (c := c) by (by apply json_escape_form). by rewrite IH.
  - by rewrite chunk_unquotes, IH.
  - by rewrite (line_sep_unquotes a b c), IH.
Qed.

Definition compacts_over (k : bytes) : Prop := forall r, compact_bytes true (k ++ r) = k ++ compact_bytes true r.

Lemma compacts_over_app k1 k2 : compacts_over k1 -> compacts_over k2 -> compacts_over (k1 ++ k2).
Proof. intros H1 H2 r. by rewrite <- !app_assoc, H1, H2. Qed.

(** A byte the compactor copies, given that no line separator starts at it. *)
Lemma compact_byte c r : bv c ∉ [34; 92; 60; 62; 38] ->
  (forall b d r', r = b :: d :: r' -> is_line_sep c b d = false) ->
  compact_bytes true (c :: r) = c :: compact_bytes true r.
Proof.
  intros Hc Hs. cbn [compact_bytes].
  assert (E : (bv c =? 60) || (bv c =? 62) || (bv c =? 38) = false)
    by (rewrite !orb_false_iff; repeat split; apply Z.eqb_neq; set_solver).
  assert (E34 : (bv c =? 34) = false) by (apply Z.eqb_neq; set_solver).
  assert (E92 : (bv c =? 92) = false) by (apply Z.eqb_neq; set_solver).
  destruct r as [|b [|d r']]; rewrite ?E, ?E34, ?E92; [done..|]. by rewrite (Hs b d r').
Qed.

Lemma compact_escape c e r : bv c = 92 -> compact_bytes true (c :: e :: r) = c :: e :: compact_bytes true r.
Proof. intros Hc%Z.eqb_eq. cbn [compact_bytes]. by rewrite Hc. Qed.

(** A byte that starts neither a separator nor anything the compactor alters. *)
Definition inert (c : ascii) : Prop := bv c ∉ [34; 92; 60; 62; 38] /\ bv c <> 226.
Lemma compact_inert c r : inert c -> compact_bytes true (c :: r) = c :: compact_bytes true r.
Proof.
  intros [H1 H2]. apply compact_byte; [done|]. intros b d r' _. unfold is_line_sep.
  rewrite (proj2 (Z.eqb_neq (bv c) 226)) by done. done.
Qed.
Lemma compact_inert_all k : Forall inert k -> compacts_over k.
Proof. intros H r. induction H; [done|]. cbn [app]. by rewrite compact_inert, IHForall. Qed.

Lemma plain_hex_inert h : plain_hex h = true -> inert h.
Proof. unfold plain_hex. intros H. b2p. split; [done|lia]. Qed.
Lemma high_inert c : 128 <= bv c -> bv c <> 226 -> inert c.
Proof. intros H1 H2. split; [|done]. rewrite !not_elem_of_cons. repeat split; try lia. apply not_elem_of_nil. Qed.

Lemma compacts_hex h1 h2 h3 h4 : forallb plain_hex [h1; h2; h3; h4] = true ->
  compacts_over [chr 92; chr 117; h1; h2; h3; h4].
Proof.
  cbn [forallb]. intros H r. b2p. change ([chr 92; chr 117; h1; h2; h3; h4]) with ([chr 92; chr 117] ++ [h1; h2; h3; h4]).
  rewrite <- !app_assoc. cbn [app]. rewrite compact_escape by done.
  by rewrite !compact_inert by (by apply plain_hex_inert).
Qed.

Lemma escape_compacts c q : escape_form c q -> compacts_over q.
Proof.
  intros H. inversion H as [Hr Hn|e He|h1 h2 h3 h4 Hp Hs He]; subst.
  - intros r. cbn [app]. apply compact_inert. split; [done|lia].
  - intros r. cbn [app]. by apply compact_escape.
  - by apply compacts_hex.
Qed.

Lemma chunk_compacts k : utf8_chunk k -> (forall a b c, k = [a; b; c] -> is_line_sep a b c = false) -> compacts_over k.
Proof.
  intros H Hs r. pose proof (utf8_chunk_high k H) as Hh.
  assert (Hc : forall a b, utf8_second a (bv b) = true -> bv b <= 191).
  { unfold utf8_second. intros a b E. repeat case_if_in E; lia. }
  inversion H as [c0 c1|c0 c1 c2|c0 c1 c2 c3]; subst; rewrite !Forall_cons in Hh; destruct_and!;
    unfold utf8_cont in *; b2p; cbn [app];
    repeat match goal with H : utf8_second _ _ = true |- _ => apply Hc in H end.
  - rewrite !compact_inert by (apply high_inert; lia). done.
  - rewrite compact_byte. 
    + rewrite !compact_inert by (apply high_inert; lia). done.
    + rewrite !not_elem_of_cons. repeat split; try lia. apply not_elem_of_nil.
    + intros b d r' [= -> -> ->]. by apply Hs.
  - rewrite !compact_inert by (apply high_inert; lia). done.
Qed.

Lemma quoted_compacts v s q : quoted v s q -> compacts_over q.
Proof.
  intros H. induction H as [| | | ? ? ? c | ]; try apply compacts_over_app; try done.
  - by eapply escape_compacts, json_escape_form.
  - by apply chunk_compacts.
  - unfold line_sep; destruct (bv c =? 168); by apply compacts_hex.
  - by apply compacts_hex.
Qed.

(** The literal of [s], at the head of any text. *)
Lemma scan_quote s r : scan_string (quote_body s ++ chr 34 :: r) = Some r.
Proof. by rewrite (quoted_scans _ _ _ (quote_body_quoted s)). Qed.
Lemma compact_quote s r :
  compact_bytes false (json_quote s ++ r) = json_quote s ++ compact_bytes false r.
Proof.
  unfold json_quote. cbn [app]. cbn [compact_bytes]. change (json_space (chr 34)) with false.
  change (bv (chr 34) =? 34) with true. cbv iota. rewrite <- !app_assoc. cbn [app].
  rewrite (quoted_compacts _ _ _ (quote_body_quoted s)). do 2 f_equal. destruct r as [|x [|y r]]; reflexivity.
Qed.
Lemma read_quote s r : utf8_Valid s = true -> read_string (quote_body s ++ chr 34 :: r) = Some (s, r).
Proof.
  intros Hv. unfold read_string. rewrite scan_quote. cbn [mbind option_bind]. do 2 f_equal.
  rewrite take_app_length' by (rewrite length_app; simpl; lia).
  apply quoted_unquotes. rewrite <- Hv. apply quote_body_quoted.
Qed.

(** ** Numbers *)

Lemma digit_char_ok n : (n < 10)%N -> is_digit (pretty_N_char n) = true /\ (n <> 0%N -> bv (pretty_N_char n) <> 48).
Proof.
  intros H. assert (E : forallb (fun i => let c := pretty_N_char (N.of_nat i) in
    is_digit c && ((i =? 0)%nat || negb (bv c =? 48))) (seq 0 10) = true) by reflexivity.
  rewrite forallb_forall in E. specialize (E (N.to_nat n) ltac:(apply in_seq; lia)). rewrite N2Nat.id in E.
  apply andb_prop in E as [E1 E2]. split; [done|]. intros Hn Hz. rewrite Hz in E2.
  apply orb_prop in E2 as [E2|E2]; [apply Nat.eqb_eq in E2; lia|done].
Qed.

(** Decimal digits without a leading zero. *)
Definition digits_text (b : bytes) : Prop :=
  b = [chr 48] \/ exists d ds, b = d :: ds /\ is_digit d = true /\ bv d <> 48 /\ Forall (fun c => is_digit c = true) ds.

Lemma pretty_N_go_digits x s : (0 < x)%N ->
  exists d ds, byt (pretty_N_go x s) = d :: ds ++ byt s /\ is_digit d = true /\ bv d <> 48
    /\ Forall (fun c => is_digit c = true) ds.
Proof.
  revert s. induction (N.lt_wf_0 x) as [x _ IH]; intros s Hx. rewrite pretty_N_go_step by done.
  destruct (digit_char_ok (x mod 10)) as [H1 H2]; [by apply N.mod_lt|].
  destruct (decide (x / 10 = 0)%N) as [E|E].
  - rewrite E, pretty_N_go_0. exists (pretty_N_char (x mod 10)), []. split; [reflexivity|]. split_and!; [done| |done].
    apply H2. intros E'. pose proof (N.div_mod x 10). lia.
  - destruct (IH (x / 10)%N ltac:(by apply N.div_lt) (String (pretty_N_char (x mod 10)) s)) as (d & ds & Hd & ? & ? & ?); [by apply N.neq_0_lt_0|].
    exists d, (ds ++ [pretty_N_char (x mod 10)]). rewrite Hd, <- app_assoc. split_and!; [done..|].
    apply Forall_app; auto.
Qed.

Lemma pretty_N_digits (x : N) : digits_text (byt (pretty x)).
Proof.
  unfold pretty, pretty_N. destruct (decide (x = 0%N)); [by left|right].
  destruct (pretty_N_go_digits x "") as (d & ds & E & H); [lia|]. exists d, ds. by rewrite E, app_nil_r.
Qed.

(** What may follow a number: not a byte that continues it. *)
Definition number_byte (c : ascii) : bool :=
  is_digit c || bool_decide (bv c ∈ [43; 45; 46; 69; 101]).
Definition number_end (r : bytes) : Prop := match r with [] => True | c :: _ => number_byte c = false end.

Definition number_text (n : bytes) : Prop :=
  (exists c r, n = c :: r /\ (is_digit c || (bv c =? 45)) = true) /\ forallb number_byte n = true
  /\ forall r, number_end r -> scan_number (n ++ r) = Some r.

Lemma number_end_spec c r : number_end (c :: r) ->
  is_digit c = false /\ (bv c =? 46) = false /\ ((bv c =? 101) || (bv c =? 69)) = false.
Proof.
  cbn [number_end]. unfold number_byte. intros H. b2p. rewrite !not_elem_of_cons in *.
  destruct_and!. rewrite orb_false_iff, !Z.eqb_neq. naive_solver.
Qed.

Lemma skip_digits_all ds r : Forall (fun c => is_digit c = true) ds -> number_end r -> skip_digits (ds ++ r) = r.
Proof.
  intros Hd Hr. induction Hd as [|c ds Hc _ IH]; cbn [app skip_digits]; [|by rewrite Hc].
  destruct r as [|c r]; [done|]. cbn [skip_digits]. by rewrite (proj1 (number_end_spec c r Hr)).
Qed.
Lemma scan_int_digits b r : digits_text b -> number_end r -> scan_int (b ++ r) = Some r.
Proof.
  intros [->|(d & ds & -> & Hd & H0 & Hds)] Hr; [reflexivity|]. cbn [app scan_int scan_digits].
  by rewrite (proj2 (Z.eqb_neq _ _) H0), Hd, skip_digits_all.
Qed.
Lemma scan_tail r : number_end r -> scan_frac r = Some r /\ scan_exp r = Some r.
Proof.
  destruct r as [|c r]; [done|]. intros H. destruct (number_end_spec c r H) as (_ & H1 & H2).
  cbn [scan_frac scan_exp]. by rewrite H1, H2.
Qed.
Lemma digits_text_head b : digits_text b -> exists c r, b = c :: r /\ is_digit c = true.
Proof. intros [->|(d & ds & -> & ? & _)]; eauto. Qed.
Lemma digits_text_bytes b : digits_text b -> forallb number_byte b = true.
Proof.
  intros [->|(d & ds & -> & Hd & _ & Hds)]; [reflexivity|]. apply forallb_forall.
  intros c [<-|Hc]; unfold number_byte; [by rewrite Hd|].
  rewrite Forall_forall in Hds. by rewrite Hds by (by apply list_elem_of_In).
Qed.

Lemma digits_number b : digits_text b -> number_text b.
Proof.
  intros H. destruct (digits_text_head b H) as (c & t & -> & Hc).
  split; [|split; [by apply digits_text_bytes|]]. { exists c, t. by rewrite Hc. }
  intros r Hr. unfold scan_number. cbn [app].
  destruct (bv c =? 45) eqn:E; [b2p; unfold is_digit in Hc; b2p; lia|].
  change (c :: t ++ r) with ((c :: t) ++ r). rewrite scan_int_digits by done. cbn [mbind option_bind].
  destruct (scan_tail r Hr) as [E1 E2]. by rewrite E1.
Qed.
Lemma minus_number b : digits_text b -> number_text (chr 45 :: b).
Proof.
  intros H. split; [|split]. { by exists (chr 45), b. } { cbn [forallb]. by rewrite digits_text_bytes. }
  intros r Hr. unfold scan_number. cbn [app]. change (bv (chr 45) =? 45) with true. cbv iota zeta.
  rewrite scan_int_digits by done. cbn [mbind option_bind]. destruct (scan_tail r Hr) as [E1 E2]. by rewrite E1.
Qed.

Lemma Itoa_number z : number_text (byt (strconv_Itoa z)).
Proof.
  unfold strconv_Itoa, pretty, pretty_Z. destruct z as [|p|p].
  - apply digits_number. by left.
  - apply digits_number, pretty_N_digits.
  - rewrite byt_app. apply (minus_number (byt (pretty (N.pos p)))), pretty_N_digits.
Qed.

(** ** Compact JSON texts *)

Definition member_texts (ms : list (bytes * bytes)) : list bytes := map (fun m => json_member m.1 m.2) ms.

Inductive jtext : bytes -> Prop :=
  | jt_lit s : s = "null" \/ s = "true" \/ s = "false" -> jtext (byt s)
  | jt_num n : number_text n -> jtext n
  | jt_str s : jtext (json_quote s)
  | jt_obj ms : Forall (fun m => jtext m.2) ms -> jtext (braces (member_texts ms))
  | jt_arr ts : Forall jtext ts -> jtext (brackets ts).

Section jtext_induction.
Context (P : bytes -> Prop)
  (Hlit : forall s, s = "null" \/ s = "true" \/ s = "false" -> P (byt s))
  (Hnum : forall n, number_text n -> P n)
  (Hstr : forall s, P (json_quote s))
  (Hobj : forall ms, Forall (fun m => jtext m.2) ms -> Forall (fun m => P m.2) ms ->
     P (braces (member_texts ms)))
  (Harr : forall ts, Forall jtext ts -> Forall P ts -> P (brackets ts)).

Fixpoint jtext_ind' (t : bytes) (H : jtext t) {struct H} : P t.
Proof.
  destruct H as [s Hs|n Hn|s|ms Hms|ts Hts].
  - by apply Hlit.
  - by apply Hnum.
  - apply Hstr.
  - apply Hobj; [done|]. induction Hms as [|m ms Hm Hms IH]; constructor; [by apply jtext_ind'|exact IH].
  - apply Harr; [done|]. induction Hts as [|t ts Ht Hts IH]; constructor; [by apply jtext_ind'|exact IH].
Qed.
End jtext_induction.

(** The first byte of a text: no space, and no byte that closes an array. *)
Lemma jtext_head t : jtext t -> exists c r, t = c :: r /\ json_space c = false /\ bv c <> 93.
Proof.
  intros H. destruct H as [s Hs|n ((c & r & -> & Hc) & _)|s|ms _|ts _].
  - destruct Hs as [->|[->| ->]]; by eexists _, _.
  - exists c, r. split; [done|]. unfold is_digit, json_space in *.
    rewrite !orb_false_iff, !Z.eqb_neq. apply orb_prop in Hc as [Hc|Hc]; b2p; lia.
  - by exists (chr 34), (quote_body s ++ [chr 34]).
  - by eexists _, _.
  - by eexists _, _.
Qed.
Lemma skip_ws_head c r : json_space c = false -> skip_ws (c :: r) = c :: r.
Proof. intros H. cbn [skip_ws]. by rewrite H. Qed.
Lemma skip_ws_jtext t r : jtext t -> skip_ws (t ++ r) = t ++ r.
Proof. intros H. destruct (jtext_head t H) as (c & t' & -> & Hc & _). by apply skip_ws_head. Qed.

Lemma comma_join_cons x l : l <> [] -> comma_join (x :: l) = x ++ chr 44 :: comma_join l.
Proof. by destruct l. Qed.

Lemma length_comma_join x l : (length x + length (comma_join l) <= length (comma_join (x :: l)))%nat.
Proof. destruct l; [simpl; lia|]. rewrite (comma_join_cons x) by done. rewrite length_app. cbn [length]. lia. Qed.
(** The text of a part is shorter than the text of the whole. *)
Lemma comma_join_part x l : x ∈ l -> (length x <= length (comma_join l))%nat.
Proof.
  induction 1 as [x l|x y l _ IH]; pose proof (length_comma_join x l) as H1; [lia|].
  pose proof (length_comma_join y l). lia.
Qed.
Lemma brackets_part x ts : x ∈ ts -> (length x < length (brackets ts))%nat.
Proof. intros Hx%comma_join_part. unfold brackets. cbn [length]. rewrite length_app. lia. Qed.
Lemma length_json_member k t : (S (S (length t)) < length (json_member k t))%nat.
Proof. unfold json_member, json_quote. cbn [app length]. rewrite !length_app. cbn [length]. lia. Qed.

(** What follows an element of a list that [close] ends. *)
Definition list_tail (close : ascii) (l : list bytes) (r : bytes) : bytes :=
  match l with [] => close :: r | _ => chr 44 :: comma_join l ++ close :: r end.
Lemma comma_join_tail x l close r :
  comma_join (x :: l) ++ close :: r = x ++ list_tail close l r.
Proof. destruct l as [|y l]; [done|]. rewrite (comma_join_cons x) by done. by rewrite <- app_assoc. Qed.
Lemma number_end_tail close l r : number_byte close = false -> number_end (list_tail close l r).
Proof. by destruct l. Qed.

(** [scan] with enough fuel passes over the text. *)
Definition scanned (t : bytes) : Prop := forall fuel r, (2 * length t < fuel)%nat -> number_end r ->
  scan fuel SValue (t ++ r) = Some r.

Lemma scan_literal_app s r : scan_literal s (byt s ++ r) = Some r.
Proof. unfold scan_literal. by rewrite bytes_HasPrefix_app, drop_app_length. Qed.

Lemma scanned_lit s : s = "null" \/ s = "true" \/ s = "false" -> scanned (byt s).
Proof.
  intros Hs [|f] r Hf _; [lia|]. pose proof (scan_literal_app s r) as E.
  destruct Hs as [->|[->| ->]]; exact E.
Qed.
Lemma scanned_num n : number_text n -> scanned n.
Proof.
  intros ((c & t & -> & Hc) & _ & Hs) [|f] r Hf Hr; [lia|]. specialize (Hs r Hr). cbn [scan app] in *.
  assert (json_space c = false /\ bv c <> 123 /\ bv c <> 91 /\ bv c <> 34 /\ bv c <> 116 /\ bv c <> 102 /\ bv c <> 110)
    as (H1 & H).
  { unfold is_digit, json_space in *. rewrite !orb_false_iff, !Z.eqb_neq. apply orb_prop in Hc as [Hc|Hc]; b2p; lia. }
  rewrite skip_ws_head by done. destruct_and!. by rewrite !(proj2 (Z.eqb_neq _ _)) by done.
Qed.
Lemma scanned_str s : scanned (json_quote s).
Proof.
  intros [|f] r Hf _; [lia|]. unfold json_quote. cbn [app scan]. rewrite <- app_assoc. cbn [app].
  rewrite skip_ws_head by done. apply scan_quote.
Qed.

Lemma scan_members ms : Forall (fun m => scanned m.2) ms -> ms <> [] -> forall fuel r,
  (S (2 * length (comma_join (member_texts ms))) < fuel)%nat ->
  scan fuel SMembers (comma_join (member_texts ms) ++ chr 125 :: r) = Some r.
Proof.
  induction 1 as [|[k t] ms Ht Hms IH]; [done|]. intros _ [|f] r Hf; [lia|].
  cbn [member_texts map fst snd] in *. fold (member_texts ms) in *. rewrite comma_join_tail. unfold json_member at 1.
  unfold json_quote at 1. rewrite <- !app_assoc. cbn [app]. cbn [scan]. rewrite skip_ws_head by done.
  change (bv (chr 34) =? 34) with true. cbv iota. rewrite <- app_assoc. cbn [app]. rewrite scan_quote. msimp.
  rewrite skip_ws_head by done. change (bv (chr 58) =? 58) with true. cbv iota.
  pose proof (length_json_member k t). 
  pose proof (length_comma_join (json_member k t) (member_texts ms)) as Hlen.
  rewrite Ht by first [by apply number_end_tail | lia]. msimp.
  destruct ms as [|m ms]; [done|]. cbn [list_tail member_texts map]. fold (member_texts ms).
  rewrite skip_ws_head by done. change (bv (chr 44) =? 44) with true. cbv iota.
  apply IH; [done|]. lia.
Qed.

Lemma scan_elems ts : Forall (fun t => jtext t /\ scanned t) ts -> ts <> [] -> forall fuel r,
  (S (2 * length (comma_join ts)) < fuel)%nat ->
  scan fuel SElems (comma_join ts ++ chr 93 :: r) = Some r.
Proof.
  induction 1 as [|t ts [Hj Ht] Hts IH]; [done|]. intros _ [|f] r Hf; [lia|].
  rewrite comma_join_tail. cbn [scan]. pose proof (length_comma_join t ts) as Hlen.
  rewrite Ht by first [by apply number_end_tail | lia]. msimp.
  destruct ts as [|t' ts]; [done|]. cbn [list_tail].
  rewrite skip_ws_head by done. change (bv (chr 44) =? 44) with true. cbv iota.
  destruct (jtext_head t Hj) as (c & t0 & -> & _). cbn [length] in *. apply IH; [done|]. lia.
Qed.

Lemma scanned_obj ms : Forall (fun m => scanned m.2) ms -> scanned (braces (member_texts ms)).
Proof.
  intros H [|f] r Hf _; [lia|]. unfold braces. cbn [app scan]. rewrite skip_ws_head by done.
  change (bv (chr 123) =? 123) with true. cbv iota. rewrite <- app_assoc. cbn [app].
  destruct ms as [|[k t] ms]; [done|].
  cbn [braces length] in Hf. rewrite length_app in Hf. cbn [length] in Hf.
  pose proof (scan_members _ H ltac:(done) f r ltac:(lia)) as Hm. cbn [member_texts map] in *.
  rewrite comma_join_tail in *. unfold json_member at 1, json_quote at 1. cbn [app]. rewrite skip_ws_head by done.
  exact Hm.
Qed.

Lemma scanned_arr ts : Forall jtext ts -> Forall scanned ts -> scanned (brackets ts).
Proof.
  intros Hj H [|f] r Hf _; [lia|]. unfold brackets. cbn [app scan]. rewrite skip_ws_head by done.
  change (bv (chr 91) =? 123) with false. change (bv (chr 91) =? 91) with true. cbv iota. rewrite <- app_assoc. cbn [app].
  destruct ts as [|t ts]; [done|].
  cbn [brackets length] in Hf. rewrite length_app in Hf. cbn [length] in Hf.
  pose proof (scan_elems (t :: ts) ltac:(by apply Forall_and) ltac:(done) f r ltac:(lia)) as Hm.
  rewrite comma_join_tail in *. apply Forall_cons in Hj as [Hj _].
  destruct (jtext_head t Hj) as (c & t0 & -> & Hs & Hc). cbn [app] in *. rewrite skip_ws_head by done.
  by rewrite (proj2 (Z.eqb_neq _ _) Hc).
Qed.

Lemma jtext_scanned t : jtext t -> scanned t.
Proof.
  induction 1 using jtext_ind'; [by apply scanned_lit|by apply scanned_num|apply scanned_str|by apply scanned_obj|by apply scanned_arr].
Qed.

Lemma scan_value_jtext t r : jtext t -> number_end r -> scan_value (t ++ r) = Some r.
Proof. intros H Hr. apply jtext_scanned; [done| |done]. unfold scan_fuel. rewrite length_app. lia. Qed.

Lemma jtext_valid t : jtext t -> json_Valid t = true.
Proof.
  intros H. unfold json_Valid. pose proof (scan_value_jtext t [] H I) as E. rewrite app_nil_r in E. by rewrite E.
Qed.

(** A compact text is left as it is by the compactor. *)
Definition compacted (t : bytes) : Prop := forall r, compact_bytes false (t ++ r) = t ++ compact_bytes false r.

Lemma compacted_app a b : compacted a -> compacted b -> compacted (a ++ b).
Proof. intros Ha Hb r. by rewrite <- !app_assoc, Ha, Hb. Qed.
Lemma compacted_byte c : json_space c = false -> bv c <> 34 -> compacted [c].
Proof.
  intros H1 H2 r. cbn [app compact_bytes]. by rewrite H1, (proj2 (Z.eqb_neq _ _) H2).
Qed.
Lemma compacted_cons c t : json_space c = false -> bv c <> 34 -> compacted t -> compacted (c :: t).
Proof. intros. apply (compacted_app [c]); [by apply compacted_byte|done]. Qed.
Lemma compacted_nil : compacted [].
Proof. done. Qed.
Lemma compacted_join ts : Forall compacted ts -> compacted (comma_join ts).
Proof.
  induction 1 as [|t ts Ht Hts IH]; [done|]. destruct ts as [|t' ts]; [done|]. rewrite (comma_join_cons t) by done.
  apply compacted_app; [done|]. by apply compacted_cons.
Qed.
Lemma compacted_num n : forallb number_byte n = true -> compacted n.
Proof.
  induction n as [|c n IH]; [done|]. cbn [forallb]. intros [Hc Hn]%andb_prop.
  apply compacted_cons; [| |by apply IH]; unfold number_byte, is_digit, json_space in *; apply orb_prop in Hc as [Hc|Hc]; b2p.
  1, 2: rewrite !orb_false_iff, !Z.eqb_neq; set_solver by lia.
  - lia.
  - set_solver by lia.
Qed.

Lemma jtext_compacted t : jtext t -> compacted t.
Proof.
  induction 1 as [s Hs|n (_ & Hn & _)|s|ms _ IH|ts _ IH] using jtext_ind'.
  - destruct Hs as [->|[->| ->]]; intros r; reflexivity.
  - by apply compacted_num.
  - intros r. apply compact_quote.
  - apply compacted_cons; [done..|]. apply compacted_app; [|by apply compacted_byte].
    apply compacted_join. unfold member_texts. apply Forall_map. eapply Forall_impl; [exact IH|]. intros [k t] Ht.
    apply compacted_app; [intros r; apply compact_quote|]. by apply compacted_cons.
  - apply compacted_cons; [done..|]. apply compacted_app; [|by apply compacted_byte]. by apply compacted_join.
Qed.
Lemma jtext_Compact t : jtext t -> json_Compact t = Some t.
Proof.
  intros H. unfold json_Compact. rewrite jtext_valid by done.
  pose proof (jtext_compacted t H []) as E. rewrite !app_nil_r in E. by rewrite E.
Qed.

(** ** What the decoders read from a compact text *)

Lemma before_app t r : before (t ++ r) r = t.
Proof. unfold before. rewrite length_app. apply take_app_length'. lia. Qed.

Lemma read_members ms : Forall (fun m => utf8_Valid m.1 = true /\ jtext m.2) ms -> ms <> [] -> forall fuel r,
  (length ms <= fuel)%nat -> members fuel (comma_join (member_texts ms) ++ chr 125 :: r) = Some ms.
Proof.
  induction 1 as [|[k t] ms [Hk Ht] Hms IH]; [done|]. intros _ [|f] r Hf; cbn [length] in Hf; [lia|].
  cbn [member_texts map fst snd] in *. fold (member_texts ms) in *. rewrite comma_join_tail. unfold json_member at 1.
  unfold json_quote at 1. rewrite <- !app_assoc. cbn [app]. cbn [members]. rewrite skip_ws_head by done.
  change (bv (chr 34) =? 34) with true. cbv iota. rewrite <- app_assoc. cbn [app]. rewrite read_quote by done. msimp.
  rewrite skip_ws_head by done. change (bv (chr 58) =? 58) with true. cbv iota zeta.
  rewrite skip_ws_jtext, scan_value_jtext by first [done | by apply number_end_tail]. msimp. rewrite before_app.
  destruct ms as [|m ms]; [done|]. cbn [list_tail member_texts map]. fold (member_texts ms).
  rewrite skip_ws_head by done. change (bv (chr 44) =? 44) with true. cbv iota.
  pose proof (IH ltac:(done) f r ltac:(lia)) as E. cbn [member_texts map] in E. fold (member_texts ms) in E. by rewrite E.
Qed.

Lemma read_elements ts : Forall jtext ts -> ts <> [] -> forall fuel r,
  (length ts <= fuel)%nat -> elements fuel (comma_join ts ++ chr 93 :: r) = Some ts.
Proof.
  induction 1 as [|t ts Ht Hts IH]; [done|]. intros _ [|f] r Hf; cbn [length] in Hf; [lia|].
  rewrite comma_join_tail. cbn [elements]. rewrite skip_ws_jtext by done. cbv zeta.
  rewrite scan_value_jtext by first [done | by apply number_end_tail]. msimp. rewrite before_app.
  destruct ts as [|t' ts]; [done|]. cbn [list_tail].
  rewrite skip_ws_head by done. change (bv (chr 44) =? 44) with true. cbv iota.
  by rewrite (IH ltac:(done) f r ltac:(lia)).
Qed.

Lemma length_join_ge ts : Forall (fun t => t <> []) ts -> (length ts <= length (comma_join ts))%nat.
Proof.
  induction 1 as [|t ts Ht _ IH]; [done|]. pose proof (length_comma_join t ts). destruct t; [done|]. cbn [length] in *. lia.
Qed.

Lemma shape_obj ms : Forall (fun m => utf8_Valid m.1 = true /\ jtext m.2) ms ->
  json_shape (braces (member_texts ms)) = Some (JObject ms).
Proof.
  intros H. destruct ms as [|[k t] ms]; [done|]. unfold json_shape, braces. rewrite skip_ws_head by done.
  change (bv (chr 123) =? 123) with true. cbv iota.
  assert (Hl : (length ((k, t) :: ms) <= length (comma_join (member_texts ((k, t) :: ms))))%nat).
  { etrans; [|apply length_join_ge]; [by unfold member_texts; rewrite length_map|].
    unfold member_texts. apply Forall_map, Forall_true. by intros []. }
  pose proof (read_members _ H ltac:(done) (length (chr 123 :: comma_join (member_texts ((k, t) :: ms)) ++ [chr 125])) []) as E.
  rewrite E by (cbn [length]; rewrite length_app; cbn [length] in *; lia).
  cbn [member_texts map fst snd]. fold (member_texts ms). by rewrite comma_join_tail.
Qed.
Lemma shape_arr ts : Forall jtext ts -> json_shape (brackets ts) = Some (JArray ts).
Proof.
  intros H. destruct ts as [|t ts]; [done|]. unfold json_shape, brackets. rewrite skip_ws_head by done.
  change (bv (chr 91) =? 123) with false. change (bv (chr 91) =? 91) with true. cbv iota.
  assert (Hl : (length (t :: ts) <= length (comma_join (t :: ts)))%nat).
  { apply length_join_ge. eapply Forall_impl; [exact H|]. intros x Hx. by destruct (jtext_head x Hx) as (c & r & -> & _). }
  pose proof (read_elements _ H ltac:(done) (length (chr 91 :: comma_join (t :: ts) ++ [chr 93])) []) as E.
  rewrite E by (cbn [length]; rewrite length_app; cbn [length] in *; lia).
  apply Forall_cons in H as [Ht _]. rewrite comma_join_tail. destruct (jtext_head t Ht) as (c & r & -> & Hs & Hc).
  cbn [app]. rewrite skip_ws_head by done. by rewrite (proj2 (Z.eqb_neq _ _) Hc).
Qed.
Lemma shape_str s : utf8_Valid s = true -> json_shape (json_quote s) = Some (JString s).
Proof.
  intros H. unfold json_shape, json_quote. rewrite skip_ws_head by done.
  change (bv (chr 34) =? 123) with false. change (bv (chr 34) =? 91) with false. change (bv (chr 34) =? 34) with true.
  cbv iota. by rewrite (read_quote s []).
Qed.

(** The numbers of a value are numbers and its names are UTF-8. *)
Fixpoint value_ok (v : gval) : Prop :=
  match v with
  | VNumber n => number_text n
  | VPtr w => value_ok w
  | VStruct fs => (fix all (fs : list (bytes * bool * gval)) : Prop :=
      match fs with [] => True | (k, _, w) :: r => (utf8_Valid k = true /\ value_ok w) /\ all r end) fs
  | VMap kvs => (fix all (kvs : list (bytes * gval)) : Prop :=
      match kvs with [] => True | (k, w) :: r => (utf8_Valid k = true /\ value_ok w) /\ all r end) kvs
  | VSlice vs => (fix all (vs : list gval) : Prop :=
      match vs with [] => True | w :: r => value_ok w /\ all r end) vs
  | _ => True
  end.

(** How deep the references of a stored value can nest. *)
Fixpoint vdepth (v : gval) : nat :=
  match v with
  | VPtr w => vdepth w
  | VStruct fs => S ((fix all (fs : list (bytes * bool * gval)) : nat :=
      match fs with [] => O | (_, _, w) :: r => Nat.max (vdepth w) (all r) end) fs)
  | VMap kvs => S ((fix all (kvs : list (bytes * gval)) : nat :=
      match kvs with [] => O | (_, w) :: r => Nat.max (vdepth w) (all r) end) kvs)
  | VSlice vs => S ((fix all (vs : list gval) : nat :=
      match vs with [] => O | w :: r => Nat.max (vdepth w) (all r) end) vs)
  | _ => 1%nat
  end.

Section gval_induction.
Context (P : gval -> Prop) (Hnil : P VNil) (Hbool : forall b, P (VBool b)) (Hint : forall z, P (VInt z))
  (Hnum : forall n, P (VNumber n)) (Hstr : forall s, P (VString s)) (Hptr : forall v, P v -> P (VPtr v))
  (Hstruct : forall fs, Forall (fun f => P f.2) fs -> P (VStruct fs))
  (Hmap : forall kvs, Forall (fun kv => P kv.2) kvs -> P (VMap kvs))
  (Hslice : forall vs, Forall P vs -> P (VSlice vs)).

Fixpoint gval_ind' (v : gval) : P v.
Proof.
  destruct v as [|b|z|n|s|w|fs|kvs|vs].
  - exact Hnil.
  - apply Hbool.
  - apply Hint.
  - apply Hnum.
  - apply Hstr.
  - apply Hptr, gval_ind'.
  - apply Hstruct. induction fs as [|f fs IH]; constructor; [apply gval_ind'|exact IH].
  - apply Hmap. induction kvs as [|f fs IH]; constructor; [apply gval_ind'|exact IH].
  - apply Hslice. induction vs as [|f fs IH]; constructor; [apply gval_ind'|exact IH].
Qed.
End gval_induction.

Lemma json_Marshal_jtext v : value_ok v -> jtext (json_Marshal v).
Proof.
  induction v as [|b|z|n|s|w IH|fs IH|kvs IH|vs IH] using gval_ind'; cbn [value_ok json_Marshal]; intros Hok.
  - apply jt_lit; auto.
  - apply jt_lit; destruct b; auto.
  - apply jt_num, Itoa_number.
  - by apply jt_num.
  - apply jt_str.
  - by apply IH.
  - match goal with |- jtext (braces (?f fs)) => set (emit := f) end.
    assert (exists ms, emit fs = member_texts ms /\ Forall (fun m => jtext m.2) ms) as (ms & -> & Hms); [|by apply jt_obj].
    induction fs as [|[[name omit] w] fs IHfs]; [by exists []|]. apply Forall_cons in IH as [IHw IH].
    destruct Hok as [[_ Hw] Hok]. destruct (IHfs IH Hok) as (ms & E & Hms). cbn [emit].
    destruct (omit && emptyValue w); [by exists ms|]. exists ((name, json_Marshal w) :: ms). split; [cbn [member_texts map fst snd]; f_equal; exact E|].
    constructor; auto.
  - match goal with |- jtext (braces (?f kvs)) => set (emit := f) end.
    assert (exists ms, emit kvs = member_texts ms /\ Forall (fun m => jtext m.2) ms) as (ms & -> & Hms); [|by apply jt_obj].
    induction kvs as [|[k w] kvs IHfs]; [by exists []|]. apply Forall_cons in IH as [IHw IH].
    destruct Hok as [[_ Hw] Hok]. destruct (IHfs IH Hok) as (ms & E & Hms). cbn [emit].
    exists ((k, json_Marshal w) :: ms). split; [cbn [member_texts map fst snd]; f_equal; exact E|]. constructor; auto.
  - apply jt_arr. induction vs as [|w vs IHvs]; [constructor|]. apply Forall_cons in IH as [IHw IH].
    destruct Hok as [Hw Hok]. constructor; auto.
Qed.

(** ** base64 round trip *)

Lemma b64_digit_ok z : 0 <= z < 64 ->
  b64_value (b64_digit z) = Some z /\ bv (b64_digit z) <> 61
  /\ negb ((bv (b64_digit z) =? 10) || (bv (b64_digit z) =? 13)) = true
  /\ (32 <=? bv (b64_digit z)) && (bv (b64_digit z) <? 128) = true.
Proof.
  intros Hz. unfold b64_digit. repeat case_if; unfold b64_value; rewrite !bv_chr by lia;
    repeat match goal with |- context [if ?t then _ else _] => destruct t eqn:?; b2p; try lia end;
    split_and!; try (f_equal; lia); try lia; rewrite ?negb_true_iff, ?orb_false_iff, ?andb_true_iff, ?Z.eqb_neq, ?Z.leb_le, ?Z.ltb_lt; lia.
Qed.

Ltac dlia := Z.div_mod_to_equations; lia.
Lemma base64_quads b : b64_quads (base64_Encode b) = Some b
  /\ List.filter (fun c => negb ((bv c =? 10) || (bv c =? 13))) (base64_Encode b) = base64_Encode b
  /\ Forall (fun c => bv c < 128) (base64_Encode b).
Proof.
  remember (length b) as n eqn:Hn; revert b Hn.
  induction n as [n IH] using lt_wf_ind; intros b ->.
  assert (Hd : forall x, 0 <= bv x < 256) by apply bv_range.
  assert (Hne : forall z, 0 <= z < 64 -> (bv (b64_digit z) =? 61) = false).
  { intros z Hz. apply Z.eqb_neq. by apply b64_digit_ok. }
  assert (Hv : forall z, 0 <= z < 64 -> b64_value (b64_digit z) = Some z) by (intros z Hz; by apply b64_digit_ok).
  assert (Hf : forall z, 0 <= z < 64 -> negb ((bv (b64_digit z) =? 10) || (bv (b64_digit z) =? 13)) = true)
    by (intros z Hz; by apply b64_digit_ok).
  assert (Hl : forall z, 0 <= z < 64 -> bv (b64_digit z) < 128).
  { intros z Hz. destruct (b64_digit_ok z Hz) as (_ & _ & _ & E). b2p. lia. }
  destruct b as [|x [|y [|z b]]]; [done|..].
  - pose proof (Hd x). cbn [base64_Encode]. split_and!.
    + cbn [b64_quads]. rewrite !Hv by dlia. msimp. change (bv (chr 61) =? 61) with true. cbn [andb]. cbv iota.
      do 2 f_equal. apply bv_inj. rewrite bv_chr; dlia.
    + cbn [List.filter]. rewrite !Hf by dlia. done.
    + repeat (apply Forall_cons; split); try done; apply Hl; dlia.
  - pose proof (Hd x). pose proof (Hd y). cbn [base64_Encode]. split_and!.
    + cbn [b64_quads]. rewrite !Hv by dlia. msimp. rewrite Hne by dlia. cbn [andb]. cbv iota.
      change (bv (chr 61) =? 61) with true. cbv iota.
      do 2 f_equal; [|f_equal]; apply bv_inj; rewrite bv_chr; dlia.
    + cbn [List.filter]. rewrite !Hf by dlia. done.
    + repeat (apply Forall_cons; split); try done; apply Hl; dlia.
  - pose proof (Hd x). pose proof (Hd y). pose proof (Hd z).
    destruct (IH (length b) ltac:(cbn [length]; lia) b eq_refl) as (I1 & I2 & I3).
    cbn [base64_Encode app]. split_and!.
    + cbn [b64_quads]. rewrite !Hv by dlia. msimp. rewrite !Hne by dlia. cbn [andb]. cbv iota. rewrite I1. msimp.
      f_equal. f_equal; [|f_equal; [|f_equal]]; apply bv_inj; rewrite bv_chr; dlia.
    + cbn [List.filter]. rewrite !Hf by dlia. by rewrite I2.
    + repeat (apply Forall_cons; split); try done; apply Hl; dlia.
Qed.
Lemma base64_roundtrip b : base64_Decode (base64_Encode b) = Some b.
Proof. unfold base64_Decode. destruct (base64_quads b) as (H1 & -> & _). done. Qed.
Lemma utf8_Valid_ascii b : Forall (fun c => bv c < 128) b -> utf8_Valid b = true.
Proof. induction 1 as [|c b Hc _ IH]; [done|]. cbn [utf8_Valid]. by rewrite (proj2 (Z.ltb_lt _ _) Hc). Qed.
Lemma base64_utf8 b : utf8_Valid (base64_Encode b) = true.
Proof. apply utf8_Valid_ascii, base64_quads. Qed.

(** ** Integers round trip *)

Lemma digit_char_value n : (n < 10)%N -> bv (pretty_N_char n) = 48 + Z.of_N n.
Proof.
  intros H. assert (E : forallb (fun i => bv (pretty_N_char (N.of_nat i)) =? 48 + Z.of_nat i) (seq 0 10) = true) by reflexivity.
  rewrite forallb_forall in E. specialize (E (N.to_nat n) ltac:(apply in_seq; lia)). rewrite N2Nat.id in E. b2p. lia.
Qed.

Lemma parse_digits_cons acc c r : is_digit c = true -> parse_digits acc (c :: r) = parse_digits (acc * 10 + (bv c - 48)) r.
Proof. intros Hc. cbn [parse_digits]. unfold is_digit in Hc. by rewrite Hc. Qed.

Lemma parse_pretty_go x s : (0 < x)%N -> parse_digits 0 (byt (pretty_N_go x s)) = parse_digits (Z.of_N x) (byt s).
Proof.
  revert s. induction (N.lt_wf_0 x) as [x _ IH]; intros s Hx. rewrite pretty_N_go_step by done.
  pose proof (N.div_mod x 10 ltac:(done)) as Hdm. pose proof (N.mod_lt x 10 ltac:(done)) as Hm.
  destruct (digit_char_ok (x mod 10) Hm) as [Hd _]. pose proof (digit_char_value (x mod 10) Hm) as Hv.
  destruct (decide (x / 10 = 0)%N) as [E|E].
  - rewrite E, pretty_N_go_0. change (byt (String ?c ?r)) with (c :: byt r). rewrite parse_digits_cons by done.
    f_equal. rewrite Hv. rewrite E in Hdm. lia.
  - rewrite IH; [|by apply N.div_lt|by apply N.neq_0_lt_0]. change (byt (String ?c ?r)) with (c :: byt r).
    rewrite parse_digits_cons by done. f_equal. rewrite Hv. lia.
Qed.
Lemma parse_pretty (n : N) : parse_digits 0 (byt (pretty n)) = Some (Z.of_N n).
Proof.
  unfold pretty, pretty_N. destruct (decide (n = 0%N)) as [->|Hn]; [reflexivity|].
  rewrite parse_pretty_go by lia. reflexivity.
Qed.

Lemma shape_other t c r : t = c :: r -> json_space c = false -> bv c <> 123 -> bv c <> 91 -> bv c <> 34 -> bv c <> 110 ->
  json_shape t = Some (JOther t).
Proof.
  intros -> Hs H1 H2 H3 H4. unfold json_shape. rewrite skip_ws_head by done. by rewrite !(proj2 (Z.eqb_neq _ _)) by done.
Qed.
Lemma shape_number t : number_text t -> json_shape t = Some (JOther t).
Proof.
  intros ((c & r & -> & Hc) & _ & _). eapply shape_other; [done|..]; unfold is_digit, json_space in *;
    rewrite ?orb_false_iff, ?Z.eqb_neq; apply orb_prop in Hc as [Hc|Hc]; b2p; lia.
Qed.

Lemma range_roundtrip lo hi old z : lo <= z <= hi -> json_into_range lo hi old (byt (strconv_Itoa z)) = Some z.
Proof.
  intros Hz. unfold json_into_range. rewrite shape_number by apply Itoa_number.
  assert (E : (lo <=? z) && (z <=? hi) = true) by (rewrite andb_true_iff, !Z.leb_le; lia).
  unfold strconv_Itoa, pretty, pretty_Z. destruct z as [|p|p].
  - trans (if (lo <=? 0) && (0 <=? hi) then Some 0 else None); [reflexivity|by rewrite E].
  - change (pretty p) with (pretty (N.pos p)).
    pose proof (parse_pretty (N.pos p)) as Hp. destruct (digits_text_head _ (pretty_N_digits (N.pos p))) as (c & r & Hc & Hd).
    rewrite Hc in *. destruct (bv c =? 45) eqn:E45; [b2p; unfold is_digit in Hd; b2p; lia|]. rewrite Hp. cbn [mbind option_bind].
    change (Z.of_N (N.pos p)) with (Z.pos p). by rewrite E.
  - change (pretty p) with (pretty (N.pos p)). rewrite byt_app. pose proof (parse_pretty (N.pos p)) as Hp.
    destruct (digits_text_head _ (pretty_N_digits (N.pos p))) as (c & r & Hc & Hd). rewrite Hc in *.
    change (byt "-" ++ c :: r) with (chr 45 :: c :: r). cbv iota. assert (bv (chr 45) =? 45 = true) as -> by reflexivity. cbv iota.
    rewrite Hp. cbn [mbind option_bind]. change (- Z.of_N (N.pos p)) with (Z.neg p). by rewrite E.
Qed.

(** ** Structs, maps and slices as lists of texts *)

(** The fields of a struct that are written. *)
Definition kept (fs : list (bytes * bool * gval)) : list (bytes * gval) :=
  omap (fun '(name, omit, u) => if omit && emptyValue u then None else Some (name, u)) fs.
Definition pair_texts (kvs : list (bytes * gval)) : list (bytes * bytes) := (fun kv => (kv.1, json_Marshal kv.2)) <$> kvs.

Lemma marshal_struct fs : json_Marshal (VStruct fs) = braces (member_texts (pair_texts (kept fs))).
Proof.
  cbn [json_Marshal]. f_equal. induction fs as [|[[name omit] u] fs IH]; [done|]. cbn [kept omap list_omap].
  destruct (omit && emptyValue u); [exact IH|]. rewrite IH. done.
Qed.
Lemma marshal_map kvs : json_Marshal (VMap kvs) = braces (member_texts (pair_texts kvs)).
Proof. cbn [json_Marshal]. f_equal. induction kvs as [|[k u] kvs IH]; [done|]. rewrite IH. done. Qed.
Lemma marshal_slice vs : json_Marshal (VSlice vs) = brackets (json_Marshal <$> vs).
Proof. cbn [json_Marshal]. f_equal. Qed.

(** ** Assigning the members of an object in turn *)

Section fold_fields.
Context {A : Type} (f : A -> bytes * bytes -> option A).
Definition fold_fields (ms : list (bytes * bytes)) (a : A) : option A := foldr (fun m k a => f a m ≫= k) Some ms a.

Lemma fold_fields_app ms1 ms2 a : fold_fields (ms1 ++ ms2) a = fold_fields ms1 a ≫= fold_fields ms2.
Proof.
  revert a. induction ms1 as [|m ms1 IH]; intros a; [done|]. unfold fold_fields in *. cbn [app foldr].
  destruct (f a m) as [b|]; cbn; [apply IH|done].
Qed.
Lemma fold_fields_seq ms1 ms2 a b r : fold_fields ms1 a = Some b -> fold_fields ms2 b = r -> fold_fields (ms1 ++ ms2) a = r.
Proof. intros H1 H2. by rewrite fold_fields_app, H1. Qed.
End fold_fields.

Lemma mapM_Some_map {A B} (g : A -> B) (l : list A) : mapM (fun x => Some (g x)) l = Some (g <$> l).
Proof. induction l as [|x l IH]; [done|]. cbn [mapM]. rewrite IH. done. Qed.
