(* ===== verification/AnyJson.v ===== *)
(** * AnyJson: decoding a text into any and writing it again

    json.Decoder with UseNumber turns a text into maps, slices and numbers;
    marshalling the result writes the members of every object in the order of
    their keys.  maintenance.go compares payloads in this form, and stores the
    payloads of the old format in it.  [norm] is the value that the decoder
    makes of the text of a value. *)

From S2P Require Import Prelude GoStrings GoNet Json.

(** ** Decoding *)

(** The entries of a map in the order of their keys, in which both encoders
    write them. *)
Definition any_key_le (a b : string * gval) : Prop := sle a.1 b.1.
#[export] Instance any_key_le_dec : RelDecision any_key_le := fun a b => sle_dec a.1 b.1.
Definition any_map (kvs : list (bytes * gval)) : gval :=
  let m : gmap string gval := foldl (fun m kv => <[str kv.1 := kv.2]> m) ∅ kvs in
  VMap ((fun kv => (byt kv.1, kv.2)) <$> merge_sort any_key_le (map_to_list m)).

(** json.Decoder with UseNumber on the text of one value.  The texts of the
    parts of a value are shorter than the value. *)
Fixpoint any_value (fuel : nat) (t : bytes) : option gval :=
  match fuel with
  | O => None
  | S f =>
      match json_shape t with
      | None => None
      | Some JNull => Some VNil
      | Some (JString s) => Some (VString s)
      | Some (JOther t) =>
          Some (if seqb (str t) "true" then VBool true else if seqb (str t) "false" then VBool false else VNumber t)
      | Some (JArray es) => VSlice <$> mapM (any_value f) es
      | Some (JObject ms) => any_map <$> mapM (fun kv => v ← any_value f kv.2; Some (kv.1, v)) ms
      end
  end.
(** Decode reads the first value of the input. *)
Definition decode_any (b : bytes) : option gval :=
  let t := skip_ws b in
  r ← scan_value t;
  let v := before t r in
  any_value (S (length v)) v.

Definition jsonEqual (a b : bytes) : bool :=
  match decode_any a, decode_any b with
  | Some av, Some bv => bool_decide (json_Marshal av = json_Marshal bv)
  | _, _ => false
  end.

(** ** Values in the form of the decoder *)

Fixpoint norm (v : gval) : gval :=
  match v with
  | VPtr w => norm w
  | VInt z => VNumber (byt (strconv_Itoa z))
  | VStruct fs =>
      any_map ((fix go (fs : list (bytes * bool * gval)) : list (bytes * gval) :=
        match fs with
        | [] => []
        | (name, omit, w) :: r => if omit && emptyValue w then go r else (name, norm w) :: go r
        end) fs)
  | VMap kvs =>
      any_map ((fix go (kvs : list (bytes * gval)) : list (bytes * gval) :=
        match kvs with [] => [] | (k, w) :: r => (k, norm w) :: go r end) kvs)
  | VSlice vs => VSlice ((fix go (vs : list gval) : list gval := match vs with [] => [] | w :: r => norm w :: go r end) vs)
  | _ => v
  end.
Definition norm_pairs (kvs : list (bytes * gval)) : list (bytes * gval) := (fun kv => (kv.1, norm kv.2)) <$> kvs.

Lemma norm_struct fs : norm (VStruct fs) = any_map (norm_pairs (kept fs)).
Proof.
  cbn [norm]. f_equal. induction fs as [|[[name omit] w] fs IH]; [done|]. cbn [kept omap list_omap].
  destruct (omit && emptyValue w); [exact IH|]. rewrite IH. done.
Qed.
Lemma norm_map kvs : norm (VMap kvs) = any_map (norm_pairs kvs).
Proof. cbn [norm]. f_equal. induction kvs as [|[k w] kvs IH]; [done|]. rewrite IH. done. Qed.
Lemma norm_slice vs : norm (VSlice vs) = VSlice (norm <$> vs).
Proof. cbn [norm]. f_equal. Qed.

(** The strings of a value are UTF-8, its numbers numbers, and no object has a
    name twice. *)
Fixpoint clean (v : gval) : Prop :=
  match v with
  | VNumber n => number_text n
  | VString s => utf8_Valid s = true
  | VPtr w => clean w
  | VStruct fs => NoDup (fs.*1.*1) /\ (fix all (fs : list (bytes * bool * gval)) : Prop :=
      match fs with [] => True | (k, _, w) :: r => (utf8_Valid k = true /\ clean w) /\ all r end) fs
  | VMap kvs => NoDup (kvs.*1) /\ (fix all (kvs : list (bytes * gval)) : Prop :=
      match kvs with [] => True | (k, w) :: r => (utf8_Valid k = true /\ clean w) /\ all r end) kvs
  | VSlice vs => (fix all (vs : list gval) : Prop :=
      match vs with [] => True | w :: r => clean w /\ all r end) vs
  | _ => True
  end.
Definition clean_pair (kv : bytes * gval) : Prop := utf8_Valid kv.1 = true /\ clean kv.2.

Lemma clean_struct fs : clean (VStruct fs) <-> NoDup (fs.*1.*1) /\ Forall (fun f => utf8_Valid f.1.1 = true /\ clean f.2) fs.
Proof.
  cbn [clean]. apply and_iff_compat_l. induction fs as [|[[k o] w] fs IH]; [by split; [constructor|]|]. rewrite Forall_cons, IH. done.
Qed.
Lemma clean_map kvs : clean (VMap kvs) <-> NoDup (kvs.*1) /\ Forall clean_pair kvs.
Proof.
  cbn [clean]. apply and_iff_compat_l. induction kvs as [|[k w] kvs IH]; [by split; [constructor|]|]. rewrite Forall_cons, IH. done.
Qed.
Lemma clean_slice vs : clean (VSlice vs) <-> Forall clean vs.
Proof. cbn [clean]. induction vs as [|w vs IH]; [by split; [constructor|]|]. rewrite Forall_cons, IH. done. Qed.

Lemma kept_sub fs : (kept fs).*1 `sublist_of` fs.*1.*1.
Proof.
  induction fs as [|[[k o] w] fs IH]; [done|]. cbn [kept omap list_omap fmap list_fmap].
  destruct (o && emptyValue w); [by apply sublist_cons|by apply sublist_skip].
Qed.
(** The members a clean struct writes. *)
Lemma clean_kept fs : clean (VStruct fs) -> NoDup (kept fs).*1 /\ Forall clean_pair (kept fs).
Proof.
  rewrite clean_struct. intros [Hn Hf]. split; [eapply sublist_NoDup; [exact Hn|apply kept_sub]|]. clear Hn.
  induction Hf as [|[[k o] w] fs Hw _ IH]; [constructor|]. cbn [kept omap list_omap]. by destruct (o && emptyValue w); [|constructor].
Qed.

Lemma clean_value_ok v : clean v -> value_ok v.
Proof.
  induction v as [|b|z|n|s|w IH|fs IH|kvs IH|vs IH] using gval_ind'; try done.
  - rewrite clean_struct. intros [_ Hf]. cbn [value_ok]. induction Hf as [|[[k o] w] fs [Hk Hw] _ IHf]; [done|].
    apply Forall_cons in IH as [IHw IH]. split; [split; [done|by apply IHw]|by apply IHf].
  - rewrite clean_map. intros [_ Hf]. cbn [value_ok]. induction Hf as [|[k w] fs [Hk Hw] _ IHf]; [done|].
    apply Forall_cons in IH as [IHw IH]. split; [split; [done|by apply IHw]|by apply IHf].
  - rewrite clean_slice. intros Hf. cbn [value_ok]. induction Hf as [|w vs Hw _ IHf]; [done|].
    apply Forall_cons in IH as [IHw IH]. split; [by apply IHw|by apply IHf].
Qed.

(** ** Objects in the order of their keys *)

Lemma foldl_insert_list (kvs : list (bytes * gval)) (m : gmap string gval) : NoDup kvs.*1 ->
  foldl (fun m kv => <[str kv.1 := kv.2]> m) m kvs = list_to_map ((fun kv => (str kv.1, kv.2)) <$> kvs) ∪ m.
Proof.
  revert m. induction kvs as [|[k v] kvs IH]; intros m Hn; cbn [foldl fmap list_fmap]; [by rewrite list_to_map_nil, (left_id_L ∅ (∪))|].
  rewrite fmap_cons, NoDup_cons in Hn. destruct Hn as [Hk Hn]. rewrite IH by done. cbn [fst snd]. rewrite list_to_map_cons.
  rewrite <- insert_union_r; [by rewrite insert_union_l|]. apply not_elem_of_list_to_map_1.
  intros ([k' v'] & E & Hin)%list_elem_of_fmap. cbn in E. apply Hk. apply list_elem_of_fmap in Hin as ([k2 v2] & E2 & Hin). simplify_eq/=.
  by apply (list_elem_of_fmap_2 fst) in Hin.
Qed.

Definition pair_le (a b : bytes * gval) : Prop := sle (str a.1) (str b.1).
#[export] Instance pair_le_dec : RelDecision pair_le := fun a b => sle_dec (str a.1) (str b.1).
(** A list of members sorted by distinct keys is what [any_map] makes of any
    permutation of it. *)
Lemma any_map_sorted kvs kvs' : kvs' ≡ₚ kvs -> NoDup kvs.*1 -> StronglySorted pair_le kvs' -> any_map kvs = VMap kvs'.
Proof.
  intros Hp Hn Hs. unfold any_map. rewrite foldl_insert_list, (right_id_L ∅ (∪)) by done. f_equal.
  set (f := fun kv : bytes * gval => (str kv.1, kv.2)).
  assert (Hnf : NoDup (f <$> kvs).*1).
  { rewrite <- list_fmap_compose. change (fst ∘ f) with (str ∘ fst : bytes * gval -> string). rewrite list_fmap_compose.
    apply NoDup_fmap_2_strong; [|done]. intros x y _ _ E. apply (f_equal byt) in E. by rewrite !byt_str in E. }
  assert (E : merge_sort any_key_le (map_to_list (list_to_map (f <$> kvs) : gmap string gval)) = f <$> kvs').
  { assert (Hperm : merge_sort any_key_le (map_to_list (list_to_map (f <$> kvs) : gmap string gval)) ≡ₚ f <$> kvs').
    { rewrite merge_sort_Permutation, map_to_list_to_map by done. by rewrite Hp. }
    apply (StronglySorted_unique_strong any_key_le); [| | |done].
    - intros [k1 v1] [k2 v2] H1 H2 L1 L2. assert (k1 = k2) as <- by (by apply (anti_symm sle)). rewrite Hperm, Hp in H1. rewrite Hp in H2.
      f_equal. pose proof (elem_of_list_to_map_1 (M := gmap string) _ _ _ Hnf H1). pose proof (elem_of_list_to_map_1 (M := gmap string) _ _ _ Hnf H2). congruence.
    - apply StronglySorted_merge_sort; [intros a b c; apply sle_trans|]. intros a b. apply (total sle).
    - clear -Hs. induction Hs as [|x l _ IH Hx]; cbn; constructor; [done|]. apply Forall_fmap. eapply Forall_impl; [exact Hx|]. done. }
  rewrite E, <- list_fmap_compose. rewrite <- (list_fmap_id kvs') at 2. apply list_fmap_ext. intros i [k v] _. unfold f, compose. cbn. by rewrite byt_str.
Qed.
(** There is such a list. *)
Lemma any_map_exists kvs : NoDup kvs.*1 -> exists kvs', kvs' ≡ₚ kvs /\ StronglySorted pair_le kvs' /\ any_map kvs = VMap kvs'.
Proof.
  intros Hn. set (kvs' := merge_sort pair_le kvs).
  assert (Hp : kvs' ≡ₚ kvs) by apply merge_sort_Permutation.
  assert (Hs : StronglySorted pair_le kvs').
  { apply StronglySorted_merge_sort; [intros a b c; apply sle_trans|]. intros a b. apply (total sle). }
  exists kvs'. split_and!; [done|done|by apply any_map_sorted].
Qed.

(** ** The decoder computes the normal form *)

Lemma number_not_literal n : number_text n -> seqb (str n) "true" = false /\ seqb (str n) "false" = false.
Proof.
  intros (_ & Hb & _). split; apply seqb_neq; intros E; apply (f_equal byt) in E; rewrite byt_str in E; by subst n.
Qed.
Lemma any_value_number fuel n : number_text n -> any_value (S fuel) n = Some (VNumber n).
Proof. intros Hn. cbn [any_value]. rewrite shape_number by done. by destruct (number_not_literal n Hn) as [-> ->]. Qed.

(** The value of every member is decoded. *)
Lemma any_members f kvs : Forall (fun kv => any_value f (json_Marshal kv.2) = Some (norm kv.2)) kvs ->
  mapM (fun kv : bytes * bytes => v ← any_value f kv.2; Some (kv.1, v)) (pair_texts kvs) = Some (norm_pairs kvs).
Proof. induction 1 as [|[k v] kvs Hv _ IH]; [done|]. cbn in Hv |- *. rewrite Hv. cbn. unfold pair_texts, norm_pairs in IH. by rewrite IH. Qed.
Lemma any_object f kvs : Forall clean_pair kvs -> Forall (fun kv => any_value f (json_Marshal kv.2) = Some (norm kv.2)) kvs ->
  any_value (S f) (braces (member_texts (pair_texts kvs))) = Some (any_map (norm_pairs kvs)).
Proof.
  intros Hc Hv. cbn [any_value]. rewrite shape_obj.
  - by rewrite any_members.
  - apply Forall_fmap. eapply Forall_impl; [exact Hc|]. intros [k v] [Hk Hw]. split; [done|]. by apply json_Marshal_jtext, clean_value_ok.
Qed.
Lemma pair_shorter kv kvs : kv ∈ kvs -> (length (json_Marshal kv.2) < length (braces (member_texts (pair_texts kvs))))%nat.
Proof.
  intros Hin. assert (Hz : json_member kv.1 (json_Marshal kv.2) ∈ member_texts (pair_texts kvs)).
  { unfold member_texts, pair_texts. apply list_elem_of_In, in_map_iff. exists (kv.1, json_Marshal kv.2). split; [done|].
    apply list_elem_of_In. by apply (list_elem_of_fmap_2 (fun kv : bytes * gval => (kv.1, json_Marshal kv.2))). }
  apply comma_join_part in Hz. pose proof (length_json_member kv.1 (json_Marshal kv.2)). unfold braces. cbn [length]. rewrite length_app. lia.
Qed.

(** Decoding the text of a clean value gives its normal form. *)
Lemma any_value_marshal v : clean v -> forall fuel, (length (json_Marshal v) < fuel)%nat -> any_value fuel (json_Marshal v) = Some (norm v).
Proof.
  induction v as [|b|z|n|s|w IH|fs IH|kvs IH|vs IH] using gval_ind'; intros Hc fuel Hf; (destruct fuel as [|f]; [lia|]); cbn [json_Marshal] in Hf.
  - done.
  - by destruct b.
  - cbn [json_Marshal norm]. apply any_value_number, Itoa_number.
  - by apply any_value_number.
  - cbn [json_Marshal any_value norm]. by rewrite shape_str.
  - by apply IH.
  - rewrite marshal_struct, norm_struct. destruct (clean_kept fs Hc) as [_ Hk]. apply any_object; [done|].
    change (length (json_Marshal (VStruct fs)) < S f)%nat in Hf. rewrite marshal_struct in Hf.
    assert (Hall : Forall (fun kv => clean kv.2 -> forall fuel, (length (json_Marshal kv.2) < fuel)%nat -> any_value fuel (json_Marshal kv.2) = Some (norm kv.2)) (kept fs)).
    { clear -IH. induction IH as [|[[k o] w] fs Hw _ IHf]; [constructor|]. cbn [kept omap list_omap]. by destruct (o && emptyValue w); [|constructor]. }
    rewrite Forall_forall in Hall, Hk |- *. intros kv Hin. pose proof (pair_shorter kv _ Hin). apply Hall; [done|by apply Hk|lia].
  - rewrite marshal_map, norm_map. apply clean_map in Hc as [_ Hk]. apply any_object; [done|].
    change (length (json_Marshal (VMap kvs)) < S f)%nat in Hf. rewrite marshal_map in Hf.
    rewrite Forall_forall in IH, Hk |- *. intros kv Hin. pose proof (pair_shorter kv _ Hin). apply IH; [done|by apply Hk|lia].
  - rewrite marshal_slice, norm_slice. apply clean_slice in Hc. cbn [any_value].
    change (length (json_Marshal (VSlice vs)) < S f)%nat in Hf. rewrite marshal_slice in Hf. rewrite Forall_forall in Hc.
    rewrite shape_arr by (apply Forall_fmap, Forall_forall; intros v Hv; by apply json_Marshal_jtext, clean_value_ok, Hc).
    assert (E : mapM (any_value f) (json_Marshal <$> vs) = Some (norm <$> vs)); [|by rewrite E].
    apply mapM_Some. apply Forall2_fmap, Forall_Forall2_diag, Forall_forall. intros v Hv. rewrite Forall_forall in IH. apply IH; [done|by apply Hc|].
    pose proof (brackets_part (json_Marshal v) (json_Marshal <$> vs) ltac:(by apply list_elem_of_fmap_2)). lia.
Qed.
Lemma decode_any_marshal v : clean v -> decode_any (json_Marshal v) = Some (norm v).
Proof.
  intros Hc. pose proof (json_Marshal_jtext v (clean_value_ok v Hc)) as Hj. unfold decode_any.
  pose proof (skip_ws_jtext _ [] Hj) as Hw. rewrite app_nil_r in Hw. rewrite Hw.
  pose proof (scan_value_jtext _ [] Hj I) as Hs. rewrite app_nil_r in Hs. rewrite Hs. cbn [mbind option_bind].
  pose proof (before_app (json_Marshal v) []) as Hb. rewrite app_nil_r in Hb. rewrite Hb. apply any_value_marshal; [done|lia].
Qed.

(** ** Normal forms are well-formed *)

Lemma norm_pairs_clean kvs : Forall (fun kv => clean kv.2 -> clean (norm kv.2)) kvs -> Forall clean_pair kvs -> Forall clean_pair (norm_pairs kvs).
Proof.
  intros IH Hc. apply Forall_fmap. rewrite Forall_forall in IH, Hc |- *. intros kv Hin. destruct (Hc kv Hin) as [Hk Hw]. split; [done|]. by apply IH.
Qed.
Lemma norm_pairs_keys kvs : (norm_pairs kvs).*1 = kvs.*1.
Proof. unfold norm_pairs. by rewrite <- list_fmap_compose. Qed.
Lemma any_map_clean kvs : NoDup kvs.*1 -> Forall clean_pair kvs -> clean (any_map kvs).
Proof.
  intros Hn Hc. destruct (any_map_exists kvs Hn) as (kvs' & Hp & _ & ->). apply clean_map. by rewrite Hp.
Qed.
Lemma norm_clean v : clean v -> clean (norm v).
Proof.
  induction v as [|b|z|n|s|w IH|fs IH|kvs IH|vs IH] using gval_ind'; try done.
  - intros _. apply Itoa_number.
  - intros Hc. destruct (clean_kept fs Hc) as [Hn Hk]. rewrite norm_struct. apply any_map_clean; [by rewrite norm_pairs_keys|].
    apply norm_pairs_clean; [|done]. clear -IH. induction IH as [|[[k o] w] fs Hw _ IHf]; [constructor|].
    cbn [kept omap list_omap]. by destruct (o && emptyValue w); [|constructor].
  - rewrite clean_map. intros [Hn Hk]. rewrite norm_map. apply any_map_clean; [by rewrite norm_pairs_keys|]. by apply norm_pairs_clean.
  - rewrite clean_slice, norm_slice. intros Hc. apply clean_slice, Forall_fmap. rewrite Forall_forall in IH, Hc |- *. intros v Hv. by apply IH, Hc.
Qed.

(** The deepest of the parts of an object. *)
Definition pairs_depth (kvs : list (bytes * gval)) : nat := max_list_with (fun kv => vdepth kv.2) kvs.
Lemma vdepth_map kvs : vdepth (VMap kvs) = S (pairs_depth kvs).
Proof. cbn [vdepth]. f_equal. induction kvs as [|[k w] kvs IH]; [done|]. by rewrite IH. Qed.
Lemma vdepth_struct_kept fs : (S (pairs_depth (kept fs)) <= vdepth (VStruct fs))%nat.
Proof.
  cbn [vdepth]. apply le_n_S. induction fs as [|[[k o] w] fs IH]; [done|]. unfold pairs_depth in *. cbn [kept omap list_omap] in *.
  destruct (o && emptyValue w); simpl; unfold kept in IH; lia.
Qed.
Lemma any_map_depth kvs : NoDup kvs.*1 -> vdepth (any_map kvs) = S (pairs_depth kvs).
Proof.
  intros Hn. destruct (any_map_exists kvs Hn) as (kvs' & Hp & _ & ->). rewrite vdepth_map. unfold pairs_depth. by rewrite Hp.
Qed.
Lemma norm_pairs_depth kvs : Forall (fun kv => clean kv.2 -> vdepth (norm kv.2) <= vdepth kv.2)%nat kvs -> Forall clean_pair kvs ->
  (pairs_depth (norm_pairs kvs) <= pairs_depth kvs)%nat.
Proof.
  intros IH Hc. unfold pairs_depth, norm_pairs. induction Hc as [|[k w] kvs [_ Hw] _ IHc]; [done|].
  apply Forall_cons in IH as [H1 IH]. specialize (IHc IH). specialize (H1 Hw). cbn in *. lia.
Qed.
Lemma norm_depth v : clean v -> (vdepth (norm v) <= vdepth v)%nat.
Proof.
  induction v as [|b|z|n|s|w IH|fs IH|kvs IH|vs IH] using gval_ind'; try done.
  - intros Hc. destruct (clean_kept fs Hc) as [Hn Hk]. rewrite norm_struct, any_map_depth by (by rewrite norm_pairs_keys).
    etrans; [|apply vdepth_struct_kept]. apply le_n_S, norm_pairs_depth; [|done].
    clear -IH. induction IH as [|[[k o] w] fs Hw _ IHf]; [constructor|]. cbn [kept omap list_omap]. by destruct (o && emptyValue w); [|constructor].
  - rewrite clean_map. intros [Hn Hk]. rewrite norm_map, any_map_depth, vdepth_map by (by rewrite norm_pairs_keys). by apply le_n_S, norm_pairs_depth.
  - rewrite clean_slice, norm_slice. intros Hc. cbn [vdepth]. apply le_n_S. induction Hc as [|w vs Hw _ IHc]; [done|].
    apply Forall_cons in IH as [H1 IH]. specialize (IHc IH). specialize (H1 Hw). cbn [fmap list_fmap]. lia.
Qed.

(** Normalizing again changes nothing. *)
Lemma norm_pairs_idem kvs : Forall (fun kv => clean kv.2 -> norm (norm kv.2) = norm kv.2) kvs -> Forall clean_pair kvs ->
  norm_pairs (norm_pairs kvs) = norm_pairs kvs.
Proof.
  intros IH Hc. unfold norm_pairs. rewrite <- list_fmap_compose. apply list_fmap_ext. intros i kv Hi. unfold compose. cbn. f_equal.
  rewrite Forall_lookup in IH, Hc. destruct (Hc i kv Hi) as [_ Hw]. by eapply IH.
Qed.
Lemma any_map_norm kvs : NoDup kvs.*1 -> norm_pairs kvs = kvs -> norm (any_map kvs) = any_map kvs.
Proof.
  intros Hn E. destruct (any_map_exists kvs Hn) as (kvs' & Hp & Hs & ->). rewrite norm_map.
  assert (E' : norm_pairs kvs' = kvs').
  { assert (Hf : Forall (fun kv => (kv.1, norm kv.2) = kv) kvs).
    { clear -E. induction kvs as [|kv kvs IH]; [constructor|]. cbn in E. injection E as E1 E2. constructor; [done|by apply IH]. }
    rewrite <- Hp in Hf. clear -Hf. unfold norm_pairs. induction Hf as [|kv kvs Hk _ IH]; [done|]. cbn. by rewrite Hk, IH. }
  rewrite E'. apply any_map_sorted; [done|by rewrite Hp|done].
Qed.
Lemma norm_idem v : clean v -> norm (norm v) = norm v.
Proof.
  induction v as [|b|z|n|s|w IH|fs IH|kvs IH|vs IH] using gval_ind'; try done.
  - intros Hc. destruct (clean_kept fs Hc) as [Hn Hk]. rewrite norm_struct. apply any_map_norm; [by rewrite norm_pairs_keys|].
    apply norm_pairs_idem; [|done]. clear -IH. induction IH as [|[[k o] w] fs Hw _ IHf]; [constructor|].
    cbn [kept omap list_omap]. by destruct (o && emptyValue w); [|constructor].
  - rewrite clean_map. intros [Hn Hk]. rewrite norm_map. apply any_map_norm; [by rewrite norm_pairs_keys|]. by apply norm_pairs_idem.
  - rewrite clean_slice, !norm_slice. intros Hc. f_equal. rewrite <- list_fmap_compose. apply list_fmap_ext. intros i v Hv. unfold compose.
    rewrite Forall_lookup in IH, Hc. by eapply IH, Hc.
Qed.
