(* ===== verification/Codec.v ===== *)
(** * Codec: encoding/json on typed values

    What reflection does for a struct: its exported fields with the names and
    the omitempty options of their tags, written by json.Marshal and read back
    by json.Unmarshal.  A [codec] pairs the two directions; the codec of a
    struct is put together from those of its fields, and [struct_roundtrip]
    derives its round trip from theirs. *)

From S2P Require Import Prelude GoStrings GoNet Json AnyJson.

(** ** Codecs *)

Record codec (A : Type) := mkCodec {
  c_zero : A;                                  (** the zero value of the type *)
  c_value : A -> gval;                         (** what the marshaller sees *)
  c_into : A -> bytes -> option A              (** Unmarshal of a text into a variable holding the argument *)
}.
Arguments c_zero {A} c.
Arguments c_value {A} c x.
Arguments c_into {A} c old t.

Definition string_codec : codec string :=
  mkCodec _ "" (fun s => VString (byt s)) (fun old t => str <$> json_into_string (byt old) t).
Definition bool_codec : codec bool := mkCodec _ false VBool json_into_bool.
Definition range_codec (lo hi : Z) : codec Z := mkCodec _ 0 VInt (json_into_range lo hi).
Definition uint16_codec : codec Z := range_codec 0 (2 ^ 16 - 1).
Definition uint32_codec : codec Z := range_codec 0 (2 ^ 32 - 1).
Definition uint64_codec : codec Z := range_codec 0 (2 ^ 64 - 1).
Definition int64_codec : codec Z := range_codec minInt64 maxInt64.

(** A slice; nil and empty are not distinguished, and written as nil. *)
Definition slice_codec {A : Type} (c : codec A) : codec (list A) :=
  mkCodec _ [] (fun l => match l with [] => VNil | _ => VSlice (c_value c <$> l) end)
    (fun _ t => json_into_slice (c_into c (c_zero c)) t).
(** A pointer. *)
Definition ptr_codec {A : Type} (c : codec A) : codec (option A) :=
  mkCodec _ None (fun o => match o with None => VNil | Some x => VPtr (c_value c x) end)
    (fun old t => match json_shape t with
                  | Some JNull => Some None
                  | _ => Some <$> c_into c (default (c_zero c) old) t
                  end).

(** A map with string keys, its entries in the order of the keys. *)
Definition key_le (a b : string * string) : Prop := sle a.1 b.1.
#[export] Instance key_le_dec : RelDecision key_le := fun a b => sle_dec a.1 b.1.
Definition sorted_entries (m : gmap string string) : list (string * string) := merge_sort key_le (map_to_list m).
Definition entry_values (m : gmap string string) : list (bytes * gval) := (fun kv => (byt kv.1, VString (byt kv.2))) <$> sorted_entries m.
Definition map_codec : codec (gmap string string) :=
  mkCodec _ ∅ (fun m => VMap (entry_values m))
    (fun old t => match json_shape t with
                  | Some JNull => Some ∅
                  | Some (JObject ms) =>
                      foldr (fun kv k m => s ← json_into_string [] kv.2; k (<[str kv.1 := str s]> m)) Some ms old
                  | _ => None
                  end).

(** ** Structs *)

Record field (R : Type) := mkField {
  fd_name : string;
  fd_omit : bool;
  fd_value : R -> gval;
  fd_into : R -> bytes -> option R;
  fd_ok : R -> Prop;                           (** the field holds a value that survives *)
  fd_dec : forall r, Decision (fd_ok r)
}.
Arguments fd_name {R} f.
Arguments fd_omit {R} f.
Arguments fd_value {R} f r.
Arguments fd_into {R} f r t.
Arguments fd_ok {R} f r.
Arguments fd_dec {R} f r.

Definition struct_value {R : Type} (fs : list (field R)) (r : R) : gval :=
  VStruct ((fun f => (byt (fd_name f), fd_omit f, fd_value f r)) <$> fs).
(** A member goes to the field it names; others are skipped. *)
Definition struct_member {R : Type} (fs : list (field R)) (r : R) (m : bytes * bytes) : option R :=
  match List.find (fun f => names m.1 (fd_name f)) fs with
  | Some f => fd_into f r m.2
  | None => Some r
  end.
Definition struct_codec {R : Type} (fs : list (field R)) (zero : R) : codec R :=
  mkCodec R zero (struct_value fs) (fun old t => json_into_struct old (struct_member fs) t).

(** ** Laws *)

(** What [c] promises for a value of [P]: it is a well-formed value, only the
    zero value counts as empty, and reading its text into a zero variable gives
    it back, also when the text has been decoded into any and written again. *)
Record codec_ok {A : Type} (c : codec A) (P : A -> Prop) : Prop := {
  ck_clean : forall x, P x -> clean (c_value c x);
  ck_empty : forall x, P x -> emptyValue (c_value c x) = true -> x = c_zero c;
  ck_into : forall x, P x -> c_into c (c_zero c) (json_Marshal (c_value c x)) = Some x;
  ck_norm : forall x, P x -> c_into c (c_zero c) (json_Marshal (norm (c_value c x))) = Some x
}.
Lemma ck_value {A} (c : codec A) P : codec_ok c P -> forall x, P x -> value_ok (c_value c x).
Proof. intros Hc x Hx. by apply clean_value_ok, Hc. Qed.

Definition utf8_string (s : string) : Prop := utf8_Valid (byt s) = true.
Definition any {A : Type} (_ : A) : Prop := True.
Definition in_range (lo hi z : Z) : Prop := lo <= z <= hi.
#[export] Instance utf8_string_dec s : Decision (utf8_string s) := decide (utf8_Valid (byt s) = true).
#[export] Instance any_dec {A} (x : A) : Decision (any x) := left I.
#[export] Instance in_range_dec lo hi z : Decision (in_range lo hi z).
Proof. unfold in_range. apply _. Defined.

Lemma string_codec_ok : codec_ok string_codec utf8_string.
Proof.
  assert (Hi : forall s, utf8_string s -> str <$> json_into_string (byt "") (json_quote (byt s)) = Some s).
  { intros s Hs. unfold json_into_string. rewrite shape_str by done. cbn. by rewrite str_byt. }
  split; cbn [string_codec c_value c_zero c_into]; [done| |exact Hi..].
  intros s _. destruct s; [done|]. intros E. discriminate E.
Qed.
Lemma bool_codec_ok : codec_ok bool_codec any.
Proof. split; [done|by intros []..]. Qed.
Lemma range_codec_ok lo hi : codec_ok (range_codec lo hi) (in_range lo hi).
Proof.
  split; cbn [range_codec c_value c_zero c_into json_Marshal norm]; [done| |intros z Hz; by apply range_roundtrip..].
  intros z _. cbn [emptyValue]. intros E. by b2p.
Qed.

Lemma read_slice {A} (into : bytes -> option A) (f : A -> gval) l : Forall (fun x => value_ok (f x) /\ into (json_Marshal (f x)) = Some x) l ->
  json_into_slice into (json_Marshal (VSlice (f <$> l))) = Some l.
Proof.
  intros Hl. rewrite marshal_slice. unfold json_into_slice.
  rewrite shape_arr by (apply Forall_fmap, Forall_fmap; eapply Forall_impl; [exact Hl|]; intros y [Hy _]; by apply json_Marshal_jtext).
  apply mapM_Some. rewrite <- list_fmap_compose. apply Forall2_fmap_l. induction Hl as [|y k [_ Hy] _ IH]; by constructor.
Qed.
Lemma slice_codec_ok {A} (c : codec A) P : codec_ok c P -> codec_ok (slice_codec c) (Forall P).
Proof.
  intros Hc. split; cbn [slice_codec c_value c_zero c_into].
  - intros [|x l] Hl; [done|]. apply clean_slice, Forall_fmap. eapply Forall_impl; [exact Hl|]. apply Hc.
  - by intros [|x l] _.
  - intros [|x l] Hl; [reflexivity|]. apply read_slice. eapply Forall_impl; [exact Hl|]. intros y Hy. split; [by eapply ck_value|by apply Hc].
  - intros [|x l] Hl; [reflexivity|]. rewrite norm_slice, <- list_fmap_compose. apply (read_slice _ (norm ∘ c_value c)). eapply Forall_impl; [exact Hl|].
    intros y Hy. split; [apply clean_value_ok, norm_clean, Hc, Hy|by apply Hc].
Qed.

(** ** Maps *)

Definition utf8_map (m : gmap string string) : Prop := map_Forall (fun k v => utf8_string k /\ utf8_string v) m.
#[export] Instance utf8_map_dec m : Decision (utf8_map m).
Proof. unfold utf8_map. apply _. Defined.

Lemma sorted_entries_perm m : sorted_entries m ≡ₚ map_to_list m.
Proof. apply merge_sort_Permutation. Qed.
Lemma sorted_entries_utf8 m : utf8_map m -> Forall (fun kv => utf8_string kv.1 /\ utf8_string kv.2) (sorted_entries m).
Proof.
  intros Hm. apply Forall_forall. intros [k v] Hin. rewrite sorted_entries_perm in Hin.
  apply elem_of_map_to_list in Hin. by apply Hm.
Qed.
Lemma sorted_entries_NoDup m : NoDup (sorted_entries m).*1.
Proof. rewrite sorted_entries_perm. apply NoDup_fst_map_to_list. Qed.
Lemma sorted_entries_map m : list_to_map (sorted_entries m) = m.
Proof.
  rewrite (list_to_map_proper _ (map_to_list m)); [apply list_to_map_to_list|apply sorted_entries_NoDup|apply sorted_entries_perm].
Qed.

Lemma into_string_quote old v : utf8_Valid v = true -> json_into_string old (json_quote v) = Some v.
Proof. intros Hv. unfold json_into_string. by rewrite shape_str. Qed.

(** The members of the text of a map are inserted one by one. *)
Lemma insert_entries l (m0 : gmap string string) : NoDup l.*1 -> Forall (fun kv => utf8_string kv.1 /\ utf8_string kv.2) l ->
  foldr (fun kv k m => s ← json_into_string [] kv.2; k (<[str kv.1 := str s]> m)) Some
    ((fun kv => (byt kv.1, json_quote (byt kv.2))) <$> l) m0 = Some (list_to_map l ∪ m0).
Proof.
  revert m0. induction l as [|[k v] l IH]; intros m0 Hn Hu; cbn [fmap list_fmap foldr].
  { by rewrite list_to_map_nil, (left_id_L ∅ (∪)). }
  rewrite fmap_cons, NoDup_cons in Hn. destruct Hn as [Hk Hn]. apply Forall_cons in Hu as [[Hk1 Hv1] Hu].
  cbn [fst snd] in *. rewrite into_string_quote by done. cbn [mbind option_bind]. rewrite !str_byt.
  setoid_rewrite IH; [|done|done]. f_equal. rewrite list_to_map_cons.
  rewrite <- insert_union_r; [by rewrite insert_union_l|]. by apply not_elem_of_list_to_map_1.
Qed.

Lemma map_codec_ok : codec_ok map_codec utf8_map.
Proof.
  assert (Hnd : forall m, NoDup (entry_values m).*1).
  { intros m. unfold entry_values. rewrite <- list_fmap_compose. change (NoDup ((byt ∘ fst) <$> sorted_entries m)). rewrite list_fmap_compose.
    apply (NoDup_fmap_2 byt), sorted_entries_NoDup. }
  assert (Hn : forall m, norm (VMap (entry_values m)) = VMap (entry_values m)).
  { intros m. rewrite norm_map. assert (E : norm_pairs (entry_values m) = entry_values m) by (unfold norm_pairs, entry_values; by rewrite <- list_fmap_compose).
    rewrite E. apply any_map_sorted; [done|apply Hnd|]. unfold entry_values, sorted_entries.
    assert (Hs : StronglySorted key_le (merge_sort key_le (map_to_list m))).
    { apply StronglySorted_merge_sort; [intros a b c; apply sle_trans|]. intros a b. apply (total sle). }
    induction Hs as [|x l _ IH Hx]; cbn; constructor; [done|]. apply Forall_fmap. eapply Forall_impl; [exact Hx|].
    intros y Hy. unfold pair_le. cbn. by rewrite !str_byt. }
  assert (Hi : forall m, utf8_map m -> c_into map_codec ∅ (json_Marshal (VMap (entry_values m))) = Some m).
  { intros m Hm. cbn [map_codec c_into]. unfold entry_values. rewrite marshal_map. unfold pair_texts. rewrite <- list_fmap_compose.
    rewrite shape_obj.
    2:{ apply Forall_fmap. eapply Forall_impl; [by apply sorted_entries_utf8|]. intros [k v] [Hk _]. split; [done|apply jt_str]. }
    unfold compose. cbn [json_Marshal fst snd]. rewrite insert_entries by first [apply sorted_entries_NoDup | by apply sorted_entries_utf8].
    by rewrite sorted_entries_map, (right_id_L ∅ (∪)). }
  split; cbn [map_codec c_value c_zero].
  - intros m Hm. apply clean_map. split; [apply Hnd|]. apply Forall_fmap. eapply Forall_impl; [by apply sorted_entries_utf8|]. intros [k v] [Hk Hv]. done.
  - intros m _ E. rewrite <- (sorted_entries_map m). cbn [emptyValue] in E. unfold entry_values in E. by destruct (sorted_entries m).
  - exact Hi.
  - intros m Hm. rewrite Hn. by apply Hi.
Qed.

(** ** Structs *)

Section structs.
Context {R : Type}.
Implicit Types (fs : list (field R)) (r s : R).

Definition struct_ok fs r : Prop := Forall (fun f => fd_ok f r) fs.
#[export] Instance struct_ok_dec fs r : Decision (struct_ok fs r).
Proof. apply (@Forall_dec _ (fun f => fd_ok f r) (fun f => fd_dec f r)). Defined.

(** The tags of a struct: lower case and distinct. *)
Definition tags_ok fs : bool :=
  bool_decide (NoDup (fd_name <$> fs))
  && forallb (fun f => utf8_Valid (byt (fd_name f)) && bool_decide (fold_name (byt (fd_name f)) = byt (fd_name f))) fs.

Lemma tags_ok_elem fs f : tags_ok fs = true -> f ∈ fs ->
  utf8_Valid (byt (fd_name f)) = true /\ fold_name (byt (fd_name f)) = byt (fd_name f).
Proof.
  unfold tags_ok. intros [_ Hf]%andb_prop Hin. rewrite forallb_forall in Hf.
  specialize (Hf f ltac:(by apply list_elem_of_In)). by b2p.
Qed.
Lemma find_own fs f : tags_ok fs = true -> f ∈ fs ->
  List.find (fun g => names (byt (fd_name f)) (fd_name g)) fs = Some f.
Proof.
  intros Ht Hin. destruct (tags_ok_elem fs f Ht Hin) as [_ Hfold].
  assert (Hnd : NoDup (fd_name <$> fs)) by (unfold tags_ok in Ht; by b2p). clear Ht.
  induction fs as [|g fs IH]; [by apply elem_of_nil in Hin|]. rewrite fmap_cons, NoDup_cons in Hnd. destruct Hnd as [Hg Hnd].
  cbn [List.find]. unfold names at 1. rewrite Hfold. case_bool_decide as E.
  - apply byt_inj in E. apply elem_of_cons in Hin as [->|Hin]; [done|]. destruct Hg. rewrite <- E. by apply list_elem_of_fmap_2.
  - apply elem_of_cons in Hin as [->|Hin]; [done|]. by apply IH.
Qed.

(** Reading field [f] of the text of [r] takes the variable from [s] to [s']. *)
Definition fills f r s s' : Prop :=
  (fd_omit f && emptyValue (fd_value f r) = true -> s' = s)
  /\ (fd_omit f && emptyValue (fd_value f r) = false ->
      fd_into f s (json_Marshal (fd_value f r)) = Some s' /\ fd_into f s (json_Marshal (norm (fd_value f r))) = Some s').
Inductive fill_all r : list (field R) -> R -> R -> Prop :=
  | fill_nil s : fill_all r [] s s
  | fill_cons f fs s s1 s2 : fills f r s s1 -> fill_all r fs s1 s2 -> fill_all r (f :: fs) s s2.

(** The fields that are written, with their values. *)
Definition written fs r : list (bytes * gval) :=
  omap (fun f => if fd_omit f && emptyValue (fd_value f r) then None else Some (byt (fd_name f), fd_value f r)) fs.
Lemma struct_kept fs r : kept ((fun f => (byt (fd_name f), fd_omit f, fd_value f r)) <$> fs) = written fs r.
Proof.
  unfold kept, written. induction fs as [|f fs IH]; [done|]. cbn [fmap list_fmap omap list_omap] in *. by rewrite IH.
Qed.
Lemma written_elem fs r kv : kv ∈ written fs r -> exists f, f ∈ fs /\ kv = (byt (fd_name f), fd_value f r).
Proof. intros (f & Hin & E)%list_elem_of_omap. destruct (_ && _); simplify_eq. by exists f. Qed.

(** Reading the fields one after the other, from their texts [tx]. *)
Lemma fill_all_decodes (tx : gval -> bytes) all fs r s s' : tx = json_Marshal \/ tx = json_Marshal ∘ norm ->
  tags_ok all = true -> Forall (fun f => f ∈ all) fs -> fill_all r fs s s' ->
  fold_fields (struct_member all) ((fun kv => (kv.1, tx kv.2)) <$> written fs r) s = Some s'.
Proof.
  intros Htx Ht Hall Hf. induction Hf as [s|f fs s s1 s2 [H1 H2] _ IH]; [done|]. apply Forall_cons in Hall as [Hin Hall].
  unfold written in *. cbn [omap list_omap]. destruct (fd_omit f && emptyValue (fd_value f r)); [rewrite <- H1 by done; by apply IH|].
  assert (E : struct_member all s (byt (fd_name f), tx (fd_value f r)) = Some s1).
  { unfold struct_member. cbn [fst snd]. rewrite find_own by done. destruct (H2 eq_refl), Htx as [-> | ->]; done. }
  unfold fold_fields in *. cbn [fmap list_fmap foldr fst snd]. rewrite E. cbn [mbind option_bind]. by apply IH.
Qed.

(** A field whose codec is lawful writes a well-formed value. *)
Definition field_ok (f : field R) : Prop := forall r, fd_ok f r -> clean (fd_value f r).

(** The fields in another order. *)
Definition pick_order (order : list nat) fs : list (field R) := omap (fun i => fs !! i) order.
Definition in_order (order : list nat) fs : bool :=
  bool_decide (order ≡ₚ seq 0 (length fs)) && bool_decide (StronglySorted sle (omap (fun i => (fd_name <$> fs) !! i) order)).

(** The contract of a struct: its tags are in order, its fields are, and
    filling a zero variable field by field from [r] ends in [r], in the order of
    the declaration and in the order of the tags. *)
Record struct_spec fs (zero : R) : Prop := {
  ss_tags : tags_ok fs = true;
  ss_fields : Forall field_ok fs;
  ss_fill : forall r, struct_ok fs r -> fill_all r fs zero r;
  ss_sorted : exists order, in_order order fs = true /\ forall r, struct_ok fs r -> fill_all r (pick_order order fs) zero r
}.

Lemma struct_value_clean fs zero r : struct_spec fs zero -> struct_ok fs r -> clean (struct_value fs r).
Proof.
  intros [Ht Hf _ _] Hr. unfold struct_value. apply clean_struct. split.
  - rewrite <- !list_fmap_compose. change (NoDup ((byt ∘ fd_name) <$> fs)). rewrite list_fmap_compose. apply (NoDup_fmap_2 byt).
    unfold tags_ok in Ht. by b2p.
  - apply Forall_fmap, Forall_forall. intros f Hin. cbn [fst snd compose]. split; [by apply (tags_ok_elem fs)|].
    unfold struct_ok in Hr. rewrite Forall_forall in Hf, Hr. by apply Hf, Hr.
Qed.
Lemma struct_value_ok fs zero r : struct_spec fs zero -> struct_ok fs r -> value_ok (struct_value fs r).
Proof. intros Hs Hr. apply clean_value_ok. by eapply struct_value_clean. Qed.

Definition struct_members fs r : list (bytes * bytes) := pair_texts (written fs r).
Lemma struct_members_Forall fs r (P : bytes * bytes -> Prop) :
  Forall (fun f => P (byt (fd_name f), json_Marshal (fd_value f r))) fs -> Forall P (struct_members fs r).
Proof.
  intros Hf. unfold struct_members, pair_texts. apply Forall_fmap, Forall_forall. intros kv (f & Hin & ->)%written_elem.
  rewrite Forall_forall in Hf. exact (Hf f Hin).
Qed.
Lemma written_shape fs zero r kvs : struct_spec fs zero -> struct_ok fs r -> Forall (fun kv => exists f, f ∈ fs /\ kv = (byt (fd_name f), fd_value f r)) kvs ->
  json_shape (braces (member_texts (pair_texts kvs))) = Some (JObject (pair_texts kvs))
  /\ json_shape (braces (member_texts (pair_texts (norm_pairs kvs)))) = Some (JObject (pair_texts (norm_pairs kvs))).
Proof.
  intros Hs Hr Hk. rewrite Forall_forall in Hk. assert (Hc : Forall clean_pair kvs).
  { apply Forall_forall. intros kv Hkv. destruct (Hk kv Hkv) as (f & Hin & ->). split; [by apply (tags_ok_elem fs), Hin; apply Hs|].
    unfold struct_ok in Hr. pose proof (ss_fields _ _ Hs) as Hf. rewrite Forall_forall in Hf, Hr. by apply Hf, Hr. }
  split; apply shape_obj.
  - apply Forall_fmap. eapply Forall_impl; [exact Hc|]. intros kv [Hu Hv]. split; [done|]. by apply json_Marshal_jtext, clean_value_ok.
  - unfold pair_texts, norm_pairs. rewrite <- list_fmap_compose. apply Forall_fmap. eapply Forall_impl; [exact Hc|].
    intros kv [Hu Hv]. split; [done|]. by apply json_Marshal_jtext, clean_value_ok, norm_clean.
Qed.
Lemma struct_shape fs zero r : struct_spec fs zero -> struct_ok fs r ->
  json_shape (json_Marshal (struct_value fs r)) = Some (JObject (struct_members fs r)).
Proof.
  intros Hs Hr. unfold struct_value, struct_members. rewrite marshal_struct, struct_kept.
  apply (written_shape fs zero r); [done|done|]. apply Forall_forall. intros kv. apply written_elem.
Qed.
Lemma struct_unmarshal fs zero r : struct_spec fs zero -> struct_ok fs r ->
  json_into_struct zero (struct_member fs) (json_Marshal (struct_value fs r)) = Some r.
Proof.
  intros Hs Hr. unfold json_into_struct. rewrite (struct_shape fs zero) by done.
  apply (fill_all_decodes json_Marshal); [by left|apply Hs|by apply Forall_forall|by apply Hs].
Qed.

(** *** Structs in the order of their tags *)

Lemma pick_seq p fs : omap (fun i => (p ++ fs) !! i) (seq (length p) (length fs)) = fs.
Proof.
  revert p. induction fs as [|f fs IH]; intros p; [done|]. cbn [length seq omap list_omap].
  rewrite (list_lookup_middle p fs f) by done. f_equal. replace (p ++ f :: fs) with ((p ++ [f]) ++ fs) by (by rewrite <- app_assoc).
  rewrite <- (IH (p ++ [f])) at 2. rewrite length_app, Nat.add_1_r. done.
Qed.
Lemma pick_perm order fs : order ≡ₚ seq 0 (length fs) -> pick_order order fs ≡ₚ fs.
Proof. intros Hp. unfold pick_order. rewrite Hp. pose proof (pick_seq [] fs) as E. cbn [app length] in E. by rewrite E. Qed.
Lemma pick_names order fs : fd_name <$> pick_order order fs = omap (fun i => (fd_name <$> fs) !! i) order.
Proof.
  unfold pick_order. induction order as [|i order IH]; [done|]. cbn [omap list_omap]. rewrite list_lookup_fmap.
  destruct (fs !! i) as [f|]; cbn [fmap option_fmap option_map]; [|done]. rewrite fmap_cons. by rewrite IH.
Qed.
Lemma written_perm fs fs' r : fs ≡ₚ fs' -> written fs r ≡ₚ written fs' r.
Proof. intros Hp. unfold written. by rewrite Hp. Qed.
Lemma written_sorted fs r : StronglySorted sle (fd_name <$> fs) -> StronglySorted pair_le (norm_pairs (written fs r)).
Proof.
  unfold norm_pairs, written. intros Hs. induction fs as [|f fs IH]; [constructor|]. rewrite fmap_cons in Hs.
  apply StronglySorted_inv in Hs as [Hs Hf]. cbn [omap list_omap]. destruct (fd_omit f && emptyValue (fd_value f r)); [by apply IH|].
  cbn [fmap list_fmap]. constructor; [by apply IH|]. apply Forall_fmap, Forall_forall. intros kv (g & Hg & ->)%written_elem.
  rewrite Forall_fmap, Forall_forall in Hf. unfold pair_le. cbn. rewrite !str_byt. by apply Hf.
Qed.
(** The members of a struct that has been decoded into any. *)
Lemma struct_norm fs zero r : struct_spec fs zero -> struct_ok fs r -> exists kvs, kvs ≡ₚ written fs r
  /\ norm (struct_value fs r) = VMap (norm_pairs kvs)
  /\ json_into_struct zero (struct_member fs) (json_Marshal (norm (struct_value fs r))) = Some r.
Proof.
  intros Hs Hr. destruct (ss_sorted _ _ Hs) as (order & Ho & Hfill). unfold in_order in Ho. apply andb_prop in Ho as [Hp Hord].
  apply bool_decide_eq_true in Hp. apply bool_decide_eq_true in Hord. rewrite <- pick_names in Hord. apply pick_perm in Hp as Hpick.
  exists (written (pick_order order fs) r). assert (Hw : written (pick_order order fs) r ≡ₚ written fs r) by (by apply written_perm).
  assert (E : norm (struct_value fs r) = VMap (norm_pairs (written (pick_order order fs) r))).
  { unfold struct_value. rewrite norm_struct, struct_kept. apply any_map_sorted.
    - unfold norm_pairs. by rewrite Hw.
    - rewrite norm_pairs_keys. pose proof (struct_value_clean fs zero r Hs Hr) as Hc. apply clean_kept in Hc as [Hn _]. by rewrite struct_kept in Hn.
    - by apply written_sorted. }
  split_and!; [done|done|]. rewrite E, marshal_map. unfold json_into_struct.
  destruct (written_shape fs zero r (written (pick_order order fs) r) Hs Hr) as [_ ->].
  { apply Forall_forall. intros kv Hkv. rewrite Hw in Hkv. by apply written_elem. }
  unfold pair_texts, norm_pairs. rewrite <- list_fmap_compose. apply (fill_all_decodes (json_Marshal ∘ norm)); [by right|apply Hs| |by apply Hfill].
  apply Forall_forall. intros f Hf. by rewrite Hpick in Hf.
Qed.
(** The text of a struct, in either form: its members are the fields that are
    written, each in the same form. *)
Definition text_of (tx : gval -> bytes) : Prop := tx = json_Marshal \/ tx = json_Marshal ∘ norm.
Lemma struct_text fs zero r tx : struct_spec fs zero -> struct_ok fs r -> text_of tx -> exists kvs, kvs ≡ₚ written fs r
  /\ tx (struct_value fs r) = braces (member_texts ((fun kv => (kv.1, tx kv.2)) <$> kvs))
  /\ Forall (fun m => utf8_Valid m.1 = true /\ jtext m.2) ((fun kv => (kv.1, tx kv.2)) <$> kvs) /\ NoDup kvs.*1.
Proof.
  intros Hs Hr Htx. destruct (clean_kept _ (struct_value_clean fs zero r Hs Hr)) as [Hn Hc]. rewrite struct_kept in Hn, Hc.
  assert (Hall : forall kvs, kvs ≡ₚ written fs r -> Forall (fun m => utf8_Valid m.1 = true /\ jtext m.2) ((fun kv => (kv.1, tx kv.2)) <$> kvs) /\ NoDup kvs.*1).
  { intros kvs Hp. split; [|by rewrite Hp]. rewrite <- Hp in Hc. apply Forall_fmap. eapply Forall_impl; [exact Hc|]. intros kv [Hu Hv]. split; [done|].
    destruct Htx as [-> | ->]; [by apply json_Marshal_jtext, clean_value_ok|by apply json_Marshal_jtext, clean_value_ok, norm_clean]. }
  destruct Htx as [-> | ->].
  - exists (written fs r). split_and!; [done| |by apply Hall..]. unfold struct_value. by rewrite marshal_struct, struct_kept.
  - destruct (struct_norm fs zero r Hs Hr) as (kvs & Hp & E & _). exists kvs. split_and!; [done| |by apply Hall..].
    unfold compose. rewrite E, marshal_map. unfold pair_texts, norm_pairs. by rewrite <- list_fmap_compose.
Qed.
(** What is written for one field. *)
Lemma written_field fs zero r f : struct_spec fs zero -> f ∈ fs ->
  if fd_omit f && emptyValue (fd_value f r) then byt (fd_name f) ∉ (written fs r).*1 else (byt (fd_name f), fd_value f r) ∈ written fs r.
Proof.
  intros Hs Hin. destruct (fd_omit f && emptyValue (fd_value f r)) eqn:E.
  - intros (kv & E1 & Hkv)%list_elem_of_fmap. unfold written in Hkv. apply list_elem_of_omap in Hkv as (g & Hg & Eg).
    destruct (fd_omit g && emptyValue (fd_value g r)) eqn:E2; simplify_eq. cbn in E1. apply byt_inj in E1.
    assert (f = g); [|congruence]. pose proof (find_own fs f (ss_tags _ _ Hs) Hin) as F1. pose proof (find_own fs g (ss_tags _ _ Hs) Hg) as F2.
    rewrite E1 in F1. congruence.
  - unfold written. apply list_elem_of_omap. exists f. split; [done|]. by rewrite E.
Qed.
Lemma struct_codec_ok fs zero : struct_spec fs zero -> codec_ok (struct_codec fs zero) (struct_ok fs).
Proof.
  intros Hs. split; cbn [struct_codec c_value c_zero c_into]; [by eauto using struct_value_clean|done|by intros r Hr; apply struct_unmarshal|].
  intros r Hr. by destruct (struct_norm fs zero r Hs Hr) as (kvs & _ & _ & ?).
Qed.
End structs.

(** ** Types with a codec *)

(** A type with its codec and the values of it that survive. *)
Record jtype (A : Type) := mkJtype {
  jt_codec : codec A;
  jt_ok : A -> Prop;
  jt_law : codec_ok jt_codec jt_ok;
  jt_dec : forall x, Decision (jt_ok x)
}.
Arguments jt_codec {A} j.
Arguments jt_ok {A} j x.
Arguments jt_law {A} j.
Arguments jt_dec {A} j x.

(** The field with tag [name], read by [get] and assigned by [put]. *)
Definition tagged {R A : Type} (name : string) (omit : bool) (j : jtype A) (get : R -> A) (put : A -> R -> R) : field R :=
  mkField R name omit (fun r => c_value (jt_codec j) (get r))
    (fun r t => x ← c_into (jt_codec j) (get r) t; Some (put x r)) (fun r => jt_ok j (get r)) (fun r => jt_dec j (get r)).
(** A field without and with omitempty. *)
Notation req name j f := (tagged name false j f (fun x r => r <| f := x |>)) (only parsing).
Notation opt name j f := (tagged name true j f (fun x r => r <| f := x |>)) (only parsing).

Lemma tagged_fills {R A} name omit (j : jtype A) (get : R -> A) put (r s : R) :
  jt_ok j (get r) -> get s = c_zero (jt_codec j) -> put (c_zero (jt_codec j)) s = s ->
  fills (tagged name omit j get put) r s (put (get r) s).
Proof.
  intros Hp Hz Hput. destruct j as [c P [Hv He Hi Hn] ?]. split; cbn [tagged fd_omit fd_value fd_into jt_codec jt_ok] in *.
  - intros [_ E]%andb_prop. by rewrite (He _ Hp E).
  - intros _. rewrite Hz, Hi, Hn by done. done.
Qed.
Lemma tagged_ok {R A} name omit (j : jtype A) (get : R -> A) put : field_ok (tagged name omit j get put).
Proof. intros r Hr. by apply (ck_clean _ _ (jt_law j)). Qed.

Definition ptr_ok {A : Type} (P : A -> Prop) (o : option A) : Prop := match o with None => True | Some x => P x end.
#[export] Instance ptr_ok_dec {A} (P : A -> Prop) `{forall x, Decision (P x)} o : Decision (ptr_ok P o).
Proof. destruct o; cbn; apply _. Defined.
Lemma ptr_codec_ok {R} (fs : list (field R)) zero : struct_spec fs zero ->
  codec_ok (ptr_codec (struct_codec fs zero)) (ptr_ok (struct_ok fs)).
Proof.
  intros Hs. pose proof (struct_codec_ok fs zero Hs) as [Hv _ Hi Hn]. split; cbn [ptr_codec c_value c_zero c_into].
  - intros [x|] Hx; [|done]. by apply (Hv x).
  - by intros [x|].
  - intros [x|] Hx; [|done]. specialize (Hi x Hx). cbn [json_Marshal default struct_codec c_value c_zero c_into] in *.
    rewrite (struct_shape fs zero) by done. by rewrite Hi.
  - intros [x|] Hx; [|done]. destruct (struct_norm fs zero x Hs Hx) as (kvs & Hp & E & Hr). cbn [norm default struct_codec c_value c_zero c_into].
    rewrite E, marshal_map in Hr |- *. destruct (written_shape fs zero x kvs Hs Hx) as [_ Hsh].
    { apply Forall_forall. intros kv Hkv. rewrite Hp in Hkv. by apply written_elem. }
    rewrite Hsh. by rewrite Hr.
Qed.

Definition jstring : jtype string := mkJtype _ _ _ string_codec_ok _.
Definition jbool : jtype bool := mkJtype _ _ _ bool_codec_ok _.
Definition juint16 : jtype Z := mkJtype _ uint16_codec _ (range_codec_ok _ _) _.
Definition juint32 : jtype Z := mkJtype _ uint32_codec _ (range_codec_ok _ _) _.
Definition juint64 : jtype Z := mkJtype _ uint64_codec _ (range_codec_ok _ _) _.
Definition jint64 : jtype Z := mkJtype _ int64_codec _ (range_codec_ok _ _) _.
Definition jmap : jtype (gmap string string) := mkJtype _ _ _ map_codec_ok _.
Definition jslice {A : Type} (j : jtype A) : jtype (list A) :=
  mkJtype _ _ _ (slice_codec_ok _ _ (jt_law j)) (@Forall_dec _ _ (jt_dec j)).
Definition jstruct {R : Type} {fs : list (field R)} {zero : R} (H : struct_spec fs zero) : jtype R :=
  mkJtype _ _ _ (struct_codec_ok fs zero H) _.
Definition jptr {R : Type} {fs : list (field R)} {zero : R} (H : struct_spec fs zero) : jtype (option R) :=
  mkJtype _ _ _ (ptr_codec_ok fs zero H) _.

(** The positions of the tags in their order. *)
Definition tag_le (a b : string * nat) : Prop := sle a.1 b.1.
#[export] Instance tag_le_dec : RelDecision tag_le := fun a b => sle_dec a.1 b.1.
Definition tag_order (names : list string) : list nat := (merge_sort tag_le (zip names (seq 0 (length names)))).*2.
Lemma pick_ok {R} (fs : list (field R)) order r : in_order order fs = true -> struct_ok fs r -> Forall (fun f => fd_ok f r) (pick_order order fs).
Proof. unfold in_order. intros [Hp%bool_decide_eq_true _]%andb_prop Hr. by rewrite (pick_perm order fs). Qed.

(** Fill a struct field by field, reducing the variable after each. *)
Ltac fill_step Hr :=
  let H := fresh in
  apply Forall_cons in Hr as [H Hr];
  eapply fill_cons; [apply tagged_fills; [exact H|reflexivity|reflexivity]|];
  clear H;
  match goal with |- fill_all _ _ ?s _ => let s' := eval cbn in s in change s with s' end.
Ltac sorted_by_fields :=
  match goal with |- exists order, in_order order ?fs = true /\ _ =>
    let order := eval vm_compute in (tag_order (fd_name <$> fs)) in
    let body := eval red in fs in
    let l := eval cbn [pick_order omap list_omap lookup list_lookup] in (pick_order order body) in
    let Ho := fresh "Ho" in let r := fresh "r" in let Hr := fresh "Hr" in
    exists order; assert (Ho : in_order order fs = true) by (vm_compute; reflexivity); split; [exact Ho|];
    intros r Hr; apply (pick_ok fs order r Ho) in Hr; clear Ho; change (pick_order order fs) with l in *;
    repeat fill_step Hr; destruct r; apply fill_nil
  end.
Ltac struct_by_fields :=
  split; [vm_compute; reflexivity
         |repeat (apply Forall_cons; split; [apply tagged_ok|]); apply Forall_nil_2
         |let r := fresh "r" in let Hr := fresh "Hr" in intros r Hr; unfold struct_ok in Hr;
          repeat fill_step Hr; destruct r; apply fill_nil
         |sorted_by_fields].
