(* ===== verification/EventJson.v ===== *)
(** * EventJson: the JSON form of an event

    The tags of the structs of internal/event/event.go and of
    internal/intel/types.go as tables of fields, from which the value that
    json.Marshal sees and the decoder that json.Unmarshal runs are derived.
    The two fields the program never assigns keep the simplified type they have
    in Events: error_rate_percent (float64) and raw_feature (map[string]any). *)

From S2P Require Import Prelude GoStrings GoNet Json AnyJson Codec Events.

Definition fields_IntelEvidence : list (field IntelEvidence) := [
  opt "activity" jstring ie_Activity;
  opt "threat_labels" (jslice jstring) ie_ThreatLabels;
  opt "source" jstring ie_Source;
  opt "cross_check" jstring ie_CrossCheck;
  opt "confidence" jstring ie_Confidence;
  opt "tlp" jstring ie_TLP;
  opt "misp_event_id" jstring ie_MISPEventID;
  opt "narrative" jstring ie_Narrative
].
Lemma spec_IntelEvidence : struct_spec fields_IntelEvidence zero_IntelEvidence.
Proof. struct_by_fields. Qed.

Definition fields_AppContext : list (field AppContext) := [
  opt "http_method" jstring app_HTTPMethod;
  opt "http_host" jstring app_HTTPHost;
  opt "http_url" jstring app_HTTPURL;
  opt "user_agent" jstring app_UserAgent;
  opt "http_headers" jmap app_HTTPHeaders;
  opt "http_body_sample" jstring app_HTTPBody;
  opt "dns_query" jstring app_DNSQuery;
  opt "dns_qtype" juint16 app_DNSQType;
  opt "dns_answers" (jslice jstring) app_DNSAnswers;
  opt "tls_sni" jstring app_TLSSNI;
  opt "payload_sample" jstring app_PayloadSample;
  opt "icmp_seq" juint32 app_ICMPSeq
].
Lemma spec_AppContext : struct_spec fields_AppContext zero_AppContext.
Proof. struct_by_fields. Qed.

Definition fields_RawMessageContext : list (field RawMessageContext) := [
  opt "capture_time" jstring rm_CaptureTime;
  opt "capture_time_usec" juint64 rm_CaptureTimeUsec;
  opt "packet_sequence" juint64 rm_PacketSequence;
  req "packet_hex" jstring rm_PacketHex;
  opt "payload_hex" jstring rm_PayloadHex;
  opt "payload_text" jstring rm_PayloadText;
  opt "captured_length" juint32 rm_CapturedLength;
  opt "wire_length" juint32 rm_WireLength;
  opt "capture_truncated" jbool rm_CaptureTruncated;
  opt "tcp_seq" juint32 rm_TCPSeq;
  opt "tcp_ack" juint32 rm_TCPAck;
  opt "retransmission" jbool rm_Retransmission
].
Lemma spec_RawMessageContext : struct_spec fields_RawMessageContext zero_RawMessageContext.
Proof. struct_by_fields. Qed.

Definition fields_RawPacketContext : list (field RawPacketContext) := [
  opt "session_start_time" jstring rp_SessionStartTime;
  opt "session_start_time_usec" juint64 rp_SessionStartTimeUsec;
  opt "capture_time" jstring rp_CaptureTime;
  opt "capture_time_usec" juint64 rp_CaptureTimeUsec;
  opt "packet_sequence" juint64 rp_PacketSequence;
  opt "message_direction" jstring rp_MessageDirection;
  opt "direction_source" jstring rp_DirectionSource;
  opt "direction_confidence" jstring rp_DirectionConfidence;
  opt "transport_direction" jstring rp_TransportDirection;
  req "packet_hex" jstring rp_PacketHex;
  opt "payload_hex" jstring rp_PayloadHex;
  opt "payload_text" jstring rp_PayloadText;
  opt "captured_length" juint32 rp_CapturedLength;
  opt "wire_length" juint32 rp_WireLength;
  opt "capture_truncated" jbool rp_CaptureTruncated;
  opt "request" (jptr spec_RawMessageContext) rp_Request;
  opt "response" (jptr spec_RawMessageContext) rp_Response
].
Lemma spec_RawPacketContext : struct_spec fields_RawPacketContext zero_RawPacketContext.
Proof. struct_by_fields. Qed.

Definition fields_ExchangeMessageContext : list (field ExchangeMessageContext) := [
  opt "capture_start_time_usec" juint64 em_CaptureStartTimeUsec;
  opt "capture_end_time_usec" juint64 em_CaptureEndTimeUsec;
  opt "packet_count" juint64 em_PacketCount;
  opt "captured_bytes" juint64 em_CapturedBytes;
  opt "wire_bytes" juint64 em_WireBytes;
  opt "retransmissions" juint64 em_Retransmissions;
  opt "reassembled_hex" jstring em_ReassembledHex;
  opt "reassembled_text" jstring em_ReassembledText;
  opt "truncated" jbool em_Truncated;
  opt "completeness_reason" jstring em_CompletenessReason;
  opt "reassembly_incomplete" jbool em_ReassemblyIncomplete;
  opt "packets" (jslice (jstruct spec_RawMessageContext)) em_Packets
].
Lemma spec_ExchangeMessageContext : struct_spec fields_ExchangeMessageContext zero_ExchangeMessageContext.
Proof. struct_by_fields. Qed.

Definition fields_ExchangeContext : list (field ExchangeContext) := [
  opt "request" (jptr spec_ExchangeMessageContext) ex_Request;
  opt "response" (jptr spec_ExchangeMessageContext) ex_Response;
  opt "response_status" jstring ex_ResponseStatus
].
Lemma spec_ExchangeContext : struct_spec fields_ExchangeContext zero_ExchangeContext.
Proof. struct_by_fields. Qed.

Definition fields_SessionSummary : list (field SessionSummary) := [
  opt "first_time_usec" juint64 ss_FirstTimeUsec;
  opt "last_time_usec" juint64 ss_LastTimeUsec;
  opt "client_packets" juint64 ss_ClientPackets;
  opt "server_packets" juint64 ss_ServerPackets;
  opt "client_wire_bytes" juint64 ss_ClientWireBytes;
  opt "server_wire_bytes" juint64 ss_ServerWireBytes;
  opt "hit_count" juint64 ss_HitCount;
  opt "midstream" jbool ss_Midstream
].
Lemma spec_SessionSummary : struct_spec fields_SessionSummary zero_SessionSummary.
Proof. struct_by_fields. Qed.

Definition fields_AppEndpoint : list (field AppEndpoint) := [
  opt "method" jstring ae_Method;
  opt "path" jstring ae_Path;
  opt "host" jstring ae_Host;
  req "count" juint64 ae_Count;
  opt "user_agents" (jslice jstring) ae_UserAgents;
  opt "sample_request_body" jstring ae_SampleBody
].
Lemma spec_AppEndpoint : struct_spec fields_AppEndpoint zero_AppEndpoint.
Proof. struct_by_fields. Qed.

Definition fields_AppStats : list (field AppStats) := [
  req "window_start_usec" juint64 as_WindowStartUsec;
  req "window_end_usec" juint64 as_WindowEndUsec;
  req "request_count" juint64 as_RequestCount;
  opt "response_count" juint64 as_ResponseCount;
  opt "http_4xx_count" juint64 as_HTTP4xxCount;
  opt "http_5xx_count" juint64 as_HTTP5xxCount;
  opt "p95_latency_ms" juint64 as_P95LatencyMs;
  opt "max_latency_ms" juint64 as_MaxLatencyMs;
  opt "endpoints" (jslice (jstruct spec_AppEndpoint)) as_Endpoints
].
Lemma spec_AppStats : struct_spec fields_AppStats zero_AppStats.
Proof. struct_by_fields. Qed.

Definition fields_PayloadFeature : list (field PayloadFeature) := [
  req "name" jstring pl_Name;
  req "count" juint64 pl_Count;
  req "total_requests" juint64 pl_TotalRequests;
  opt "sample" jstring pl_Sample;
  req "confidence" jint64 pl_Confidence;
  opt "evidence_ref" jstring pl_EvidenceRef
].
Lemma spec_PayloadFeature : struct_spec fields_PayloadFeature zero_PayloadFeature.
Proof. struct_by_fields. Qed.

Definition fields_SensitiveKeyword : list (field SensitiveKeyword) := [
  req "keyword" jstring sk_Keyword;
  req "count" juint64 sk_Count;
  opt "sample" jstring sk_Sample
].
Lemma spec_SensitiveKeyword : struct_spec fields_SensitiveKeyword zero_SensitiveKeyword.
Proof. struct_by_fields. Qed.

Definition fields_DataExfil : list (field DataExfil) := [
  req "total_wire_bytes" juint64 de_TotalWireBytes;
  req "total_packets" juint64 de_TotalPackets;
  opt "dest" jstring de_Dest;
  opt "dest_port" juint32 de_DestPort;
  opt "encrypted" jbool de_Encrypted;
  opt "sensitive_keywords" (jslice (jstruct spec_SensitiveKeyword)) de_SensitiveKeywords;
  opt "observed_entries" juint64 de_ObservedEntries
].
Lemma spec_DataExfil : struct_spec fields_DataExfil zero_DataExfil.
Proof. struct_by_fields. Qed.

Definition fields_IOCStat : list (field IOCStat) := [
  req "ioc_value" jstring is_IOCValue;
  req "ioc_type" jstring is_IOCType;
  req "hit_count" juint64 is_HitCount;
  req "first_seen_usec" juint64 is_FirstSeenUsec;
  req "last_seen_usec" juint64 is_LastSeenUsec;
  opt "threat_source" jstring is_ThreatSource;
  opt "confidence" jstring is_Confidence;
  opt "matched_rules" (jslice jstring) is_MatchedRules;
  opt "expire_at_usec" jint64 is_ExpireAtUsec
].
Lemma spec_IOCStat : struct_spec fields_IOCStat zero_IOCStat.
Proof. struct_by_fields. Qed.

Definition fields_RuleStat : list (field RuleStat) := [
  req "rule_id" jstring rs_RuleID;
  opt "rule_name" jstring rs_RuleName;
  req "hit_count" juint64 rs_HitCount;
  req "first_seen_usec" juint64 rs_FirstSeenUsec;
  req "last_seen_usec" juint64 rs_LastSeenUsec;
  opt "severity" jstring rs_Severity;
  opt "evidence_ref" jstring rs_EvidenceRef
].
Lemma spec_RuleStat : struct_spec fields_RuleStat zero_RuleStat.
Proof. struct_by_fields. Qed.

Definition fields_ImpactHints : list (field ImpactHints) := [
  opt "error_rate_percent" jint64 ih_ErrorRatePercent;
  opt "latency_degraded" jbool ih_LatencyDegraded;
  opt "latency_baseline_ms" juint64 ih_LatencyBaselineMs;
  opt "latency_observed_ms" juint64 ih_LatencyObservedMs;
  opt "affected_entries" juint64 ih_AffectedEntries;
  opt "observed_intent" jstring ih_ObservedIntent;
  opt "intent_basis" jstring ih_IntentBasis
].
Lemma spec_ImpactHints : struct_spec fields_ImpactHints zero_ImpactHints.
Proof. struct_by_fields. Qed.

Definition fields_ActionHint : list (field ActionHint) := [
  req "action" jstring ah_Action;
  req "priority" jstring ah_Priority;
  opt "reason" jstring ah_Reason;
  opt "evidence_ref" jstring ah_EvidenceRef
].
Lemma spec_ActionHint : struct_spec fields_ActionHint zero_ActionHint.
Proof. struct_by_fields. Qed.

Definition fields_EvidenceFile : list (field EvidenceFile) := [
  req "id" jstring ef_ID;
  req "name" jstring ef_Name;
  req "type" jstring ef_Type;
  opt "path_ref" jstring ef_PathRef;
  opt "sha256" jstring ef_SHA256;
  opt "size" juint64 ef_Size;
  opt "description" jstring ef_Description
].
Lemma spec_EvidenceFile : struct_spec fields_EvidenceFile zero_EvidenceFile.
Proof. struct_by_fields. Qed.

Definition fields_SeverityBasis : list (field SeverityBasis) := [
  req "score" jint64 sb_Score;
  req "reasons" (jslice jstring) sb_Reasons
].
Lemma spec_SeverityBasis : struct_spec fields_SeverityBasis zero_SeverityBasis.
Proof. struct_by_fields. Qed.

Definition fields_ThreatEvent : list (field ThreatEvent) := [
  req "event_id" jstring ev_EventID;
  req "device_id" jstring ev_DeviceID;
  req "event_time" juint64 ev_EventTime;
  req "event_type" jstring ev_EventType;
  req "event_name" jstring ev_EventName;
  req "severity" jstring ev_Severity;
  req "model" jstring ev_Model;
  req "src_ip" jstring ev_SrcIP;
  req "src_port" juint16 ev_SrcPort;
  req "dst_ip" jstring ev_DstIP;
  req "dst_port" juint16 ev_DstPort;
  req "proto" jstring ev_Proto;
  req "direction" jstring ev_Direction;
  req "threat_source" jstring ev_ThreatSource;
  opt "ioc_type" jstring ev_IOCType;
  opt "ioc_value" jstring ev_IOCValue;
  opt "ioc_category" jstring ev_IOCCategory;
  opt "ioc_id" jstring ev_IOCID;
  opt "ioc_source" jstring ev_IOCSource;
  opt "ioc_tags" (jslice jstring) ev_IOCTags;
  opt "ioc_description" jstring ev_IOCDescription;
  opt "ioc_expire_at" jint64 ev_IOCExpireAt;
  opt "recommended_action" jstring ev_RecommendedAction;
  opt "ioc_evidence" (jptr spec_IntelEvidence) ev_IOCEvidence;
  opt "rule_id" jstring ev_RuleID;
  opt "threat_index" jstring ev_ThreatIndex;
  opt "first_time" juint64 ev_FirstTime;
  opt "duration_ms" juint64 ev_DurationMs;
  req "flows" juint64 ev_Flows;
  req "packets" juint64 ev_Packets;
  req "bytes" juint64 ev_Bytes;
  opt "wire_bytes" juint64 ev_WireBytes;
  opt "volume_role" jstring ev_VolumeRole;
  opt "app" (jptr spec_AppContext) ev_App;
  opt "raw_packet" (jptr spec_RawPacketContext) ev_RawPacket;
  opt "session_id" jstring ev_SessionID;
  opt "transaction_id" jstring ev_TransactionID;
  opt "context_revision" juint64 ev_ContextRevision;
  opt "context_final" jbool ev_ContextFinal;
  opt "exchange" (jptr spec_ExchangeContext) ev_Exchange;
  opt "session_summary" (jptr spec_SessionSummary) ev_SessionSummary;
  opt "local_hit_count" jint64 ev_LocalHitCount;
  opt "local_window_sec" jint64 ev_LocalWindowSec;
  opt "local_first_seen" juint64 ev_LocalFirstSeen;
  opt "local_scope" jstring ev_LocalScope;
  opt "evidence_file" jstring ev_EvidenceFile;
  opt "packet_time_usec" juint64 ev_PacketTimeUsec;
  opt "raw_feature" jmap ev_RawFeature;
  opt "schema_version" jstring ev_SchemaVersion;
  opt "sensor_version" jstring ev_SensorVersion;
  opt "protocol" jstring ev_Protocol;
  opt "occurrence_time" jstring ev_OccurrenceTime;
  opt "app_stats" (jptr spec_AppStats) ev_AppStats;
  opt "payload_features" (jslice (jstruct spec_PayloadFeature)) ev_PayloadFeatures;
  opt "data_exfil" (jptr spec_DataExfil) ev_DataExfil;
  opt "ioc_stats" (jslice (jstruct spec_IOCStat)) ev_IOCStats;
  opt "rule_stats" (jslice (jstruct spec_RuleStat)) ev_RuleStats;
  opt "impact_hints" (jptr spec_ImpactHints) ev_ImpactHints;
  opt "action_hints" (jslice (jstruct spec_ActionHint)) ev_ActionHints;
  opt "evidence_files" (jslice (jstruct spec_EvidenceFile)) ev_EvidenceFiles;
  opt "severity_basis" (jptr spec_SeverityBasis) ev_SeverityBasis;
  opt "service" jstring ev_Service
].
Lemma spec_ThreatEvent : struct_spec fields_ThreatEvent zero_ThreatEvent.
Proof. struct_by_fields. Qed.

(** ** Events *)

(** The value of an event, its text and the decoder of a text. *)
Definition event_value (ev : ThreatEvent) : gval := struct_value fields_ThreatEvent ev.
Definition marshal_event (ev : ThreatEvent) : bytes := json_Marshal (event_value ev).
Definition unmarshal_event (b : bytes) : option ThreatEvent :=
  if json_Valid b then json_into_struct zero_ThreatEvent (struct_member fields_ThreatEvent) b else None.

(** Strings are UTF-8 and integers are within the width of their type. *)
Definition event_ok (ev : ThreatEvent) : Prop := struct_ok fields_ThreatEvent ev.

Lemma event_value_ok ev : event_ok ev -> value_ok (event_value ev).
Proof. apply struct_value_ok with (zero := zero_ThreatEvent), spec_ThreatEvent. Qed.
Lemma marshal_event_jtext ev : event_ok ev -> jtext (marshal_event ev).
Proof. intros Hev. by apply json_Marshal_jtext, event_value_ok. Qed.

(** *** The nesting depth of an event *)

Definition depth_le {A : Type} (j : jtype A) (d : nat) : Prop := forall x, (vdepth (c_value (jt_codec j) x) <= d)%nat.
Definition struct_depth_le {R : Type} (fs : list (field R)) (d : nat) : Prop := forall r, (vdepth (struct_value fs r) <= d)%nat.

Lemma struct_depth {R} (fs : list (field R)) d : Forall (fun f => forall r, (vdepth (fd_value f r) <= d)%nat) fs ->
  struct_depth_le fs (S d).
Proof.
  intros Hf r. unfold struct_value. cbn [vdepth]. apply le_n_S.
  induction Hf as [|f fs Hf _ IH]; cbn [fmap list_fmap]; [lia|]. specialize (Hf r). lia.
Qed.
Lemma depth_slice {A} (j : jtype A) d : depth_le j d -> depth_le (jslice j) (S d).
Proof.
  intros Hj l. cbn [jslice jt_codec slice_codec c_value]. destruct l as [|x l]; [cbn; lia|].
  cbn [vdepth]. apply le_n_S. induction (x :: l) as [|y k IH]; cbn [fmap list_fmap]; [lia|]. specialize (Hj y). lia.
Qed.
Lemma depth_map : depth_le jmap 2.
Proof.
  intros m. cbn [jmap jt_codec map_codec c_value vdepth]. apply le_n_S. unfold entry_values.
  induction (sorted_entries m) as [|x l IH]; cbn [fmap list_fmap]; [lia|]. cbn [vdepth]. lia.
Qed.
Lemma depth_ptr {R} (fs : list (field R)) zero (H : struct_spec fs zero) d : struct_depth_le fs (S d) -> depth_le (jptr H) (S d).
Proof. intros Hd [x|]; cbn; [apply Hd|lia]. Qed.
Lemma depth_struct {R} (fs : list (field R)) zero (H : struct_spec fs zero) d : struct_depth_le fs d -> depth_le (jstruct H) d.
Proof. intros Hd x. apply Hd. Qed.
Lemma depth_weaken {A} (j : jtype A) d d' : depth_le j d -> (d <= d')%nat -> depth_le j d'.
Proof. intros Hj Hd x. specialize (Hj x). lia. Qed.
Lemma tagged_depth {R A} name omit (j : jtype A) (get : R -> A) put d : depth_le j d ->
  forall r, (vdepth (fd_value (tagged name omit j get put) r) <= d)%nat.
Proof. intros Hj r. apply Hj. Qed.

Ltac depth_solve :=
  first [ by (intros ?; cbn; lia)
        | apply depth_slice; depth_solve
        | apply depth_struct; struct_depth_by_fields
        | apply depth_ptr; struct_depth_by_fields
        | eapply depth_weaken; [apply depth_map|lia] ]
with struct_depth_by_fields :=
  apply struct_depth; repeat (apply Forall_cons; split; [apply tagged_depth; depth_solve|]); apply Forall_nil_2.

(** An event nests six levels deep. *)
Lemma event_depth ev : (vdepth (event_value ev) <= 6)%nat.
Proof. revert ev. change (struct_depth_le fields_ThreatEvent 6). struct_depth_by_fields. Qed.

Lemma event_roundtrip ev : event_ok ev -> unmarshal_event (marshal_event ev) = Some ev.
Proof.
  intros Hev. unfold unmarshal_event. rewrite jtext_valid by (by apply marshal_event_jtext).
  unfold marshal_event, event_value. apply struct_unmarshal; [apply spec_ThreatEvent|exact Hev].
Qed.

(** *** Texts of an event

    An event is stored as json.Marshal writes it or, once a payload of the old
    format has been copied, as the text that decoding into any and marshalling
    again makes of it. *)
Definition event_text (ev : ThreatEvent) (t : bytes) : Prop := t = marshal_event ev \/ t = json_Marshal (norm (event_value ev)).
Lemma event_value_clean ev : event_ok ev -> clean (event_value ev).
Proof. intros Hev. by apply (struct_value_clean _ zero_ThreatEvent), Hev; apply spec_ThreatEvent. Qed.
Lemma event_text_value ev t : event_ok ev -> event_text ev t -> exists v, t = json_Marshal v /\ clean v /\ norm v = norm (event_value ev) /\ (vdepth v <= 6)%nat.
Proof.
  intros Hev Ht. pose proof (event_value_clean ev Hev) as Hc. destruct Ht as [-> | ->].
  - exists (event_value ev). split_and!; [done|done|done|apply event_depth].
  - exists (norm (event_value ev)). split_and!; [done|by apply norm_clean|by apply norm_idem|]. pose proof (norm_depth _ Hc). pose proof (event_depth ev). lia.
Qed.
Lemma event_text_jtext ev t : event_ok ev -> event_text ev t -> jtext t.
Proof. intros Hev Ht. destruct (event_text_value ev t Hev Ht) as (v & -> & Hc & _). by apply json_Marshal_jtext, clean_value_ok. Qed.
(** Copying a text by decoding it and marshalling again. *)
Lemma event_text_decode ev t : event_ok ev -> event_text ev t -> exists v, decode_any t = Some v /\ value_ok v /\ (vdepth v <= 6)%nat /\ event_text ev (json_Marshal v).
Proof.
  intros Hev Ht. destruct (event_text_value ev t Hev Ht) as (v & -> & Hc & Hn & Hd). exists (norm v). split_and!.
  - by apply decode_any_marshal.
  - by apply clean_value_ok, norm_clean.
  - pose proof (norm_depth _ Hc). lia.
  - right. by rewrite Hn.
Qed.
Lemma event_text_equal ev t t' : event_ok ev -> event_text ev t -> event_text ev t' -> jsonEqual t t' = true.
Proof.
  intros Hev Ht Ht'. destruct (event_text_value ev t Hev Ht) as (v & -> & Hc & Hn & _), (event_text_value ev t' Hev Ht') as (v' & -> & Hc' & Hn' & _).
  unfold jsonEqual. rewrite !decode_any_marshal by done. rewrite Hn, Hn'. by apply bool_decide_eq_true.
Qed.
Lemma event_text_unmarshal ev t : event_ok ev -> event_text ev t -> unmarshal_event t = Some ev.
Proof.
  intros Hev [-> | ->]; [by apply event_roundtrip|]. unfold unmarshal_event.
  rewrite jtext_valid by (by apply json_Marshal_jtext, clean_value_ok, norm_clean, event_value_clean).
  by destruct (struct_norm _ zero_ThreatEvent ev spec_ThreatEvent Hev) as (kvs & _ & _ & ?).
Qed.


(** An event with strings, numbers, a map, a list and a nested context. *)
Definition sample_event : ThreatEvent :=
  zero_ThreatEvent <| ev_EventID := "evt-1" |> <| ev_EventTime := 1700000000 |> <| ev_SrcIP := "192.0.2.1" |>
    <| ev_SrcPort := 443 |> <| ev_IOCTags := ["c2"; "a<b"] |> <| ev_ContextRevision := 2 |>
    <| ev_App := Some (zero_AppContext <| app_HTTPHeaders := {["host" := "example.org"]} |>) |>.

Lemma sample_event_ok : event_ok sample_event.
Proof. apply (bool_decide_unpack (struct_ok fields_ThreatEvent sample_event)). vm_compute. exact I. Qed.

