(* ===== verification/Content.v ===== *)
(** * Content: the content-addressed payload store (internal/queue/content.go)

    An event is stored as a tree of JSON fragments and binary chunks.  Every
    node is kept once, under the SHA-256 of its bytes, in the table
    queue_content; queue_edges lists the references between nodes.  This file
    models the writer ([encodePayload]), the reader ([decodePayload]) and the
    collection of unreferenced nodes, and proves that what is read is what
    json.Marshal would have produced for the value written. *)

From S2P Require Import Prelude GoStrings GoNet Json.

(** ** Data *)

Definition chunkBytes : Z := 4096.
Definition maxObjectBytes : Z := 16 * 2 ^ 20.

Record fragment := mkFragment { fr_JSON : bytes; fr_Ref : string }.
Record member := mkMember { mb_Key : bytes; mb_Value : fragment }.
Record contentNode := mkNode {
  nd_Kind : string;
  nd_Data : bytes;
  nd_Fields : list member;
  nd_Items : list fragment;
  nd_Chunks : list string
}.
#[global] Instance settable_contentNode : Settable contentNode := fun n =>
  mkNode (nd_Kind n) (nd_Data n) (nd_Fields n) (nd_Items n) (nd_Chunks n).
Definition zero_node : contentNode := mkNode "" [] [] [] [].
Definition inline (j : bytes) : fragment := mkFragment j "".
Definition reference (id : string) : fragment := mkFragment [] id.

(** A row of queue_content. *)
Record content_row := mkRow { cr_codec : Z; cr_size : Z; cr_data : bytes }.
(** The tables queue_content (by hash) and queue_edges. *)
Record content_db := mkContentDB {
  cd_content : gmap string content_row;
  cd_edges : gset (string * string)
}.
Definition empty_content : content_db := mkContentDB ∅ ∅.

(** compress/zlib: the writer at BestSpeed, and [NewReader] followed by
    [ReadAll] of at most [n] bytes.  Reading gives back what was written. *)
Class GoZlib := {
  zlib_compress : bytes -> bytes;
  zlib_read : bytes -> Z -> option bytes
}.
Class GoZlibLaws `{GoZlib} := {
  zlib_roundtrip : forall raw n, 0 <= n -> zlib_read (zlib_compress raw) n = Some (take (Z.to_nat n) raw)
}.

(** Stored blocks only: each byte string is its own compressed form. *)
Definition identity_zlib : GoZlib :=
  {| zlib_compress := fun raw => raw; zlib_read := fun b n => Some (take (Z.to_nat n) b) |}.
#[global] Instance identity_zlib_laws : @GoZlibLaws identity_zlib.
Proof. by constructor. Qed.

(** A read ends with the object, without a row for it, or with another error. *)
Inductive obj_result :=
  | ObjOk (raw : bytes)
  | ObjMissing
  | ObjErr (msg : string).

Section content.
  Context `{GoZlib}.

(** ** Objects *)

Definition pack (raw : bytes) : Z * bytes :=
  if len raw <? 256 then (0, raw)
  else
    let b := zlib_compress raw in
    if len b >=? len raw then (0, raw) else (1, b).

Definition unpack (codec size : Z) (data : bytes) : res bytes :=
  if (size <? 0) || (size >? maxObjectBytes) then Err "invalid content size"
  else if codec =? 0 then
    if negb (len data =? size) then Err "content size mismatch" else Ok data
  else if negb (codec =? 1) then Err "unsupported content codec"
  else
    match zlib_read data (size + 1) with
    | None => Err "zlib"
    | Some raw => if negb (len raw =? size) then Err "decompressed content size mismatch" else Ok raw
    end.

Definition content_id (raw : bytes) : string := hex_EncodeToString (sha256_Sum256 raw).

Definition readObject (db : content_db) (id : string) : obj_result :=
  match cd_content db !! id with
  | None => ObjMissing
  | Some r =>
      match unpack (cr_codec r) (cr_size r) (cr_data r) with
      | Err e => ObjErr e
      | Ok raw => if negb (seqb (content_id raw) id) then ObjErr "content checksum mismatch" else ObjOk raw
      end
  end.

(** The reader's cache of one restoration. *)
Record contentReader := mkReader { rd_cache : gmap string bytes; rd_bytes : Z }.
Definition new_reader : contentReader := mkReader ∅ 0.
Definition readCached (db : content_db) (rd : contentReader) (id : string) : obj_result * contentReader :=
  match rd_cache rd !! id with
  | Some raw => (ObjOk raw, rd)
  | None =>
      match readObject db id with
      | ObjOk raw =>
          (ObjOk raw,
           if rd_bytes rd + len raw <=? 8 * 2 ^ 20
           then mkReader (<[id := raw]> (rd_cache rd)) (rd_bytes rd + len raw) else rd)
      | e => (e, rd)
      end
  end.

(** ** Nodes *)

(** The references in order of first occurrence. *)
Definition add_ref (out : list string) (s : string) : list string :=
  if negb (seqb s "") && negb (bool_decide (s ∈ out)) then out ++ [s] else out.
Definition nodeRefs (n : contentNode) : list string :=
  let out := foldl (fun o m => add_ref o (fr_Ref (mb_Value m))) [] (nd_Fields n) in
  let out := foldl (fun o f => add_ref o (fr_Ref f)) out (nd_Items n) in
  foldl add_ref out (nd_Chunks n).

(** [json.Marshal] of a fragment and of a node, with the tags of the structs:
    empty fields are omitted, the raw message of a fragment is checked and
    compacted, the data of a node is base64. *)
Definition marshal_fragment (f : fragment) : option bytes :=
  j ← match fr_JSON f with
      | [] => Some []
      | _ => t ← json_Compact (fr_JSON f); Some [(byt "j", t)]
      end;
  Some (braces (member_texts
    (j ++ (if seqb (fr_Ref f) "" then [] else [(byt "r", json_quote (byt (fr_Ref f)))])))).
Definition marshal_member (m : member) : option bytes :=
  v ← marshal_fragment (mb_Value m);
  Some (braces (member_texts [(byt "k", json_quote (mb_Key m)); (byt "v", v)])).
Definition omit_empty {A : Type} (l : list A) (name : string) (t : bytes) : list (bytes * bytes) :=
  match l with [] => [] | _ => [(byt name, t)] end.
Definition marshal_node (n : contentNode) : option bytes :=
  fs ← mapM marshal_member (nd_Fields n);
  its ← mapM marshal_fragment (nd_Items n);
  Some (braces (member_texts
    ((byt "k", json_quote (byt (nd_Kind n)))
     :: omit_empty (nd_Data n) "d" (json_quote (base64_Encode (nd_Data n)))
     ++ omit_empty fs "f" (brackets fs)
     ++ omit_empty its "a" (brackets its)
     ++ omit_empty (nd_Chunks n) "c" (brackets ((fun c => json_quote (byt c)) <$> nd_Chunks n))))).

(** [json.Unmarshal] into the same structs. *)
Definition unmarshal_fragment (t : bytes) : option fragment :=
  json_into_struct (mkFragment [] "") (fun f '(k, v) =>
    if names k "j" then Some (mkFragment v (fr_Ref f))
    else if names k "r" then r ← json_into_string (byt (fr_Ref f)) v; Some (mkFragment (fr_JSON f) (str r))
    else Some f) t.
Definition unmarshal_member (t : bytes) : option member :=
  json_into_struct (mkMember [] (mkFragment [] "")) (fun m '(k, v) =>
    if names k "k" then s ← json_into_string (mb_Key m) v; Some (mkMember s (mb_Value m))
    else if names k "v" then f ← unmarshal_fragment v; Some (mkMember (mb_Key m) f)
    else Some m) t.
Definition unmarshal_chunk (t : bytes) : option string := str <$> json_into_string [] t.
Definition unmarshal_field (n : contentNode) (kv : bytes * bytes) : option contentNode :=
  let '(k, v) := kv in
  if names k "k" then s ← json_into_string (byt (nd_Kind n)) v; Some (n <| nd_Kind := str s |>)
  else if names k "d" then d ← json_into_bytes v; Some (n <| nd_Data := d |>)
  else if names k "f" then fs ← json_into_slice unmarshal_member v; Some (n <| nd_Fields := fs |>)
  else if names k "a" then its ← json_into_slice unmarshal_fragment v; Some (n <| nd_Items := its |>)
  else if names k "c" then cs ← json_into_slice unmarshal_chunk v; Some (n <| nd_Chunks := cs |>)
  else Some n.
Definition unmarshal_node (raw : bytes) : option contentNode :=
  if json_Valid raw then json_into_struct zero_node unmarshal_field raw else None.

Definition decodeNode (raw : bytes) : option contentNode :=
  match raw with
  | c :: r => if bv c =? 0 then Some (zero_node <| nd_Kind := "bytes" |> <| nd_Data := r |>) else unmarshal_node raw
  | [] => unmarshal_node raw
  end.

(** ** The writer *)

Record objectWriter := mkWriter { ow_tx : content_db; ow_known : gmap string bytes }.

(** The bytes under which a node is stored. *)
Definition node_raw (n : contentNode) : option bytes :=
  if seqb (nd_Kind n) "bytes" then Some (chr 0 :: nd_Data n) else marshal_node n.

(** INSERT INTO queue_edges for the children in turn; an edge that is already
    there violates the primary key. *)
Fixpoint insert_edges (edges : gset (string * string)) (id : string) (children : list string) : res (gset (string * string)) :=
  match children with
  | [] => Ok edges
  | c :: r => if bool_decide ((id, c) ∈ edges) then Err "UNIQUE constraint failed: queue_edges"
              else insert_edges ({[(id, c)]} ∪ edges) id r
  end.

Definition save (w : objectWriter) (n : contentNode) : res (fragment * objectWriter) :=
  match node_raw n with
  | None => Err "json"
  | Some raw =>
      if len raw >? maxObjectBytes then Err "content node exceeds storage bound"
      else
        let id := content_id raw in
        match ow_known w !! id with
        | Some b => if bool_decide (b = raw) then Ok (reference id, w) else Err "content hash collision"
        | None =>
            match readObject (ow_tx w) id with
            | ObjOk old =>
                if bool_decide (old = raw)
                then Ok (reference id, mkWriter (ow_tx w) (<[id := raw]> (ow_known w)))
                else Err "content hash collision"
            | ObjMissing =>
                let '(codec, data) := pack raw in
                edges ← insert_edges (cd_edges (ow_tx w)) id (nodeRefs n);
                Ok (reference id,
                    mkWriter (mkContentDB (<[id := mkRow codec (len raw) data]> (cd_content (ow_tx w))) edges)
                             (<[id := raw]> (ow_known w)))
            | ObjErr e => Err e
            end
        end
  end.

(** [encoding/hex.DecodeString]. *)
Fixpoint hex_DecodeString (b : bytes) : option bytes :=
  match b with
  | [] => Some []
  | h :: l :: r => x ← hex_value h; y ← hex_value l; t ← hex_DecodeString r; Some (chr (x * 16 + y) :: t)
  | _ => None
  end.

(** The loop that cuts [data] into chunks; a step consumes at least a byte. *)
Fixpoint save_chunks (fuel : nat) (w : objectWriter) (data : bytes) : res (list string * objectWriter) :=
  match fuel with
  | O => Ok ([], w)
  | S f =>
      match data with
      | [] => Ok ([], w)
      | _ =>
          let n := if len data >? chunkBytes then chunkBytes else len data in
          '(fr, w1) ← save w (zero_node <| nd_Kind := "bytes" |> <| nd_Data := take (Z.to_nat n) data |>);
          '(cs, w2) ← save_chunks f w1 (drop (Z.to_nat n) data);
          Ok (fr_Ref fr :: cs, w2)
      end
  end.

Definition stringValue (w : objectWriter) (s : bytes) (key : bytes) : res (fragment * objectWriter) :=
  if len s <? 128 then Ok (inline (json_quote s), w)
  else
    let '(kind, data) :=
      if bytes_HasSuffix key (byt "_hex") then
        match hex_DecodeString s with
        | Some b => if seqb (hex_EncodeToString b) (str s) then ("hex", b) else ("string", s)
        | None => ("string", s)
        end
      else ("string", s) in
    '(chunks, w1) ← save_chunks (length data) w data;
    save w1 (zero_node <| nd_Kind := kind |> <| nd_Chunks := chunks |>).

(** A container without references is stored inline while its text is short. *)
Definition finish (w : objectWriter) (n : contentNode) (v : gval) : res (fragment * objectWriter) :=
  if bool_decide (nodeRefs n = []) && (len (json_Marshal v) <? 512)
  then Ok (inline (json_Marshal v), w) else save w n.

Fixpoint encode (w : objectWriter) (v : gval) (key : bytes) : res (fragment * objectWriter) :=
  match v with
  | VNil => Ok (inline (byt "null"), w)
  | VPtr u => encode w u key
  | VNumber n => Ok (inline n, w)
  | VBool _ => Ok (inline (json_Marshal v), w)
  | VInt _ => Ok (inline (json_Marshal v), w)
  | VString s => stringValue w s key
  | VStruct fs =>
      '(ms, w1) ← (fix go (w : objectWriter) (fs : list (bytes * bool * gval)) : res (list member * objectWriter) :=
         match fs with
         | [] => Ok ([], w)
         | (name, omit, u) :: r =>
             if omit && emptyValue u then go w r
             else
               '(f, w1) ← encode w u name;
               '(ms, w2) ← go w1 r;
               Ok (mkMember name f :: ms, w2)
         end) w fs;
      finish w1 (zero_node <| nd_Kind := "object" |> <| nd_Fields := ms |>) v
  | VMap kvs =>
      '(ms, w1) ← (fix go (w : objectWriter) (kvs : list (bytes * gval)) : res (list member * objectWriter) :=
         match kvs with
         | [] => Ok ([], w)
         | (k, u) :: r =>
             '(f, w1) ← encode w u k;
             '(ms, w2) ← go w1 r;
             Ok (mkMember k f :: ms, w2)
         end) w kvs;
      finish w1 (zero_node <| nd_Kind := "object" |> <| nd_Fields := ms |>) v
  | VSlice vs =>
      '(fs, w1) ← (fix go (w : objectWriter) (vs : list gval) : res (list fragment * objectWriter) :=
         match vs with
         | [] => Ok ([], w)
         | u :: r =>
             '(f, w1) ← encode w u key;
             '(fs, w2) ← go w1 r;
             Ok (f :: fs, w2)
         end) w vs;
      finish w1 (zero_node <| nd_Kind := "array" |> <| nd_Items := fs |>) v
  end.

(** The text of [manifest{2, root}]. *)
Definition marshal_manifest (root : string) : bytes :=
  braces (member_texts [(byt "_ta_storage", byt (strconv_Itoa 2)); (byt "root", json_quote (byt root))]).

Definition encodePayload (db : content_db) (v : gval) : res (bytes * content_db) :=
  '(f, w) ← encode (mkWriter db ∅) v [];
  '(f, w) ← (if seqb (fr_Ref f) "" then save w (zero_node <| nd_Kind := "json" |> <| nd_Data := fr_JSON f |>)
             else Ok (f, w));
  Ok (marshal_manifest (fr_Ref f), ow_tx w).

(** ** The reader *)

(** The root of a payload; [""] for one that is stored as plain JSON. *)
Definition payloadRoot (payload : bytes) : res string :=
  match (if json_Valid payload then
           json_into_struct (0, "") (fun m '(k, v) =>
             if names k "_ta_storage" then z ← json_into_int m.1 v; Some (z, m.2)
             else if names k "root" then r ← json_into_string (byt m.2) v; Some (m.1, str r)
             else Some m) payload
         else None) with
  | None => Err "json"
  | Some (version, root) =>
      if version =? 0 then Ok ""
      else if negb (version =? 2) || negb (slen root =? 64) then Err "unsupported queue storage manifest"
      else Ok root
  end.

Fixpoint render_all {A B : Type} (rec : contentReader -> A -> res (B * contentReader)) (rd : contentReader) (l : list A) :
    res (list B * contentReader) :=
  match l with
  | [] => Ok ([], rd)
  | x :: r =>
      '(y, rd1) ← rec rd x;
      '(ys, rd2) ← render_all rec rd1 r;
      Ok (y :: ys, rd2)
  end.

Definition as_res (r : obj_result * contentReader) : res (bytes * contentReader) :=
  match r with
  | (ObjOk raw, rd) => Ok (raw, rd)
  | (ObjMissing, _) => Err "sql: no rows in result set"
  | (ObjErr e, _) => Err e
  end.
Definition read_chunk (db : content_db) (rd : contentReader) (id : string) : res (bytes * contentReader) :=
  '(raw, rd) ← as_res (readCached db rd id);
  match decodeNode raw with
  | None => Err "json"
  | Some c => if negb (seqb (nd_Kind c) "bytes") || (len (nd_Data c) >? chunkBytes)
              then Err "invalid binary chunk" else Ok (nd_Data c, rd)
  end.

(** [left] is 257 less the depth: the code refuses a reference at a depth above
    256. *)
Fixpoint render (db : content_db) (left : nat) (rd : contentReader) (visiting : gset string) (f : fragment) {struct left} :
    res (bytes * contentReader) :=
  if seqb (fr_Ref f) "" then
    if negb (json_Valid (fr_JSON f)) then Err "invalid inline JSON" else Ok (fr_JSON f, rd)
  else
    match left with
    | O => Err "cyclic or excessive content nesting"
    | S l =>
        if bool_decide (fr_Ref f ∈ visiting) then Err "cyclic or excessive content nesting"
        else
          let visiting := {[fr_Ref f]} ∪ visiting in
          '(raw, rd) ← as_res (readCached db rd (fr_Ref f));
          match decodeNode raw with
          | None => Err "json"
          | Some n =>
              if seqb (nd_Kind n) "json" then
                if negb (json_Valid (nd_Data n)) then Err "invalid JSON content" else Ok (nd_Data n, rd)
              else if seqb (nd_Kind n) "object" then
                '(ts, rd) ← render_all (fun rd m => render db l rd visiting (mb_Value m)) rd (nd_Fields n);
                Ok (braces (zip_with json_member (mb_Key <$> nd_Fields n) ts), rd)
              else if seqb (nd_Kind n) "array" then
                '(ts, rd) ← render_all (fun rd f => render db l rd visiting f) rd (nd_Items n);
                Ok (brackets ts, rd)
              else if seqb (nd_Kind n) "string" || seqb (nd_Kind n) "hex" then
                '(cs, rd) ← render_all (read_chunk db) rd (nd_Chunks n);
                let s := if seqb (nd_Kind n) "hex" then byt (hex_EncodeToString (concat cs)) else concat cs in
                Ok (json_quote s, rd)
              else Err "invalid content node"
          end
    end.

Definition decodePayload (db : content_db) (payload : bytes) : res bytes :=
  root ← payloadRoot payload;
  if seqb root "" then Ok payload
  else '(t, _) ← render db 257 new_reader ∅ (reference root); Ok t.
End content.

(** ** Identifiers *)

Lemma sha_round_length st kw : length (sha_round st kw) = length st.
Proof. unfold sha_round. by destruct st as [|? [|? [|? [|? [|? [|? [|? [|? [|? ?]]]]]]]]]. Qed.
Lemma sha_block_length h blk : length (sha_block h blk) = length h.
Proof.
  unfold sha_block. rewrite length_zip_with.
  assert (E : forall l st, length (foldl sha_round st l) = length st).
  { induction l as [|x l IH]; intros st; [done|]. cbn [foldl]. by rewrite IH, sha_round_length. }
  rewrite E. lia.
Qed.
Lemma sha_blocks_length fuel h m : length (sha_blocks fuel h m) = length h.
Proof.
  revert h m. induction fuel as [|f IH]; intros h [|x m]; [done..|]. cbn [sha_blocks]. by rewrite IH, sha_block_length.
Qed.
Lemma sha256_length b : length (sha256_Sum256 b) = 32%nat.
Proof.
  unfold sha256_Sum256. rewrite length_fmap. generalize (sha_blocks_length (S (length (sha_pad (bv <$> b)))) sha_H0 (sha_pad (bv <$> b))).
  change (length sha_H0) with 8%nat. generalize (sha_blocks (S (length (sha_pad (bv <$> b)))) sha_H0 (sha_pad (bv <$> b))).
  intros l Hl. destruct l as [|? [|? [|? [|? [|? [|? [|? [|? [|? ?]]]]]]]]]; try discriminate. reflexivity.
Qed.

Lemma hex_byte_ascii c : Forall (fun d => bv d < 128) (hex_byte c).
Proof.
  pose proof (bv_range c). unfold hex_byte, hex_digit.
  repeat (apply Forall_cons; split); try done; case_if; rewrite bv_chr; dlia.
Qed.
Lemma hex_ascii b : Forall (fun d => bv d < 128) (byt (hex_EncodeToString b)).
Proof.
  unfold hex_EncodeToString. rewrite byt_str. apply Forall_concat, Forall_map, Forall_true. intros c. apply hex_byte_ascii.
Qed.
Lemma hex_length b : length (byt (hex_EncodeToString b)) = (2 * length b)%nat.
Proof.
  unfold hex_EncodeToString. rewrite byt_str. induction b as [|c b IH]; [done|]. cbn [map concat]. rewrite length_app, IH. simpl. lia.
Qed.

(** A reference as the writer produces it. *)
Definition ref_ok (r : string) : Prop := Forall (fun d => bv d < 128) (byt r) /\ length (byt r) = 64%nat.
Lemma content_id_ok raw : ref_ok (content_id raw).
Proof. split; [apply hex_ascii|]. unfold content_id. by rewrite hex_length, sha256_length. Qed.
Lemma ref_ok_utf8 r : ref_ok r -> utf8_Valid (byt r) = true.
Proof. intros [H _]. by apply utf8_Valid_ascii. Qed.
Lemma ref_ok_nonempty r : ref_ok r -> r <> "".
Proof. by intros [_ H] ->. Qed.
Lemma ref_ok_seqb r : ref_ok r -> seqb r "" = false.
Proof. intros Hr. by apply seqb_neq, ref_ok_nonempty. Qed.

#[global] Opaque content_id.

(** ** A node survives its JSON text *)

Definition frag_ok (f : fragment) : Prop :=
  (fr_Ref f = "" /\ jtext (fr_JSON f)) \/ (fr_JSON f = [] /\ ref_ok (fr_Ref f)).
Record node_ok (n : contentNode) : Prop := {
  nok_kind : utf8_Valid (byt (nd_Kind n)) = true;
  nok_fields : Forall (fun m => utf8_Valid (mb_Key m) = true /\ frag_ok (mb_Value m)) (nd_Fields n);
  nok_items : Forall frag_ok (nd_Items n);
  nok_chunks : Forall ref_ok (nd_Chunks n);
  nok_json : nd_Kind n = "json" -> jtext (nd_Data n)
}.

Lemma jtext_nonempty t : jtext t -> t <> [].
Proof. intros Ht. destruct (jtext_head t Ht) as (c & r & -> & _). done. Qed.

(** Side conditions on the members of a literal list. *)
Ltac fields :=
  repeat (apply Forall_cons_2 || apply Forall_nil_2); try split; cbn [fst snd]; auto using jt_str.

Lemma fragment_roundtrip f : frag_ok f ->
  exists t, marshal_fragment f = Some t /\ jtext t /\ unmarshal_fragment t = Some f.
Proof.
  destruct f as [j r]. intros [[E Hj]|[E Hr]]; cbn [fr_JSON fr_Ref] in *; subst.
  - exists (braces (member_texts [(byt "j", j)])).
    assert (E : marshal_fragment (mkFragment j "") = Some (braces (member_texts [(byt "j", j)]))).
    { unfold marshal_fragment. cbn [fr_JSON fr_Ref]. pose proof (jtext_nonempty j Hj). destruct j; [done|].
      rewrite jtext_Compact by done. done. }
    split; [exact E|]. split; [apply jt_obj; fields|].
    unfold unmarshal_fragment, json_into_struct. rewrite shape_obj by fields. done.
  - exists (braces (member_texts [(byt "r", json_quote (byt r))])).
    assert (E : marshal_fragment (mkFragment [] r) = Some (braces (member_texts [(byt "r", json_quote (byt r))]))).
    { unfold marshal_fragment. cbn [fr_JSON fr_Ref mbind option_bind]. by rewrite ref_ok_seqb. }
    split; [exact E|]. split; [apply jt_obj; fields|].
    unfold unmarshal_fragment, json_into_struct. rewrite shape_obj by fields.
    cbn [foldr]. change (names (byt "r") "j") with false. change (names (byt "r") "r") with true. cbv iota.
    unfold json_into_string. rewrite shape_str by (by apply ref_ok_utf8). cbn [mbind option_bind]. by rewrite str_byt.
Qed.

Lemma member_roundtrip m : utf8_Valid (mb_Key m) = true /\ frag_ok (mb_Value m) ->
  exists t, marshal_member m = Some t /\ jtext t /\ unmarshal_member t = Some m.
Proof.
  destruct m as [k f]; cbn [mb_Key mb_Value]. intros [Hk Hf]. destruct (fragment_roundtrip f Hf) as (t & Hm & Hj & Hu).
  exists (braces (member_texts [(byt "k", json_quote k); (byt "v", t)])). split_and!.
  - unfold marshal_member. cbn [mb_Key mb_Value]. by rewrite Hm.
  - apply jt_obj. fields.
  - unfold unmarshal_member, json_into_struct. rewrite shape_obj by fields. cbn [foldr].
    change (names (byt "k") "k") with true. change (names (byt "v") "k") with false. change (names (byt "v") "v") with true.
    cbv iota. unfold json_into_string at 1. rewrite shape_str by done. cbn [mbind option_bind]. by rewrite Hu.
Qed.

(** Marshalling a list element by element. *)
Lemma mapM_roundtrip {A} (P : A -> Prop) (enc : A -> option bytes) (dec : bytes -> option A) l :
  (forall x, P x -> exists t, enc x = Some t /\ jtext t /\ dec t = Some x) -> Forall P l ->
  exists ts, mapM enc l = Some ts /\ Forall jtext ts /\ mapM dec ts = Some l /\ (ts = [] <-> l = []).
Proof.
  intros Hrt. induction 1 as [|x l Hx _ (ts & E1 & Hj & E2 & _)]; [by exists []|].
  destruct (Hrt x Hx) as (t & Et & Ht & Ed). exists (t :: ts). cbn [mapM]. rewrite Et, E1, Ed, E2. cbn.
  split_and!; [done|by constructor|done|done].
Qed.

(** A field that is written unless empty is read back into an empty one. *)
Lemma field_step {A B} (f : A -> bytes * bytes -> option A) (l : list B) name t a a' :
  (l = [] -> a' = a) -> (l <> [] -> f a (byt name, t) = Some a') -> fold_fields f (omit_empty l name t) a = Some a'.
Proof.
  intros H1 H2. destruct l; cbn; [by rewrite H1|]. unfold fold_fields. cbn [foldr omit_empty]. by rewrite H2.
Qed.

Lemma omit_empty_ok {B} (l : list B) name t : utf8_Valid (byt name) = true -> jtext t ->
  Forall (fun m => utf8_Valid m.1 = true /\ jtext m.2) (omit_empty l name t).
Proof. destruct l; cbn; fields. Qed.

Lemma chunk_roundtrip c : ref_ok c ->
  exists t, Some (json_quote (byt c)) = Some t /\ jtext t /\ unmarshal_chunk t = Some c.
Proof.
  intros Hc. eexists. split; [done|]. split; [apply jt_str|]. unfold unmarshal_chunk, json_into_string.
  rewrite shape_str by (by apply ref_ok_utf8). cbn. by rewrite str_byt.
Qed.

Lemma into_slice {A} (dec : bytes -> option A) ts l : Forall jtext ts -> mapM dec ts = Some l ->
  json_into_slice dec (brackets ts) = Some l.
Proof. intros Hj Hm. unfold json_into_slice. by rewrite shape_arr. Qed.

Lemma node_roundtrip n : node_ok n ->
  exists raw, marshal_node n = Some raw /\ jtext raw /\ unmarshal_node raw = Some n
    /\ exists r, raw = chr 123 :: r.
Proof.
  intros [Hk Hf Hi Hc].
  destruct (mapM_roundtrip _ _ _ _ member_roundtrip Hf) as (fs & Ef & Jf & Df & Nf).
  destruct (mapM_roundtrip _ _ _ _ fragment_roundtrip Hi) as (its & Ei & Ji & Di & Ni).
  destruct (mapM_roundtrip _ _ _ _ chunk_roundtrip Hc) as (cs & Ec & Jc & Dc & Nc).
  rewrite mapM_Some_map in Ec. injection Ec as <-.
  destruct n as [kind data flds items chunks]. cbn [nd_Kind nd_Data nd_Fields nd_Items nd_Chunks] in *.
  unfold marshal_node. cbn [nd_Kind nd_Data nd_Fields nd_Items nd_Chunks]. rewrite Ef, Ei. msimp.
  match goal with |- exists raw, Some (braces (member_texts ?l)) = _ /\ _ => set (ms := l) end.
  assert (Hms : Forall (fun m => utf8_Valid m.1 = true /\ jtext m.2) ms).
  { unfold ms. apply Forall_cons_2; [fields|]. repeat apply Forall_app_2; apply omit_empty_ok; try reflexivity;
      try apply jt_str; by apply jt_arr. }
  assert (Hj : jtext (braces (member_texts ms))).
  { apply jt_obj. eapply Forall_impl; [exact Hms|]. by intros ? []. }
  eexists. split; [done|]. split; [exact Hj|]. split; [|by eexists].
  unfold unmarshal_node. rewrite jtext_valid by done. unfold json_into_struct. rewrite shape_obj by done.
  change (fold_fields unmarshal_field ms zero_node = Some (mkNode kind data flds items chunks)).
  apply (fold_fields_seq _ [_] _ _ (mkNode kind [] [] [] [])).
  { unfold fold_fields. cbn [foldr unmarshal_field]. change (names (byt "k") "k") with true. cbv iota.
    unfold json_into_string. rewrite shape_str by done. cbn [mbind option_bind]. by rewrite str_byt. }
  eapply fold_fields_seq; [apply (field_step _ _ _ _ _ (mkNode kind data [] [] []))|].
  { by intros ->. }
  { intros _. cbn [unmarshal_field]. change (names (byt "d") "k") with false. change (names (byt "d") "d") with true. cbv iota.
    unfold json_into_bytes. rewrite shape_str by apply base64_utf8. by rewrite base64_roundtrip. }
  eapply fold_fields_seq; [apply (field_step _ _ _ _ _ (mkNode kind data flds [] []))|].
  { rewrite Nf. by intros ->. }
  { intros _. cbn [unmarshal_field]. change (names (byt "f") "k") with false. change (names (byt "f") "d") with false.
    change (names (byt "f") "f") with true. cbv iota. by rewrite (into_slice unmarshal_member fs flds). }
  eapply fold_fields_seq; [apply (field_step _ _ _ _ _ (mkNode kind data flds items []))|].
  { rewrite Ni. by intros ->. }
  { intros _. cbn [unmarshal_field]. change (names (byt "a") "k") with false. change (names (byt "a") "d") with false.
    change (names (byt "a") "f") with false. change (names (byt "a") "a") with true. cbv iota.
    by rewrite (into_slice unmarshal_fragment its items). }
  apply field_step; [by intros ->|]. intros _. cbn [unmarshal_field]. change (names (byt "c") "k") with false.
  change (names (byt "c") "d") with false. change (names (byt "c") "f") with false. change (names (byt "c") "a") with false.
  change (names (byt "c") "c") with true. cbv iota. by rewrite (into_slice unmarshal_chunk _ chunks).
Qed.

(** ** The store *)

Section store.
Context `{GoZlibLaws}.

Definition bytes_node (d : bytes) : contentNode := mkNode "bytes" d [] [] [].

(** A node the writer saves, and the bytes it is saved under. *)
Definition saved_as (n : contentNode) (raw : bytes) : Prop :=
  (node_raw n = Some raw /\ decodeNode raw = Some n) /\ (nd_Kind n = "bytes" \/ node_ok n).

Lemma bytes_saved_as d : saved_as (bytes_node d) (chr 0 :: d).
Proof. split; [done|by left]. Qed.
Lemma node_saved_as n : node_ok n -> nd_Kind n <> "bytes" -> exists raw, saved_as n raw.
Proof.
  intros Hn Hk. destruct (node_roundtrip n Hn) as (raw & Hm & Hj & Hu & r & ->).
  exists (chr 123 :: r). split; [split; [|done]|by right]. unfold node_raw. by rewrite (proj2 (seqb_neq _ _) Hk).
Qed.
Lemma saved_as_node_raw n raw : saved_as n raw -> node_raw n = Some raw.
Proof. by intros [[]]. Qed.

Lemma unpack_pack raw : len raw <= maxObjectBytes -> unpack (pack raw).1 (len raw) (pack raw).2 = Ok raw.
Proof.
  intros Hl. pose proof (len_nonneg raw). unfold unpack.
  replace ((len raw <? 0) || (len raw >? maxObjectBytes)) with false
    by (symmetry; rewrite orb_false_iff, Z.ltb_ge, Z.gtb_ltb, Z.ltb_ge; lia).
  unfold pack. destruct (len raw <? 256); cbn [fst snd];
    [change (0 =? 0) with true; cbv iota; by rewrite Z.eqb_refl|].
  destruct (len (zlib_compress raw) >=? len raw); cbn [fst snd];
    [change (0 =? 0) with true; cbv iota; by rewrite Z.eqb_refl|].
  change (1 =? 0) with false. change (negb (1 =? 1)) with false. cbv iota.
  rewrite zlib_roundtrip by lia. rewrite take_ge by (unfold len; lia). by rewrite Z.eqb_refl.
Qed.

(** [db'] keeps every object of [db]. *)
Definition extends (db db' : content_db) : Prop :=
  forall id raw, readObject db id = ObjOk raw -> readObject db' id = ObjOk raw.
#[global] Instance extends_preorder : PreOrder extends.
Proof. split; [by intros db id raw|]. intros a b c Hab Hbc id raw Hr. by apply Hbc, Hab. Qed.

(** The state of the tables the writer keeps up: every row can be read and is
    the text of a node in the writer's form, the references of a stored node
    are edges, and only stored nodes have edges. *)
Record store_ok (db : content_db) : Prop := {
  so_readable : forall id, is_Some (cd_content db !! id) -> exists raw, readObject db id = ObjOk raw;
  so_closed : forall id raw n c, readObject db id = ObjOk raw -> decodeNode raw = Some n -> c ∈ nodeRefs n ->
    (id, c) ∈ cd_edges db;
  so_owned : forall id c, (id, c) ∈ cd_edges db -> is_Some (cd_content db !! id);
  so_saved : forall id raw, readObject db id = ObjOk raw -> exists n, saved_as n raw
}.
Lemma store_ok_empty : store_ok empty_content.
Proof. split; cbn [empty_content cd_content cd_edges]; [intros id; rewrite lookup_empty; by intros [? ?]| |set_solver|].
  all: intros id raw; unfold readObject; cbn [cd_content empty_content]; by rewrite lookup_empty. Qed.

Definition known_ok (w : objectWriter) : Prop :=
  forall id raw, ow_known w !! id = Some raw -> readObject (ow_tx w) id = ObjOk raw.
(** The writer has moved on from [w] to [w']. *)
Definition advances (w w' : objectWriter) : Prop :=
  extends (ow_tx w) (ow_tx w') /\ known_ok w' /\ (store_ok (ow_tx w) -> store_ok (ow_tx w')).

Lemma known_ok_new db : known_ok (mkWriter db ∅).
Proof. intros id raw. cbn [ow_known]. by rewrite lookup_empty. Qed.

Lemma advances_trans w1 w2 w3 : advances w1 w2 -> advances w2 w3 -> advances w1 w3.
Proof. intros (H1 & _ & P1) (H2 & H3 & P2). split; [by etrans|split; auto]. Qed.
Lemma advances_refl w : known_ok w -> advances w w.
Proof. intros Hk. by split; [|split]. Qed.
Lemma advances_known w w' : advances w w' -> known_ok w'.
Proof. by intros (_ & ? & _). Qed.

Lemma readObject_id db id raw : readObject db id = ObjOk raw -> id = content_id raw.
Proof.
  unfold readObject. destruct (cd_content db !! id) as [r|]; [|done]. destruct (unpack _ _ _) as [x|]; [|done].
  destruct (seqb (content_id x) id) eqn:E; [|done]. intros [= <-]. by apply seqb_spec in E.
Qed.

Lemma read_insert db raw edges : len raw <= maxObjectBytes ->
  readObject (mkContentDB (<[content_id raw := mkRow (pack raw).1 (len raw) (pack raw).2]> (cd_content db)) edges) (content_id raw)
  = ObjOk raw.
Proof.
  intros Hl. unfold readObject. cbn [cd_content]. rewrite lookup_insert_eq. cbn [cr_codec cr_size cr_data].
  rewrite unpack_pack by done. by rewrite seqb_refl.
Qed.
Lemma read_insert_ne db id row edges id' : id <> id' ->
  readObject (mkContentDB (<[id := row]> (cd_content db)) edges) id' = readObject db id'.
Proof. intros Hne. unfold readObject. cbn [cd_content]. by rewrite lookup_insert_ne. Qed.

(** The references of a node: no duplicates, none empty. *)
Lemma add_ref_NoDup o r : NoDup o -> NoDup (add_ref o r).
Proof.
  unfold add_ref. intros Hn. destruct (_ && _) eqn:E; [|done]. apply andb_prop in E as [_ E].
  apply negb_true_iff, bool_decide_eq_false in E. apply NoDup_app. split_and!; [done|set_solver|apply NoDup_singleton].
Qed.
Lemma nodeRefs_NoDup n : NoDup (nodeRefs n).
Proof.
  unfold nodeRefs. apply (foldl_inv (@NoDup string)); [|by intros; apply add_ref_NoDup].
  apply (foldl_inv (@NoDup string)); [|by intros; apply add_ref_NoDup].
  apply (foldl_inv (@NoDup string)); [constructor|by intros; apply add_ref_NoDup].
Qed.

Lemma insert_edges_spec edges id cs edges' : insert_edges edges id cs = Ok edges' ->
  forall p c, (p, c) ∈ edges' <-> (p, c) ∈ edges \/ (p = id /\ c ∈ cs).
Proof.
  revert edges. induction cs as [|c cs IH]; intros edges; cbn [insert_edges].
  { intros [= ->] p c. set_solver. }
  case_bool_decide; [done|]. intros E p d. rewrite (IH _ E). set_solver.
Qed.
Lemma insert_edges_fresh edges id cs : NoDup cs -> (forall c, c ∈ cs -> (id, c) ∉ edges) ->
  exists edges', insert_edges edges id cs = Ok edges'.
Proof.
  intros Hn. revert edges. induction Hn as [|c cs Hc _ IH]; intros edges Hf; [by exists edges|]. cbn [insert_edges].
  rewrite bool_decide_eq_false_2 by (apply Hf; left). apply IH. intros d Hd. specialize (Hf d ltac:(by right)). set_solver.
Qed.

(** Storing a new node keeps the tables in order. *)
Lemma store_ok_insert db raw n edges : saved_as n raw -> len raw <= maxObjectBytes -> cd_content db !! content_id raw = None ->
  insert_edges (cd_edges db) (content_id raw) (nodeRefs n) = Ok edges -> store_ok db ->
  store_ok (mkContentDB (<[content_id raw := mkRow (pack raw).1 (len raw) (pack raw).2]> (cd_content db)) edges).
Proof.
  intros Hsv Hl Hnone He [Hr Hc Ho Hv]. pose proof (proj2 (proj1 Hsv)) as Hd. pose proof (insert_edges_spec _ _ _ _ He) as Hin.
  pose proof (read_insert db raw edges Hl) as Hnew. split; cbn [cd_content cd_edges].
  - intros id. destruct (decide (content_id raw = id)) as [<-|Hne]; [by eexists|].
    rewrite lookup_insert_ne by done. intros [x Hx]%Hr. exists x. by rewrite read_insert_ne.
  - intros id x m c Hx Hm Hcm. apply Hin. destruct (decide (content_id raw = id)) as [<-|Hne].
    + rewrite Hnew in Hx. injection Hx as <-. right. by simplify_eq.
    + rewrite read_insert_ne in Hx by done. left. by eapply Hc.
  - intros id c [Hold|[-> _]]%Hin; [|rewrite lookup_insert_eq; by eexists].
    destruct (decide (content_id raw = id)) as [<-|Hne]; [rewrite lookup_insert_eq; by eexists|].
    rewrite lookup_insert_ne by done. by eapply Ho.
  - intros id x Hx. destruct (decide (content_id raw = id)) as [<-|Hne].
    + rewrite Hnew in Hx. injection Hx as <-. by exists n.
    + rewrite read_insert_ne in Hx by done. by eapply Hv.
Qed.

Lemma readObject_missing db id : readObject db id = ObjMissing -> cd_content db !! id = None.
Proof.
  unfold readObject. destruct (cd_content db !! id) as [r|]; [|done].
  destruct (unpack _ _ _); [|done]. by destruct (negb _).
Qed.

(** What a successful [save] leaves behind. *)
Lemma save_spec w n f w' raw : saved_as n raw -> known_ok w -> save w n = Ok (f, w') ->
  advances w w' /\ f = reference (content_id raw) /\ readObject (ow_tx w') (content_id raw) = ObjOk raw.
Proof.
  intros Hs Hk. unfold save. rewrite (saved_as_node_raw _ _ Hs). destruct (len raw >? maxObjectBytes) eqn:El; [done|].
  rewrite Z.gtb_ltb in El. b2p. destruct (ow_known w !! content_id raw) as [b|] eqn:Ek.
  { case_bool_decide as Eb; [|done]. intros [= <- <-]. subst b. auto using advances_refl. }
  destruct (readObject (ow_tx w) (content_id raw)) as [old| |] eqn:Er; [| |done].
  - case_bool_decide as Eb; [|done]. intros [= <- <-]. subst old. split_and!; [|done|done].
    split; [done|split; [|done]]. intros id x. cbn [ow_known ow_tx]. rewrite lookup_insert_Some.
    intros [[<- <-]|[_ Hx]]; auto.
  - destruct (pack raw) as [codec data] eqn:Ep. destruct (insert_edges _ _ _) as [edges|] eqn:Ee; cbn [mbind res_bind]; [|done].
    intros [= <- <-].
    pose proof (read_insert (ow_tx w) raw edges El) as Hread.
    pose proof (store_ok_insert (ow_tx w) raw n edges Hs El (readObject_missing _ _ Er) Ee) as Hok.
    rewrite Ep in Hread, Hok. cbn [fst snd] in Hread, Hok.
    match type of Hread with readObject ?d _ = _ => set (db' := d) in * end.
    assert (Hext : extends (ow_tx w) db').
    { intros id x Hx. destruct (decide (content_id raw = id)) as [<-|Hne]; [congruence|]. unfold db'. by rewrite read_insert_ne. }
    split_and!; [|done|exact Hread]. split; [exact Hext|split; [|exact Hok]].
    intros id x. cbn [ow_known ow_tx]. rewrite lookup_insert_Some. intros [[<- <-]|[_ Hx]]; [exact Hread|auto].
Qed.

(** The ways in which storing a node can fail when the tables are in order. *)
Definition storage_error (e : string) : Prop :=
  e = "content node exceeds storage bound" \/ e = "content hash collision".
Lemma save_error w n raw e : saved_as n raw -> store_ok (ow_tx w) -> save w n = Err e -> storage_error e.
Proof.
  intros Hs Hok. unfold save. rewrite (saved_as_node_raw _ _ Hs). unfold storage_error.
  destruct (len raw >? maxObjectBytes); [intros [= <-]; auto|].
  destruct (ow_known w !! content_id raw). { case_bool_decide; [done|]. intros [= <-]; auto. }
  destruct (readObject (ow_tx w) (content_id raw)) as [old| |m] eqn:Er.
  - case_bool_decide; [done|]. intros [= <-]; auto.
  - destruct (pack raw). pose proof (readObject_missing _ _ Er) as Hnone.
    destruct (insert_edges_fresh (cd_edges (ow_tx w)) (content_id raw) (nodeRefs n) (nodeRefs_NoDup n)) as [edges ->]; [|done].
    intros c _ Hin. apply (so_owned _ Hok) in Hin as [? ?]. congruence.
  - destruct (cd_content (ow_tx w) !! content_id raw) as [r|] eqn:Ec.
    + destruct (so_readable _ Hok (content_id raw)) as [x Hx]; [by eexists|]. congruence.
    + unfold readObject in Er. by rewrite Ec in Er.
Qed.

(** ** A reference reader

    [restore] reads the tree without a cache and without watching for cycles.
    The real reader agrees with it: a reference met below itself would need a
    text longer than itself. *)

Definition chunk_data (db : content_db) (id : string) : option bytes :=
  match readObject db id with
  | ObjOk raw =>
      c ← decodeNode raw;
      if negb (seqb (nd_Kind c) "bytes") || (len (nd_Data c) >? chunkBytes) then None else Some (nd_Data c)
  | _ => None
  end.
Definition string_text (kind : string) (cs : list bytes) : bytes :=
  json_quote (if seqb kind "hex" then byt (hex_EncodeToString (concat cs)) else concat cs).
Definition restore_node (db : content_db) (rec : fragment -> option bytes) (n : contentNode) : option bytes :=
  if seqb (nd_Kind n) "json" then if json_Valid (nd_Data n) then Some (nd_Data n) else None
  else if seqb (nd_Kind n) "object" then
    ts ← mapM (fun m => rec (mb_Value m)) (nd_Fields n);
    Some (braces (zip_with json_member (mb_Key <$> nd_Fields n) ts))
  else if seqb (nd_Kind n) "array" then ts ← mapM rec (nd_Items n); Some (brackets ts)
  else if seqb (nd_Kind n) "string" || seqb (nd_Kind n) "hex" then
    cs ← mapM (chunk_data db) (nd_Chunks n); Some (string_text (nd_Kind n) cs)
  else None.
Fixpoint restore (db : content_db) (left : nat) (f : fragment) : option bytes :=
  if seqb (fr_Ref f) "" then if json_Valid (fr_JSON f) then Some (fr_JSON f) else None
  else
    match left with
    | O => None
    | S l =>
        match readObject db (fr_Ref f) with
        | ObjOk raw => n ← decodeNode raw; restore_node db (restore db l) n
        | _ => None
        end
    end.

Lemma mapM_weaken {A B} (f g : A -> option B) l ys :
  (forall x y, f x = Some y -> g x = Some y) -> mapM f l = Some ys -> mapM g l = Some ys.
Proof. intros Hfg. rewrite !mapM_Some. induction 1; constructor; auto. Qed.

Lemma chunk_data_mono db db' id d : extends db db' -> chunk_data db id = Some d -> chunk_data db' id = Some d.
Proof.
  intros He. unfold chunk_data. destruct (readObject db id) eqn:E; try done. by rewrite (He _ _ E).
Qed.

Lemma restore_mono db db' left left' f t : extends db db' -> (left <= left')%nat ->
  restore db left f = Some t -> restore db' left' f = Some t.
Proof.
  intros He. revert left' f t. induction left as [|l IH]; intros left' f t Hl.
  { destruct left'; cbn [restore]; destruct (seqb (fr_Ref f) ""); done. }
  destruct left' as [|l']; [lia|]. cbn [restore]. destruct (seqb (fr_Ref f) ""); [done|].
  destruct (readObject db (fr_Ref f)) as [raw| |] eqn:E; try done. rewrite (He _ _ E).
  destruct (decodeNode raw) as [n|]; cbn [mbind option_bind]; [|done].
  assert (IH' : forall f t, restore db l f = Some t -> restore db' l' f = Some t) by (intros; apply IH; [lia|done]).
  unfold restore_node. destruct (seqb (nd_Kind n) "json"); [done|].
  destruct (seqb (nd_Kind n) "object").
  { destruct (mapM _ _) as [ts|] eqn:Em; [|done]. by erewrite mapM_weaken; [|..|exact Em]; [|intros m y; apply IH']. }
  destruct (seqb (nd_Kind n) "array").
  { destruct (mapM _ _) as [ts|] eqn:Em; [|done]. by erewrite mapM_weaken; [|..|exact Em]; [|intros m y; apply IH']. }
  destruct (_ || _); [|done]. destruct (mapM _ _) as [ts|] eqn:Em; [|done].
  by erewrite mapM_weaken; [|..|exact Em]; [|intros m y; apply chunk_data_mono].
Qed.

Lemma restore_det db l1 l2 f t1 t2 : restore db l1 f = Some t1 -> restore db l2 f = Some t2 -> t1 = t2.
Proof.
  intros H1 H2. apply (restore_mono db db l1 (max l1 l2)) in H1; [|done|lia].
  apply (restore_mono db db l2 (max l1 l2)) in H2; [congruence|done|lia].
Qed.

(** The text of a part is shorter than the text of the whole. *)
Lemma braces_part x ks ts : length ks = length ts -> x ∈ ts -> (length x < length (braces (zip_with json_member ks ts)))%nat.
Proof.
  intros Hl Hx. apply list_elem_of_lookup in Hx as [i Hi]. destruct (lookup_lt_is_Some_2 ks i) as [k' Hk'].
  { rewrite Hl. by eapply lookup_lt_Some. }
  assert (Hz : json_member k' x ∈ zip_with json_member ks ts).
  { apply list_elem_of_lookup. exists i. by rewrite lookup_zip_with, Hk', Hi. }
  apply comma_join_part in Hz. pose proof (length_json_member k' x). unfold braces. cbn [length]. rewrite length_app. lia.
Qed.

(** ** The reader agrees with the reference reader *)

Definition cache_ok (db : content_db) (rd : contentReader) : Prop :=
  forall id raw, rd_cache rd !! id = Some raw -> readObject db id = ObjOk raw.

Lemma readCached_ok db rd id raw : cache_ok db rd -> readObject db id = ObjOk raw ->
  exists rd', readCached db rd id = (ObjOk raw, rd') /\ cache_ok db rd'.
Proof.
  intros Hc Hr. unfold readCached. destruct (rd_cache rd !! id) as [x|] eqn:E.
  { apply Hc in E as E'. exists rd. split; [congruence|done]. }
  rewrite Hr. eexists. split; [done|]. destruct (_ <=? _); [|done].
  intros i x. cbn [rd_cache]. rewrite lookup_insert_Some. intros [[<- <-]|[_ Hx]]; auto.
Qed.

Lemma render_all_ok {A B} db (f : A -> option B) rec l ys rd :
  (forall rd x y, x ∈ l -> y ∈ ys -> cache_ok db rd -> f x = Some y ->
     exists rd', rec rd x = Ok (y, rd') /\ cache_ok db rd') ->
  mapM f l = Some ys -> cache_ok db rd -> exists rd', render_all rec rd l = Ok (ys, rd') /\ cache_ok db rd'.
Proof.
  intros Hrec Hm%mapM_Some Hc. revert rd Hc. induction Hm as [|x y l ys Hxy Hl IH]; intros rd Hc; [by exists rd|].
  destruct (Hrec rd x y) as (rd1 & E1 & Hc1); [by left|by left|done|done|].
  destruct (IH (fun rd x y Hx Hy => Hrec rd x y (list_elem_of_further _ _ _ Hx) (list_elem_of_further _ _ _ Hy)) rd1 Hc1) as (rd2 & E2 & Hc2).
  exists rd2. cbn [render_all]. rewrite E1. cbn. by rewrite E2.
Qed.

Lemma read_chunk_ok db rd id d : cache_ok db rd -> chunk_data db id = Some d ->
  exists rd', read_chunk db rd id = Ok (d, rd') /\ cache_ok db rd'.
Proof.
  intros Hc. unfold chunk_data, read_chunk. destruct (readObject db id) as [raw| |] eqn:E; try done.
  destruct (readCached_ok db rd id raw Hc E) as (rd' & -> & Hc'). cbn [as_res mbind res_bind].
  destruct (decodeNode raw) as [c|]; cbn [mbind option_bind]; [|done]. destruct (_ || _); [done|].
  intros [= <-]. by exists rd'.
Qed.

Lemma restore_ref db l f : seqb (fr_Ref f) "" = false -> restore db l (reference (fr_Ref f)) = restore db l f.
Proof. intros E. destruct l; cbn [restore reference fr_Ref]; by rewrite E. Qed.

(** Every reference being visited has a longer text than [t]. *)
Definition below (db : content_db) (visiting : gset string) (t : bytes) : Prop :=
  forall id l t', id ∈ visiting -> restore db l (reference id) = Some t' -> (length t < length t')%nat.

Lemma below_part db visiting id l t u : below db visiting t -> restore db l (reference id) = Some t ->
  (length u < length t)%nat -> below db ({[id]} ∪ visiting) u.
Proof.
  intros Hb Ht Hu x l' t' [->%elem_of_singleton|Hx]%elem_of_union Hx'.
  - by rewrite (restore_det _ _ _ _ _ _ Hx' Ht).
  - specialize (Hb x l' t' Hx Hx'). lia.
Qed.

Lemma render_restore db left rd visiting f t : cache_ok db rd -> restore db left f = Some t -> below db visiting t ->
  exists rd', render db left rd visiting f = Ok (t, rd') /\ cache_ok db rd'.
Proof.
  revert rd visiting f t. induction left as [|l IH]; intros rd visiting f t Hc Ht Hb.
  { cbn [restore render] in *. destruct (seqb (fr_Ref f) ""); [|done].
    destruct (json_Valid (fr_JSON f)); [|done]. injection Ht as <-. by exists rd. }
  destruct (seqb (fr_Ref f) "") eqn:Er.
  { cbn [restore render] in *. rewrite Er in *. destruct (json_Valid (fr_JSON f)); [|done]. injection Ht as <-. by exists rd. }
  assert (Hself : restore db (S l) (reference (fr_Ref f)) = Some t) by (by rewrite restore_ref).
  assert (Hfresh : fr_Ref f ∉ visiting) by (intros Hv; specialize (Hb _ _ _ Hv Hself); lia).
  assert (Hpart : forall u rd g, (length u < length t)%nat -> cache_ok db rd -> restore db l g = Some u ->
    exists rd', render db l rd ({[fr_Ref f]} ∪ visiting) g = Ok (u, rd') /\ cache_ok db rd').
  { intros u rd0 g Hu Hc0 Hg. apply IH; [done..|]. by eapply below_part. }
  cbn [restore render] in *. rewrite Er in *. rewrite bool_decide_eq_false_2 by done.
  destruct (readObject db (fr_Ref f)) as [raw| |] eqn:Eo; try done.
  destruct (readCached_ok db rd _ _ Hc Eo) as (rd1 & -> & Hc1). cbn [as_res mbind res_bind option_bind] in *.
  destruct (decodeNode raw) as [n|]; cbn [mbind option_bind] in Ht; [|done]. unfold restore_node in Ht.
  destruct (seqb (nd_Kind n) "json").
  { destruct (json_Valid (nd_Data n)); [|done]. injection Ht as <-. by exists rd1. }
  destruct (seqb (nd_Kind n) "object").
  { destruct (mapM _ _) as [ts|] eqn:Em; cbn [mbind option_bind] in Ht; [|done]. injection Ht as <-.
    assert (Hlen : length (mb_Key <$> nd_Fields n) = length ts).
    { rewrite length_fmap. by eapply Forall2_length, mapM_Some. }
    destruct (render_all_ok db _ (fun rd m => render db l rd ({[fr_Ref f]} ∪ visiting) (mb_Value m)) _ _ rd1
      (fun rd0 m u _ Hu Hc0 Hg => Hpart u rd0 (mb_Value m) (braces_part u _ _ Hlen Hu) Hc0 Hg) Em Hc1) as (rd2 & -> & Hc2).
    cbn. by exists rd2. }
  destruct (seqb (nd_Kind n) "array").
  { destruct (mapM _ _) as [ts|] eqn:Em; cbn [mbind option_bind] in Ht; [|done]. injection Ht as <-.
    destruct (render_all_ok db _ (fun rd g => render db l rd ({[fr_Ref f]} ∪ visiting) g) _ _ rd1
      (fun rd0 g u _ Hu Hc0 Hg => Hpart u rd0 g (brackets_part u _ Hu) Hc0 Hg) Em Hc1) as (rd2 & -> & Hc2).
    cbn. by exists rd2. }
  destruct (_ || _); [|done]. destruct (mapM _ _) as [ts|] eqn:Em; cbn [mbind option_bind] in Ht; [|done]. injection Ht as <-.
  destruct (render_all_ok db _ (read_chunk db) _ _ rd1 (fun rd0 i d _ _ Hc0 Hg => read_chunk_ok db rd0 i d Hc0 Hg) Em Hc1)
    as (rd2 & -> & Hc2). cbn [mbind res_bind]. by exists rd2.
Qed.

(** ** The writer produces what the reader reads *)

Lemma chunk_saved db d : len d <= chunkBytes -> readObject db (content_id (chr 0 :: d)) = ObjOk (chr 0 :: d) ->
  chunk_data db (content_id (chr 0 :: d)) = Some d.
Proof.
  intros Hd Hr. unfold chunk_data. rewrite Hr.
  change (decodeNode (chr 0 :: d)) with (Some (bytes_node d)). cbn [mbind option_bind].
  change (negb (seqb (nd_Kind (bytes_node d)) "bytes")) with false. cbn [orb nd_Data bytes_node].
  rewrite Z.gtb_ltb. by rewrite (proj2 (Z.ltb_ge _ _)) by done.
Qed.

Lemma save_chunks_spec fuel w data cs w' : known_ok w -> (length data <= fuel)%nat ->
  save_chunks fuel w data = Ok (cs, w') ->
  advances w w' /\ Forall ref_ok cs /\ exists pieces, mapM (chunk_data (ow_tx w')) cs = Some pieces /\ concat pieces = data.
Proof.
  revert w data cs. induction fuel as [|fuel IH]; intros w data cs Hk Hl.
  { destruct data; [|simpl in Hl; lia]. intros [= <- <-]. split_and!; [by apply advances_refl|done|by exists []]. }
  cbn [save_chunks]. destruct data as [|x data']; [intros [= <- <-]; split_and!; [by apply advances_refl|done|by exists []]|].
  set (data := x :: data') in *. set (n := Z.to_nat (if len data >? chunkBytes then chunkBytes else len data)).
  assert (Hn : (0 < n)%nat /\ len (take n data) <= chunkBytes).
  { unfold n. rewrite len_take. unfold data, chunkBytes, len. cbn [length]. case_if; rewrite ?Z.gtb_ltb in *; b2p; lia. }
  destruct (save w _) as [[f w1]|] eqn:Es; cbn [mbind res_bind]; [|done].
  destruct (save_chunks fuel w1 _) as [[cs' w2]|] eqn:Ec; cbn [mbind res_bind]; [|done]. intros [= <- <-].
  apply (save_spec w (bytes_node (take n data)) f w1 (chr 0 :: take n data)) in Es as (Ha1 & -> & Hr); [|apply bytes_saved_as|done].
  apply IH in Ec as (Ha2 & Hrefs & pieces & Hp & Hcat); [|apply Ha1|rewrite length_drop; lia].
  split_and!; [by eapply advances_trans|constructor; [apply content_id_ok|done]|].
  exists (take n data :: pieces). cbn [mapM fr_Ref reference].
  rewrite (chunk_saved _ (take n data)) by first [apply Hn | exact (proj1 Ha2 _ _ Hr)]. cbn [mbind option_bind]. rewrite Hp.
  cbn [mbind option_bind concat]. by rewrite Hcat, take_drop.
Qed.

(** A saved node is restored from its reference. *)
Lemma restore_saved db l n raw : saved_as n raw -> readObject db (content_id raw) = ObjOk raw ->
  restore db (S l) (reference (content_id raw)) = restore_node db (restore db l) n.
Proof.
  intros [[_ Hd] _] Hr. cbn [restore reference fr_Ref]. rewrite ref_ok_seqb by apply content_id_ok. by rewrite Hr, Hd.
Qed.

Lemma restore_inline db l t : jtext t -> restore db l (inline t) = Some t.
Proof. intros Ht. destruct l; cbn [restore inline fr_Ref fr_JSON]; by rewrite jtext_valid. Qed.

(** The contract of the writer for one value. *)
Definition encodes (d : nat) (v : gval) : Prop := forall w key f w', known_ok w -> encode w v key = Ok (f, w') ->
  advances w w' /\ frag_ok f /\ restore (ow_tx w') d f = Some (json_Marshal v).

Lemma save_ref_spec w n f w' d t : known_ok w -> node_ok n -> nd_Kind n <> "bytes" -> save w n = Ok (f, w') ->
  (forall db, extends (ow_tx w) db -> restore_node db (restore db d) n = Some t) ->
  advances w w' /\ exists root, f = reference root /\ ref_ok root /\ restore (ow_tx w') (S d) (reference root) = Some t.
Proof.
  intros Hk Hn Hb Hs Ht. destruct (node_saved_as n Hn Hb) as [raw Hraw].
  destruct (save_spec w n f w' raw Hraw Hk Hs) as (Ha & -> & Hr).
  split; [done|]. exists (content_id raw). split_and!; [done|apply content_id_ok|].
  rewrite (restore_saved _ _ n) by done. apply Ht, Ha.
Qed.
Lemma save_node_spec w n f w' d t : known_ok w -> node_ok n -> nd_Kind n <> "bytes" -> save w n = Ok (f, w') ->
  (forall db, extends (ow_tx w) db -> restore_node db (restore db d) n = Some t) ->
  advances w w' /\ frag_ok f /\ restore (ow_tx w') (S d) f = Some t.
Proof.
  intros Hk Hn Hb Hs Ht. destruct (save_ref_spec w n f w' d t Hk Hn Hb Hs Ht) as (Ha & root & -> & Hr & E).
  split_and!; [done|by right|done].
Qed.

Lemma stringValue_spec s : encodes 1 (VString s).
Proof.
  intros w key f w' Hk. cbn [encode json_Marshal]. unfold stringValue. destruct (len s <? 128).
  { intros [= <- <-]. split_and!; [by apply advances_refl|left; split; [done|apply jt_str]|apply restore_inline, jt_str]. }
  match goal with |- context [let '(_, _) := ?e in _] => destruct e as [kind data] eqn:Ed end.
  assert (Hd : (kind = "string" /\ data = s) \/ (kind = "hex" /\ byt (hex_EncodeToString data) = s)).
  { repeat case_match; simplify_eq; auto. right. split; [done|].
    match goal with E : seqb _ _ = true |- _ => apply seqb_spec in E; rewrite E end. apply byt_str. }
  destruct (save_chunks _ w data) as [[cs w1]|] eqn:Ec; cbn [mbind res_bind]; [|done]. intros Hs.
  apply save_chunks_spec in Ec as (Ha1 & Hrefs & pieces & Hp & Hcat); [|done|done].
  apply (save_node_spec w1 _ _ _ 0 (json_quote s)) in Hs as (Ha2 & Hf & Hr); [|apply Ha1|split; cbn; try done|..].
  - split_and!; [by eapply advances_trans|done|done].
  - by destruct Hd as [[-> _]|[-> _]].
  - by destruct Hd as [[-> _]|[-> _]].
  - by destruct Hd as [[-> _]|[-> _]].
  - intros db Hext. assert (Hp' : mapM (chunk_data db) cs = Some pieces)
      by (eapply mapM_weaken; [|exact Hp]; intros i x; by apply chunk_data_mono).
    destruct Hd as [[-> ->]|[-> Hh]]; unfold restore_node; cbn [upd nd_Kind nd_Chunks]; cbn; rewrite Hp'; cbn; unfold string_text; cbn.
    + by rewrite Hcat.
    + by rewrite Hcat, Hh.
Qed.

Fixpoint encode_members (w : objectWriter) (kvs : list (bytes * gval)) : res (list member * objectWriter) :=
  match kvs with
  | [] => Ok ([], w)
  | (k, u) :: r =>
      '(f, w1) ← encode w u k;
      '(ms, w2) ← encode_members w1 r;
      Ok (mkMember k f :: ms, w2)
  end.
Fixpoint encode_items (w : objectWriter) (key : bytes) (vs : list gval) : res (list fragment * objectWriter) :=
  match vs with
  | [] => Ok ([], w)
  | u :: r =>
      '(f, w1) ← encode w u key;
      '(fs, w2) ← encode_items w1 key r;
      Ok (f :: fs, w2)
  end.
Definition object_node (ms : list member) : contentNode := mkNode "object" [] ms [] [].
Definition array_node (fs : list fragment) : contentNode := mkNode "array" [] [] fs [].

Lemma encode_struct w fs key : encode w (VStruct fs) key =
  ('(ms, w1) ← encode_members w (kept fs); finish w1 (object_node ms) (VStruct fs)).
Proof.
  cbn [encode]. match goal with |- mbind _ (?g w fs) = _ => set (go := g) end.
  assert (E : go w fs = encode_members w (kept fs)); [|by rewrite E].
  revert w. induction fs as [|[[name omit] u] fs IH]; intros w; [done|]. cbn [go kept omap list_omap].
  destruct (omit && emptyValue u); [apply IH|]. cbn [encode_members]. destruct (encode w u name) as [[f w1]|]; [|done].
  cbn [mbind res_bind]. by rewrite (IH w1).
Qed.
Lemma encode_map w kvs key : encode w (VMap kvs) key =
  ('(ms, w1) ← encode_members w kvs; finish w1 (object_node ms) (VMap kvs)).
Proof.
  cbn [encode]. match goal with |- mbind _ (?g w kvs) = _ => set (go := g) end.
  assert (E : go w kvs = encode_members w kvs); [|by rewrite E].
  revert w. induction kvs as [|[k u] kvs IH]; intros w; [done|]. cbn [go encode_members].
  destruct (encode w u k) as [[f w1]|]; [|done]. cbn [mbind res_bind]. by rewrite (IH w1).
Qed.
Lemma encode_slice w vs key : encode w (VSlice vs) key =
  ('(fs, w1) ← encode_items w key vs; finish w1 (array_node fs) (VSlice vs)).
Proof.
  cbn [encode]. match goal with |- mbind _ (?g w vs) = _ => set (go := g) end.
  assert (E : go w vs = encode_items w key vs); [|by rewrite E].
  revert w. induction vs as [|u vs IH]; intros w; [done|]. cbn [go encode_items].
  destruct (encode w u key) as [[f w1]|]; [|done]. cbn [mbind res_bind]. by rewrite (IH w1).
Qed.
(** A fragment of the store [db] that stands for [v]. *)
Definition stands_for (db : content_db) (d : nat) (v : gval) (f : fragment) : Prop :=
  frag_ok f /\ restore db d f = Some (json_Marshal v).
Lemma stands_for_mono db db' d v f : extends db db' -> stands_for db d v f -> stands_for db' d v f.
Proof. intros He [Hf Hr]. split; [done|]. by eapply restore_mono. Qed.

Lemma encode_members_spec d kvs : Forall (fun kv => encodes d kv.2) kvs -> forall w ms w', known_ok w ->
  encode_members w kvs = Ok (ms, w') ->
  advances w w' /\ Forall2 (fun kv m => mb_Key m = kv.1 /\ stands_for (ow_tx w') d kv.2 (mb_Value m)) kvs ms.
Proof.
  induction 1 as [|[k u] kvs Hu _ IH]; intros w ms w' Hk; cbn [encode_members].
  { intros [= <- <-]. split; [by apply advances_refl|constructor]. }
  destruct (encode w u k) as [[f w1]|] eqn:Ee; cbn [mbind res_bind]; [|done].
  destruct (encode_members w1 kvs) as [[ms' w2]|] eqn:Em; cbn [mbind res_bind]; [|done]. intros [= <- <-].
  destruct (Hu w k f w1 Hk Ee) as (Ha1 & Hf & Hr). destruct (IH w1 ms' w2 (advances_known _ _ Ha1) Em) as (Ha2 & H2).
  split; [by eapply advances_trans|]. constructor; [|done]. split; [done|].
  apply (stands_for_mono (ow_tx w1)); [apply Ha2|done].
Qed.
Lemma encode_items_spec d vs key : Forall (encodes d) vs -> forall w fs w', known_ok w ->
  encode_items w key vs = Ok (fs, w') -> advances w w' /\ Forall2 (fun v f => stands_for (ow_tx w') d v f) vs fs.
Proof.
  induction 1 as [|u vs Hu _ IH]; intros w fs w' Hk; cbn [encode_items].
  { intros [= <- <-]. split; [by apply advances_refl|constructor]. }
  destruct (encode w u key) as [[f w1]|] eqn:Ee; cbn [mbind res_bind]; [|done].
  destruct (encode_items w1 key vs) as [[fs' w2]|] eqn:Em; cbn [mbind res_bind]; [|done]. intros [= <- <-].
  destruct (Hu w key f w1 Hk Ee) as (Ha1 & Hf & Hr). destruct (IH w1 fs' w2 (advances_known _ _ Ha1) Em) as (Ha2 & H2).
  split; [by eapply advances_trans|]. constructor; [|done].
  apply (stands_for_mono (ow_tx w1)); [apply Ha2|done].
Qed.

Lemma finish_spec w n f w' v d : known_ok w -> value_ok v -> node_ok n -> nd_Kind n <> "bytes" ->
  finish w n v = Ok (f, w') ->
  (forall db, extends (ow_tx w) db -> restore_node db (restore db d) n = Some (json_Marshal v)) ->
  advances w w' /\ frag_ok f /\ restore (ow_tx w') (S d) f = Some (json_Marshal v).
Proof.
  intros Hk Hv Hn Hb. unfold finish. destruct (_ && _).
  - intros [= <- <-] _. pose proof (json_Marshal_jtext v Hv) as Hj.
    split_and!; [by apply advances_refl|by left|by apply restore_inline].
  - intros Hs Ht. by eapply save_node_spec.
Qed.

(** The texts of the members of an object node. *)
Lemma members_texts db d kvs ms :
  Forall2 (fun kv m => mb_Key m = kv.1 /\ stands_for db d kv.2 (mb_Value m)) kvs ms ->
  restore_node db (restore db d) (object_node ms) = Some (braces (member_texts (pair_texts kvs))).
Proof.
  intros H2. unfold restore_node. cbn [nd_Kind object_node nd_Fields].
  change (seqb "object" "json") with false. change (seqb "object" "object") with true. cbv iota.
  assert (Hm : mapM (fun m => restore db d (mb_Value m)) ms = Some (json_Marshal ∘ snd <$> kvs)).
  { apply mapM_Some. apply Forall2_fmap_r, Forall2_flip. eapply Forall2_impl; [exact H2|]. by intros kv m (_ & _ & Hr). }
  rewrite Hm. cbn [mbind option_bind]. do 2 f_equal.
  assert (Hkeys : mb_Key <$> ms = fst <$> kvs).
  { clear Hm. induction H2 as [|kv m kvs ms [Hk _] _ IH]; [done|]. cbn. by rewrite Hk, IH. }
  rewrite Hkeys. clear. induction kvs as [|[k u] kvs IH]; [done|]. cbn. f_equal. exact IH.
Qed.

Lemma object_node_ok db d kvs ms : Forall (fun kv => utf8_Valid kv.1 = true) kvs ->
  Forall2 (fun kv m => mb_Key m = kv.1 /\ stands_for db d kv.2 (mb_Value m)) kvs ms -> node_ok (object_node ms).
Proof.
  intros Hk H2. split; cbn [object_node nd_Kind nd_Fields nd_Items nd_Chunks]; [done| |done|done|done].
  induction H2 as [|kv m kvs ms (E & Hf & _) _ IH]; [done|]. apply Forall_cons in Hk as [Hkv Hk].
  constructor; [|by apply IH]. by rewrite E.
Qed.

Lemma stands_for_members_mono db db' d kvs ms : extends db db' ->
  Forall2 (fun kv m => mb_Key m = kv.1 /\ stands_for db d kv.2 (mb_Value m)) kvs ms ->
  Forall2 (fun (kv : bytes * gval) m => mb_Key m = kv.1 /\ stands_for db' d kv.2 (mb_Value m)) kvs ms.
Proof. intros He H2. eapply Forall2_impl; [exact H2|]. intros kv m [Hk Hs]. split; [done|]. by eapply stands_for_mono. Qed.

(** An object: its members in turn, then the node. *)
Lemma object_spec d kvs v w ms w1 f w' : known_ok w -> value_ok v -> json_Marshal v = braces (member_texts (pair_texts kvs)) ->
  Forall (fun kv => utf8_Valid kv.1 = true /\ encodes d kv.2) kvs ->
  encode_members w kvs = Ok (ms, w1) -> finish w1 (object_node ms) v = Ok (f, w') ->
  advances w w' /\ frag_ok f /\ restore (ow_tx w') (S d) f = Some (json_Marshal v).
Proof.
  intros Hk Hv Hm [Hu He]%Forall_and Em Ef.
  destruct (encode_members_spec d kvs He w ms w1 Hk Em) as (Ha1 & H2).
  destruct (finish_spec w1 (object_node ms) f w' v d (advances_known _ _ Ha1) Hv (object_node_ok _ _ _ _ Hu H2) ltac:(done) Ef) as (Ha2 & Hf & Hr).
  - intros db Hx. rewrite Hm. apply members_texts. by eapply stands_for_members_mono.
  - split_and!; [by eapply advances_trans|done|done].
Qed.

Lemma array_spec d vs key w fs w1 f w' : known_ok w -> value_ok (VSlice vs) -> Forall (encodes d) vs ->
  encode_items w key vs = Ok (fs, w1) -> finish w1 (array_node fs) (VSlice vs) = Ok (f, w') ->
  advances w w' /\ frag_ok f /\ restore (ow_tx w') (S d) f = Some (json_Marshal (VSlice vs)).
Proof.
  intros Hk Hv He Em Ef. destruct (encode_items_spec d vs key He w fs w1 Hk Em) as (Ha1 & H2).
  assert (Hn : node_ok (array_node fs)).
  { split; cbn [array_node nd_Kind nd_Fields nd_Items nd_Chunks]; [done|done| |done|done].
    apply (Forall2_Forall_r _ _ _ _ H2), Forall_true. by intros ? ? []. }
  destruct (finish_spec w1 (array_node fs) f w' (VSlice vs) d (advances_known _ _ Ha1) Hv Hn ltac:(done) Ef) as (Ha2 & Hf & Hr).
  - intros db Hx. unfold restore_node. cbn [nd_Kind array_node nd_Items]. change (seqb "array" "json") with false.
    change (seqb "array" "object") with false. change (seqb "array" "array") with true. cbv iota.
    assert (Hmap : mapM (restore db d) fs = Some (json_Marshal <$> vs)).
    { apply mapM_Some. apply Forall2_fmap_r, Forall2_flip. eapply Forall2_impl; [exact H2|].
      intros v g Hs. by destruct (stands_for_mono _ db _ _ _ Hx Hs). }
    by rewrite Hmap, marshal_slice.
  - split_and!; [by eapply advances_trans|done|done].
Qed.

Lemma encodes_inline v d : (forall w key, encode w v key = Ok (inline (json_Marshal v), w)) -> value_ok v -> encodes d v.
Proof.
  intros He Hv w key f w' Hk. rewrite He. intros [= <- <-]. pose proof (json_Marshal_jtext v Hv).
  split_and!; [by apply advances_refl|by left|by apply restore_inline].
Qed.
Lemma encodes_mono d d' v : (d <= d')%nat -> encodes d v -> encodes d' v.
Proof.
  intros Hd He w key f w' Hk E. destruct (He w key f w' Hk E) as (Ha & Hf & Hr). split_and!; [done..|]. by eapply restore_mono.
Qed.

(** The parts of a container: well-formed, and less deep than the whole. *)
Definition part_ok (d : nat) (kv : bytes * gval) : Prop := utf8_Valid kv.1 = true /\ value_ok kv.2 /\ (vdepth kv.2 <= d)%nat.
Lemma struct_parts fs d : value_ok (VStruct fs) -> (vdepth (VStruct fs) <= S d)%nat ->
  Forall (fun f => part_ok d (f.1.1, f.2)) fs.
Proof.
  cbn [value_ok vdepth]. intros Hv Hd%le_S_n. revert Hv Hd. induction fs as [|[[k o] u] fs IH]; [constructor|].
  intros [[Hk Hu] Hv] Hd. constructor; [repeat split; [done|done|cbn; lia]|apply IH; [done|lia]].
Qed.
Lemma map_parts kvs d : value_ok (VMap kvs) -> (vdepth (VMap kvs) <= S d)%nat -> Forall (part_ok d) kvs.
Proof.
  cbn [value_ok vdepth]. intros Hv Hd%le_S_n. revert Hv Hd. induction kvs as [|[k u] kvs IH]; [constructor|].
  intros [[Hk Hu] Hv] Hd. constructor; [repeat split; [done|done|cbn; lia]|apply IH; [done|lia]].
Qed.
Lemma slice_parts vs d : value_ok (VSlice vs) -> (vdepth (VSlice vs) <= S d)%nat ->
  Forall (fun v => value_ok v /\ (vdepth v <= d)%nat) vs.
Proof.
  cbn [value_ok vdepth]. intros Hv Hd%le_S_n. revert Hv Hd. induction vs as [|u vs IH]; [constructor|].
  intros [Hu Hv] Hd. constructor; [split; [done|lia]|apply IH; [done|lia]].
Qed.
Lemma kept_Forall (P : bytes * gval -> Prop) fs : Forall (fun f => P (f.1.1, f.2)) fs -> Forall P (kept fs).
Proof.
  induction 1 as [|[[k o] u] fs Hf _ IH]; [constructor|]. cbn [kept omap list_omap]. destruct (o && emptyValue u); [exact IH|].
  by constructor.
Qed.

Lemma encode_spec v : value_ok v -> forall d, (vdepth v <= d)%nat -> encodes d v.
Proof.
  induction v as [|b|z|n|s|u IH|fs IH|kvs IH|vs IH] using gval_ind'; intros Hv d Hd.
  1-4: by apply encodes_inline.
  - eapply encodes_mono; [exact Hd|apply stringValue_spec].
  - intros w key f w' Hk. cbn [encode json_Marshal]. by apply IH.
  - destruct d as [|d]; [cbn in Hd; lia|]. pose proof (struct_parts fs d Hv Hd) as Hp.
    intros w key f w' Hk. rewrite encode_struct. destruct (encode_members _ _) as [[ms w1]|] eqn:Em; cbn [mbind res_bind]; [|done].
    apply object_spec with (kvs := kept fs) (w := w); [done|done|apply marshal_struct| |done].
    apply kept_Forall. eapply Forall_impl; [exact (proj2 (Forall_and _ _) (conj IH Hp))|].
    intros [[k o] u] [IHu (Hk' & Hu & Hdu)]. split; [done|]. by apply IHu.
  - destruct d as [|d]; [cbn in Hd; lia|]. pose proof (map_parts kvs d Hv Hd) as Hp.
    intros w key f w' Hk. rewrite encode_map. destruct (encode_members _ _) as [[ms w1]|] eqn:Em; cbn [mbind res_bind]; [|done].
    apply object_spec with (kvs := kvs) (w := w); [done|done|apply marshal_map| |done].
    eapply Forall_impl; [exact (proj2 (Forall_and _ _) (conj IH Hp))|].
    intros [k u] [IHu (Hk' & Hu & Hdu)]. split; [done|]. by apply IHu.
  - destruct d as [|d]; [cbn in Hd; lia|]. pose proof (slice_parts vs d Hv Hd) as Hp.
    intros w key f w' Hk. rewrite encode_slice. destruct (encode_items _ _ _) as [[gs w1]|] eqn:Em; cbn [mbind res_bind]; [|done].
    apply array_spec with (key := key) (w := w); [done|done| |done].
    eapply Forall_impl; [exact (proj2 (Forall_and _ _) (conj IH Hp))|]. intros u [IHu [Hu Hdu]]. by apply IHu.
Qed.

(** ** Payloads *)

Lemma payloadRoot_manifest root : ref_ok root -> payloadRoot (marshal_manifest root) = Ok root.
Proof.
  intros Hr. unfold payloadRoot, marshal_manifest.
  set (ms := [(byt "_ta_storage", byt (strconv_Itoa 2)); (byt "root", json_quote (byt root))]).
  assert (Hms : Forall (fun m => utf8_Valid m.1 = true /\ jtext m.2) ms) by (fields; apply jt_num, Itoa_number).
  rewrite jtext_valid by (apply jt_obj; eapply Forall_impl; [exact Hms|by intros ? []]).
  unfold json_into_struct. rewrite shape_obj by done. unfold ms. cbn [foldr].
  change (names (byt "_ta_storage") "_ta_storage") with true. change (names (byt "root") "_ta_storage") with false.
  change (names (byt "root") "root") with true. cbv iota.
  change (json_into_int (0, "").1 (byt (strconv_Itoa 2))) with (Some 2). cbn [mbind option_bind].
  unfold json_into_string. rewrite shape_str by (by apply ref_ok_utf8). cbn [mbind option_bind fst snd].
  change (2 =? 0) with false. change (negb (2 =? 2)) with false. cbn [orb]. rewrite str_byt.
  unfold slen, len. by rewrite (proj2 Hr).
Qed.

(** A reference payload: [db] restores [t] from its root. *)
Definition restores_to (db : content_db) (payload t : bytes) : Prop :=
  exists root, payload = marshal_manifest root /\ ref_ok root /\ restore db 257 (reference root) = Some t.

Lemma restores_to_mono db db' payload t : extends db db' -> restores_to db payload t -> restores_to db' payload t.
Proof. intros He (root & -> & Hr & Ht). exists root. split_and!; [done..|]. by eapply restore_mono. Qed.

Lemma decode_restores db payload t : restores_to db payload t -> decodePayload db payload = Ok t.
Proof.
  intros (root & -> & Hr & Ht). unfold decodePayload. rewrite payloadRoot_manifest by done. cbn [mbind res_bind].
  rewrite ref_ok_seqb by done. revert Ht. generalize 257%nat. intros left Ht.
  destruct (render_restore db left new_reader ∅ (reference root) t) as (rd & -> & _); [done|exact Ht| |done].
  intros id l t' Hid. set_solver.
Qed.

Lemma encodePayload_spec db v payload db' : value_ok v -> (vdepth v <= 257)%nat ->
  encodePayload db v = Ok (payload, db') ->
  extends db db' /\ (store_ok db -> store_ok db') /\ restores_to db' payload (json_Marshal v).
Proof.
  intros Hv Hd. unfold encodePayload. destruct (encode _ v []) as [[f w]|] eqn:Ee; cbn [mbind res_bind]; [|done].
  destruct (encode_spec v Hv 257 Hd (mkWriter db ∅) [] f w (known_ok_new db) Ee) as (Ha & Hf & Hr). 
  destruct f as [j r]; cbn [fr_Ref fr_JSON] in *. destruct Hf as [[Er Hj]|[Ej Hok]]; cbn [fr_Ref fr_JSON] in *.
  - subst r. change (seqb "" "") with true. cbv iota.
    change (mkFragment j "") with (inline j) in Hr. rewrite (restore_inline _ _ j Hj) in Hr. injection Hr as ->.
    destruct (save w _) as [[f2 w2]|] eqn:Es; cbn [mbind res_bind]; [|done]. intros [= <- <-].
    apply (save_ref_spec w _ _ _ 256 (json_Marshal v)) in Es as (Ha2 & root & -> & Hok & Hr2); [|apply Ha|by split|done|].
    + destruct (advances_trans _ _ _ Ha Ha2) as (He & _ & Hs). split_and!; [exact He|exact Hs|]. by exists root.
    + intros db1 _. unfold restore_node. cbn [upd nd_Kind nd_Data]. by rewrite jtext_valid.
  - subst j. rewrite ref_ok_seqb by done. cbn [mbind res_bind]. intros [= <- <-].
    destruct Ha as (He & _ & Hs). split_and!; [exact He|exact Hs|]. by exists r.
Qed.

(** ** Failures of the writer *)

(** Storing [v] fails only for the reasons of [storage_error]. *)
Definition fails_well (v : gval) : Prop := forall w key e, known_ok w -> store_ok (ow_tx w) ->
  encode w v key = Err e -> storage_error e.

Lemma save_chunks_error fuel w data e : known_ok w -> store_ok (ow_tx w) -> save_chunks fuel w data = Err e -> storage_error e.
Proof.
  revert w data. induction fuel as [|fuel IH]; intros w data Hk Hs; [done|]. cbn [save_chunks]. destruct data as [|x data']; [done|].
  set (n := Z.to_nat _). destruct (save w _) as [[f w1]|e1] eqn:Es; cbn [mbind res_bind].
  - apply (save_spec w (bytes_node (take n (x :: data'))) f w1 (chr 0 :: take n (x :: data'))) in Es as ((_ & Hk1 & Hs1) & _);
      [|apply bytes_saved_as|done].
    destruct (save_chunks fuel w1 _) as [[cs w2]|e2] eqn:Ec; cbn [mbind res_bind]; [done|]. intros [= <-]. eapply IH; eauto.
  - intros [= <-]. by apply (save_error w (bytes_node (take n (x :: data'))) _ _ (bytes_saved_as _)) in Es.
Qed.

Lemma save_node_error w n e : node_ok n -> nd_Kind n <> "bytes" -> store_ok (ow_tx w) -> save w n = Err e -> storage_error e.
Proof. intros Hn Hb Hs. destruct (node_saved_as n Hn Hb) as [raw Hraw]. by eapply save_error. Qed.

Lemma stringValue_error s : fails_well (VString s).
Proof.
  intros w key e Hk Hs. cbn [encode]. unfold stringValue. destruct (len s <? 128); [done|].
  match goal with |- context [let '(_, _) := ?e in _] => destruct e as [kind data] eqn:Ed end.
  assert (Hd : kind = "string" \/ kind = "hex") by (repeat case_match; simplify_eq; auto).
  destruct (save_chunks _ w data) as [[cs w1]|e1] eqn:Ec; cbn [mbind res_bind].
  - apply save_chunks_spec in Ec as ((_ & Hk1 & Hs1) & Hrefs & _); [|done|done].
    apply save_node_error; [|by destruct Hd as [-> | ->]|auto].
    split; cbn; try done; by destruct Hd as [-> | ->].
  - intros [= <-]. by eapply save_chunks_error.
Qed.

Lemma finish_error w n v e : node_ok n -> nd_Kind n <> "bytes" -> store_ok (ow_tx w) -> finish w n v = Err e -> storage_error e.
Proof. unfold finish. destruct (_ && _); [done|]. apply save_node_error. Qed.

Lemma encode_members_error d kvs : Forall (fun kv => encodes d kv.2 /\ fails_well kv.2) kvs -> forall w e, known_ok w ->
  store_ok (ow_tx w) -> encode_members w kvs = Err e -> storage_error e.
Proof.
  induction 1 as [|[k u] kvs [Hu Hf] _ IH]; intros w e Hk Hs; [done|]. cbn [encode_members].
  destruct (encode w u k) as [[f w1]|e1] eqn:Ee; cbn [mbind res_bind]; [|intros [= <-]; by eapply Hf].
  destruct (Hu w k f w1 Hk Ee) as ((_ & Hk1 & Hs1) & _).
  destruct (encode_members w1 kvs) as [[ms w2]|e2] eqn:Em; cbn [mbind res_bind]; [done|]. intros [= <-]. eapply IH; eauto.
Qed.
Lemma encode_items_error d vs key : Forall (fun v => encodes d v /\ fails_well v) vs -> forall w e, known_ok w ->
  store_ok (ow_tx w) -> encode_items w key vs = Err e -> storage_error e.
Proof.
  induction 1 as [|u vs [Hu Hf] _ IH]; intros w e Hk Hs; [done|]. cbn [encode_items].
  destruct (encode w u key) as [[f w1]|e1] eqn:Ee; cbn [mbind res_bind]; [|intros [= <-]; by eapply Hf].
  destruct (Hu w key f w1 Hk Ee) as ((_ & Hk1 & Hs1) & _).
  destruct (encode_items w1 key vs) as [[ms w2]|e2] eqn:Em; cbn [mbind res_bind]; [done|]. intros [= <-]. eapply IH; eauto.
Qed.

Lemma object_error d kvs v w e : known_ok w -> store_ok (ow_tx w) ->
  Forall (fun kv => utf8_Valid kv.1 = true /\ encodes d kv.2 /\ fails_well kv.2) kvs ->
  ('(ms, w1) ← encode_members w kvs; finish w1 (object_node ms) v) = Err e -> storage_error e.
Proof.
  intros Hk Hs [Hu He]%Forall_and. destruct (encode_members w kvs) as [[ms w1]|e1] eqn:Em; cbn [mbind res_bind].
  - apply Forall_and in He as He'. destruct He' as [He' _].
    destruct (encode_members_spec d kvs He' w ms w1 Hk Em) as ((_ & _ & Hs1) & H2).
    apply finish_error; [|done|auto]. by eapply object_node_ok.
  - intros [= <-]. by eapply encode_members_error.
Qed.
Lemma array_error d vs key w e : known_ok w -> store_ok (ow_tx w) -> Forall (fun v => encodes d v /\ fails_well v) vs ->
  ('(fs, w1) ← encode_items w key vs; finish w1 (array_node fs) (VSlice vs)) = Err e -> storage_error e.
Proof.
  intros Hk Hs He. destruct (encode_items w key vs) as [[fs w1]|e1] eqn:Em; cbn [mbind res_bind].
  - apply Forall_and in He as [He' _]. destruct (encode_items_spec d vs key He' w fs w1 Hk Em) as ((_ & _ & Hs1) & H2).
    apply finish_error; [|done|auto]. split; cbn [array_node nd_Kind nd_Fields nd_Items nd_Chunks]; [done|done| |done|done].
    apply (Forall2_Forall_r _ _ _ _ H2), Forall_true. by intros ? ? [].
  - intros [= <-]. by eapply encode_items_error.
Qed.

Lemma encode_error v : value_ok v -> fails_well v.
Proof.
  induction v as [|b|z|n|s|u IH|fs IH|kvs IH|vs IH] using gval_ind'; intros Hv.
  1-4: by intros w key e.
  - apply stringValue_error.
  - intros w key e. cbn [encode]. by apply IH.
  - intros w key e Hk Hs. rewrite encode_struct. apply (object_error (vdepth (VStruct fs))); [done..|].
    apply kept_Forall. eapply Forall_impl; [exact (proj2 (Forall_and _ _) (conj IH (struct_parts fs _ Hv (Nat.le_succ_diag_r _))))|].
    intros [[k o] u] [IHu (Hk' & Hu & Hdu)]. split_and!; [done|by apply encode_spec|by apply IHu].
  - intros w key e Hk Hs. rewrite encode_map. apply (object_error (vdepth (VMap kvs))); [done..|].
    eapply Forall_impl; [exact (proj2 (Forall_and _ _) (conj IH (map_parts kvs _ Hv (Nat.le_succ_diag_r _))))|].
    intros [k u] [IHu (Hk' & Hu & Hdu)]. split_and!; [done|by apply encode_spec|by apply IHu].
  - intros w key e Hk Hs. rewrite encode_slice. apply (array_error (vdepth (VSlice vs))); [done..|].
    eapply Forall_impl; [exact (proj2 (Forall_and _ _) (conj IH (slice_parts vs _ Hv (Nat.le_succ_diag_r _))))|].
    intros u [IHu [Hu Hdu]]. split; [by apply encode_spec|by apply IHu].
Qed.

Lemma encodePayload_error db v e : value_ok v -> (vdepth v <= 257)%nat -> store_ok db ->
  encodePayload db v = Err e -> storage_error e.
Proof.
  intros Hv Hd Hs. unfold encodePayload. destruct (encode _ v []) as [[f w]|e1] eqn:Ee; cbn [mbind res_bind].
  - destruct (encode_spec v Hv 257 Hd (mkWriter db ∅) [] f w (known_ok_new db) Ee) as ((_ & _ & Hs1) & Hf & _).
    destruct (seqb (fr_Ref f) "") eqn:Er; cbn [mbind res_bind]; [|done].
    destruct (save w _) as [[f2 w2]|e2] eqn:Es; cbn [mbind res_bind]; [done|]. intros [= <-].
    assert (Hj : jtext (fr_JSON f)) by (destruct Hf as [[_ Hj]|[_ Hok]]; [done|by rewrite ref_ok_seqb in Er]).
    apply (save_node_error w) in Es; [exact Es|by split|done|by apply Hs1].
  - intros [= <-]. eapply encode_error; [done|apply known_ok_new| |exact Ee]. done.
Qed.

(** ** What the reader returns is what the store holds *)

Lemma readCached_sound db rd id raw rd' : cache_ok db rd -> readCached db rd id = (ObjOk raw, rd') ->
  readObject db id = ObjOk raw /\ cache_ok db rd'.
Proof.
  intros Hc. unfold readCached. destruct (rd_cache rd !! id) as [x|] eqn:E.
  { intros [= <- <-]. auto. }
  destruct (readObject db id) as [x| |] eqn:Er; intros Heq; simplify_eq. split; [done|].
  destruct (_ <=? _); [|done]. intros i y. cbn [rd_cache]. rewrite lookup_insert_Some. intros [[<- <-]|[_ Hx]]; auto.
Qed.
Lemma as_res_Ok r raw rd : as_res r = Ok (raw, rd) -> r = (ObjOk raw, rd).
Proof. destruct r as [[x| |] rd']; cbn; intros [= <- <-]; done. Qed.

Lemma render_all_sound {A B} db (f : A -> option B) rec l ys rd rd' :
  (forall rd x y rd', cache_ok db rd -> rec rd x = Ok (y, rd') -> f x = Some y /\ cache_ok db rd') ->
  cache_ok db rd -> render_all rec rd l = Ok (ys, rd') -> mapM f l = Some ys /\ cache_ok db rd'.
Proof.
  intros Hrec. revert rd ys. induction l as [|x l IH]; intros rd ys Hc; cbn [render_all mapM].
  { by intros [= <- <-]. }
  destruct (rec rd x) as [[y rd1]|] eqn:Ex; cbn [mbind res_bind]; [|done].
  destruct (render_all rec rd1 l) as [[ys' rd2]|] eqn:El; cbn [mbind res_bind]; [|done]. intros [= <- <-].
  destruct (Hrec _ _ _ _ Hc Ex) as [-> Hc1]. destruct (IH _ _ Hc1 El) as [-> Hc2]. done.
Qed.

Lemma read_chunk_sound db rd id d rd' : cache_ok db rd -> read_chunk db rd id = Ok (d, rd') ->
  chunk_data db id = Some d /\ cache_ok db rd'.
Proof.
  intros Hc. unfold read_chunk, chunk_data. destruct (as_res _) as [[raw rd1]|] eqn:E; cbn [mbind res_bind]; [|done].
  apply as_res_Ok, readCached_sound in E as [-> Hc1]; [|done].
  destruct (decodeNode raw) as [c|]; cbn [mbind option_bind]; [|done]. destruct (_ || _); [done|]. by intros [= <- <-].
Qed.

Lemma render_sound db left rd visiting f t rd' : cache_ok db rd -> render db left rd visiting f = Ok (t, rd') ->
  restore db left f = Some t /\ cache_ok db rd'.
Proof.
  revert rd visiting f t rd'. induction left as [|l IH]; intros rd visiting f t rd' Hc; cbn [render restore].
  { destruct (seqb (fr_Ref f) ""); [|done]. destruct (json_Valid (fr_JSON f)); [|done]. by intros [= <- <-]. }
  destruct (seqb (fr_Ref f) ""). { destruct (json_Valid (fr_JSON f)); [|done]. by intros [= <- <-]. }
  case_bool_decide; [done|]. destruct (as_res _) as [[raw rd1]|] eqn:E; cbn [mbind res_bind]; [|done].
  apply as_res_Ok, readCached_sound in E as [-> Hc1]; [|done].
  destruct (decodeNode raw) as [n|]; cbn [mbind option_bind]; [|done]. unfold restore_node.
  destruct (seqb (nd_Kind n) "json"). { destruct (json_Valid (nd_Data n)); [|done]. by intros [= <- <-]. }
  destruct (seqb (nd_Kind n) "object").
  { destruct (render_all _ _ _) as [[ts rd2]|] eqn:Ea; cbn [mbind res_bind]; [|done]. intros [= <- <-].
    apply (render_all_sound db (fun m => restore db l (mb_Value m))) in Ea as [-> Hc2]; [done| |done].
    intros r m y r' Hr. by apply IH. }
  destruct (seqb (nd_Kind n) "array").
  { destruct (render_all _ _ _) as [[ts rd2]|] eqn:Ea; cbn [mbind res_bind]; [|done]. intros [= <- <-].
    apply (render_all_sound db (restore db l)) in Ea as [-> Hc2]; [done| |done]. intros r m y r' Hr. by apply IH. }
  destruct (_ || _); [|done]. destruct (render_all _ _ _) as [[ts rd2]|] eqn:Ea; cbn [mbind res_bind]; [|done].
  intros [= <- <-]. apply (render_all_sound db (chunk_data db)) in Ea as [-> Hc2]; [done| |done].
  intros r m y r' Hr. by apply read_chunk_sound.
Qed.

(** Reading a payload is restoring its root. *)
Lemma decodePayload_iff db payload root t : payloadRoot payload = Ok root -> root <> "" ->
  decodePayload db payload = Ok t <-> restore db 257 (reference root) = Some t.
Proof.
  intros Hp Hne. unfold decodePayload. rewrite Hp. cbn [mbind res_bind]. rewrite (proj2 (seqb_neq _ _) Hne).
  generalize 257%nat. intros left. split.
  - destruct (render _ _ _ _ _) as [[t' rd]|] eqn:E; cbn [mbind res_bind]; [|done]. intros [= <-].
    apply render_sound in E as [E _]; [exact E|]. intros id raw. cbn. by rewrite lookup_empty.
  - intros Ht. destruct (render_restore db left new_reader ∅ (reference root) t) as (rd & -> & _); [|exact Ht| |done].
    + intros id raw. cbn. by rewrite lookup_empty.
    + intros id l t' Hid. set_solver.
Qed.
End store.

(** ** Collection of unreferenced nodes (maintenance.go, Collect) *)

Section collect.
Context `{RangeOrder}.

(** Neither a root of an event nor the child of a node. *)
Definition unreferenced (roots : gmap string string) (db : content_db) (h : string) : Prop :=
  map_Forall (fun _ r => r <> h) roots /\ set_Forall (fun e => e.2 <> h) (cd_edges db).
#[export] Instance unreferenced_dec roots db h : Decision (unreferenced roots db h).
Proof. unfold unreferenced. apply _. Defined.

(** SELECT hash ... LIMIT [n]; without ORDER BY the rows come in any order. *)
Definition collect_ids (roots : gmap string string) (db : content_db) (n : Z) : list string :=
  take (Z.to_nat n) (filter (unreferenced roots db) (range_map (cd_content db)).*1).
Definition delete_node (db : content_db) (id : string) : content_db :=
  mkContentDB (delete id (cd_content db)) (filter (fun e => e.1 <> id) (cd_edges db)).

Fixpoint collect_loop (fuel : nat) (limit removed : Z) (roots : gmap string string) (db : content_db) : Z * content_db :=
  match fuel with
  | O => (removed, db)
  | S f =>
      if removed <? limit then
        match collect_ids roots db (limit - removed) with
        | [] => (removed, db)
        | ids => collect_loop f limit (removed + len ids) roots (foldl delete_node db ids)
        end
      else (removed, db)
  end.
(** A round that goes on deletes a row, so there are at most as many rounds as
    rows. *)
Definition Collect (limit : Z) (roots : gmap string string) (db : content_db) : Z * content_db :=
  let limit := if limit <=? 0 then 1000 else limit in
  collect_loop (S (size (cd_content db))) limit 0 roots db.
End collect.

Section collect_lemmas.
Context `{GoZlibLaws} `{RangeOrder}.

Lemma elem_of_add_ref o s x : x ∈ add_ref o s <-> x ∈ o \/ (x = s /\ s <> "").
Proof.
  unfold add_ref. destruct (seqb s "") eqn:E; cbn [negb andb].
  { apply seqb_spec in E as ->. naive_solver. }
  apply seqb_neq in E. case_bool_decide as Hin; cbn [negb]; [naive_solver|]. rewrite elem_of_app, list_elem_of_singleton. naive_solver.
Qed.
Lemma elem_of_fold_refs {A} (g : A -> string) (l : list A) o x :
  x ∈ foldl (fun o a => add_ref o (g a)) o l <-> x ∈ o \/ (exists a, a ∈ l /\ x = g a /\ x <> "").
Proof.
  revert o. induction l as [|a l IH]; intros o; cbn [foldl]; [set_solver|]. rewrite IH, elem_of_add_ref.
  split; [intros [[?|[-> ?]]|(b & ? & ?)]|intros [?|(b & [->|?]%elem_of_cons & -> & ?)]]; eauto 10 using list_elem_of_here, list_elem_of_further.
Qed.
Lemma elem_of_nodeRefs n x : x ∈ nodeRefs n <->
  x <> "" /\ ((exists m, m ∈ nd_Fields n /\ x = fr_Ref (mb_Value m)) \/ (exists f, f ∈ nd_Items n /\ x = fr_Ref f) \/ x ∈ nd_Chunks n).
Proof.
  unfold nodeRefs. rewrite (elem_of_fold_refs (fun c => c)), (elem_of_fold_refs fr_Ref), (elem_of_fold_refs (fun m => fr_Ref (mb_Value m))).
  split.
  - intros [[[Hn|(m & ? & -> & ?)]|(f & ? & -> & ?)]|(c & ? & -> & ?)]; [by apply elem_of_nil in Hn|eauto 7..].
  - intros [Hx [(m & ? & ->)|[(f & ? & ->)|Hc]]]; eauto 9.
Qed.

(** Deleting a node without parents: everything else is read as before. *)
Definition parentless (db : content_db) (x : string) : Prop := set_Forall (fun e => e.2 <> x) (cd_edges db).

Lemma read_delete db x id : id <> x -> readObject (delete_node db x) id = readObject db id.
Proof. intros Hne. unfold readObject. cbn [delete_node cd_content]. by rewrite lookup_delete_ne by done. Qed.
Lemma delete_extends db x : extends (delete_node db x) db.
Proof.
  intros id raw. destruct (decide (id = x)) as [->|Hne]; [|by rewrite read_delete].
  unfold readObject at 1. cbn [delete_node cd_content]. by rewrite lookup_delete_eq.
Qed.

Lemma store_ok_delete db x : store_ok db -> store_ok (delete_node db x).
Proof.
  intros [Hr Hc Ho Hv]. split.
  - intros id. cbn [delete_node cd_content]. rewrite lookup_delete_is_Some. intros [Hne [raw Hx]%Hr].
    exists raw. by rewrite read_delete.
  - intros id raw n c Hx Hn Hin. cbn [delete_node cd_edges]. apply elem_of_filter. split; cbn [fst].
    + intros ->. unfold readObject in Hx. cbn [delete_node cd_content] in Hx. by rewrite lookup_delete_eq in Hx.
    + apply (Hc id raw n c); [|done|done]. by apply delete_extends in Hx.
  - intros id c. cbn [delete_node cd_edges cd_content]. rewrite elem_of_filter. cbn [fst]. intros [Hne Hin].
    rewrite lookup_delete_ne by done. by eapply Ho.
  - intros id raw Hx%delete_extends. by eapply Hv.
Qed.

Lemma mapM_weaken_in {A B} (f g : A -> option B) l ys :
  (forall x y, x ∈ l -> f x = Some y -> g x = Some y) -> mapM f l = Some ys -> mapM g l = Some ys.
Proof.
  intros Hfg. rewrite !mapM_Some. intros H2. induction H2 as [|x y l ys Hxy _ IH]; constructor.
  - apply Hfg; [left|done].
  - apply IH. intros a b Ha. apply Hfg. by right.
Qed.

Lemma chunk_data_delete db x c d : c <> x -> chunk_data db c = Some d -> chunk_data (delete_node db x) c = Some d.
Proof. intros Hne. unfold chunk_data. by rewrite read_delete. Qed.
Lemma chunk_data_nonempty db c d : chunk_data db c = Some d -> c <> "".
Proof.
  unfold chunk_data. destruct (readObject db c) as [raw| |] eqn:E; [|done|done]. intros _.
  rewrite (readObject_id _ _ _ E). apply ref_ok_nonempty, content_id_ok.
Qed.

Lemma restore_delete db x l f t : store_ok db -> parentless db x -> fr_Ref f <> x -> restore db l f = Some t ->
  restore (delete_node db x) l f = Some t.
Proof.
  intros Hs Hx. revert f t. induction l as [|l IH]; intros f t Hf; cbn [restore].
  { by destruct (seqb (fr_Ref f) ""). }
  destruct (seqb (fr_Ref f) "") eqn:Er; [done|]. rewrite read_delete by done.
  destruct (readObject db (fr_Ref f)) as [raw| |] eqn:Eo; [|done|done].
  destruct (decodeNode raw) as [n|] eqn:En; cbn [mbind option_bind]; [|done].
  assert (Hchild : forall c, c ∈ nodeRefs n -> c <> x).
  { intros c Hc. apply (Hx (fr_Ref f, c)). by eapply so_closed. }
  assert (Hsub : forall g u, (fr_Ref g <> "" -> fr_Ref g ∈ nodeRefs n) -> restore db l g = Some u ->
    restore (delete_node db x) l g = Some u).
  { intros g u Hg Hu. destruct (decide (fr_Ref g = "")) as [E|E].
    - destruct l; cbn [restore] in *; rewrite E in *; done.
    - apply IH; [|done]. by apply Hchild, Hg. }
  unfold restore_node. destruct (seqb (nd_Kind n) "json"); [done|].
  destruct (seqb (nd_Kind n) "object").
  { destruct (mapM _ _) as [ts|] eqn:Em; [|done]. erewrite (mapM_weaken_in _ _ _ ts); [done| |exact Em].
    intros m u Hm. apply Hsub. intros Hne. apply elem_of_nodeRefs. eauto. }
  destruct (seqb (nd_Kind n) "array").
  { destruct (mapM _ _) as [ts|] eqn:Em; [|done]. erewrite (mapM_weaken_in _ _ _ ts); [done| |exact Em].
    intros m u Hm. apply Hsub. intros Hne. apply elem_of_nodeRefs. eauto 6. }
  destruct (_ || _); [|done]. destruct (mapM _ _) as [ts|] eqn:Em; [|done]. erewrite (mapM_weaken_in _ _ _ ts); [done| |exact Em].
  intros c u Hc Hu. apply chunk_data_delete; [|done]. apply Hchild, elem_of_nodeRefs.
  split; [by eapply chunk_data_nonempty|auto].
Qed.

(** [db'] is [db] after some collection: in order, smaller, and with the roots
    restored as before. *)
Record collected (roots : gmap string string) (db db' : content_db) : Prop := {
  co_ok : store_ok db';
  co_sub : extends db' db;
  co_edges : cd_edges db' ⊆ cd_edges db;
  co_roots : forall e r l t, roots !! e = Some r -> restore db l (reference r) = Some t ->
    restore db' l (reference r) = Some t
}.
Lemma collected_refl roots db : store_ok db -> collected roots db db.
Proof. intros Hs. split; [done|by intros id raw|done|done]. Qed.
Lemma collected_trans roots a b c : collected roots a b -> collected roots b c -> collected roots a c.
Proof.
  intros [_ S1 E1 R1] [O2 S2 E2 R2]. split; [done|by etrans|set_solver|]. intros e r l t Hr Ht. eauto.
Qed.

Lemma unreferenced_mono roots db db' x : cd_edges db' ⊆ cd_edges db -> unreferenced roots db x -> unreferenced roots db' x.
Proof. intros He [Hr Hp]. split; [done|]. intros e Hin. apply Hp. set_solver. Qed.

Lemma collected_delete roots db x : store_ok db -> unreferenced roots db x -> collected roots db (delete_node db x).
Proof.
  intros Hs [Hr Hp]. split; [by apply store_ok_delete|apply delete_extends|cbn; set_solver|].
  intros e r l t He Ht. apply restore_delete; [done|done| |done]. cbn [reference fr_Ref]. by apply (Hr e r He).
Qed.

Lemma collected_round roots db ids : store_ok db -> Forall (unreferenced roots db) ids ->
  collected roots db (foldl delete_node db ids).
Proof.
  intros Hs Hids. revert db Hs Hids. induction ids as [|x ids IH]; intros db Hs Hids; cbn [foldl]; [by apply collected_refl|].
  apply Forall_cons in Hids as [Hx Hids]. pose proof (collected_delete roots db x Hs Hx) as Hc.
  eapply collected_trans; [exact Hc|]. apply IH; [apply Hc|]. eapply Forall_impl; [exact Hids|].
  intros y. apply unreferenced_mono, Hc.
Qed.

Lemma collect_ids_spec roots db n : NoDup (collect_ids roots db n) /\ len (collect_ids roots db n) <= Z.max 0 n
  /\ (forall h, h ∈ collect_ids roots db n -> is_Some (cd_content db !! h) /\ unreferenced roots db h).
Proof.
  unfold collect_ids. split_and!.
  - eapply sublist_NoDup; [|apply sublist_take]. apply NoDup_filter, NoDup_range_fst.
  - rewrite len_take. lia.
  - intros h Hh%subseteq_take. apply list_elem_of_filter in Hh as [Hu Hin]. split; [|done].
    apply list_elem_of_fmap in Hin as ([k row] & -> & Hkv). apply elem_of_range in Hkv. by eexists.
Qed.
Lemma collect_ids_nil roots db n : 0 < n -> collect_ids roots db n = [] ->
  forall h, is_Some (cd_content db !! h) -> ~ unreferenced roots db h.
Proof.
  intros Hn Hnil h [row Hrow] Hu. unfold collect_ids in Hnil.
  assert (Hin : h ∈ filter (unreferenced roots db) (range_map (cd_content db)).*1).
  { apply list_elem_of_filter. split; [done|]. apply list_elem_of_fmap. exists (h, row). split; [done|]. by apply elem_of_range. }
  destruct (filter _ _) as [|x l]; [by apply elem_of_nil in Hin|]. destruct (Z.to_nat n) eqn:E; [lia|done].
Qed.

Lemma round_content ids db : cd_content (foldl delete_node db ids) = foldl (fun m x => delete x m) (cd_content db) ids.
Proof. revert db. induction ids as [|x ids IH]; intros db; cbn [foldl]; [done|]. by rewrite IH. Qed.
Lemma round_size ids (m : gmap string content_row) : NoDup ids -> (forall h, h ∈ ids -> is_Some (m !! h)) ->
  (size (foldl (fun m x => delete x m) m ids) + length ids)%nat = size m.
Proof.
  intros Hn. revert m. induction Hn as [|x ids Hx _ IH]; intros m Hin; cbn [foldl length]; [lia|].
  destruct (Hin x ltac:(left)) as [row Hrow]. pose proof (map_size_delete_Some x m ltac:(by eexists)) as Hd.
  assert (size m <> 0%nat) by (intros E%map_size_empty_inv; by rewrite E, lookup_empty in Hrow).
  rewrite Nat.add_succ_r, IH; [lia|]. intros h Hh. rewrite lookup_delete_ne by set_solver. apply Hin. by right.
Qed.

Lemma collect_loop_spec fuel limit removed roots db n db' : store_ok db -> (size (cd_content db) < fuel)%nat -> 0 <= removed ->
  collect_loop fuel limit removed roots db = (n, db') ->
  collected roots db db' /\ removed <= n <= Z.max removed limit
  /\ n - removed = Z.of_nat (size (cd_content db)) - Z.of_nat (size (cd_content db'))
  /\ (n < limit -> forall h, is_Some (cd_content db' !! h) -> ~ unreferenced roots db' h).
Proof.
  revert removed db. induction fuel as [|f IH]; intros removed db Hs Hf Hge; [lia|]. cbn [collect_loop].
  destruct (removed <? limit) eqn:El; b2p.
  2:{ intros [= <- <-]. split_and!; [by apply collected_refl|lia..]. }
  destruct (collect_ids_spec roots db (limit - removed)) as (Hnd & Hlen & Hids).
  destruct (collect_ids roots db (limit - removed)) as [|x ids] eqn:Ec.
  { intros [= <- <-]. split_and!; [by apply collected_refl|lia..|]. intros _. apply (collect_ids_nil _ _ (limit - removed)); [lia|done]. }
  set (ids' := x :: ids) in *. intros Hloop.
  assert (Hc : collected roots db (foldl delete_node db ids')).
  { apply collected_round; [done|]. apply Forall_forall. intros h Hh. by apply Hids. }
  pose proof (round_size ids' (cd_content db) Hnd (fun h Hh => proj1 (Hids h Hh))) as Hsz.
  rewrite <- round_content in Hsz. assert (Hpos : (0 < length ids')%nat) by (cbn; lia). unfold len in *.
  apply IH in Hloop as (Hc' & Hb & Hn & Hnone); [|apply Hc|lia|lia].
  split_and!; [by eapply collected_trans|lia..|done].
Qed.
End collect_lemmas.

(** ** The correctness of the store *)

Section content_theorems.
Context `{GoZlibLaws}.

Lemma decodePayload_mono db db' payload t : extends db db' -> decodePayload db payload = Ok t -> decodePayload db' payload = Ok t.
Proof.
  intros He Ht. destruct (payloadRoot payload) as [root|] eqn:Ep; [|unfold decodePayload in Ht; by rewrite Ep in Ht].
  destruct (decide (root = "")) as [->|Hne].
  - unfold decodePayload in *. rewrite Ep in *. exact Ht.
  - apply (decodePayload_iff _ _ root); [done..|]. apply (decodePayload_iff _ _ root) in Ht; [|done..]. by eapply restore_mono.
Qed.

(** C10.  A payload that was written is read back as the very text json.Marshal
    gives for the value: whatever the tables held before, once encodePayload
    has succeeded decodePayload of the payload it returned succeeds with that
    text (no cycle is reported, no size or checksum test fails), and every
    payload that could be read before is read as before.  The value may nest
    up to 257 levels deep and its names must be UTF-8. *)
Theorem decode_encode (db : content_db) (v : gval) (payload : bytes) (db' : content_db) :
  value_ok v -> (vdepth v <= 257)%nat -> encodePayload db v = Ok (payload, db') ->
  decodePayload db' payload = Ok (json_Marshal v)
  /\ forall p t, decodePayload db p = Ok t -> decodePayload db' p = Ok t.
Proof.
  intros Hv Hd He. destruct (encodePayload_spec db v payload db' Hv Hd He) as (Hx & _ & Hr).
  split; [by apply decode_restores|]. intros p t. by apply decodePayload_mono.
Qed.

(** C40.  On tables in order - every row readable, every reference of a stored
    node an edge, no edge without its node - encodePayload fails only because a
    node exceeds the storage bound or because of a collision of SHA-256 (an
    object with the identifier but other bytes), and when it succeeds the
    tables are in order again. *)
Theorem encodePayload_errors (db : content_db) (v : gval) :
  value_ok v -> (vdepth v <= 257)%nat -> store_ok db ->
  match encodePayload db v with
  | Ok (_, db') => store_ok db'
  | Err e => e = "content node exceeds storage bound" \/ e = "content hash collision"
  end.
Proof.
  intros Hv Hd Hs. destruct (encodePayload db v) as [[payload db']|e] eqn:E.
  - by apply (encodePayload_spec db v payload db' Hv Hd E).
  - by apply (encodePayload_error db v e Hv Hd Hs).
Qed.

(** C23.  Collect deletes at most its limit of nodes and reports their number;
    no event loses anything (a payload whose root an event still has is read
    exactly as before), the tables stay in order, and when Collect stops below
    its limit no unreferenced node is left. *)
Theorem Collect_exact `{RangeOrder} (limit : Z) (roots : gmap string string) (db : content_db) :
  store_ok db ->
  let limit' := if limit <=? 0 then 1000 else limit in
  let '(n, db') := Collect limit roots db in
  store_ok db'
  /\ 0 <= n <= limit'
  /\ n = Z.of_nat (size (cd_content db)) - Z.of_nat (size (cd_content db'))
  /\ (forall ev root payload t, roots !! ev = Some root -> root <> "" -> payloadRoot payload = Ok root ->
        decodePayload db' payload = Ok t <-> decodePayload db payload = Ok t)
  /\ (n < limit' -> forall h, is_Some (cd_content db' !! h) -> ~ unreferenced roots db' h).
Proof.
  intros Hs limit'. unfold Collect. fold limit'.
  destruct (collect_loop _ _ _ _ _) as [n db'] eqn:E.
  apply collect_loop_spec in E as (Hc & Hb & Hn & Hnone); [|done|lia|lia].
  assert (0 < limit') by (unfold limit'; destruct (limit <=? 0) eqn:El; b2p; lia).
  split_and!; [apply Hc|lia|lia|lia| |done].
  intros ev root payload t Hr Hne Hp. rewrite !(decodePayload_iff _ _ root) by done. split.
  - apply restore_mono; [apply Hc|done].
  - by apply (co_roots _ _ _ Hc ev).
Qed.
End content_theorems.

(** ** Witnesses *)

(** A document with a string long enough to be stored as chunks. *)
Definition sample_value : gval :=
  VStruct [(byt "id", false, VString (byt "e1")); (byt "empty", true, VNil);
           (byt "x", false, VString (replicate 128 (chr 97)))].

Lemma sample_value_ok : value_ok sample_value /\ (vdepth sample_value <= 257)%nat.
Proof. split; [repeat split; reflexivity|cbn; lia]. Qed.

Lemma decode_encode_witness :
  exists payload db', @encodePayload identity_zlib empty_content sample_value = Ok (payload, db')
    /\ @decodePayload identity_zlib db' payload = Ok (json_Marshal sample_value).
Proof.
  destruct (@encodePayload identity_zlib empty_content sample_value) as [[payload db']|e] eqn:E.
  - exists payload, db'. split; [reflexivity|].
    exact (proj1 (@decode_encode identity_zlib identity_zlib_laws empty_content sample_value payload db'
      (proj1 sample_value_ok) (proj2 sample_value_ok) E)).
  - exfalso. assert (F : is_ok (@encodePayload identity_zlib empty_content sample_value) = true) by (vm_compute; reflexivity).
    rewrite E in F. discriminate F.
Defined.

Lemma encodePayload_errors_witness :
  match @encodePayload identity_zlib empty_content sample_value with
  | Ok (_, db') => @store_ok identity_zlib db'
  | Err e => e = "content node exceeds storage bound" \/ e = "content hash collision"
  end.
Proof.
  exact (@encodePayload_errors identity_zlib identity_zlib_laws empty_content sample_value
    (proj1 sample_value_ok) (proj2 sample_value_ok) store_ok_empty).
Defined.

(** Two short documents of which one lost its event: one node goes. *)
Definition two_documents : content_db :=
  match @encodePayload identity_zlib empty_content (VInt 1) with
  | Ok (_, db) => match @encodePayload identity_zlib db (VInt 2) with Ok (_, db') => db' | Err _ => empty_content end
  | Err _ => empty_content
  end.
Definition one_root : gmap string string :=
  match @encodePayload identity_zlib empty_content (VInt 1) with
  | Ok (p, _) => match payloadRoot p with Ok r => {["e1" := r]} | Err _ => ∅ end
  | Err _ => ∅
  end.
Lemma two_documents_ok : @store_ok identity_zlib two_documents.
Proof.
  unfold two_documents.
  pose proof (@encodePayload_spec identity_zlib identity_zlib_laws empty_content (VInt 1)) as H1.
  destruct (@encodePayload identity_zlib empty_content (VInt 1)) as [[p1 db1]|]; [|apply store_ok_empty].
  destruct (H1 p1 db1 I ltac:(cbn; lia) eq_refl) as (_ & S1 & _).
  pose proof (@encodePayload_spec identity_zlib identity_zlib_laws db1 (VInt 2)) as H2.
  destruct (@encodePayload identity_zlib db1 (VInt 2)) as [[p2 db2]|]; [|apply store_ok_empty].
  destruct (H2 p2 db2 I ltac:(cbn; lia) eq_refl) as (_ & S2 & _). apply S2, S1, store_ok_empty.
Qed.

Lemma Collect_exact_witness :
  fst (@Collect canonical_range 0 one_root two_documents) = 1
  /\ @store_ok identity_zlib (snd (@Collect canonical_range 0 one_root two_documents)).
Proof.
  split; [vm_compute; reflexivity|].
  pose proof (@Collect_exact identity_zlib identity_zlib_laws canonical_range 0 one_root two_documents two_documents_ok) as H.
  cbv zeta in H. destruct (@Collect canonical_range 0 one_root two_documents) as [n db']. exact (proj1 H).
Defined.
