(* ===== verification/Queue.v ===== *)
(** * Queue: the durable event queue (internal/queue/sqlite_queue.go, summary.go)

    One SQLite database: the table event_queue with its status machine, the
    payload store of Content, the summaries, the roots of the stored payloads
    and the catalogue of archived events.  A transaction that fails is rolled
    back, so an operation that returns an error leaves the queue as it was; a
    failure of the database engine itself (disk full, corruption) is not
    modelled. *)

From S2P Require Import Prelude GoStrings GoNet Events Json AnyJson Codec EventJson Content.

(** ** Data *)

(** A row of event_queue; also the [record] that maintenance.go copies. *)
Record record := mkRecord {
  r_ID : Z;
  r_Key : string;
  r_Time : Z;
  r_Payload : bytes;
  r_Status : Z;
  r_Retry : Z;
  r_Error : string;
  r_Created : Z;
  r_Updated : Z
}.
#[global] Instance settable_record : Settable record := fun r =>
  mkRecord (r_ID r) (r_Key r) (r_Time r) (r_Payload r) (r_Status r) (r_Retry r) (r_Error r) (r_Created r) (r_Updated r).

(** The tables: event_queue in the order of its primary key, with the counter
    of AUTOINCREMENT; queue_content and queue_edges; queue_summary; queue_roots;
    queue_archived; queue_archives; queue_archive_pending; queue_metadata. *)
Record queue_db := mkQueueDB {
  db_rows : list record;
  db_seq : Z;
  db_content : content_db;
  db_summary : gmap string bytes;
  db_roots : gmap string string;
  db_archived : gmap string (string * Z);
  db_archives : gmap string (Z * Z);
  db_archive_pending : gset string;
  db_metadata : gmap string string
}.
#[global] Instance settable_queue_db : Settable queue_db := fun d =>
  mkQueueDB (db_rows d) (db_seq d) (db_content d) (db_summary d) (db_roots d) (db_archived d) (db_archives d)
    (db_archive_pending d) (db_metadata d).
(** What [init] makes of an empty file. *)
Definition new_db : queue_db := mkQueueDB [] 0 empty_content ∅ ∅ ∅ ∅ ∅ {["storage_schema" := "2"]}.

Record SQLiteQueue := mkSQLite {
  q_db : queue_db;
  q_path : string;
  q_backend : string;
  q_maxRetry : Z
}.
#[global] Instance settable_SQLiteQueue : Settable SQLiteQueue := fun q =>
  mkSQLite (q_db q) (q_path q) (q_backend q) (q_maxRetry q).

(** sql.ErrNoRows, and the test for it. *)
Definition no_rows : string := "sql: no rows in result set".
Definition isMissing (e : string) : bool := seqb e no_rows.

(** ** Opening *)

(** [init] on an existing file: the schema version must be 2; it is written
    when it is missing. *)
Definition init (d : queue_db) : res queue_db :=
  let meta := match db_metadata d !! "storage_schema" with
              | Some _ => db_metadata d
              | None => <["storage_schema" := "2"]> (db_metadata d)
              end in
  match meta !! "storage_schema" with
  | Some v => if seqb v "2" then Ok (d <| db_metadata := meta |>) else Err "unsupported storage schema"
  | None => Err "sql: no rows in result set"
  end.
(** [file] is the database at [path], [None] when there is none yet. *)
Definition OpenSQLite (file : option queue_db) (path backend : string) : res SQLiteQueue :=
  let backend := if seqb backend "" then "v2" else backend in
  if negb (seqb backend "v2") && negb (seqb backend "legacy") then Err "unknown storage backend"
  else
    d ← init (default new_db file);
    Ok (mkSQLite d path backend 0).
Definition NewSQLite (file : option queue_db) (path : string) : res SQLiteQueue := OpenSQLite file path "v2".
Definition SetMaxRetry (n : Z) (q : SQLiteQueue) : SQLiteQueue := q <| q_maxRetry := n |>.

(** An interrupted migration is refused, a completed one is sealed. *)
Definition Activate (q : SQLiteQueue) : res SQLiteQueue :=
  match db_metadata (q_db q) !! "migration_source" with
  | None => Ok q
  | Some _ =>
      match db_metadata (q_db q) !! "migration_complete" with
      | Some c =>
          if negb (seqb c "1") then Err "queue migration is incomplete; resume ta_queue before starting the node"
          else Ok (q <| q_db ::= fun d => d <| db_metadata ::= <["migration_activated" := "1"]> |> |>)
      | None => Err "queue migration is incomplete; resume ta_queue before starting the node"
      end
  end.

(** ** Writing *)

(** The revisions of an event are rows of their own. *)
Definition queueRecordID (eventID : string) (contextRevision : Z) : string :=
  if contextRevision <=? 1 then eventID
  else eventID +:+ "@revision:" +:+ strconv_Itoa contextRevision.

Definition summarize (ev : ThreatEvent) : ThreatEvent :=
  zero_ThreatEvent <| ev_EventID := ev_EventID ev |> <| ev_EventTime := ev_EventTime ev |> <| ev_EventName := ev_EventName ev |>
    <| ev_Severity := ev_Severity ev |> <| ev_IOCType := ev_IOCType ev |> <| ev_IOCValue := ev_IOCValue ev |>
    <| ev_SrcIP := ev_SrcIP ev |> <| ev_SrcPort := ev_SrcPort ev |> <| ev_DstIP := ev_DstIP ev |> <| ev_DstPort := ev_DstPort ev |>
    <| ev_SessionID := ev_SessionID ev |> <| ev_TransactionID := ev_TransactionID ev |>
    <| ev_ContextRevision := ev_ContextRevision ev |> <| ev_ContextFinal := ev_ContextFinal ev |>
    <| ev_SessionSummary := ev_SessionSummary ev |>
    <| ev_RawPacket := (fun p => zero_RawPacketContext <| rp_MessageDirection := rp_MessageDirection p |>) <$> ev_RawPacket ev |>
    <| ev_Exchange := (fun x => zero_ExchangeContext <| ex_ResponseStatus := ex_ResponseStatus x |>) <$> ev_Exchange ev |>.
Definition saveSummary (d : queue_db) (key : string) (ev : ThreatEvent) : queue_db :=
  d <| db_summary ::= <[key := marshal_event (summarize ev)]> |>.
Definition registerRoot (d : queue_db) (key : string) (payload : bytes) : res queue_db :=
  root ← payloadRoot payload;
  if seqb root "" then Ok d else Ok (d <| db_roots ::= <[key := root]> |>).

Section queue.
Context `{GoZlib}.

(** SELECT 1 FROM event_queue WHERE event_id=? *)
Definition has_key (d : queue_db) (key : string) : bool := existsb (fun r => seqb (r_Key r) key) (db_rows d).
(** INSERT INTO event_queue: the row gets the next identifier. *)
Definition insert_row (d : queue_db) (key : string) (time : Z) (payload : bytes) (now : Z) : queue_db :=
  let id := db_seq d + 1 in
  d <| db_seq := id |> <| db_rows ::= fun rows => rows ++ [mkRecord id key time payload 0 0 "" now now] |>.

Definition Enqueue (now : Z) (q : SQLiteQueue) (ev : ThreatEvent) : res SQLiteQueue :=
  let key := queueRecordID (ev_EventID ev) (ev_ContextRevision ev) in
  if bool_decide (is_Some (db_archived (q_db q) !! key)) then Ok q
  else if has_key (q_db q) key then Ok q
  else
    '(payload, content) ← (if seqb (q_backend q) "legacy" then Ok (marshal_event ev, db_content (q_db q))
                           else encodePayload (db_content (q_db q)) (event_value ev));
    let d := (q_db q) <| db_content := content |> in
    let d := insert_row d key (ev_EventTime ev) payload now in
    let d := saveSummary d key ev in
    d ← registerRoot d key payload;
    Ok (q <| q_db := d |>).

(** ** Reading *)

(** status IN (0,3) AND (?<=0 OR retry_count<?) *)
Definition is_pending (maxRetry : Z) (r : record) : bool :=
  ((r_Status r =? 0) || (r_Status r =? 3)) && ((maxRetry <=? 0) || (r_Retry r <? maxRetry)).
Record pendingEntry := mkPending { pe_id : Z; pe_created : Z }.
Definition pendingEntries (q : SQLiteQueue) (limit : Z) : list pendingEntry :=
  let limit := if limit <=? 0 then 100 else limit in
  (fun r => mkPending (r_ID r) (r_Created r)) <$>
    take (Z.to_nat limit) (List.filter (is_pending (q_maxRetry q)) (db_rows (q_db q))).
Definition PendingIDs (q : SQLiteQueue) (limit : Z) : list Z := pe_id <$> pendingEntries q limit.

Definition row_at (d : queue_db) (id : Z) : option record := List.find (fun r => r_ID r =? id) (db_rows d).
Definition LoadEvent (q : SQLiteQueue) (id : Z) : res ThreatEvent :=
  match row_at (q_db q) id with
  | None => Err "sql: no rows in result set"
  | Some r =>
      b ← decodePayload (db_content (q_db q)) (r_Payload r);
      match unmarshal_event b with
      | Some ev => Ok ev
      | None => Err "json"
      end
  end.
Fixpoint load_all (load : Z -> res ThreatEvent) (ids : list Z) : res (list ThreatEvent) :=
  match ids with
  | [] => Ok []
  | id :: r => ev ← load id; evs ← load_all load r; Ok (ev :: evs)
  end.
Definition LoadPending (q : SQLiteQueue) (limit : Z) : res (list ThreatEvent) :=
  load_all (LoadEvent q) (PendingIDs q limit).

(** ** Acknowledgement *)

(** UPDATE event_queue SET ... WHERE event_id=? *)
Definition update_key (key : string) (f : record -> record) (d : queue_db) : queue_db :=
  d <| db_rows ::= map (fun r => if seqb (r_Key r) key then f r else r) |>.
Definition mark_pushed (now : Z) (r : record) : record := r <| r_Status := 2 |> <| r_Error := "" |> <| r_Updated := now |>.
Definition mark_failed (now : Z) (msg : string) (r : record) : record :=
  r <| r_Status := 3 |> <| r_Retry ::= fun n => n + 1 |> <| r_Error := msg |> <| r_Updated := now |>.
Definition MarkPushed (now : Z) (q : SQLiteQueue) (eventID : string) (contextRevision : Z) : SQLiteQueue :=
  q <| q_db ::= update_key (queueRecordID eventID contextRevision) (mark_pushed now) |>.
Definition MarkFailed (now : Z) (q : SQLiteQueue) (eventID : string) (contextRevision : Z) (msg : string) : SQLiteQueue :=
  q <| q_db ::= update_key (queueRecordID eventID contextRevision) (mark_failed now msg) |>.
End queue.

(** ** The abstract queue

    A list of events in the order in which they were accepted, each with its
    delivery state, and the set of keys that have been archived. *)

Record entry := mkEntry {
  e_event : ThreatEvent;
  e_status : Z;
  e_retry : Z;
  e_error : string;
  e_created : Z;
  e_updated : Z
}.
#[global] Instance settable_entry : Settable entry := fun e =>
  mkEntry (e_event e) (e_status e) (e_retry e) (e_error e) (e_created e) (e_updated e).
Record aqueue := mkAQueue { a_entries : list entry; a_archived : gset string }.

Definition event_key (ev : ThreatEvent) : string := queueRecordID (ev_EventID ev) (ev_ContextRevision ev).
Definition a_keys (s : aqueue) : list string := (fun e => event_key (e_event e)) <$> a_entries s.

Definition a_enqueue (now : Z) (ev : ThreatEvent) (s : aqueue) : aqueue :=
  if bool_decide (event_key ev ∈ a_archived s) || bool_decide (event_key ev ∈ a_keys s) then s
  else mkAQueue (a_entries s ++ [mkEntry ev 0 0 "" now now]) (a_archived s).
Definition a_is_pending (maxRetry : Z) (e : entry) : bool :=
  ((e_status e =? 0) || (e_status e =? 3)) && ((maxRetry <=? 0) || (e_retry e <? maxRetry)).
Definition a_pending (maxRetry limit : Z) (s : aqueue) : list ThreatEvent :=
  e_event <$> take (Z.to_nat (if limit <=? 0 then 100 else limit)) (List.filter (a_is_pending maxRetry) (a_entries s)).
Definition a_update (key : string) (f : entry -> entry) (s : aqueue) : aqueue :=
  mkAQueue ((fun e => if seqb (event_key (e_event e)) key then f e else e) <$> a_entries s) (a_archived s).
Definition a_mark_pushed (now : Z) (e : entry) : entry := e <| e_status := 2 |> <| e_error := "" |> <| e_updated := now |>.
Definition a_mark_failed (now : Z) (msg : string) (e : entry) : entry :=
  e <| e_status := 3 |> <| e_retry ::= fun n => n + 1 |> <| e_error := msg |> <| e_updated := now |>.

(** ** Plain payloads *)

(** None of the tags of an event names a field of the manifest. *)
Lemma event_tags : Forall (fun f : field ThreatEvent => names (byt (fd_name f)) "_ta_storage" = false
  /\ names (byt (fd_name f)) "root" = false) fields_ThreatEvent.
Proof.
  assert (E : forallb (fun f : field ThreatEvent => negb (names (byt (fd_name f)) "_ta_storage")
    && negb (names (byt (fd_name f)) "root")) fields_ThreatEvent = true) by (vm_compute; reflexivity).
  apply Forall_forall. intros f Hf. rewrite forallb_forall in E. specialize (E f ltac:(by apply list_elem_of_In)).
  by b2p.
Qed.
(** Members that are skipped leave the variable as it is. *)
Lemma fold_skipped {A} (g : A -> bytes * bytes -> option A) ms a :
  Forall (fun m => g a m = Some a) ms -> foldr (fun m k a => g a m ≫= k) Some ms a = Some a.
Proof. induction 1 as [|m ms Hm _ IH]; [done|]. cbn [foldr]. by rewrite Hm. Qed.

(** The text of an event is not taken for a manifest. *)
Lemma payloadRoot_members ms : Forall (fun m => utf8_Valid m.1 = true /\ jtext m.2) ms ->
  Forall (fun m : bytes * bytes => names m.1 "_ta_storage" = false /\ names m.1 "root" = false) ms -> payloadRoot (braces (member_texts ms)) = Ok "".
Proof.
  intros Hj Hn. unfold payloadRoot. rewrite jtext_valid by (apply jt_obj; eapply Forall_impl; [exact Hj|]; by intros m []).
  unfold json_into_struct. rewrite shape_obj by done. rewrite fold_skipped; [done|]. eapply Forall_impl; [exact Hn|].
  intros [k v] [H1 H2]. cbn [fst snd] in *. by rewrite H1, H2.
Qed.
Lemma event_text_of ev t : event_text ev t -> exists tx, text_of tx /\ t = tx (event_value ev).
Proof. intros [-> | ->]; [exists json_Marshal|exists (json_Marshal ∘ norm)]; (split; [|done]); [by left|by right]. Qed.
Lemma payloadRoot_event ev t : event_ok ev -> event_text ev t -> payloadRoot t = Ok "".
Proof.
  intros Hev Ht. destruct (event_text_of ev t Ht) as (tx & Htx & ->).
  destruct (struct_text _ zero_ThreatEvent ev tx spec_ThreatEvent Hev Htx) as (kvs & Hp & E & Hj & _). unfold event_value. rewrite E.
  apply payloadRoot_members; [done|]. apply Forall_fmap, Forall_forall. intros kv Hkv. rewrite Hp in Hkv. destruct (written_elem _ _ _ Hkv) as (f & Hin & ->).
  pose proof event_tags as Htags. rewrite Forall_forall in Htags. by apply Htags.
Qed.

(** ** The queue represents an abstract queue *)

Section represents.
Context `{GoZlibLaws}.

(** A row holds an event: its payload restores to a text of the event, and
    the root of a stored payload is registered under the key of the row. *)
Record row_holds (c : content_db) (roots : gmap string string) (r : record) (e : entry) : Prop := {
  rh_key : r_Key r = event_key (e_event e);
  rh_time : r_Time r = ev_EventTime (e_event e);
  rh_ok : event_ok (e_event e);
  rh_payload : exists t, decodePayload c (r_Payload r) = Ok t /\ event_text (e_event e) t;
  rh_root : exists root, payloadRoot (r_Payload r) = Ok root /\ (root <> "" -> roots !! r_Key r = Some root);
  rh_status : r_Status r = e_status e;
  rh_retry : r_Retry r = e_retry e;
  rh_error : r_Error r = e_error e;
  rh_created : r_Created r = e_created e;
  rh_updated : r_Updated r = e_updated e
}.
Record represents (d : queue_db) (s : aqueue) : Prop := {
  rp_rows : Forall2 (row_holds (db_content d) (db_roots d)) (db_rows d) (a_entries s);
  rp_keys : NoDup (a_keys s);
  rp_ids : StronglySorted (fun r r' => r_ID r < r_ID r') (db_rows d);
  rp_seq : Forall (fun r => r_ID r <= db_seq d) (db_rows d);
  rp_archived : dom (db_archived d) = a_archived s;
  rp_store : store_ok (db_content d)
}.

Lemma represents_keys d s : represents d s -> r_Key <$> db_rows d = a_keys s.
Proof.
  intros [Hr _ _ _ _ _]. unfold a_keys. induction Hr as [|r e rows es Hre _ IH]; [done|]. cbn. by rewrite (rh_key _ _ _ _ Hre), IH.
Qed.
Lemma has_key_spec d s key : represents d s -> has_key d key = bool_decide (key ∈ a_keys s).
Proof.
  intros Hr. rewrite <- (represents_keys d s Hr). unfold has_key. apply eq_bool_prop_intro. rewrite bool_decide_spec, Is_true_true, existsb_exists.
  split.
  - intros (r & Hin & E). apply seqb_spec in E as <-. apply list_elem_of_fmap_2. by apply list_elem_of_In.
  - intros (r & -> & Hin)%list_elem_of_fmap. exists r. rewrite seqb_refl. by rewrite <- list_elem_of_In.
Qed.

Lemma represents_new : represents new_db (mkAQueue [] ∅).
Proof.
  split; cbn [new_db db_rows db_seq db_content db_archived a_entries a_archived]; [constructor..|apply dom_empty_L|apply store_ok_empty].
Qed.

(** ** Refinement *)

Lemma rows_hold_mono c c' roots roots' rows es : extends c c' ->
  (forall r root, r ∈ rows -> roots !! r_Key r = Some root -> roots' !! r_Key r = Some root) ->
  Forall2 (row_holds c roots) rows es -> Forall2 (row_holds c' roots') rows es.
Proof.
  intros He Hroots Hr. induction Hr as [|r e rows es [? ? ? (t & Hp & Ht) (root & Hr & Hroot) ? ? ? ? ?] _ IH]; constructor.
  - split; try done; [exists t; split; [by eapply decodePayload_mono|done]|]. exists root. split; [done|]. intros Hne. apply Hroots; [left|auto].
  - apply IH. intros x root' Hx. apply Hroots. by right.
Qed.

(** The payload Enqueue writes: the store grows, stays in order and restores
    the event. *)
Lemma payload_spec content backend ev payload content' : event_ok ev ->
  (if seqb backend "legacy" then Ok (marshal_event ev, content) else encodePayload content (event_value ev)) = Ok (payload, content') ->
  extends content content' /\ (store_ok content -> store_ok content')
  /\ (exists t, decodePayload content' payload = Ok t /\ event_text ev t) /\ exists root, payloadRoot payload = Ok root.
Proof.
  intros Hev. destruct (seqb backend "legacy").
  - intros [= <- <-]. pose proof (payloadRoot_event ev _ Hev (or_introl eq_refl)) as Hr. split_and!; [by intros id raw|done| |by eexists].
    eexists. split; [|by left]. unfold decodePayload. by rewrite Hr.
  - intros E. pose proof (event_depth ev). 
    destruct (encodePayload_spec content (event_value ev) payload content' (event_value_ok ev Hev) ltac:(lia) E) as (He & Hs & Hr).
    split_and!; [done|done|eexists; split; [by apply decode_restores|by left]|]. destruct Hr as (root & -> & Hok & _). exists root. by apply payloadRoot_manifest.
Qed.

Lemma StronglySorted_snoc {A} (R : A -> A -> Prop) l x : StronglySorted R l -> Forall (fun y => R y x) l -> StronglySorted R (l ++ [x]).
Proof.
  intros Hs Hf. induction Hs as [|y l Hs IH Hy]; [by repeat constructor|]. apply Forall_cons in Hf as [Hyx Hf].
  cbn. constructor; [by apply IH|]. apply Forall_app; auto.
Qed.

Lemma Enqueue_accepts now q ev s payload content root : represents (q_db q) s -> event_ok ev ->
  event_key ev ∉ a_keys s -> extends (db_content (q_db q)) content -> store_ok content ->
  (exists t, decodePayload content payload = Ok t /\ event_text ev t) -> payloadRoot payload = Ok root ->
  represents
    ((saveSummary (insert_row ((q_db q) <| db_content := content |>) (event_key ev) (ev_EventTime ev) payload now) (event_key ev) ev)
      <| db_roots ::= fun m => if seqb root "" then m else <[event_key ev := root]> m |>)
    (mkAQueue (a_entries s ++ [mkEntry ev 0 0 "" now now]) (a_archived s)).
Proof.
  intros Hrep Hev Hk He Hs Hd Hroot. pose proof (represents_keys _ _ Hrep) as Hkeys. destruct Hrep as [Hr Hnd Hids Hseq Ha _].
  assert (Hids' : Forall (fun r => r_ID r < db_seq (q_db q) + 1) (db_rows (q_db q))).
  { eapply Forall_impl; [exact Hseq|]. cbn. lia. }
  split; cbn [a_entries a_archived upd saveSummary insert_row db_rows db_seq db_archived db_content].
  - apply Forall2_app.
    + eapply rows_hold_mono; [exact He| |exact Hr]. intros r x Hin Hx. cbn. destruct (seqb root ""); [done|].
      rewrite lookup_insert_ne; [done|]. intros E. apply Hk. rewrite <- Hkeys, E. by apply list_elem_of_fmap_2.
    + constructor; [|constructor].
      split; cbn [r_Key r_Time r_Payload r_Status r_Retry r_Error r_Created r_Updated e_event e_status e_retry e_error e_created e_updated];
        [reflexivity|reflexivity|exact Hev|exact Hd| |reflexivity..].
      exists root. split; [exact Hroot|]. intros Hne. cbn. rewrite (proj2 (seqb_neq _ _) Hne). apply lookup_insert_eq.
  - unfold a_keys. cbn [a_entries]. rewrite fmap_app, NoDup_app. split_and!; [done| |apply NoDup_singleton].
    intros k Hk' Hin. cbn in Hin. apply list_elem_of_singleton in Hin as ->. done.
  - by apply StronglySorted_snoc.
  - apply Forall_app. split; [|constructor; [cbn; lia|constructor]]. eapply Forall_impl; [exact Hids'|]. cbn. lia.
  - done.
  - done.
Qed.

Lemma Enqueue_represents now q ev s : represents (q_db q) s -> event_ok ev ->
  match Enqueue now q ev with
  | Ok q' => represents (q_db q') (a_enqueue now ev s) /\ q_maxRetry q' = q_maxRetry q /\ q_backend q' = q_backend q
  | Err e => storage_error e
  end.
Proof.
  intros Hrep Hev. unfold Enqueue, a_enqueue. fold (event_key ev).
  assert (Ea : bool_decide (is_Some (db_archived (q_db q) !! event_key ev)) = bool_decide (event_key ev ∈ a_archived s)).
  { rewrite <- (rp_archived _ _ Hrep). apply bool_decide_ext. by rewrite elem_of_dom. }
  rewrite Ea, (has_key_spec _ s) by done. clear Ea. destruct (bool_decide (event_key ev ∈ a_archived s)); [done|]. cbn [orb].
  destruct (bool_decide (event_key ev ∈ a_keys s)) eqn:E2; [done|]. apply bool_decide_eq_false in E2.
  destruct (if seqb (q_backend q) "legacy" then _ else _) as [[payload content]|e] eqn:Ep; cbn [mbind res_bind].
  - destruct (payload_spec _ _ _ _ _ Hev Ep) as (He & Hs & Hd & root & Hr).
    pose proof (Enqueue_accepts now q ev s payload content root Hrep Hev E2 He (Hs (rp_store _ _ Hrep)) Hd Hr) as Hnew.
    unfold registerRoot. rewrite Hr. cbn [mbind res_bind].
    destruct (seqb root ""); cbn [mbind res_bind]; (split; [exact Hnew|done]).
  - destruct (seqb (q_backend q) "legacy"); [done|]. pose proof (event_depth ev).
    eapply encodePayload_error; [by apply event_value_ok| |apply Hrep|exact Ep]. lia.
Qed.

(** Updating the rows that a condition on the key selects leaves payloads alone. *)
Lemma select_represents d s (sel : string -> bool) f g : represents d s ->
  (forall r e, row_holds (db_content d) (db_roots d) r e -> row_holds (db_content d) (db_roots d) (f r) (g e)) ->
  (forall r, r_ID (f r) = r_ID r) -> (forall e, e_event (g e) = e_event e) ->
  represents (d <| db_rows ::= map (fun r => if sel (r_Key r) then f r else r) |>)
    (mkAQueue ((fun e => if sel (event_key (e_event e)) then g e else e) <$> a_entries s) (a_archived s)).
Proof.
  intros [Hr Hnd Hids Hseq Ha Hs] Hfg Hid Hev.
  assert (Hids' : forall r, r_ID (if sel (r_Key r) then f r else r) = r_ID r) by (intros r; destruct (sel (r_Key r)); auto).
  split; cbn [upd db_rows db_content db_roots db_seq db_archived a_entries a_archived].
  - clear -Hr Hfg. induction Hr as [|r e rows es Hre _ IH]; [constructor|]. cbn [map fmap list_fmap]. constructor; [|exact IH].
    rewrite (rh_key _ _ _ _ Hre). destruct (sel (event_key (e_event e))); auto.
  - match goal with |- NoDup (a_keys ?s') => assert (E : a_keys s' = a_keys s); [|by rewrite E] end.
    unfold a_keys. cbn [a_entries]. rewrite <- list_fmap_compose. apply list_fmap_ext. intros i e _. unfold compose.
    destruct (sel _); [by rewrite Hev|done].
  - clear -Hids Hids'. induction Hids as [|r rows _ IH Hr]; constructor; [exact IH|]. apply Forall_map.
    eapply Forall_impl; [exact Hr|]. intros x Hx. cbn. by rewrite !Hids'.
  - apply Forall_map. eapply Forall_impl; [exact Hseq|]. intros x Hx. cbn. by rewrite Hids'.
  - done.
  - done.
Qed.
Lemma update_represents d s key f g : represents d s ->
  (forall r e, row_holds (db_content d) (db_roots d) r e -> row_holds (db_content d) (db_roots d) (f r) (g e)) ->
  (forall r, r_ID (f r) = r_ID r) -> (forall e, e_event (g e) = e_event e) ->
  represents (update_key key f d) (a_update key g s).
Proof. apply (select_represents d s (fun k => seqb k key)). Qed.
Lemma MarkPushed_represents now q s id rev : represents (q_db q) s ->
  represents (q_db (MarkPushed now q id rev)) (a_update (queueRecordID id rev) (a_mark_pushed now) s).
Proof.
  intros Hrep. apply update_represents; [done| |done|done]. intros r e [? ? ? ? ? ? ? ? ? ?]. by split.
Qed.
Lemma MarkFailed_represents now q s id rev msg : represents (q_db q) s ->
  represents (q_db (MarkFailed now q id rev msg)) (a_update (queueRecordID id rev) (a_mark_failed now msg) s).
Proof.
  intros Hrep. apply update_represents; [done| |done|done]. intros r e [? ? ? ? ? ? Hn ? ? ?]. split; try done. cbn. by rewrite Hn.
Qed.

(** A row is found by its identifier, and its event is restored. *)
Lemma row_at_own rows r : StronglySorted (fun r r' => r_ID r < r_ID r') rows -> r ∈ rows ->
  List.find (fun x => r_ID x =? r_ID r) rows = Some r.
Proof.
  intros Hs. induction Hs as [|x rows _ IH Hx]; [by intros ?%elem_of_nil|]. intros [->|Hin]%elem_of_cons; cbn [List.find].
  - by rewrite Z.eqb_refl.
  - rewrite Forall_forall in Hx. specialize (Hx r Hin). destruct (r_ID x =? r_ID r) eqn:E; [b2p; lia|]. by apply IH.
Qed.
Lemma LoadEvent_row q s r e : represents (q_db q) s -> r ∈ db_rows (q_db q) ->
  row_holds (db_content (q_db q)) (db_roots (q_db q)) r e -> LoadEvent q (r_ID r) = Ok (e_event e).
Proof.
  intros Hrep Hin He. unfold LoadEvent, row_at. rewrite (row_at_own _ r) by (apply Hrep || done).
  destruct (rh_payload _ _ _ _ He) as (t & -> & Ht). cbn [mbind res_bind]. by rewrite (event_text_unmarshal (e_event e)) by (apply He || done).
Qed.
Lemma load_rows q s rows es : represents (q_db q) s -> Forall2 (row_holds (db_content (q_db q)) (db_roots (q_db q))) rows es ->
  (forall r, r ∈ rows -> r ∈ db_rows (q_db q)) -> load_all (LoadEvent q) (r_ID <$> rows) = Ok (e_event <$> es).
Proof.
  intros Hrep Hr. induction Hr as [|r e rows es Hre _ IH]; intros Hin; [done|]. cbn [fmap list_fmap load_all].
  rewrite (LoadEvent_row q s r e) by (done || (apply Hin; left)). cbn [mbind res_bind].
  change (list_fmap ?A ?B ?f ?l) with (f <$> l). rewrite IH by (intros x Hx; apply Hin; by right). done.
Qed.

Lemma filter_Forall2 {A B} (R : A -> B -> Prop) (f : A -> bool) (g : B -> bool) l k :
  (forall a b, R a b -> f a = g b) -> Forall2 R l k -> Forall2 R (List.filter f l) (List.filter g k).
Proof.
  intros Hfg Hlk. induction Hlk as [|a b l k Hab _ IH]; [constructor|]. cbn [List.filter]. rewrite (Hfg a b Hab).
  destruct (g b); [by constructor|done].
Qed.
Lemma pending_agree max c roots r e : row_holds c roots r e -> is_pending max r = a_is_pending max e.
Proof. intros Hr. unfold is_pending, a_is_pending. by rewrite (rh_status _ _ _ _ Hr), (rh_retry _ _ _ _ Hr). Qed.

Lemma LoadPending_represents q s limit : represents (q_db q) s -> LoadPending q limit = Ok (a_pending (q_maxRetry q) limit s).
Proof.
  intros Hrep. unfold LoadPending, PendingIDs, pendingEntries, a_pending. rewrite <- list_fmap_compose. unfold compose. cbn [pe_id].
  apply (load_rows q s); [done| |].
  - apply Forall2_take, filter_Forall2; [|apply Hrep]. intros r e. apply pending_agree.
  - intros r Hin%subseteq_take. apply list_elem_of_In, filter_In in Hin as [Hin _]. by apply list_elem_of_In.
Qed.
End represents.

(** ** Theorems *)

Section queue_theorems.
Context `{GoZlibLaws}.

End queue_theorems.

Definition queue0 : SQLiteQueue := mkSQLite new_db "events.db" "v2" 0.
Definition abstract0 : aqueue := mkAQueue [] ∅.

