(* ===== verification/EventQueue.v ===== *)
(** * EventQueue: the queue interface (internal/queue/queue.go)

    What the detection side and the push worker rely on: the operations of the
    Go interface [EventQueue], with the two methods the worker asks for when a
    queue has them, and their laws over a ledger, a finite map from record keys
    to events with their delivery state.  [SQLiteQueue] is an instance here,
    [ShardedQueue] in Shard; the worker of Push is proved against the laws. *)

From S2P Require Import Prelude GoStrings GoNet Events Json Codec EventJson Content Queue.

(** ** Record keys *)

(** Identifiers without the separator of the revision suffix; the detector's
    are hexadecimal digests. *)
Definition plain (id : string) : Prop := chr 64 ∉ byt id.
#[export] Instance plain_dec id : Decision (plain id).
Proof. unfold plain. apply _. Defined.
(** An event a sensor sends: well-formed for JSON, with a plain identifier. *)
Definition sendable (ev : ThreatEvent) : Prop := event_ok ev /\ plain (ev_EventID ev).

Lemma split_at_inj (a b x y : bytes) : chr 64 ∉ a -> chr 64 ∉ b -> (x = [] \/ exists r, x = chr 64 :: r) -> (y = [] \/ exists r, y = chr 64 :: r) ->
  a ++ x = b ++ y -> a = b /\ x = y.
Proof.
  revert b. induction a as [|c a IH]; intros b Ha Hb Hx Hy E; destruct b as [|d b]; cbn in E.
  - done.
  - exfalso. destruct Hx as [->|[r ->]]; simplify_eq. apply Hb. left.
  - exfalso. destruct Hy as [->|[r ->]]; simplify_eq. apply Ha. left.
  - simplify_eq. rewrite not_elem_of_cons in Ha, Hb. destruct (IH b) as [-> ->]; naive_solver.
Qed.
Lemma byt_queueRecordID id rev : exists x, byt (queueRecordID id rev) = byt id ++ x /\ (x = [] \/ exists t, x = chr 64 :: t).
Proof.
  unfold queueRecordID. destruct (rev <=? 1).
  - exists []. rewrite app_nil_r. auto.
  - eexists. rewrite byt_app. split; [reflexivity|]. right. eexists. reflexivity.
Qed.
(** The key determines the identifier. *)
Lemma queueRecordID_inj a b r r' : plain a -> plain b -> queueRecordID a r = queueRecordID b r' -> a = b.
Proof.
  intros Ha Hb E. apply (f_equal byt) in E.
  destruct (byt_queueRecordID a r) as (x & Ex & Hx), (byt_queueRecordID b r') as (y & Ey & Hy). rewrite Ex, Ey in E.
  destruct (split_at_inj _ _ _ _ Ha Hb Hx Hy E) as [Eab _].
  by rewrite <- (str_byt a), <- (str_byt b), Eab.
Qed.

(** ** The ledger *)

Record ledger := mkLedger { l_entries : gmap string entry; l_archived : gset string }.

Definition l_enqueue (now : Z) (ev : ThreatEvent) (l : ledger) : ledger :=
  if bool_decide (event_key ev ∈ l_archived l) || bool_decide (is_Some (l_entries l !! event_key ev)) then l
  else mkLedger (<[event_key ev := mkEntry ev 0 0 "" now now]> (l_entries l)) (l_archived l).
Definition l_update (key : string) (f : entry -> entry) (l : ledger) : ledger :=
  mkLedger (alter f key (l_entries l)) (l_archived l).
Lemma l_update_keeps key f l k e : (forall e, e_event (f e) = e_event e) -> l_entries l !! k = Some e ->
  exists e', l_entries (l_update key f l) !! k = Some e' /\ e_event e' = e_event e.
Proof.
  intros Hf Hl. cbn [l_update l_entries]. destruct (decide (k = key)) as [->|Hne].
  - exists (f e). by rewrite lookup_alter_eq, Hl, Hf.
  - exists e. by rewrite lookup_alter_ne.
Qed.
Definition l_pending (cap : Z) (l : ledger) : gmap string entry :=
  filter (fun kv => a_is_pending cap kv.2 = true) (l_entries l).

(** A batch of the pending events: distinct, as enqueued, and as many of them
    as there are, up to the limit. *)
Record batch (cap limit : Z) (l : ledger) (evs : list ThreatEvent) : Prop := {
  ba_distinct : NoDup (event_key <$> evs);
  ba_pending : Forall (fun ev => exists e, l_pending cap l !! event_key ev = Some e /\ e_event e = ev) evs;
  ba_length : length evs = Nat.min (Z.to_nat (if limit <=? 0 then 100 else limit)) (size (l_pending cap l))
}.

(** ** The interface *)

Class EventQueue (Q : Type) := {
  eq_Enqueue : Z -> Q -> ThreatEvent -> res Q;
  eq_LoadPending : Q -> Z -> res (list ThreatEvent);
  eq_MarkPushed : Z -> Q -> string -> Z -> res Q;
  eq_MarkFailed : Z -> Q -> string -> Z -> string -> res Q;
  (** PendingIDs and LoadEvent, for a queue that has them *)
  eq_lazy : option ((Q -> Z -> res (list Z)) * (Q -> Z -> res ThreatEvent))
}.

(** [holds q l]: the queue stores exactly the ledger [l]; [cap] is its retry
    cap; [room]: its row identifiers fit the identifiers it hands out; [refers
    q id key]: [id] is the identifier of the record with this key. *)
Class EventQueueLaws (Q : Type) `{EventQueue Q} := {
  holds : Q -> ledger -> Prop;
  cap : Q -> Z;
  room : Q -> Prop;
  refers : Q -> Z -> string -> Prop;
  holds_entries : forall q l k e, holds q l -> l_entries l !! k = Some e -> k = event_key (e_event e) /\ sendable (e_event e);
  holds_Enqueue : forall now q l ev, holds q l -> sendable ev ->
    match eq_Enqueue now q ev with
    | Ok q' => holds q' (l_enqueue now ev l) /\ cap q' = cap q /\ (forall id k, refers q id k -> refers q' id k)
    | Err e => storage_error e
    end;
  holds_MarkPushed : forall now q l id rev, holds q l -> plain id ->
    exists q', eq_MarkPushed now q id rev = Ok q' /\ holds q' (l_update (queueRecordID id rev) (a_mark_pushed now) l)
      /\ cap q' = cap q /\ (room q -> room q') /\ (forall i k, refers q i k -> refers q' i k);
  holds_MarkFailed : forall now q l id rev msg, holds q l -> plain id ->
    exists q', eq_MarkFailed now q id rev msg = Ok q' /\ holds q' (l_update (queueRecordID id rev) (a_mark_failed now msg) l)
      /\ cap q' = cap q /\ (room q -> room q') /\ (forall i k, refers q i k -> refers q' i k);
  holds_LoadPending : forall q l limit, holds q l -> room q ->
    exists evs, eq_LoadPending q limit = Ok evs /\ batch (cap q) limit l evs;
  holds_lazy : forall pending load, eq_lazy = Some (pending, load) ->
    (forall q l limit, holds q l -> room q -> exists ids evs, pending q limit = Ok ids /\ batch (cap q) limit l evs
       /\ Forall2 (fun id ev => refers q id (event_key ev)) ids evs)
    /\ (forall q l id k e, holds q l -> refers q id k -> l_entries l !! k = Some e -> load q id = Ok (e_event e))
}.

(** ** Ledgers of lists of entries *)

Definition keyed (e : entry) : string * entry := (event_key (e_event e), e).
Definition keys_of (es : list entry) : list string := (fun e => event_key (e_event e)) <$> es.
Definition ledger_of (es : list entry) : gmap string entry := list_to_map (keyed <$> es).
Definition aqueue_ledger (s : aqueue) : ledger := mkLedger (ledger_of (a_entries s)) (a_archived s).

Lemma keyed_fst es : (keyed <$> es).*1 = keys_of es.
Proof. unfold keys_of. by rewrite <- list_fmap_compose. Qed.
Lemma ledger_lookup es k e : NoDup (keys_of es) -> ledger_of es !! k = Some e <-> e ∈ es /\ event_key (e_event e) = k.
Proof.
  intros Hnd. unfold ledger_of. rewrite <- elem_of_list_to_map by (by rewrite keyed_fst). rewrite list_elem_of_fmap. split.
  - intros (e' & [= -> ->] & Hin). done.
  - intros [Hin <-]. by exists e.
Qed.
Lemma ledger_None es k : k ∉ keys_of es -> ledger_of es !! k = None.
Proof. intros Hk. apply not_elem_of_list_to_map_1. by rewrite keyed_fst. Qed.
Lemma ledger_is_Some es k : is_Some (ledger_of es !! k) <-> k ∈ keys_of es.
Proof.
  split.
  - intros Hs. destruct (decide (k ∈ keys_of es)) as [|Hn]; [done|]. rewrite (ledger_None _ _ Hn) in Hs. by destruct Hs.
  - intros Hk. apply not_eq_None_Some. intros E%not_elem_of_list_to_map. by rewrite keyed_fst in E.
Qed.
Lemma ledger_perm es es' : NoDup (keys_of es) -> es ≡ₚ es' -> ledger_of es = ledger_of es'.
Proof. intros Hnd Hp. apply list_to_map_proper; [by rewrite keyed_fst|]. by rewrite Hp. Qed.
Lemma ledger_snoc es e : event_key (e_event e) ∉ keys_of es -> NoDup (keys_of es) ->
  ledger_of (es ++ [e]) = <[event_key (e_event e) := e]> (ledger_of es).
Proof.
  intros Hk Hnd. rewrite (ledger_perm (es ++ [e]) (e :: es)); [done| |by rewrite Permutation_app_comm].
  unfold keys_of in *. rewrite fmap_app, NoDup_app. split_and!; [done| |apply NoDup_singleton].
  intros k Hin [= ->]%list_elem_of_singleton. done.
Qed.

Definition update_entries (key : string) (f : entry -> entry) (es : list entry) : list entry :=
  (fun e => if seqb (event_key (e_event e)) key then f e else e) <$> es.
Lemma update_keys key f es : (forall e, e_event (f e) = e_event e) -> keys_of (update_entries key f es) = keys_of es.
Proof.
  intros Hf. unfold keys_of, update_entries. rewrite <- list_fmap_compose. apply list_fmap_ext. intros i e _. unfold compose.
  destruct (seqb _ key); [by rewrite Hf|done].
Qed.
Lemma ledger_update key f es : (forall e, e_event (f e) = e_event e) -> NoDup (keys_of es) ->
  ledger_of (update_entries key f es) = alter f key (ledger_of es).
Proof.
  intros Hf Hnd. apply map_eq. intros k. apply option_eq. intros e.
  rewrite ledger_lookup by (by rewrite update_keys). rewrite lookup_alter_Some. unfold update_entries.
  rewrite list_elem_of_fmap. split.
  - intros [(e' & -> & Hin) <-]. destruct (seqb (event_key (e_event e')) key) eqn:E.
    + apply seqb_spec in E. rewrite Hf. left. split; [done|]. exists e'. split; [|done]. by apply ledger_lookup.
    + apply seqb_neq in E. right. split; [done|]. by apply ledger_lookup.
  - intros [[<- (e' & Hl & ->)]|[Hne Hl]].
    + apply ledger_lookup in Hl as [Hin <-]; [|done]. split; [|by rewrite Hf]. exists e'. by rewrite seqb_refl.
    + apply ledger_lookup in Hl as [Hin <-]; [|done]. split; [|done]. exists e. split; [|done].
      by rewrite (proj2 (seqb_neq _ _)) by done.
Qed.

(** The pending entries of the ledger are those of the list. *)
Lemma pending_lookup c es ar k e : NoDup (keys_of es) ->
  l_pending c (mkLedger (ledger_of es) ar) !! k = Some e <-> e ∈ List.filter (a_is_pending c) es /\ event_key (e_event e) = k.
Proof.
  intros Hnd. unfold l_pending. cbn [l_entries]. rewrite map_lookup_filter_Some, ledger_lookup by done.
  rewrite !list_elem_of_In, filter_In. cbn. naive_solver.
Qed.
Lemma keys_sublist es es' : es' `sublist_of` es -> NoDup (keys_of es) -> NoDup (keys_of es').
Proof. intros Hs Hnd. eapply sublist_NoDup; [exact Hnd|]. by apply fmap_sublist. Qed.
Lemma pending_size c es ar : NoDup (keys_of es) -> size (l_pending c (mkLedger (ledger_of es) ar)) = length (List.filter (a_is_pending c) es).
Proof.
  intros Hnd. assert (Hf : NoDup (keys_of (List.filter (a_is_pending c) es))).
  { eapply keys_sublist; [|done]. clear. induction es as [|e es IH]; cbn; [done|]. destruct (a_is_pending c e); by constructor. }
  replace (l_pending c (mkLedger (ledger_of es) ar)) with (ledger_of (List.filter (a_is_pending c) es)).
  - unfold ledger_of. rewrite map_size_list_to_map by (by rewrite keyed_fst). by rewrite length_fmap.
  - apply map_eq. intros k. apply option_eq. intros e. by rewrite pending_lookup, ledger_lookup.
Qed.

Lemma filter_sublist {A} (f : A -> bool) l : List.filter f l `sublist_of` l.
Proof. induction l as [|x l IH]; cbn; [done|]. destruct (f x); by constructor. Qed.

(** The first pending entries of the list are a batch of its ledger. *)
Lemma batch_of_pending c limit es ar : NoDup (keys_of es) ->
  batch c limit (mkLedger (ledger_of es) ar)
    (e_event <$> take (Z.to_nat (if limit <=? 0 then 100 else limit)) (List.filter (a_is_pending c) es)).
Proof.
  intros Hnd. split.
  - rewrite <- list_fmap_compose. change (event_key ∘ e_event) with (fun e => event_key (e_event e)).
    eapply keys_sublist; [|exact Hnd]. etransitivity; [apply sublist_take|apply filter_sublist].
  - apply Forall_fmap, Forall_forall. intros e Hin%subseteq_take. exists e. split; [|done]. by apply pending_lookup.
  - by rewrite length_fmap, length_take, pending_size.
Qed.
Lemma ledger_enqueue now ev s : NoDup (a_keys s) -> aqueue_ledger (a_enqueue now ev s) = l_enqueue now ev (aqueue_ledger s).
Proof.
  intros Hnd. unfold a_enqueue, l_enqueue. cbn [l_archived aqueue_ledger l_entries].
  rewrite (bool_decide_ext (is_Some (ledger_of (a_entries s) !! event_key ev)) (event_key ev ∈ a_keys s)) by apply ledger_is_Some.
  destruct (bool_decide (event_key ev ∈ a_archived s)); [done|]. cbn [orb].
  destruct (bool_decide (event_key ev ∈ a_keys s)) eqn:E; [done|]. apply bool_decide_eq_false in E.
  unfold aqueue_ledger. cbn [a_entries a_archived]. by rewrite ledger_snoc.
Qed.
Lemma ledger_a_update key f s : (forall e, e_event (f e) = e_event e) -> NoDup (a_keys s) ->
  aqueue_ledger (a_update key f s) = l_update key f (aqueue_ledger s).
Proof.
  intros Hf Hnd. unfold aqueue_ledger, l_update. cbn [a_update a_entries a_archived l_entries l_archived]. f_equal. by apply ledger_update.
Qed.

(** ** The single database *)

Section sqlite.
Context `{GoZlibLaws}.

#[global] Instance sqlite_queue : EventQueue SQLiteQueue := {|
  eq_Enqueue := Enqueue;
  eq_LoadPending := LoadPending;
  eq_MarkPushed := fun now q id rev => Ok (MarkPushed now q id rev);
  eq_MarkFailed := fun now q id rev msg => Ok (MarkFailed now q id rev msg);
  eq_lazy := Some (fun q limit => Ok (PendingIDs q limit), LoadEvent)
|}.

(** The identifier and key of a row. *)
Definition row_refers (d : queue_db) (id : Z) (key : string) : Prop := exists r, r ∈ db_rows d /\ r_ID r = id /\ r_Key r = key.

Lemma update_refers key f d id k : (forall r, r_ID (f r) = r_ID r) -> (forall r, r_Key (f r) = r_Key r) ->
  row_refers d id k -> row_refers (update_key key f d) id k.
Proof.
  intros Hid Hkey (r & Hin & <- & <-). exists (if seqb (r_Key r) key then f r else r). split.
  - cbn. apply list_elem_of_In, (in_map (fun r => if seqb (r_Key r) key then f r else r)), list_elem_of_In, Hin.
  - by destruct (seqb (r_Key r) key).
Qed.
Lemma Enqueue_refers now q ev q' id k : Enqueue now q ev = Ok q' -> row_refers (q_db q) id k -> row_refers (q_db q') id k.
Proof.
  unfold Enqueue. intros E Href. destruct (bool_decide _) in E; [by simplify_eq|]. destruct (has_key _ _) in E; [by simplify_eq|].
  destruct (if seqb (q_backend q) "legacy" then _ else _) as [[payload content]|] in E; [|done]. cbn [mbind res_bind] in E.
  destruct Href as (r & Hin & Hr). exists r. split; [|done]. clear Hr.
  unfold registerRoot in E. destruct (payloadRoot payload) as [root|]; [|done]. cbn [mbind res_bind] in E.
  destruct (seqb root ""); cbn [mbind res_bind] in E; injection E as <-; cbn; apply elem_of_app; by left.
Qed.
Lemma LoadEvent_refers q s id k e : represents (q_db q) s -> row_refers (q_db q) id k -> ledger_of (a_entries s) !! k = Some e ->
  LoadEvent q id = Ok (e_event e).
Proof.
  intros Hrep (r & Hin & <- & <-) Hl. apply ledger_lookup in Hl as [He Hk]; [|apply Hrep].
  eapply LoadEvent_row; [done|done|].
  apply list_elem_of_lookup in Hin as [i Hi]. destruct (Forall2_lookup_l _ _ _ _ _ (rp_rows _ _ Hrep) Hi) as (e' & Hi' & Hre).
  assert (e' = e); [|by subst]. apply list_elem_of_lookup in He as [j Hj].
  assert (i = j) as ->; [|congruence]. pose proof (rp_keys _ _ Hrep) as Hnd.
  eapply (NoDup_lookup _ i j (r_Key r)); [exact Hnd| |]; unfold a_keys; rewrite list_lookup_fmap.
  - rewrite Hi'. cbn. by rewrite (rh_key _ _ _ _ Hre).
  - rewrite Hj. cbn. by rewrite Hk.
Qed.

(** Each pending identifier refers to the event at its place in the batch, and
    comes with the time at which the event was accepted. *)
Lemma pending_rows q s limit : represents (q_db q) s ->
  Forall2 (fun p ev => row_refers (q_db q) (pe_id p) (event_key ev)
      /\ exists e, e ∈ a_entries s /\ e_event e = ev /\ e_created e = pe_created p)
    (pendingEntries q limit) (a_pending (q_maxRetry q) limit s).
Proof.
  intros Hrep. unfold pendingEntries, a_pending. apply Forall2_fmap. cbn [pe_id].
  assert (Hall : Forall2 (fun r e => (r ∈ db_rows (q_db q) /\ e ∈ a_entries s) /\ row_holds (db_content (q_db q)) (db_roots (q_db q)) r e)
    (db_rows (q_db q)) (a_entries s)).
  { apply Forall2_same_length_lookup_2; [by eapply Forall2_length, Hrep|]. intros i r e Hr He.
    split; [split; by eapply list_elem_of_lookup_2|]. by eapply Forall2_lookup_lr; [apply Hrep| |]. }
  eapply Forall2_impl; [apply Forall2_take, (filter_Forall2 _ _ (a_is_pending (q_maxRetry q))); [|exact Hall]|].
  - intros r e [_ Hre]. by eapply pending_agree.
  - intros r e [[Hin Hine] Hre]. split; [exists r; split_and!; [done|done|by apply Hre]|]. exists e. split_and!; [done|done|].
    symmetry. apply Hre.
Qed.

Definition sqlite_holds (q : SQLiteQueue) (l : ledger) : Prop :=
  exists s, represents (q_db q) s /\ Forall (fun e => plain (ev_EventID (e_event e))) (a_entries s) /\ l = aqueue_ledger s.

Lemma represents_ok d s e : represents d s -> e ∈ a_entries s -> event_ok (e_event e).
Proof.
  intros Hrep He. apply list_elem_of_lookup in He as [i Hi].
  destruct (Forall2_lookup_r _ _ _ _ _ (rp_rows _ _ Hrep) Hi) as (r & _ & Hre). apply Hre.
Qed.
Lemma update_plain key f es : (forall e, e_event (f e) = e_event e) -> Forall (fun e => plain (ev_EventID (e_event e))) es ->
  Forall (fun e => plain (ev_EventID (e_event e))) (update_entries key f es).
Proof.
  intros Hf Hp. apply Forall_fmap. eapply Forall_impl; [exact Hp|]. intros e He. cbn. destruct (seqb _ key); [by rewrite Hf|done].
Qed.
Lemma enqueue_plain now ev s : plain (ev_EventID ev) -> Forall (fun e => plain (ev_EventID (e_event e))) (a_entries s) ->
  Forall (fun e => plain (ev_EventID (e_event e))) (a_entries (a_enqueue now ev s)).
Proof.
  intros Hev Hp. unfold a_enqueue. destruct (_ || _); [done|]. cbn [a_entries]. apply Forall_app. split; [done|]. by repeat constructor.
Qed.

#[global, refine] Instance sqlite_laws : EventQueueLaws SQLiteQueue := {|
  holds := sqlite_holds;
  cap := q_maxRetry;
  room := fun _ => True;
  refers := fun q => row_refers (q_db q)
|}.
Proof.
  - intros q l k e (s & Hrep & Hp & ->) Hl. cbn in Hl. apply ledger_lookup in Hl as [He <-]; [|apply Hrep].
    split; [done|]. split; [by eapply represents_ok|]. by eapply (proj1 (Forall_forall _ _) Hp).
  - intros now q l ev (s & Hrep & Hp & ->) [Hev Hpl]. pose proof (Enqueue_represents now q ev s Hrep Hev) as He.
    cbn [eq_Enqueue sqlite_queue]. destruct (Enqueue now q ev) as [q'|] eqn:E; [|done]. destruct He as (Hrep' & Hc & _). split_and!; [|done|].
    + exists (a_enqueue now ev s). split_and!; [done|by apply enqueue_plain|]. symmetry. apply ledger_enqueue, Hrep.
    + intros id k. by eapply Enqueue_refers.
  - intros now q l id rev (s & Hrep & Hp & ->) _. eexists. split_and!; [reflexivity| |done|done|].
    + exists (a_update (queueRecordID id rev) (a_mark_pushed now) s). split_and!; [by apply MarkPushed_represents|by apply update_plain|].
      symmetry. by apply ledger_a_update, Hrep.
    + intros i k. by apply update_refers.
  - intros now q l id rev msg (s & Hrep & Hp & ->) _. eexists. split_and!; [reflexivity| |done|done|].
    + exists (a_update (queueRecordID id rev) (a_mark_failed now msg) s). split_and!; [by apply MarkFailed_represents|by apply update_plain|].
      symmetry. by apply ledger_a_update, Hrep.
    + intros i k. by apply update_refers.
  - intros q l limit (s & Hrep & Hp & ->) _. eexists. split; [by apply LoadPending_represents|]. apply batch_of_pending, Hrep.
  - intros pending load [= <- <-]. split.
    + intros q l limit (s & Hrep & Hp & ->) _. eexists _, _. split_and!; [reflexivity|apply batch_of_pending, Hrep|].
      unfold PendingIDs. apply Forall2_fmap_l. eapply Forall2_impl; [by apply pending_rows|]. by intros p ev [Href _].
    + intros q l id k e (s & Hrep & Hp & ->) Href Hl. by eapply LoadEvent_refers.
Defined.
End sqlite.
