(* ===== verification/Shard.v ===== *)
(** * Shard: the hash-sharded queue (internal/queue/shard.go)

    Several SQLite queues behind one interface.  Events are routed by the
    FNV-1a hash of their identifier; reading merges the shards and hands out
    identifiers that carry the shard in their low bits. *)

From S2P Require Import Prelude GoStrings GoNet Events Json Codec EventJson Content Queue EventQueue.

Definition maxShards : Z := 64.
Definition shardShift : Z := 6.

Record ShardedQueue := mkSharded { sh_shards : list SQLiteQueue }.

(** [sort.Slice] leaves the order of equal elements open: it is any function
    that permutes its argument into the order of [less]. *)
Class GoSort := { sort_Slice : forall {A : Type}, (A -> A -> bool) -> list A -> list A }.
Class GoSortLaws `{GoSort} := {
  sort_perm : forall {A : Type} (less : A -> A -> bool) l, sort_Slice less l ≡ₚ l;
  sort_sorted : forall {A : Type} (less : A -> A -> bool) l,
    (forall a b c, less b a = false -> less c b = false -> less c a = false) ->
    (forall a b, less a b = true -> less b a = false) ->
    StronglySorted (fun a b => less b a = false) (sort_Slice less l)
}.

(** ** Opening *)

(** The path of shard [i]; shard 0 is the base path itself. *)
Definition shard_path (path : string) (i : nat) : string :=
  if (0 <? i)%nat then path +:+ ".shard" +:+ strconv_Itoa (Z.of_nat i) else path.
(** [files] are the databases on disk. *)
Fixpoint open_shards (files : string -> option queue_db) (path backend : string) (idx : list nat) : res (list SQLiteQueue) :=
  match idx with
  | [] => Ok []
  | i :: idx =>
      let p := shard_path path i in
      q ← OpenSQLite (files p) p backend;
      qs ← open_shards files path backend idx;
      Ok (q :: qs)
  end.
Definition Open (files : string -> option queue_db) (path backend : string) (n : Z) : res ShardedQueue :=
  let n := if n <? 1 then 1 else n in
  if maxShards <? n then Err "storage.shards must be between 1 and 64"
  else qs ← open_shards files path backend (seq 0 (Z.to_nat n)); Ok (mkSharded qs).

(** ** Routing *)

Definition shard_index (n : nat) (eventID : string) : nat :=
  if (n =? 1)%nat then 0%nat else Z.to_nat (fnv32a (byt eventID) mod u32 (Z.of_nat n)).
(** [None]: the index is out of range (a queue without shards). *)
Definition shard (s : ShardedQueue) (eventID : string) : option SQLiteQueue :=
  sh_shards s !! shard_index (length (sh_shards s)) eventID.
Definition set_shard (s : ShardedQueue) (eventID : string) (q : SQLiteQueue) : ShardedQueue :=
  mkSharded (<[shard_index (length (sh_shards s)) eventID := q]> (sh_shards s)).

Definition no_shard : string := "runtime error: index out of range".

Section sharded.
Context `{GoZlib} `{GoSort}.

Definition sharded_Enqueue (now : Z) (s : ShardedQueue) (ev : ThreatEvent) : res ShardedQueue :=
  match shard s (ev_EventID ev) with
  | Some q => q ← Enqueue now q ev; Ok (set_shard s (ev_EventID ev) q)
  | None => Err no_shard
  end.
Definition sharded_MarkPushed (now : Z) (s : ShardedQueue) (eventID : string) (contextRevision : Z) : res ShardedQueue :=
  match shard s eventID with
  | Some q => Ok (set_shard s eventID (MarkPushed now q eventID contextRevision))
  | None => Err no_shard
  end.
Definition sharded_MarkFailed (now : Z) (s : ShardedQueue) (eventID : string) (contextRevision : Z) (msg : string) : res ShardedQueue :=
  match shard s eventID with
  | Some q => Ok (set_shard s eventID (MarkFailed now q eventID contextRevision msg))
  | None => Err no_shard
  end.

(** ** Reading *)

Record shard_entry := mkShardEntry { se_id : Z; se_created : Z; se_shard : nat }.
Definition less_entry (a b : shard_entry) : bool :=
  if negb (se_created a =? se_created b) then se_created a <? se_created b else se_id a <? se_id b.
(** e.id<<shardShift | int64(e.shard) *)
Definition composite (e : shard_entry) : Z := Z.lor (i64 (Z.shiftl (se_id e) shardShift)) (Z.of_nat (se_shard e)).
Definition all_pending (s : ShardedQueue) (limit : Z) : list shard_entry :=
  concat (imap (fun i q => (fun p => mkShardEntry (pe_id p) (pe_created p) i) <$> pendingEntries q limit) (sh_shards s)).
Definition sharded_PendingIDs (s : ShardedQueue) (limit : Z) : res (list Z) :=
  match sh_shards s with
  | [q] => Ok (PendingIDs q limit)
  | _ =>
      let limit := if limit <=? 0 then 100 else limit in
      let all := sort_Slice less_entry (all_pending s limit) in
      let all := if limit <? len all then take (Z.to_nat limit) all else all in
      Ok (composite <$> all)
  end.
Definition sharded_LoadEvent (s : ShardedQueue) (id : Z) : res ThreatEvent :=
  match sh_shards s with
  | [q] => LoadEvent q id
  | qs =>
      match index qs (Z.land id (maxShards - 1)) with
      | Some q => LoadEvent q (Z.shiftr id shardShift)
      | None => Err no_shard
      end
  end.
Definition sharded_LoadPending (s : ShardedQueue) (limit : Z) : res (list ThreatEvent) :=
  ids ← sharded_PendingIDs s limit; load_all (sharded_LoadEvent s) ids.

(** ** Fan-out *)

Definition sharded_SetMaxRetry (n : Z) (s : ShardedQueue) : ShardedQueue := mkSharded (SetMaxRetry n <$> sh_shards s).
(** The first shard that fails stops the loop; the shards before it stay
    activated. *)
Fixpoint activate_all (qs : list SQLiteQueue) : list SQLiteQueue * option string :=
  match qs with
  | [] => ([], None)
  | q :: r =>
      match Activate q with
      | Err e => (q :: r, Some e)
      | Ok q => let '(r, e) := activate_all r in (q :: r, e)
      end
  end.
Definition sharded_Activate (s : ShardedQueue) : ShardedQueue * option string :=
  let '(qs, e) := activate_all (sh_shards s) in (mkSharded qs, e).
End sharded.

(** ** Identifiers *)

Lemma composite_split id i : 0 <= id < 2 ^ 57 -> (i < 64)%nat ->
  Z.land (composite (mkShardEntry id 0 i)) (maxShards - 1) = Z.of_nat i
  /\ Z.shiftr (composite (mkShardEntry id 0 i)) shardShift = id.
Proof.
  intros Hid Hi. unfold composite, shardShift, maxShards. cbn [se_id se_shard].
  assert (E : i64 (Z.shiftl id 6) = id * 2 ^ 6).
  { rewrite Z.shiftl_mul_pow2 by lia. unfold i64. rewrite Z.mod_small; lia. }
  rewrite E. assert (Hd : Z.land (id * 2 ^ 6) (Z.of_nat i) = 0).
  { rewrite <- Z.shiftl_mul_pow2 by lia. apply Z.bits_inj'. intros k Hk. rewrite Z.land_spec, Z.bits_0, Z.shiftl_spec by lia.
    destruct (decide (k < 6)); [by rewrite Z.testbit_neg_r by lia|].
    rewrite (Z.bits_above_log2 (Z.of_nat i) k); [by rewrite andb_false_r|lia|].
    apply Z.lt_le_trans with 6; [|lia]. destruct i; [done|]. apply Z.log2_lt_pow2; lia. }
  rewrite <- Z.lxor_lor, <- Z.add_nocarry_lxor by done. split.
  - change (64 - 1) with (Z.ones 6). rewrite Z.land_ones by lia. rewrite Z.add_comm, Z.mod_add by lia. apply Z.mod_small. lia.
  - rewrite Z.shiftr_div_pow2 by lia. rewrite Z.add_comm, Z.div_add by lia. rewrite Z.div_small; lia.
Qed.
Lemma fnv32a_range b : 0 <= fnv32a b.
Proof. unfold fnv32a. apply foldl_inv; [lia|]. intros h c _ _. apply u32_range. Qed.
Lemma shard_index_lt n id : (1 <= n <= 64)%nat -> (shard_index n id < n)%nat.
Proof.
  intros Hn. unfold shard_index. destruct (n =? 1)%nat eqn:E; [lia|].
  unfold u32. rewrite (Z.mod_small (Z.of_nat n)) by lia. pose proof (Z.mod_pos_bound (fnv32a (byt id)) (Z.of_nat n)). lia.
Qed.

(** ** The shards as one queue *)

Definition merged (ss : list aqueue) : aqueue := mkAQueue (concat (a_entries <$> ss)) (⋃ (a_archived <$> ss)).

(** Every record is in the shard of its event. *)
Record in_shard (n i : nat) (s : aqueue) : Prop := {
  is_entries : Forall (fun e => plain (ev_EventID (e_event e)) /\ shard_index n (ev_EventID (e_event e)) = i) (a_entries s);
  is_archived : forall k, k ∈ a_archived s -> exists id rev, k = queueRecordID id rev /\ plain id /\ shard_index n id = i
}.
Definition routed (n : nat) (ss : list aqueue) : Prop := forall i s, ss !! i = Some s -> in_shard n i s.

Lemma keys_merged ss : a_keys (merged ss) = concat (a_keys <$> ss).
Proof.
  unfold a_keys, merged. cbn [a_entries]. induction ss as [|s ss IH]; [done|]. cbn. by rewrite fmap_app, IH.
Qed.
Lemma in_shard_key n i s k : in_shard n i s -> k ∈ a_keys s -> exists id rev, k = queueRecordID id rev /\ plain id /\ shard_index n id = i.
Proof.
  intros Hs (e & -> & He)%list_elem_of_fmap. destruct (proj1 (Forall_forall _ _) (is_entries _ _ _ Hs) e He). by eexists _, _.
Qed.
Lemma routed_key n ss i j s id rev k : routed n ss -> ss !! j = Some s -> plain id -> shard_index n id = i ->
  k = queueRecordID id rev -> k ∈ a_keys s \/ k ∈ a_archived s -> j = i.
Proof.
  intros Hr Hs Hp Hi -> [Hk|Hk].
  - destruct (in_shard_key n j s _ (Hr _ _ Hs) Hk) as (id' & rev' & E & Hp' & <-). by rewrite (queueRecordID_inj _ _ _ _ Hp Hp' E) in Hi.
  - destruct (is_archived _ _ _ (Hr _ _ Hs) _ Hk) as (id' & rev' & E & Hp' & <-). by rewrite (queueRecordID_inj _ _ _ _ Hp Hp' E) in Hi.
Qed.
Lemma merged_NoDup n ss : routed n ss -> Forall (fun s => NoDup (a_keys s)) ss -> NoDup (a_keys (merged ss)).
Proof.
  intros Hr Hnd. rewrite keys_merged. 
  assert (Hd : forall i j s t k, ss !! i = Some s -> ss !! j = Some t -> k ∈ a_keys s -> k ∈ a_keys t -> i = j).
  { intros i j s t k Hi Hj Hk Hk'. destruct (in_shard_key n i s k (Hr _ _ Hi) Hk) as (id & rev & -> & Hp & Hx).
    symmetry. eapply (routed_key n ss i j t); [done|done|exact Hp|done|done|by left]. }
  clear Hr. induction Hnd as [|s ss Hs _ IH]; [constructor|]. cbn. apply NoDup_app. split_and!; [done| |].
  - intros k Hk Hk'. apply elem_of_concat_map in Hk' as (t & Ht & Hk').
    apply list_elem_of_lookup in Ht as [j Hj]. specialize (Hd 0%nat (S j) s t k eq_refl Hj Hk Hk'). done.
  - apply IH. intros i j a b k Hi Hj Hk Hk'. specialize (Hd (S i) (S j) a b k Hi Hj Hk Hk'). lia.
Qed.

Section focus.
Context (n : nat) (ss : list aqueue) (i : nat) (a : aqueue).
Hypothesis Hrouted : routed n ss.
Hypothesis Hnd : Forall (fun s => NoDup (a_keys s)) ss.
Hypothesis Ha : ss !! i = Some a.

Lemma focus_key id rev : plain id -> shard_index n id = i ->
  queueRecordID id rev ∈ a_keys (merged ss) <-> queueRecordID id rev ∈ a_keys a.
Proof.
  intros Hp Hi. rewrite keys_merged, elem_of_concat_map. split.
  - intros (s & [j Hj]%list_elem_of_lookup & Hk). assert (j = i) as -> by (eapply (routed_key n ss i j s); eauto). congruence.
  - intros Hk. exists a. split; [by eapply list_elem_of_lookup_2|done].
Qed.
Lemma focus_archived id rev : plain id -> shard_index n id = i ->
  queueRecordID id rev ∈ a_archived (merged ss) <-> queueRecordID id rev ∈ a_archived a.
Proof.
  intros Hp Hi. cbn [merged a_archived]. rewrite elem_of_union_list. split.
  - intros (X & (s & -> & [j Hj]%list_elem_of_lookup)%list_elem_of_fmap & Hk).
    assert (j = i) as -> by (eapply (routed_key n ss i j s); eauto). congruence.
  - intros Hk. exists (a_archived a). split; [by eapply list_elem_of_fmap_2, list_elem_of_lookup_2|done].
Qed.
Lemma focus_split : exists l1 l2, ss = l1 ++ a :: l2 /\ length l1 = i /\ forall b, <[i := b]> ss = l1 ++ b :: l2.
Proof.
  destruct (list_elem_of_split_length ss i a Ha) as (l1 & l2 & -> & ->). exists l1, l2. split_and!; [done|done|]. intros b.
  by rewrite insert_app_r_alt, Nat.sub_diag.
Qed.
Lemma focus_routed b : in_shard n i b -> routed n (<[i := b]> ss).
Proof. intros Hb j s [(-> & <- & _)|[_ Hj]]%list_lookup_insert_Some; [done|by apply Hrouted]. Qed.

Lemma merged_enqueue now ev : plain (ev_EventID ev) -> shard_index n (ev_EventID ev) = i ->
  routed n (<[i := a_enqueue now ev a]> ss)
  /\ aqueue_ledger (merged (<[i := a_enqueue now ev a]> ss)) = l_enqueue now ev (aqueue_ledger (merged ss)).
Proof.
  intros Hp Hi. pose proof (Hrouted _ _ Ha) as [He Hr]. split.
  { apply focus_routed. unfold a_enqueue. destruct (_ || _); [done|]. split; [|done]. cbn [a_entries]. apply Forall_app. by repeat constructor. }
  pose proof (merged_NoDup n ss Hrouted Hnd) as Hm. rewrite <- ledger_enqueue by done.
  unfold a_enqueue. rewrite (bool_decide_ext (event_key ev ∈ a_archived (merged ss)) (event_key ev ∈ a_archived a)) by (by apply focus_archived).
  rewrite (bool_decide_ext (event_key ev ∈ a_keys (merged ss)) (event_key ev ∈ a_keys a)) by (by apply focus_key).
  destruct (bool_decide (event_key ev ∈ a_archived a)); cbn [orb]; [by rewrite list_insert_id|].
  destruct (bool_decide (event_key ev ∈ a_keys a)) eqn:E; [by rewrite list_insert_id|]. apply bool_decide_eq_false in E.
  destruct focus_split as (l1 & l2 & Ess & _ & Eb). rewrite Eb. unfold aqueue_ledger, merged. cbn [a_entries a_archived].
  rewrite Ess. rewrite !fmap_app, !concat_app, !union_list_app_L. cbn [fmap list_fmap concat a_entries a_archived union_list]. f_equal.
  symmetry. apply ledger_perm.
  - unfold keys_of. rewrite fmap_app. change (NoDup (keys_of (concat (a_entries <$> l1) ++ a_entries a ++ concat (a_entries <$> l2)) ++ [event_key ev])).
    assert (Ek : keys_of (concat (a_entries <$> l1) ++ a_entries a ++ concat (a_entries <$> l2)) = a_keys (merged ss)).
    { unfold a_keys, merged. cbn [a_entries]. by rewrite Ess, fmap_app, concat_app. }
    rewrite Ek. apply NoDup_app. split_and!; [done| |apply NoDup_singleton].
    intros k Hk ->%list_elem_of_singleton. by apply focus_key in Hk.
  - change (list_fmap aqueue (list entry) a_entries l2) with (a_entries <$> l2). rewrite <- !app_assoc. do 2 f_equiv. apply Permutation_app_comm.
Qed.

Lemma update_absent key f es : key ∉ keys_of es -> update_entries key f es = es.
Proof.
  intros Hk. unfold update_entries. rewrite <- (list_fmap_id es) at 2. apply list_fmap_ext. intros j e Hj.
  rewrite (proj2 (seqb_neq _ _)); [done|]. intros <-. apply Hk. unfold keys_of.
  apply (list_elem_of_fmap_2 (fun e => event_key (e_event e))). by eapply list_elem_of_lookup_2.
Qed.
Lemma merged_update id rev f : plain id -> shard_index n id = i -> (forall e, e_event (f e) = e_event e) ->
  routed n (<[i := a_update (queueRecordID id rev) f a]> ss)
  /\ aqueue_ledger (merged (<[i := a_update (queueRecordID id rev) f a]> ss)) = l_update (queueRecordID id rev) f (aqueue_ledger (merged ss)).
Proof.
  intros Hp Hi Hf. pose proof (Hrouted _ _ Ha) as [He Hr]. split.
  { apply focus_routed. split; [|done]. apply Forall_fmap. eapply Forall_impl; [exact He|]. intros e Hpe. cbn.
    destruct (seqb _ _); [by rewrite Hf|done]. }
  rewrite <- ledger_a_update by (done || by eapply merged_NoDup).
  destruct focus_split as (l1 & l2 & Ess & Hl1 & Eb). rewrite Eb. unfold aqueue_ledger, merged, a_update. cbn [a_entries a_archived].
  rewrite Ess. rewrite !fmap_app, !concat_app, !union_list_app_L. cbn [fmap list_fmap concat a_entries a_archived union_list]. f_equal.
  change (list_fmap aqueue (list entry) a_entries l2) with (a_entries <$> l2). rewrite !fmap_app.
  assert (Hout : forall l, (forall s, s ∈ l -> exists j, j <> i /\ ss !! j = Some s) ->
    update_entries (queueRecordID id rev) f (concat (a_entries <$> l)) = concat (a_entries <$> l)).
  { intros l Hl. apply update_absent. intros Hk. change (queueRecordID id rev ∈ a_keys (merged l)) in Hk.
    rewrite keys_merged in Hk. apply elem_of_concat_map in Hk as (s & Hs & Hk).
    destruct (Hl s Hs) as (j & Hne & Hj). apply Hne. eapply (routed_key n ss i j s); eauto. }
  change (?g <$> concat (a_entries <$> l1)) with (update_entries (queueRecordID id rev) f (concat (a_entries <$> l1))).
  change (?g <$> concat (a_entries <$> l2)) with (update_entries (queueRecordID id rev) f (concat (a_entries <$> l2))).
  rewrite (Hout l1), (Hout l2); [done| |].
  - intros s [j Hj]%list_elem_of_lookup. exists (S i + j)%nat. split; [lia|]. rewrite Ess, lookup_app_r by lia.
    replace (S i + j - length l1)%nat with (S j) by lia. done.
  - intros s [j Hj]%list_elem_of_lookup. pose proof (lookup_lt_Some _ _ _ Hj). exists j. split; [lia|]. by rewrite Ess, lookup_app_l by lia.
Qed.
End focus.

(** ** Merging *)

Lemma concat_imap_Forall2 {A B C D} (R : C -> D -> Prop) (P : A -> B -> Prop) (f : nat -> A -> list C) (g : B -> list D) l k :
  Forall2 P l k -> (forall i a b, l !! i = Some a -> k !! i = Some b -> P a b -> Forall2 R (f i a) (g b)) -> Forall2 R (concat (imap f l)) (concat (g <$> k)).
Proof.
  intros Hlk. revert f. induction Hlk as [|a b l k Hab _ IH]; intros f Hf; [constructor|]. cbn. apply Forall2_app.
  - by apply (Hf 0%nat).
  - apply IH. intros i x y Hx Hy. apply (Hf (S i) x y Hx Hy).
Qed.
Lemma concat_sublist {A B} (f g : A -> list B) l : (forall x, f x `sublist_of` g x) -> concat (f <$> l) `sublist_of` concat (g <$> l).
Proof. intros Hf. induction l as [|x l IH]; cbn; [done|]. by apply sublist_app. Qed.
Lemma Forall2_perm_l {A B} (R : A -> B -> Prop) l k l' : Forall2 R l k -> l' ≡ₚ l -> exists k', k' ≡ₚ k /\ Forall2 R l' k'.
Proof.
  intros HR Hp. revert k HR. induction Hp as [|x l' l Hp IH|x y l|l1 l2 l3 _ IH1 _ IH2]; intros k HR.
  - apply Forall2_nil_inv_l in HR as ->. by exists [].
  - apply Forall2_cons_inv_l in HR as (b & k0 & Hb & HR & ->). destruct (IH _ HR) as (k' & Hk & Hf).
    exists (b :: k'). split; [by rewrite Hk|by constructor].
  - apply Forall2_cons_inv_l in HR as (b & k0 & Hb & HR & ->). apply Forall2_cons_inv_l in HR as (c & k1 & Hc & HR & ->).
    exists (c :: b :: k1). split; [apply Permutation_swap|by repeat constructor].
  - destruct (IH2 k HR) as (k2 & Hk2 & Hf2). destruct (IH1 k2 Hf2) as (k1 & Hk1 & Hf1). exists k1. split; [by rewrite Hk1|done].
Qed.

(** Taking [n] of the concatenation of the first [n] of each list takes as
    many as taking [n] of everything. *)
Lemma length_take_concat {A B} (f : A -> list B) (n : nat) l :
  Nat.min n (length (concat ((fun x => take n (f x)) <$> l))) = Nat.min n (length (concat (f <$> l))).
Proof. induction l as [|x l IH]; cbn; [done|]. rewrite !length_app, length_take. lia. Qed.

Lemma concat_filter {A B} (f : A -> list B) p l : concat ((fun x => List.filter p (f x)) <$> l) = List.filter p (concat (f <$> l)).
Proof. induction l as [|x l IH]; cbn; [done|]. by rewrite List.filter_app, <- IH. Qed.

(** The order of the merge. *)
Lemma less_entry_false a b : less_entry b a = false <-> se_created a < se_created b \/ (se_created a = se_created b /\ se_id a <= se_id b).
Proof. unfold less_entry. destruct (se_created b =? se_created a) eqn:E; cbn [negb]; b2p; rewrite Z.ltb_ge; lia. Qed.
Lemma less_entry_trans a b c : less_entry b a = false -> less_entry c b = false -> less_entry c a = false.
Proof. rewrite !less_entry_false. lia. Qed.
Lemma less_entry_asym a b : less_entry a b = true -> less_entry b a = false.
Proof. intros Ht. apply less_entry_false. revert Ht. unfold less_entry. destruct (se_created a =? se_created b) eqn:E; cbn [negb]; intros; b2p; lia. Qed.
Lemma less_entry_created a b : less_entry b a = false -> se_created a <= se_created b.
Proof. rewrite less_entry_false. lia. Qed.

Lemma StronglySorted_Forall2 {A B} (R : A -> A -> Prop) (S : A -> B -> Prop) (R' : B -> B -> Prop) l k :
  StronglySorted R l -> Forall2 S l k -> (forall x y a b, R x y -> S x a -> S y b -> R' a b) -> StronglySorted R' k.
Proof.
  intros Hs Hf HR. induction Hf as [|x a l k Hxa Hf IH]; [constructor|]. apply StronglySorted_inv in Hs as [Hs Hx].
  constructor; [by apply IH|]. apply Forall_forall. intros b [i Hi]%list_elem_of_lookup.
  destruct (Forall2_lookup_r _ _ _ _ _ Hf Hi) as (y & Hy & Hyb). eapply HR; [|exact Hxa|exact Hyb].
  by eapply Forall_lookup_1 in Hx.
Qed.
Lemma StronglySorted_take {A} (R : A -> A -> Prop) n l : StronglySorted R l -> StronglySorted R (take n l).
Proof.
  intros Hs. revert n. induction Hs as [|x l Hs IH Hx]; intros [|n]; cbn; [constructor..|]. constructor; [done|]. by apply Forall_take.
Qed.

(** ** The sharded queue implements the interface *)

Section laws.
Context `{GoZlibLaws} `{GoSortLaws}.

#[global] Instance sharded_queue : EventQueue ShardedQueue := {|
  eq_Enqueue := sharded_Enqueue;
  eq_LoadPending := sharded_LoadPending;
  eq_MarkPushed := sharded_MarkPushed;
  eq_MarkFailed := sharded_MarkFailed;
  eq_lazy := Some (sharded_PendingIDs, sharded_LoadEvent)
|}.

Definition sharded_cap (s : ShardedQueue) : Z := match sh_shards s with q :: _ => q_maxRetry q | [] => 0 end.
Definition sharded_room (s : ShardedQueue) : Prop :=
  length (sh_shards s) = 1%nat \/ Forall (fun q => Forall (fun r => 0 <= r_ID r < 2 ^ 57) (db_rows (q_db q))) (sh_shards s).
Definition sharded_refers (s : ShardedQueue) (id : Z) (k : string) : Prop :=
  match sh_shards s with
  | [q] => row_refers (q_db q) id k
  | qs => exists i q rid, qs !! i = Some q /\ row_refers (q_db q) rid k /\ 0 <= rid < 2 ^ 57 /\ id = composite (mkShardEntry rid 0 i)
  end.
Record shards_hold (s : ShardedQueue) (ss : list aqueue) : Prop := {
  sd_shards : Forall2 (fun q a => represents (q_db q) a) (sh_shards s) ss;
  sd_count : (1 <= length (sh_shards s) <= 64)%nat;
  sd_cap : Forall (fun q => q_maxRetry q = sharded_cap s) (sh_shards s);
  sd_routed : routed (length (sh_shards s)) ss
}.
Definition sharded_holds (s : ShardedQueue) (l : ledger) : Prop := exists ss, shards_hold s ss /\ l = aqueue_ledger (merged ss).

Lemma hold_NoDup s ss : shards_hold s ss -> Forall (fun a => NoDup (a_keys a)) ss.
Proof.
  intros Hs. apply Forall_forall. intros a [i Hi]%list_elem_of_lookup.
  destruct (Forall2_lookup_r _ _ _ _ _ (sd_shards _ _ Hs) Hi) as (q & _ & Hq). apply Hq.
Qed.
(** The shard of an event, with the abstract queue it represents. *)
Lemma hold_shard s ss id : shards_hold s ss -> let i := shard_index (length (sh_shards s)) id in
  exists q a, sh_shards s !! i = Some q /\ ss !! i = Some a /\ represents (q_db q) a.
Proof.
  intros Hs i. pose proof (shard_index_lt _ id (sd_count _ _ Hs)) as Hi.
  destruct (lookup_lt_is_Some_2 (sh_shards s) i Hi) as [q Hq].
  destruct (Forall2_lookup_l _ _ _ _ _ (sd_shards _ _ Hs) Hq) as (a & Ha & Hr). eauto.
Qed.
(** Replacing a shard by one that keeps the rows' identifiers and keys. *)
Lemma set_shard_hold s ss i q q' a' : shards_hold s ss -> sh_shards s !! i = Some q -> represents (q_db q') a' ->
  q_maxRetry q' = q_maxRetry q -> routed (length (sh_shards s)) (<[i := a']> ss) ->
  shards_hold (mkSharded (<[i := q']> (sh_shards s))) (<[i := a']> ss)
  /\ sharded_cap (mkSharded (<[i := q']> (sh_shards s))) = sharded_cap s.
Proof.
  intros Hs Hq Hr Hcap Hrt.
  assert (Ec : sharded_cap (mkSharded (<[i := q']> (sh_shards s))) = sharded_cap s).
  { unfold sharded_cap. cbn. destruct (sh_shards s) as [|q0 qs]; [done|]. destruct i; [|done]. cbn in *. by simplify_eq. }
  split; [|done]. destruct Hs as [Hsh Hn Hcs Hro]. split; cbn [sh_shards]; [|by rewrite length_insert| |by rewrite length_insert].
  - by apply Forall2_insert.
  - rewrite Ec. apply Forall_insert; [done|]. rewrite Hcap. by eapply Forall_lookup_1 in Hcs.
Qed.
Lemma set_shard_refers s i q q' id k : sh_shards s !! i = Some q -> (forall id k, row_refers (q_db q) id k -> row_refers (q_db q') id k) ->
  sharded_refers s id k -> sharded_refers (mkSharded (<[i := q']> (sh_shards s))) id k.
Proof.
  intros Hq Hrow. unfold sharded_refers. cbn [sh_shards].
  assert (Hmany : (exists j q rid, sh_shards s !! j = Some q /\ row_refers (q_db q) rid k /\ 0 <= rid < 2 ^ 57 /\ id = composite (mkShardEntry rid 0 j)) ->
    exists j q rid, <[i := q']> (sh_shards s) !! j = Some q /\ row_refers (q_db q) rid k /\ 0 <= rid < 2 ^ 57 /\ id = composite (mkShardEntry rid 0 j)).
  { intros (j & qj & rid & Hj & Href & Hrid & ->). destruct (decide (j = i)) as [->|Hne].
    - exists i, q', rid. rewrite list_lookup_insert_eq by (by eapply lookup_lt_Some). simplify_eq. auto.
    - exists j, qj, rid. by rewrite list_lookup_insert_ne. }
  destruct (sh_shards s) as [|q0 [|q1 qs]] eqn:E; [done| |].
  - destruct i; [|done]. cbn in Hq |- *. simplify_eq. apply Hrow.
  - intros Hr. apply Hmany in Hr. destruct i as [|[|i]]; exact Hr.
Qed.
Lemma set_shard_room s i q q' : sh_shards s !! i = Some q -> r_ID <$> db_rows (q_db q') = r_ID <$> db_rows (q_db q) ->
  sharded_room s -> sharded_room (mkSharded (<[i := q']> (sh_shards s))).
Proof.
  intros Hq Hids [Hl|Hall]; [left; cbn; by rewrite length_insert|]. right. cbn [sh_shards]. apply Forall_insert; [done|].
  eapply Forall_lookup_1 in Hall; [|exact Hq]. cbn in Hall.
  assert (Hp : forall rows, Forall (fun r => 0 <= r_ID r < 2 ^ 57) rows <-> Forall (fun id => 0 <= id < 2 ^ 57) (r_ID <$> rows)).
  { intros rows. symmetry. apply Forall_fmap. }
  apply Hp. rewrite Hids. by apply Hp.
Qed.


(** The events of the merged pending entries. *)
Definition pending_events (c limit : Z) (ss : list aqueue) : list ThreatEvent := concat (a_pending c limit <$> ss).

Lemma batch_merged c limit ss evs : 0 < limit -> NoDup (a_keys (merged ss)) -> evs ≡ₚ pending_events c limit ss ->
  batch c limit (aqueue_ledger (merged ss)) (take (Z.to_nat limit) evs).
Proof.
  intros Hl Hnd Hp. set (L := Z.to_nat limit).
  assert (EL : (if limit <=? 0 then 100 else limit) = limit) by (rewrite (proj2 (Z.leb_gt _ _)); lia).
  assert (Ep : pending_events c limit ss = e_event <$> concat ((fun a => take L (List.filter (a_is_pending c) (a_entries a))) <$> ss)).
  { unfold pending_events, a_pending. rewrite EL. fold L. clear. induction ss as [|a ss IH]; [done|]. cbn. by rewrite fmap_app, IH. }
  set (pe := concat ((fun a => take L (List.filter (a_is_pending c) (a_entries a))) <$> ss)) in *.
  assert (Hsub : pe `sublist_of` a_entries (merged ss)).
  { apply concat_sublist. intros a. etransitivity; [apply sublist_take|apply filter_sublist]. }
  split.
  - apply (sublist_NoDup _ (event_key <$> evs)); [|by apply fmap_sublist, sublist_take].
    rewrite Hp, Ep, <- list_fmap_compose. eapply keys_sublist; [exact Hsub|exact Hnd].
  - apply Forall_forall. intros ev Hin%subseteq_take. rewrite Hp, Ep in Hin. apply list_elem_of_fmap in Hin as (e & -> & He).
    exists e. split; [|done]. apply pending_lookup; [done|]. split; [|done].
    apply elem_of_concat_map in He as (a & Ha & He). apply subseteq_take in He. cbn [merged a_entries].
    rewrite <- concat_filter. apply elem_of_concat_map. eauto.
  - rewrite EL. fold L. unfold aqueue_ledger. rewrite pending_size by done. cbn [merged a_entries].
    rewrite length_take, Hp, Ep, length_fmap. unfold pe. rewrite <- concat_filter. apply length_take_concat.
Qed.

(** The time at which an event of the ledger was accepted. *)
Definition created_of (l : ledger) (ev : ThreatEvent) : Z :=
  match l_entries l !! event_key ev with Some e => e_created e | None => 0 end.

Lemma all_pending_refers s ss limit : shards_hold s ss -> length (sh_shards s) <> 1%nat -> sharded_room s ->
  Forall2 (fun x ev => sharded_refers s (composite x) (event_key ev) /\ created_of (aqueue_ledger (merged ss)) ev = se_created x) (all_pending s limit) (pending_events (sharded_cap s) limit ss).
Proof.
  intros Hs Hn [?|Hroom]; [done|]. unfold all_pending, pending_events.
  eapply concat_imap_Forall2; [apply Hs|]. cbn. intros i q a Hq Ha Hrep. apply Forall2_fmap_l.
  pose proof (proj1 (Forall_lookup _ _) (sd_cap _ _ Hs) i q Hq) as Hc. cbn in Hc.
  pose proof (proj1 (Forall_lookup _ _) Hroom i q Hq) as Hids. cbn in Hids. rewrite Forall_forall in Hids.
  rewrite <- Hc. eapply Forall2_impl; [by apply pending_rows|]. intros p ev [Href (e & He & <- & Hcr)].
  split.
  2:{ unfold created_of. cbn [l_entries aqueue_ledger].
      assert (Hnd : NoDup (a_keys (merged ss))) by (eapply merged_NoDup; [apply Hs|by eapply hold_NoDup]).
      rewrite (proj2 (ledger_lookup _ (event_key (e_event e)) e Hnd)); [done|]. split; [|done]. cbn [merged a_entries]. apply elem_of_concat_map. exists a. split; [by eapply list_elem_of_lookup_2|done]. }
  unfold sharded_refers. destruct (sh_shards s) as [|q0 [|q1 qs]] eqn:E; [done|done|].
  exists i, q, (pe_id p). split_and!; try done; destruct Href as (r & Hin & <- & _); by apply Hids.
Qed.

Lemma merged_single a : aqueue_ledger (merged [a]) = aqueue_ledger a.
Proof. unfold aqueue_ledger, merged. cbn. by rewrite app_nil_r, (right_id_L ∅ (∪)). Qed.

Lemma PendingIDs_law s l limit : sharded_holds s l -> sharded_room s ->
  exists ids evs, sharded_PendingIDs s limit = Ok ids /\ batch (sharded_cap s) limit l evs
    /\ Forall2 (fun id ev => sharded_refers s id (event_key ev)) ids evs
    /\ (length (sh_shards s) <> 1%nat -> StronglySorted (fun a b => created_of l a <= created_of l b) evs).
Proof.
  intros (ss & Hs & ->) Hroom. destruct (decide (length (sh_shards s) = 1%nat)) as [E1|Hn].
  - destruct s as [[|q [|]]]; try done. destruct (Forall2_cons_inv_l _ _ _ _ (sd_shards _ _ Hs)) as (a & k & Hrep & Hk & ->).
    apply Forall2_nil_inv_l in Hk as ->. eexists _, (a_pending (q_maxRetry q) limit a). split_and!; [reflexivity| | |].
    + rewrite merged_single. apply batch_of_pending, Hrep.
    + cbn. apply Forall2_fmap_l. eapply Forall2_impl; [by apply pending_rows|]. by intros p ev [Href _].
    + done.
  - unfold sharded_PendingIDs. destruct (sh_shards s) as [|q0 [|q1 qs]] eqn:Es; [by destruct (sd_count _ _ Hs); rewrite Es in *; cbn in *; lia|done|].
    rewrite <- Es in Hn. set (L := if limit <=? 0 then 100 else limit).
    assert (HL : 0 < L) by (unfold L; destruct (limit <=? 0) eqn:?; b2p; lia).
    destruct (Forall2_perm_l _ _ _ (sort_Slice less_entry (all_pending s L)) (all_pending_refers s ss L Hs Hn Hroom) (sort_perm _ _)) as (evs & Hp & Hf).
    eexists _, (take (Z.to_nat L) evs). split_and!; [reflexivity| | |].
    + assert (Hb : batch (sharded_cap s) L (aqueue_ledger (merged ss)) (take (Z.to_nat L) evs)).
      { apply batch_merged; [done| |done]. eapply merged_NoDup; [apply Hs|by eapply hold_NoDup]. }
      destruct Hb as [Hb1 Hb2 Hb3]. split; [done|done|]. rewrite Hb3. fold L. by rewrite (proj2 (Z.leb_gt L 0)) by lia.
    + apply Forall2_fmap_l. set (all := sort_Slice less_entry (all_pending s L)) in *.
      assert (Et : (if L <? len all then take (Z.to_nat L) all else all) = take (Z.to_nat L) all).
      { destruct (L <? len all) eqn:El; [done|]. b2p. rewrite take_ge; [done|]. unfold len in El. lia. }
      rewrite Et. eapply Forall2_impl; [by apply Forall2_take|]. by intros x ev [Href _].
    + intros _. eapply StronglySorted_Forall2; [|apply Forall2_take, Hf|].
      * apply StronglySorted_take, sort_sorted; [apply less_entry_trans|apply less_entry_asym].
      * intros x y a b Hxy [_ ->] [_ ->]. by apply less_entry_created.
Qed.

Lemma LoadEvent_law s l id k e : sharded_holds s l -> sharded_refers s id k -> l_entries l !! k = Some e ->
  sharded_LoadEvent s id = Ok (e_event e).
Proof.
  intros (ss & Hs & ->) Href Hl. cbn [aqueue_ledger l_entries] in Hl.
  assert (Hload : forall i q rid, sh_shards s !! i = Some q -> row_refers (q_db q) rid k -> LoadEvent q rid = Ok (e_event e)).
  { intros i q rid Hq Hrow. destruct (Forall2_lookup_l _ _ _ _ _ (sd_shards _ _ Hs) Hq) as (a & Ha & Hrep).
    eapply LoadEvent_refers; [exact Hrep|exact Hrow|]. apply ledger_lookup in Hl as [Hin Hk]; [|by eapply merged_NoDup; [apply Hs|eapply hold_NoDup]].
    assert (Hka : k ∈ a_keys a).
    { rewrite <- (represents_keys _ _ Hrep). destruct Hrow as (r & Hr & _ & <-). by apply list_elem_of_fmap_2. }
    apply ledger_lookup; [apply Hrep|]. split; [|done]. cbn [merged a_entries] in Hin. apply elem_of_concat_map in Hin as (b & [j Hj]%list_elem_of_lookup & Hb).
    destruct (in_shard_key _ i a k (sd_routed _ _ Hs _ _ Ha) Hka) as (id' & rev & Ek & Hp & Hi).
    assert (j = i) as ->; [|congruence]. eapply (routed_key _ ss i j b id' rev k); [apply Hs|done|done|done|done|]. left.
    rewrite <- Hk. by apply (list_elem_of_fmap_2 (fun e => event_key (e_event e))). }
  unfold sharded_refers in Href. unfold sharded_LoadEvent. pose proof (sd_count _ _ Hs) as Hc.
  destruct (sh_shards s) as [|q0 [|q1 qs]] eqn:Es.
  - cbn in Hc. lia.
  - by apply (Hload 0%nat).
  - destruct Href as (i & q & rid & Hq & Hrow & Hrid & ->). pose proof (lookup_lt_Some _ _ _ Hq).
    destruct (composite_split rid i Hrid) as [-> ->]; [lia|]. unfold index. rewrite (proj2 (Z.leb_le 0 _)) by lia. rewrite Nat2Z.id, Hq.
    by apply (Hload i).
Qed.
Lemma load_all_Forall2 (load : Z -> res ThreatEvent) ids evs : Forall2 (fun id ev => load id = Ok ev) ids evs -> load_all load ids = Ok evs.
Proof. induction 1 as [|id ev ids evs E _ IH]; [done|]. cbn. rewrite E. cbn. by rewrite IH. Qed.

Lemma load_pending_ids s l c limit ids evs : sharded_holds s l -> batch c limit l evs ->
  Forall2 (fun id ev => sharded_refers s id (event_key ev)) ids evs -> load_all (sharded_LoadEvent s) ids = Ok evs.
Proof.
  intros Hs Hb Hf. apply load_all_Forall2. pose proof (ba_pending _ _ _ _ Hb) as Hp. revert Hp. clear Hb.
  induction Hf as [|id ev ids evs Href _ IH]; [constructor|]. intros [(e & He & Hee) Hp]%Forall_cons. constructor; [|by apply IH].
  unfold l_pending in He. apply map_lookup_filter_Some in He as [He _]. rewrite <- Hee. by eapply LoadEvent_law.
Qed.

Lemma mark_law s l id rev f g : sharded_holds s l -> plain id ->
  (forall q a, represents (q_db q) a -> represents (q_db (f q)) (a_update (queueRecordID id rev) g a)) ->
  (forall q, q_maxRetry (f q) = q_maxRetry q) -> (forall q, r_ID <$> db_rows (q_db (f q)) = r_ID <$> db_rows (q_db q)) ->
  (forall q i k, row_refers (q_db q) i k -> row_refers (q_db (f q)) i k) -> (forall e, e_event (g e) = e_event e) ->
  exists s', match shard s id with Some q => Ok (set_shard s id (f q)) | None => Err no_shard end = Ok s'
    /\ sharded_holds s' (l_update (queueRecordID id rev) g l) /\ sharded_cap s' = sharded_cap s
    /\ (sharded_room s -> sharded_room s') /\ forall i k, sharded_refers s i k -> sharded_refers s' i k.
Proof.
  intros (ss & Hs & ->) Hp Hrep Hcap Hids Href Hg. destruct (hold_shard s ss id Hs) as (q & a & Hq & Ha & Hr).
  unfold shard, set_shard. rewrite Hq. eexists. split; [reflexivity|].
  destruct (merged_update _ ss _ a (sd_routed _ _ Hs) (hold_NoDup _ _ Hs) Ha id rev g Hp eq_refl Hg) as [Hrt El].
  destruct (set_shard_hold s ss _ q (f q) _ Hs Hq (Hrep q a Hr) (Hcap q) Hrt) as [Hs' Hc].
  split_and!; [by eexists; split; [exact Hs'|symmetry; exact El]|done|by eapply set_shard_room|]. intros i k. by eapply set_shard_refers; eauto.
Qed.
Lemma update_key_ids key f d : (forall r, r_ID (f r) = r_ID r) -> r_ID <$> db_rows (update_key key f d) = r_ID <$> db_rows d.
Proof.
  intros Hf. cbn. change (map ?g ?l) with (g <$> l). rewrite <- list_fmap_compose. apply list_fmap_ext. intros i r _. unfold compose.
  by destruct (seqb _ key).
Qed.

Lemma Enqueue_law now s l ev : sharded_holds s l -> sendable ev ->
  match sharded_Enqueue now s ev with
  | Ok s' => sharded_holds s' (l_enqueue now ev l) /\ sharded_cap s' = sharded_cap s /\ forall id k, sharded_refers s id k -> sharded_refers s' id k
  | Err e => storage_error e
  end.
Proof.
  intros (ss & Hs & ->) [Hev Hp]. destruct (hold_shard s ss (ev_EventID ev) Hs) as (q & a & Hq & Ha & Hr).
  unfold sharded_Enqueue, shard, set_shard. rewrite Hq. pose proof (Enqueue_represents now q ev a Hr Hev) as He.
  destruct (Enqueue now q ev) as [q'|e] eqn:E; [|done]. cbn [mbind res_bind]. destruct He as (Hrep & Hcap & _).
  destruct (merged_enqueue _ ss _ a (sd_routed _ _ Hs) (hold_NoDup _ _ Hs) Ha now ev Hp eq_refl) as [Hrt El].
  destruct (set_shard_hold s ss _ q q' _ Hs Hq Hrep Hcap Hrt) as [Hs' Hc].
  split_and!; [by eexists; split; [exact Hs'|symmetry; exact El]|done|].
  intros id k. eapply set_shard_refers; [exact Hq|]. intros id' k'. by eapply Enqueue_refers.
Qed.

#[global, refine] Instance sharded_laws : EventQueueLaws ShardedQueue := {|
  holds := sharded_holds;
  cap := sharded_cap;
  room := sharded_room;
  refers := sharded_refers
|}.
Proof.
  - intros s l k e (ss & Hs & ->) Hl. cbn in Hl. apply ledger_lookup in Hl as [He <-]; [|by eapply merged_NoDup; [apply Hs|eapply hold_NoDup]].
    split; [done|]. cbn [merged a_entries] in He. apply elem_of_concat_map in He as (a & [i Hi]%list_elem_of_lookup & He).
    destruct (Forall2_lookup_r _ _ _ _ _ (sd_shards _ _ Hs) Hi) as (q & _ & Hq). split; [by eapply represents_ok|].
    by apply (proj1 (Forall_forall _ _) (is_entries _ _ _ (sd_routed _ _ Hs _ _ Hi))).
  - apply Enqueue_law.
  - intros now s l id rev Hs Hp. apply (mark_law s l id rev (fun q => MarkPushed now q id rev)); try done.
    + intros q a. apply MarkPushed_represents.
    + intros q. by apply update_key_ids.
    + intros q i k. by apply update_refers.
  - intros now s l id rev msg Hs Hp. apply (mark_law s l id rev (fun q => MarkFailed now q id rev msg)); try done.
    + intros q a. apply MarkFailed_represents.
    + intros q. by apply update_key_ids.
    + intros q i k. by apply update_refers.
  - intros s l limit Hs Hroom. destruct (PendingIDs_law s l limit Hs Hroom) as (ids & evs & E & Hb & Hf & _).
    exists evs. split; [|done]. cbn [eq_LoadPending sharded_queue]. unfold sharded_LoadPending. rewrite E. cbn [mbind res_bind].
    by eapply load_pending_ids.
  - intros pending load [= <- <-]. split; [|intros; by eapply LoadEvent_law].
    intros s l limit Hs Hroom. destruct (PendingIDs_law s l limit Hs Hroom) as (ids & evs & E & Hb & Hf & _). eauto.
Defined.
End laws.

(** ** An instance of sort.Slice *)

Fixpoint insert_by {A : Type} (less : A -> A -> bool) (x : A) (l : list A) : list A :=
  match l with
  | [] => [x]
  | y :: r => if less y x then y :: insert_by less x r else x :: y :: r
  end.
Definition insertion_sort : GoSort := {| sort_Slice := fun A less l => foldr (insert_by less) [] l |}.

Lemma insert_by_perm {A} (less : A -> A -> bool) x l : insert_by less x l ≡ₚ x :: l.
Proof. induction l as [|y l IH]; cbn; [done|]. destruct (less y x); [|done]. rewrite IH. apply Permutation_swap. Qed.
#[global] Instance insertion_sort_laws : @GoSortLaws insertion_sort.
Proof.
  split.
  - intros A less l. cbn. induction l as [|x l IH]; cbn; [done|]. by rewrite insert_by_perm, IH.
  - intros A less l Htr Has. cbn. induction l as [|x l IH]; cbn; [constructor|].
    induction IH as [|y k Hs IH' Hy]; cbn; [by repeat constructor|]. destruct (less y x) eqn:E.
    + constructor; [done|]. rewrite insert_by_perm. constructor; [by apply Has|done].
    + constructor; [by constructor|]. constructor; [done|]. eapply Forall_impl; [exact Hy|]. intros z Hz. by eapply Htr.
Defined.

(** ** Opening *)

Lemma init_represents `{GoZlib} d d' a : init d = Ok d' -> represents d a -> represents d' a.
Proof.
  unfold init. intros E Hr. destruct (_ !! "storage_schema"); [|done]. destruct (seqb _ "2"); [|done]. injection E as <-. by destruct Hr.
Qed.
Lemma open_shards_spec files path backend idx qs : open_shards files path backend idx = Ok qs ->
  Forall2 (fun i q => exists d, init (default new_db (files (shard_path path i))) = Ok d
    /\ q_db q = d /\ q_maxRetry q = 0) idx qs.
Proof.
  revert qs. induction idx as [|i idx IH]; intros qs E; cbn in E; [by simplify_eq|].
  unfold OpenSQLite in E. destruct (_ && _); [done|]. destruct (init _) as [d|] eqn:Ei; [|done]. cbn [mbind res_bind] in E.
  destruct (open_shards files path backend idx) as [r|]; [|done]. cbn [mbind res_bind] in E. injection E as <-.
  constructor; [|by apply IH]. exists d. by repeat split.
Qed.
Lemma Open_shards files path backend n s : Open files path backend n = Ok s ->
  (1 <= length (sh_shards s) <= 64)%nat /\ length (sh_shards s) = Z.to_nat (Z.max 1 n)
  /\ forall i q, sh_shards s !! i = Some q -> init (default new_db (files (shard_path path i))) = Ok (q_db q) /\ q_maxRetry q = 0.
Proof.
  unfold Open, maxShards. set (m := if n <? 1 then 1 else n). intros E.
  assert (Hm : m = Z.max 1 n) by (unfold m; destruct (n <? 1) eqn:?; b2p; lia).
  destruct (64 <? m) eqn:Hmax; [done|]. destruct (open_shards _ _ _ _) as [qs|] eqn:Eo; [|done]. injection E as <-. cbn [sh_shards].
  pose proof (open_shards_spec _ _ _ _ _ Eo) as Hf. pose proof (Forall2_length _ _ _ Hf) as Hl. rewrite length_seq in Hl. b2p.
  split_and!; [lia|lia|lia|]. intros i q Hq. destruct (Forall2_lookup_r _ _ _ _ _ Hf Hq) as (j & Hj & d & Hd & -> & Hc).
  apply lookup_seq in Hj as [-> _]. done.
Qed.

(** ** Theorems *)

Section shard_theorems.
Context `{GoZlibLaws} `{GoSortLaws}.

(** A queue opened on new files holds nothing. *)
Lemma Open_fresh path backend n s : Open (fun _ => None) path backend n = Ok s -> sharded_holds s (mkLedger ∅ ∅).
Proof.
  intros Ho. destruct (Open_shards _ _ _ _ _ Ho) as (Hc & _ & Hf).
  exists (replicate (length (sh_shards s)) (mkAQueue [] ∅)). split.
  - assert (Hcap : Forall (fun q => q_maxRetry q = 0) (sh_shards s)) by (apply Forall_lookup; intros i q Hq; by apply (Hf i q)).
    split; [|done| |].
    + apply Forall2_same_length_lookup_2; [by rewrite length_replicate|]. intros i q a Hq [-> _]%lookup_replicate.
      destruct (Hf i q Hq) as [Hi _]. eapply init_represents; [exact Hi|apply represents_new].
    + unfold sharded_cap. destruct (sh_shards s) as [|q qs]; [done|]. inversion Hcap as [|? ? Hq Hqs]; subst. by rewrite Hq.
    + intros i a [-> _]%lookup_replicate. split; [constructor|]. intros k Hk. by apply elem_of_empty in Hk.
  - generalize (length (sh_shards s)). intros m. unfold aqueue_ledger, merged. cbn [a_entries a_archived].
    assert (E1 : concat (a_entries <$> replicate m (mkAQueue [] ∅)) = []) by (by induction m).
    assert (E2 : ⋃ (a_archived <$> replicate m (mkAQueue [] ∅)) = ∅) by (induction m as [|m IH]; [done|]; cbn; by rewrite IH, (left_id_L ∅ (∪))).
    by rewrite E1, E2.
Qed.


(** The databases of a running node keep their records where they are: a
    queue that was written as a single file and is opened with more shards
    hands out the events of the file, but acknowledging an event whose
    identifier routes to another shard leaves it pending, so that it is
    delivered again at every poll. *)
Theorem reopened_unacknowledged (files : string -> option queue_db) (path backend : string) (n : Z) (d : queue_db) (a : aqueue) (e : entry)
    (s s' : ShardedQueue) (now rev : Z) :
  files path = Some d -> represents d a -> e ∈ a_entries a -> a_is_pending 0 e = true ->
  Open files path backend n = Ok s -> shard_index (length (sh_shards s)) (ev_EventID (e_event e)) <> 0%nat ->
  sharded_MarkPushed now s (ev_EventID (e_event e)) rev = Ok s' ->
  exists q id, sh_shards s' !! 0%nat = Some q /\ id ∈ PendingIDs q (1 + len (db_rows d)) /\ LoadEvent q id = Ok (e_event e).
Proof.
  intros Hf Hrep He Hpend Ho Hidx Hm. destruct (Open_shards _ _ _ _ _ Ho) as (Hc & _ & Hsh).
  destruct (lookup_lt_is_Some_2 (sh_shards s) 0) as [q Hq]; [lia|]. destruct (Hsh 0%nat q Hq) as [Hi Hcap].
  cbn [shard_path Nat.ltb Nat.leb] in Hi. rewrite Hf in Hi. cbn [default] in Hi.
  assert (Hrows : db_rows (q_db q) = db_rows d).
  { revert Hi. unfold init. destruct (_ !! "storage_schema"); [|done]. destruct (seqb _ "2"); [|done]. by intros [= <-]. }
  pose proof (init_represents _ _ _ Hi Hrep) as Hrq.
  assert (Hq' : sh_shards s' !! 0%nat = Some q).
  { revert Hm. unfold sharded_MarkPushed, set_shard. destruct (shard s _); [|done]. intros [= <-]. cbn [sh_shards]. by rewrite list_lookup_insert_ne. }
  pose proof (pending_rows q a (1 + len (db_rows d)) Hrq) as Hp.
  assert (Hin : e_event e ∈ a_pending (q_maxRetry q) (1 + len (db_rows d)) a).
  { unfold a_pending. apply list_elem_of_fmap_2. rewrite Hcap, (proj2 (Z.leb_gt _ 0)) by (pose proof (len_nonneg (db_rows d)); lia).
    rewrite take_ge; [by apply list_elem_of_In, filter_In; split; [apply list_elem_of_In|]|].
    pose proof (sublist_length _ _ (filter_sublist (a_is_pending 0) (a_entries a))). pose proof (Forall2_length _ _ _ (rp_rows _ _ Hrep)). unfold len. lia. }
  apply list_elem_of_lookup in Hin as [i Hi']. destruct (Forall2_lookup_r _ _ _ _ _ Hp Hi') as (p & Hpi & Href & _).
  exists q, (pe_id p). split_and!; [done| |].
  - unfold PendingIDs. by eapply list_elem_of_fmap_2, list_elem_of_lookup_2.
  - eapply LoadEvent_refers; [exact Hrq|exact Href|]. apply ledger_lookup; [apply Hrq|done].
Qed.
End shard_theorems.

Lemma sample_event_plain : plain (ev_EventID sample_event).
Proof. apply (bool_decide_unpack (plain (ev_EventID sample_event))). vm_compute. exact I. Qed.


(** A queue file at the base path and no other file. *)
Definition base_file (d : queue_db) (p : string) : option queue_db := if seqb p "events.db" then Some d else None.
Definition reopened (n : Z) : res (SQLiteQueue * ShardedQueue * ShardedQueue) :=
  q ← @Enqueue identity_zlib 7 queue0 sample_event;
  s ← Open (base_file (q_db q)) "events.db" "v2" n;
  s' ← sharded_MarkPushed 9 s (ev_EventID sample_event) 2;
  Ok (q, s, s').

(** The event is acknowledged and still pending. *)
Lemma reopened_unacknowledged_witness :
  exists q s s', reopened 5 = Ok (q, s, s')
    /\ exists q0 id, sh_shards s' !! 0%nat = Some q0 /\ id ∈ PendingIDs q0 2 /\ @LoadEvent identity_zlib q0 id = Ok sample_event.
Proof.
  destruct (reopened 5) as [[[q s] s']|e] eqn:E.
  2:{ exfalso. assert (F : is_ok (reopened 5) = true) by (vm_compute; reflexivity). rewrite E in F. discriminate F. }
  exists q, s, s'. split; [reflexivity|]. unfold reopened in E.
  pose proof (@Enqueue_represents identity_zlib identity_zlib_laws 7 queue0 sample_event abstract0 represents_new sample_event_ok) as Hrep.
  destruct (@Enqueue identity_zlib 7 queue0 sample_event) as [q1|]; [|discriminate E]. cbn [mbind res_bind] in E. destruct Hrep as [Hrep _].
  destruct (Open (base_file (q_db q1)) "events.db" "v2" 5) as [s1|] eqn:Eo; [|discriminate E]. cbn [mbind res_bind] in E.
  destruct (sharded_MarkPushed 9 s1 _ 2) as [s2|] eqn:Em; [|discriminate E]. injection E as <- <- <-.
  destruct (Open_shards _ _ _ _ _ Eo) as (_ & Hn & _).
  assert (Hl : len (db_rows (q_db q1)) = 1) by (unfold len; rewrite (Forall2_length _ _ _ (rp_rows _ _ Hrep)); reflexivity).
  destruct (@reopened_unacknowledged identity_zlib (base_file (q_db q1)) "events.db" "v2" 5 (q_db q1) _ (mkEntry sample_event 0 0 "" 7 7) s1 s2 9 2
    eq_refl Hrep (list_elem_of_here _ _) eq_refl Eo) as (q0 & id & H0 & H1 & H2);
    [rewrite Hn; intros Hz; vm_compute in Hz; discriminate Hz|exact Em|]. rewrite Hl in H1. exists q0, id. repeat split; assumption.
Defined.
