(* ===== verification/Push.v ===== *)
(** * Push: delivery to the management server (internal/push/client.go)

    The worker reads a batch of pending events from the queue, posts each as
    JSON and records the outcome.  It is written and proved against the
    [EventQueue] interface.  The network, the cancellation of the context and
    the clock are an environment that answers differently at each instant. *)

From S2P Require Import Prelude GoStrings GoNet Events Json Codec EventJson Content Queue EventQueue Shard.

(** ** Data *)

Record request := mkRequest { rq_Method : string; rq_URL : string; rq_Header : gmap string string; rq_Body : bytes }.
Record response := mkResponse { rs_StatusCode : Z; rs_Status : string; rs_Body : bytes }.

(** [url_Parse] is the error of net/http.NewRequestWithContext on a URL, if it
    has one; [net_Do n rq] what the HTTP client returns for [rq] at instant
    [n]; [ctx_Err n] tells whether the context is cancelled; [time_Unix n] is
    the clock. *)
Class Environment := {
  url_Parse : string -> option string;
  net_Do : nat -> request -> res response;
  ctx_Err : nat -> bool;
  time_Unix : nat -> Z
}.
(** The instant, and the exchanges with the server so far. *)
Record world := mkWorld { w_tick : nat; w_log : list (request * res response) }.
#[global] Instance settable_world : Settable world := fun w => mkWorld (w_tick w) (w_log w).
Definition tick (w : world) : world := w <| w_tick ::= S |>.

Record Client := mkClient { cl_url : string; cl_apiKey : string }.
Definition NewClient (url apiKey : string) : Client := mkClient url apiKey.

Section push.
Context `{Environment}.

(** The request of an event; header names are in canonical form. *)
Definition push_request (c : Client) (ev : ThreatEvent) : request :=
  let header := {["Content-Type" := "application/json"]} in
  mkRequest "POST" (cl_url c) (if seqb (cl_apiKey c) "" then header else <["X-Api-Key" := cl_apiKey c]> header) (marshal_event ev).
(** The error of a response, [None] when the status is 2xx. *)
Definition response_error (rs : response) : option string :=
  if (rs_StatusCode rs <? 200) || (300 <=? rs_StatusCode rs) then
    let msg := strings_TrimSpace (str (take 512 (rs_Body rs))) in
    if negb (seqb msg "") then Some ("management returned " +:+ rs_Status rs +:+ ": " +:+ msg)
    else Some ("management returned " +:+ rs_Status rs)
  else None.
Definition PushEvent (c : Client) (w : world) (ev : ThreatEvent) : option string * world :=
  match url_Parse (cl_url c) with
  | Some e => (Some e, w)
  | None =>
      let rq := push_request c ev in
      let r := net_Do (w_tick w) rq in
      let w := tick (w <| w_log ::= fun l => l ++ [(rq, r)] |>) in
      match r with
      | Err e => (Some e, w)
      | Ok rs => (response_error rs, w)
      end
  end.

Section worker.
Context {Q : Type} `{EventQueue Q}.

(** A failure to record the outcome is logged and the queue is as it was. *)
Definition sendOne (c : Client) (ev : ThreatEvent) (q : Q) (w : world) : Q * world :=
  let '(err, w) := PushEvent c w ev in
  let now := time_Unix (w_tick w) in
  match match err with
        | Some msg => eq_MarkFailed now q (ev_EventID ev) (ev_ContextRevision ev) msg
        | None => eq_MarkPushed now q (ev_EventID ev) (ev_ContextRevision ev)
        end with
  | Ok q => (q, tick w)
  | Err _ => (q, tick w)
  end.
Fixpoint drain_ids (c : Client) (load : Q -> Z -> res ThreatEvent) (ids : list Z) (q : Q) (w : world) : Q * world :=
  match ids with
  | [] => (q, w)
  | id :: ids =>
      if ctx_Err (w_tick w) then (q, tick w)
      else
        let w := tick w in
        match load q id with
        | Err _ => drain_ids c load ids q w
        | Ok ev => let '(q, w) := sendOne c ev q w in drain_ids c load ids q w
        end
  end.
Fixpoint drain_events (c : Client) (evs : list ThreatEvent) (q : Q) (w : world) : Q * world :=
  match evs with
  | [] => (q, w)
  | ev :: evs => let '(q, w) := sendOne c ev q w in drain_events c evs q w
  end.
Definition drain (c : Client) (batch : Z) (q : Q) (w : world) : Q * world :=
  match eq_lazy with
  | Some (pending, load) =>
      match pending q batch with
      | Err _ => (q, w)
      | Ok ids => drain_ids c load ids q w
      end
  | None =>
      match eq_LoadPending q batch with
      | Err _ => (q, w)
      | Ok evs => drain_events c evs q w
      end
  end.
(** The loop of StartWorker, stopped after [rounds] drains. *)
Fixpoint StartWorker (rounds : nat) (c : Client) (batch : Z) (q : Q) (w : world) : Q * world :=
  match rounds with
  | O => (q, w)
  | S rounds => let '(q, w) := drain c batch q w in StartWorker rounds c batch q w
  end.
End worker.
End push.

(** ** The worker beside the sensor

    The worker's steps interleaved with events the sensor enqueues. *)

(** What is left of a batch: identifiers to load, or events already loaded. *)
Definition todo : Type := list (Z + ThreatEvent).
Inductive phase :=
| Idle
| Batch (rest : todo)
| Sending (ev : ThreatEvent) (rest : todo)
| Marking (ev : ThreatEvent) (err : option string) (rest : todo).

Section steps.
Context `{Environment} {Q : Type} `{EventQueueLaws Q} (c : Client) (limit : Z).

Record system := mkSystem { sy_queue : Q; sy_world : world; sy_phase : phase }.

Inductive step : system -> system -> Prop :=
| step_enqueue now ev q q' w ph : sendable ev -> eq_Enqueue now q ev = Ok q' ->
    step (mkSystem q w ph) (mkSystem q' w ph)
| step_poll pending load ids q w : eq_lazy = Some (pending, load) -> room q -> pending q limit = Ok ids ->
    step (mkSystem q w Idle) (mkSystem q w (Batch (inl <$> ids)))
| step_poll_all evs q w : eq_lazy = None -> room q -> eq_LoadPending q limit = Ok evs ->
    step (mkSystem q w Idle) (mkSystem q w (Batch (inr <$> evs)))
| step_done q w : step (mkSystem q w (Batch [])) (mkSystem q w Idle)
| step_cancel id rest q w : ctx_Err (w_tick w) = true ->
    step (mkSystem q w (Batch (inl id :: rest))) (mkSystem q (tick w) Idle)
| step_load pending load id ev rest q w : eq_lazy = Some (pending, load) -> ctx_Err (w_tick w) = false -> load q id = Ok ev ->
    step (mkSystem q w (Batch (inl id :: rest))) (mkSystem q (tick w) (Sending ev rest))
| step_skip pending load id e rest q w : eq_lazy = Some (pending, load) -> ctx_Err (w_tick w) = false -> load q id = Err e ->
    step (mkSystem q w (Batch (inl id :: rest))) (mkSystem q (tick w) (Batch rest))
| step_take ev rest q w : step (mkSystem q w (Batch (inr ev :: rest))) (mkSystem q w (Sending ev rest))
| step_send ev rest err q w w' : PushEvent c w ev = (err, w') ->
    step (mkSystem q w (Sending ev rest)) (mkSystem q w' (Marking ev err rest))
| step_pushed ev rest q q' w : eq_MarkPushed (time_Unix (w_tick w)) q (ev_EventID ev) (ev_ContextRevision ev) = Ok q' ->
    step (mkSystem q w (Marking ev None rest)) (mkSystem q' (tick w) (Batch rest))
| step_failed ev msg rest q q' w : eq_MarkFailed (time_Unix (w_tick w)) q (ev_EventID ev) (ev_ContextRevision ev) msg = Ok q' ->
    step (mkSystem q w (Marking ev (Some msg) rest)) (mkSystem q' (tick w) (Batch rest)).

(** The server has accepted the text of an event. *)
Definition delivered (w : world) (ev : ThreatEvent) : Prop :=
  exists rq rs, (rq, Ok rs) ∈ w_log w /\ rq_Body rq = marshal_event ev /\ 200 <= rs_StatusCode rs < 300.

(** The ledger keeps the events of [l0], and what it calls pushed was pushed
    before or has been delivered. *)
Record accounts (l0 l : ledger) (w : world) : Prop := {
  ac_kept : forall k e0, l_entries l0 !! k = Some e0 -> exists e, l_entries l !! k = Some e /\ e_event e = e_event e0;
  ac_pushed : forall k e, l_entries l !! k = Some e -> e_status e = 2 ->
    (exists e0, l_entries l0 !! k = Some e0 /\ e_status e0 = 2) \/ delivered w (e_event e)
}.
Definition stored (l : ledger) (ev : ThreatEvent) : Prop := exists e, l_entries l !! event_key ev = Some e /\ e_event e = ev.
Definition todo_ok (q : Q) (l : ledger) (x : Z + ThreatEvent) : Prop :=
  match x with
  | inl id => exists ev, refers q id (event_key ev) /\ stored l ev
  | inr ev => stored l ev
  end.
Definition phase_ok (q : Q) (l : ledger) (w : world) (ph : phase) : Prop :=
  match ph with
  | Idle => True
  | Batch rest => Forall (todo_ok q l) rest
  | Sending ev rest => stored l ev /\ Forall (todo_ok q l) rest
  | Marking ev err rest => stored l ev /\ (err = None -> delivered w ev) /\ Forall (todo_ok q l) rest
  end.

(** *** Single operations *)

Lemma PushEvent_delivers w ev err w' : PushEvent c w ev = (err, w') ->
  (err = None -> delivered w' ev) /\ (exists l, w_log w' = w_log w ++ l).
Proof.
  unfold PushEvent. destruct (url_Parse _) as [e|].
  - intros [= <- <-]. split; [done|]. exists []. by rewrite app_nil_r.
  - destruct (net_Do _ _) as [rs|e] eqn:E; intros [= <- <-]; (split; [|by eexists]).
    + unfold response_error. destruct (_ || _) eqn:Es; [by destruct (negb _)|]. intros _. b2p.
      exists (push_request c ev), rs. split_and!; [|done|lia|lia]. cbn. apply elem_of_app. right. left.
    + done.
Qed.
Lemma delivered_mono w w' ev : (exists l, w_log w' = w_log w ++ l) -> delivered w ev -> delivered w' ev.
Proof. intros [l El] (rq & rs & Hin & Hr). exists rq, rs. split; [|done]. rewrite El. apply elem_of_app. by left. Qed.
Lemma accounts_mono l0 l w w' : (exists k, w_log w' = w_log w ++ k) -> accounts l0 l w -> accounts l0 l w'.
Proof.
  intros Hl [Hk Hp]. split; [done|]. intros k e Hke Hs. destruct (Hp k e Hke Hs) as [|Hd]; [by left|right]. by eapply delivered_mono.
Qed.
Lemma tick_log w : exists k, w_log (tick w) = w_log w ++ k.
Proof. exists []. by rewrite app_nil_r. Qed.

Lemma enqueue_lookup now ev l k e : l_entries l !! k = Some e -> l_entries (l_enqueue now ev l) !! k = Some e.
Proof.
  intros Hk. unfold l_enqueue. destruct (bool_decide (event_key ev ∈ l_archived l)); [done|]. cbn [orb].
  destruct (bool_decide (is_Some _)) eqn:E; [done|]. apply bool_decide_eq_false in E. cbn [l_entries].
  rewrite lookup_insert_ne; [done|]. intros <-. apply E. by eexists.
Qed.
Lemma enqueue_accounts now ev l0 l w : accounts l0 l w -> accounts l0 (l_enqueue now ev l) w.
Proof.
  intros [Hk Hp]. split.
  - intros k e0 Hk0. destruct (Hk k e0 Hk0) as (e & He & Hee). exists e. split; [by apply enqueue_lookup|done].
  - intros k e. unfold l_enqueue. destruct (_ || _); [by apply Hp|]. cbn [l_entries]. rewrite lookup_insert_Some.
    intros [[<- <-]|[_ He]]; [done|by apply Hp].
Qed.
Lemma update_stored key f l ev : (forall e, e_event (f e) = e_event e) -> stored l ev -> stored (l_update key f l) ev.
Proof.
  intros Hf (e & He & Hev). unfold stored. cbn [l_update l_entries]. destruct (decide (key = event_key ev)) as [->|Hne].
  - exists (f e). split; [by rewrite lookup_alter_eq, He|by rewrite Hf].
  - exists e. by rewrite lookup_alter_ne.
Qed.
Lemma update_accounts key f l0 l w : (forall e, e_event (f e) = e_event e) ->
  (forall e, l_entries l !! key = Some e -> e_status (f e) = 2 -> delivered w (e_event e)) ->
  accounts l0 l w -> accounts l0 (l_update key f l) w.
Proof.
  intros Hf Hd [Hk Hp]. split; cbn [l_update l_entries].
  - intros k e0 Hk0. destruct (Hk k e0 Hk0) as (e & He & Hee). destruct (decide (key = k)) as [->|Hne].
    + exists (f e). split; [by rewrite lookup_alter_eq, He|by rewrite Hf].
    + exists e. by rewrite lookup_alter_ne.
  - intros k e [[<- (e' & He' & ->)]|[_ He]]%lookup_alter_Some Hs; [|by apply Hp]. right. rewrite Hf. by apply Hd.
Qed.
Lemma todo_mono q q' l l' rest : (forall id k, refers q id k -> refers q' id k) -> (forall ev, stored l ev -> stored l' ev) ->
  Forall (todo_ok q l) rest -> Forall (todo_ok q' l') rest.
Proof.
  intros Href Hst Hr. eapply Forall_impl; [exact Hr|]. intros [id|ev]; cbn; [|auto]. intros (ev & Hid & Hev). exists ev. auto.
Qed.

(** *** The invariant *)

Definition safe (l0 : ledger) (y : system) : Prop :=
  exists l, holds (sy_queue y) l /\ accounts l0 l (sy_world y) /\ phase_ok (sy_queue y) l (sy_world y) (sy_phase y).

Lemma mark_safe l0 l q q' w ev rest f :
  accounts l0 l w -> stored l ev -> Forall (todo_ok q l) rest -> (forall e, e_event (f e) = e_event e) ->
  (forall e, e_event e = ev -> e_status (f e) = 2 -> delivered w ev) ->
  holds q' (l_update (event_key ev) f l) -> (forall i k, refers q i k -> refers q' i k) ->
  safe l0 (mkSystem q' (tick w) (Batch rest)).
Proof.
  intros Hac (e & He & Hev) Hrest Hf Hd Hq' Href. exists (l_update (event_key ev) f l). split_and!; cbn [sy_queue sy_world sy_phase phase_ok].
  - done.
  - eapply accounts_mono; [apply tick_log|]. apply update_accounts; [done| |done]. intros e' He' Hs. simplify_eq. by eapply Hd.
  - eapply todo_mono; [exact Href| |exact Hrest]. intros ev'. by apply update_stored.
Qed.
Lemma stored_sendable q l ev : holds q l -> stored l ev -> sendable ev.
Proof. intros Hq (e & He & <-). by eapply holds_entries. Qed.
Lemma batch_stored cap l evs : batch cap limit l evs -> Forall (stored l) evs.
Proof.
  intros Hb. eapply Forall_impl; [apply Hb|]. intros ev (e & He & Hev). exists e. split; [|done].
  by apply map_lookup_filter_Some in He as [He _].
Qed.
Lemma todo_loaded l q ids evs : Forall (stored l) evs -> Forall2 (fun id ev => refers q id (event_key ev)) ids evs ->
  Forall (todo_ok q l) (inl <$> ids).
Proof.
  intros Hst Hf. apply Forall_fmap. apply Forall_forall. intros id [i Hi]%list_elem_of_lookup.
  destruct (Forall2_lookup_l _ _ _ _ _ Hf Hi) as (ev & Hev & Href). exists ev. split; [done|]. by eapply Forall_lookup_1 in Hst.
Qed.

Lemma step_safe l0 y y' : step y y' -> safe l0 y -> safe l0 y'.
Proof.
  intros Hst (l & Hq & Hac & Hph).
  destruct Hst as [now ev q q' w ph Hev E|pending load ids q w El Hr E|evs q w El Hr E|q w|id rest q w E|pending load id ev rest q w El E E'
    |pending load id e rest q w El E E'|ev rest q w|ev rest err q w w' E|ev rest q q' w E|ev msg rest q q' w E]; cbn [sy_queue sy_world sy_phase] in *.
  - pose proof (holds_Enqueue now q l ev Hq Hev) as He. rewrite E in He. destruct He as (Hq' & _ & Href).
    exists (l_enqueue now ev l). split_and!; [done|by apply enqueue_accounts|].
    assert (Hst : forall ev', stored l ev' -> stored (l_enqueue now ev l) ev') by (intros ev' (e & He & Hee); exists e; split; [by apply enqueue_lookup|done]).
    destruct ph as [|rest|ev' rest|ev' err rest]; cbn [phase_ok sy_phase sy_queue sy_world] in *; [done| | |].
    + eapply todo_mono; [exact Href|exact Hst|exact Hph].
    + destruct Hph as [Hs Hrest]. split; [auto|]. eapply todo_mono; [exact Href|exact Hst|exact Hrest].
    + destruct Hph as (Hs & Hd & Hrest). split_and!; [auto|done|]. eapply todo_mono; [exact Href|exact Hst|exact Hrest].
  - destruct (holds_lazy _ _ El) as [Hp _]. destruct (Hp q l limit Hq Hr) as (ids' & evs & E' & Hb & Hf). rewrite E in E'. injection E' as <-.
    exists l. split_and!; [done|done|]. cbn. eapply todo_loaded; [by eapply batch_stored|done].
  - destruct (holds_LoadPending q l limit Hq Hr) as (evs' & E' & Hb). rewrite E in E'. injection E' as <-. exists l. split_and!; [done|done|]. cbn.
    apply Forall_fmap. by eapply batch_stored.
  - by exists l.
  - exists l. split_and!; [done| |done]. eapply accounts_mono; [apply tick_log|done].
  - cbn in Hph. apply Forall_cons in Hph as [(ev' & Href & e & He & Hee) Hrest]. destruct (holds_lazy _ _ El) as [_ Hl].
    rewrite (Hl q l id _ e Hq Href He) in E'. injection E' as E'. rewrite E' in Hee. subst ev'. exists l. split_and!; [done|by eapply accounts_mono; [apply tick_log|]|].
    split; [by exists e|done].
  - cbn in Hph. apply Forall_cons in Hph as [_ Hrest]. exists l. split_and!; [done|by eapply accounts_mono; [apply tick_log|]|done].
  - cbn in Hph. apply Forall_cons in Hph as [Hev Hrest]. by exists l.
  - destruct Hph as [Hev Hrest]. destruct (PushEvent_delivers _ _ _ _ E) as [Hd Hlog]. exists l.
    split_and!; [done|by eapply accounts_mono|]. by split_and!.
  - destruct Hph as (Hev & Hd & Hrest). destruct (stored_sendable _ _ _ Hq Hev) as [_ Hp].
    destruct (holds_MarkPushed (time_Unix (w_tick w)) q l _ (ev_ContextRevision ev) Hq Hp) as (q'' & E' & Hq' & _ & _ & Href). rewrite E in E'. injection E' as <-.
    eapply (mark_safe l0 l q q' w ev rest (a_mark_pushed _)); eauto.
  - destruct Hph as (Hev & Hd & Hrest). destruct (stored_sendable _ _ _ Hq Hev) as [_ Hp].
    destruct (holds_MarkFailed (time_Unix (w_tick w)) q l _ (ev_ContextRevision ev) msg Hq Hp) as (q'' & E' & Hq' & _ & _ & Href). rewrite E in E'. injection E' as <-.
    eapply (mark_safe l0 l q q' w ev rest (a_mark_failed _ msg)); eauto. done.
Qed.
Lemma steps_safe l0 y y' : rtc step y y' -> safe l0 y -> safe l0 y'.
Proof. induction 1 as [|y y1 y' Hs _ IH]; [done|]. intros Hy. by eapply IH, step_safe. Qed.
Lemma accounts_refl l w : accounts l l w.
Proof. split; eauto. Qed.

(** *** The code takes these steps *)

Lemma sendOne_steps ev rest q w l : holds q l -> stored l ev ->
  let '(q', w') := sendOne c ev q w in rtc step (mkSystem q w (Sending ev rest)) (mkSystem q' w' (Batch rest)).
Proof.
  intros Hq Hev. unfold sendOne. destruct (PushEvent c w ev) as [err w1] eqn:E. destruct (stored_sendable _ _ _ Hq Hev) as [_ Hp].
  destruct err as [msg|].
  - destruct (holds_MarkFailed (time_Unix (w_tick w1)) q l _ (ev_ContextRevision ev) msg Hq Hp) as (q' & E' & _). rewrite E'.
    eapply rtc_l; [by apply step_send|]. by eapply rtc_once, step_failed.
  - destruct (holds_MarkPushed (time_Unix (w_tick w1)) q l _ (ev_ContextRevision ev) Hq Hp) as (q' & E' & _). rewrite E'.
    eapply rtc_l; [by apply step_send|]. by eapply rtc_once, step_pushed.
Qed.
Lemma drain_ids_steps pending load l0 ids q w : eq_lazy = Some (pending, load) -> safe l0 (mkSystem q w (Batch (inl <$> ids))) ->
  let '(q', w') := drain_ids c load ids q w in rtc step (mkSystem q w (Batch (inl <$> ids))) (mkSystem q' w' Idle).
Proof.
  intros El. revert q w. induction ids as [|id ids IH]; intros q w Hs; cbn [drain_ids].
  { apply rtc_once, step_done. }
  destruct (ctx_Err (w_tick w)) eqn:Ec; [by apply rtc_once, step_cancel|].
  destruct (load q id) as [ev|e] eqn:E.
  - assert (H1' : step (mkSystem q w (Batch (inl <$> id :: ids))) (mkSystem q (tick w) (Sending ev (inl <$> ids)))) by (by eapply step_load).
    pose proof (step_safe l0 _ _ H1' Hs) as Hs1. pose proof Hs1 as (l & Hq & _ & Hev & _).
    pose proof (sendOne_steps ev (inl <$> ids) q (tick w) l Hq Hev) as Hone. destruct (sendOne c ev q (tick w)) as [q' w'].
    specialize (IH q' w'). destruct (drain_ids c load ids q' w') as [q2 w2].
    eapply rtc_l; [exact H1'|]. etransitivity; [exact Hone|]. by eapply IH, steps_safe.
  - assert (H1' : step (mkSystem q w (Batch (inl <$> id :: ids))) (mkSystem q (tick w) (Batch (inl <$> ids)))) by (by eapply step_skip).
    specialize (IH q (tick w) (step_safe l0 _ _ H1' Hs)). destruct (drain_ids c load ids q (tick w)). by eapply rtc_l.
Qed.
Lemma drain_events_steps l0 evs q w : safe l0 (mkSystem q w (Batch (inr <$> evs))) ->
  let '(q', w') := drain_events c evs q w in rtc step (mkSystem q w (Batch (inr <$> evs))) (mkSystem q' w' Idle).
Proof.
  revert q w. induction evs as [|ev evs IH]; intros q w Hs; cbn [drain_events].
  { apply rtc_once, step_done. }
  assert (H1' : step (mkSystem q w (Batch (inr <$> ev :: evs))) (mkSystem q w (Sending ev (inr <$> evs)))) by apply step_take.
  pose proof (step_safe l0 _ _ H1' Hs) as Hs1. pose proof Hs1 as (l & Hq & _ & Hev & _).
  pose proof (sendOne_steps ev (inr <$> evs) q w l Hq Hev) as Hone. destruct (sendOne c ev q w) as [q' w'].
  specialize (IH q' w'). destruct (drain_events c evs q' w') as [q2 w2].
  eapply rtc_l; [exact H1'|]. etransitivity; [exact Hone|]. by eapply IH, steps_safe.
Qed.
Lemma drain_steps l q w : holds q l -> room q ->
  let '(q', w') := drain c limit q w in rtc step (mkSystem q w Idle) (mkSystem q' w' Idle).
Proof.
  intros Hq Hr. assert (Hs : safe l (mkSystem q w Idle)) by (exists l; split_and!; [done|apply accounts_refl|done]).
  unfold drain. destruct eq_lazy as [[pending load]|] eqn:El.
  - destruct (pending q limit) as [ids|e] eqn:E; [|done].
    assert (H1' : step (mkSystem q w Idle) (mkSystem q w (Batch (inl <$> ids)))) by (by eapply step_poll).
    pose proof (drain_ids_steps pending load l ids q w El (step_safe l _ _ H1' Hs)) as Hd. destruct (drain_ids c load ids q w). by eapply rtc_l.
  - destruct (eq_LoadPending q limit) as [evs|e] eqn:E; [|done].
    assert (H1' : step (mkSystem q w Idle) (mkSystem q w (Batch (inr <$> evs)))) by (by eapply step_poll_all).
    pose proof (drain_events_steps l evs q w (step_safe l _ _ H1' Hs)) as Hd. destruct (drain_events c evs q w). by eapply rtc_l.
Qed.
End steps.

(** ** Progress *)

(** The sum of a cost over the entries of a ledger. *)
Definition total (cost : entry -> nat) (l : ledger) : nat := map_fold (fun _ e n => (cost e + n)%nat) 0%nat (l_entries l).
(** How often a pending event may still be tried. *)
Definition tries (cap : Z) (e : entry) : nat := if a_is_pending cap e then Z.to_nat (cap - e_retry e) else 0%nat.
Definition attempts_left (cap : Z) (l : ledger) : nat := total (tries cap) l.
Definition one_pending (cap : Z) (e : entry) : nat := if a_is_pending cap e then 1%nat else 0%nat.

Lemma total_split cost l k e : l_entries l !! k = Some e ->
  total cost l = (cost e + map_fold (fun _ e n => (cost e + n)%nat) 0%nat (delete k (l_entries l)))%nat.
Proof. intros Hk. unfold total. apply (map_fold_delete_L (fun _ e n => (cost e + n)%nat)); [intros; lia|done]. Qed.
Lemma total_update cost key f l e : l_entries l !! key = Some e ->
  (total cost (l_update key f l) + cost e = total cost l + cost (f e))%nat.
Proof.
  intros Hk. rewrite (total_split cost l key e Hk), (total_split cost (l_update key f l) key (f e)).
  - cbn [l_update l_entries]. rewrite delete_alter_eq. lia.
  - cbn [l_update l_entries]. by rewrite lookup_alter_eq, Hk.
Qed.
Lemma total_zero cost l k e : total cost l = 0%nat -> l_entries l !! k = Some e -> cost e = 0%nat.
Proof. intros Ht Hk. rewrite (total_split cost l k e Hk) in Ht. lia. Qed.
Lemma total_pending cap l : total (one_pending cap) l = size (l_pending cap l).
Proof.
  unfold total, l_pending. induction (l_entries l) as [|k e m Hk IH] using map_ind; [done|].
  rewrite map_fold_insert_L by (done || (intros; lia)). rewrite IH. unfold one_pending. destruct (a_is_pending cap e) eqn:E.
  - rewrite map_filter_insert_True by done. rewrite map_size_insert_None; [lia|]. by rewrite map_lookup_filter, Hk.
  - rewrite map_filter_insert_False by (cbn; by rewrite E). by rewrite delete_id.
Qed.

(** A batch was sent: each event was acknowledged or, where [may_fail], marked
    as failed. *)
Inductive sent (may_fail : bool) : ledger -> list ThreatEvent -> ledger -> Prop :=
| sent_nil l : sent may_fail l [] l
| sent_pushed now ev evs l l' : sent may_fail (l_update (event_key ev) (a_mark_pushed now) l) evs l' -> sent may_fail l (ev :: evs) l'
| sent_failed now msg ev evs l l' : may_fail = true ->
    sent may_fail (l_update (event_key ev) (a_mark_failed now msg) l) evs l' -> sent may_fail l (ev :: evs) l'.

Definition pending_in (cap : Z) (l : ledger) (ev : ThreatEvent) : Prop :=
  exists e, l_entries l !! event_key ev = Some e /\ a_is_pending cap e = true.
Lemma pending_in_update cap l f ev ev' : event_key ev <> event_key ev' -> pending_in cap l ev' -> pending_in cap (l_update (event_key ev) f l) ev'.
Proof. intros Hne (e & He & Hp). exists e. cbn [l_update l_entries]. by rewrite lookup_alter_ne. Qed.

(** Every event that is sent lowers a cost that acknowledging and failing lower. *)
Lemma sent_measure may_fail cap cost l evs l' :
  (forall now e, a_is_pending cap e = true -> (cost (a_mark_pushed now e) < cost e)%nat) ->
  (forall now msg e, may_fail = true -> a_is_pending cap e = true -> (cost (a_mark_failed now msg e) < cost e)%nat) ->
  NoDup (event_key <$> evs) -> Forall (pending_in cap l) evs -> sent may_fail l evs l' -> (total cost l' + length evs <= total cost l)%nat.
Proof.
  intros Hok Hfail Hnd Hp Hs. induction Hs as [l|now ev evs l l' _ IH|now msg ev evs l l' Hm _ IH]; cbn [length]; [lia| |];
    apply Forall_cons in Hp as [(e & He & Hpe) Hp]; rewrite fmap_cons, NoDup_cons in Hnd; destruct Hnd as [Hk Hnd].
  - assert (Hrest : Forall (pending_in cap (l_update (event_key ev) (a_mark_pushed now) l)) evs).
    { apply Forall_forall. intros ev' Hin. apply pending_in_update; [|by eapply (proj1 (Forall_forall _ _) Hp)].
      intros E. apply Hk. rewrite E. by apply list_elem_of_fmap_2. }
    specialize (IH Hnd Hrest). pose proof (total_update cost _ (a_mark_pushed now) l e He). specialize (Hok now e Hpe). lia.
  - assert (Hrest : Forall (pending_in cap (l_update (event_key ev) (a_mark_failed now msg) l)) evs).
    { apply Forall_forall. intros ev' Hin. apply pending_in_update; [|by eapply (proj1 (Forall_forall _ _) Hp)].
      intros E. apply Hk. rewrite E. by apply list_elem_of_fmap_2. }
    specialize (IH Hnd Hrest). pose proof (total_update cost _ (a_mark_failed now msg) l e He). specialize (Hfail now msg e Hm Hpe). lia.
Qed.

Section progress.
Context `{Environment} {Q : Type} `{EventQueueLaws Q} (c : Client) (limit : Z) (may_fail : bool).

(** The server accepts every request. *)
Definition accepting : Prop :=
  url_Parse (cl_url c) = None /\ forall n rq, exists rs, net_Do n rq = Ok rs /\ 200 <= rs_StatusCode rs < 300.
Hypothesis Haccept : may_fail = false -> accepting.
Hypothesis Hctx : forall n, ctx_Err n = false.

Lemma PushEvent_accepted w ev : may_fail = false -> (PushEvent c w ev).1 = None.
Proof.
  intros Hm. destruct (Haccept Hm) as [Hurl Hdo]. unfold PushEvent. rewrite Hurl. destruct (Hdo (w_tick w) (push_request c ev)) as (rs & -> & Hrs).
  unfold response_error. cbn. rewrite (proj2 (Z.ltb_ge _ _)), (proj2 (Z.leb_gt _ _)) by lia. done.
Qed.

(** What a send does to the queue. *)
Definition keeps (q q' : Q) : Prop := cap q' = cap q /\ (room q -> room q') /\ forall i k, refers q i k -> refers q' i k.
Lemma keeps_trans q q1 q2 : keeps q q1 -> keeps q1 q2 -> keeps q q2.
Proof. intros (? & ? & ?) (? & ? & ?). split_and!; [congruence|auto|auto]. Qed.

Definition grows (w w' : world) : Prop := exists k, w_log w' = w_log w ++ k.
Lemma grows_trans w w1 w2 : grows w w1 -> grows w1 w2 -> grows w w2.
Proof. intros [k Hk] [k' Hk']. exists (k ++ k'). by rewrite Hk', Hk, app_assoc. Qed.
Lemma accounts_trans l l1 l2 w1 w2 : accounts l l1 w1 -> grows w1 w2 -> accounts l1 l2 w2 -> accounts l l2 w2.
Proof.
  intros Ha Hg [Hk2 Hp2]. apply (accounts_mono _ _ _ _ Hg) in Ha as [Hk1 Hp1]. split.
  - intros k e He. destruct (Hk1 k e He) as (e1 & He1 & <-). by apply Hk2.
  - intros k e2 He2 Hs. destruct (Hp2 k e2 He2 Hs) as [(e1 & He1 & Hs1)|]; [|by right]. destruct (Hp1 k e1 He1 Hs1) as [|Hd]; [by left|right].
    destruct (Hk2 k e1 He1) as (e2' & He2' & E). simplify_eq. by rewrite E.
Qed.

Lemma sendOne_spec ev q w l : holds q l -> stored l ev ->
  exists f q' w', sendOne c ev q w = (q', w') /\ holds q' (l_update (event_key ev) f l) /\ keeps q q' /\ (forall e, e_event (f e) = e_event e)
    /\ grows w w' /\ accounts l (l_update (event_key ev) f l) w'
    /\ forall evs l', sent may_fail (l_update (event_key ev) f l) evs l' -> sent may_fail l (ev :: evs) l'.
Proof.
  intros Hq Hev. unfold sendOne. pose proof (PushEvent_accepted w ev) as Hacc. destruct (PushEvent c w ev) as [err w1] eqn:Ep. cbn [fst] in Hacc.
  destruct (stored_sendable _ _ _ Hq Hev) as [_ Hp]. destruct (PushEvent_delivers _ _ _ _ _ Ep) as [Hd Hg].
  assert (Hg' : grows w (tick w1)) by (eapply grows_trans; [exact Hg|apply tick_log]).
  assert (Hac : forall f, (forall e, e_event (f e) = e_event e) -> (forall e, e_status (f e) = 2 -> err = None) ->
    accounts l (l_update (event_key ev) f l) (tick w1)).
  { intros f Hf Hn. eapply update_accounts; [done| |apply accounts_refl]. intros e He Hs. destruct Hev as (e' & He' & <-). simplify_eq.
    eapply delivered_mono; [apply tick_log|]. by eapply Hd, Hn. }
  destruct err as [msg|].
  - destruct (holds_MarkFailed (time_Unix (w_tick w1)) q l _ (ev_ContextRevision ev) msg Hq Hp) as (q' & -> & Hq' & Hk).
    exists (a_mark_failed (time_Unix (w_tick w1)) msg), q', (tick w1). split_and!; try done; [by apply Hac|]. intros evs l'. apply sent_failed.
    destruct may_fail; [done|]. by specialize (Hacc eq_refl).
  - destruct (holds_MarkPushed (time_Unix (w_tick w1)) q l _ (ev_ContextRevision ev) Hq Hp) as (q' & -> & Hq' & Hk).
    exists (a_mark_pushed (time_Unix (w_tick w1))), q', (tick w1). split_and!; try done; [by apply Hac|]. intros evs l'. apply sent_pushed.
Qed.

(** The effect of sending a batch. *)
Record sends (q : Q) (w : world) (l : ledger) (evs : list ThreatEvent) (q' : Q) (w' : world) (l' : ledger) : Prop := {
  sn_holds : holds q' l';
  sn_keeps : keeps q q';
  sn_grows : grows w w';
  sn_accounts : accounts l l' w';
  sn_sent : sent may_fail l evs l'
}.
Lemma sends_nil q w l : holds q l -> sends q w l [] q w l.
Proof. intros Hq. split; [done|done|exists []; by rewrite app_nil_r|apply accounts_refl|constructor]. Qed.
Lemma sends_cons ev evs q w l : holds q l -> stored l ev -> Forall (stored l) evs ->
  exists q1 w1 l1, sendOne c ev q w = (q1, w1) /\ holds q1 l1 /\ keeps q q1 /\ Forall (stored l1) evs
    /\ forall q2 w2 l2, sends q1 w1 l1 evs q2 w2 l2 -> sends q w l (ev :: evs) q2 w2 l2.
Proof.
  intros Hq Hev Hst. destruct (sendOne_spec ev q w l Hq Hev) as (f & q1 & w1 & E1 & Hq1 & Hk1 & Hfe & Hg & Hac & Hsent).
  eexists q1, w1, _. split_and!; [exact E1|exact Hq1|exact Hk1| |].
  - eapply Forall_impl; [exact Hst|]. intros ev'. by apply update_stored.
  - intros q2 w2 l2 [Hq2 Hk2 Hg2 Ha2 Hs2]. split; [done|by eapply keeps_trans|by eapply grows_trans|by eapply accounts_trans|auto].
Qed.

Lemma drain_ids_sent pending load ids evs q w l : eq_lazy = Some (pending, load) -> holds q l ->
  Forall2 (fun id ev => refers q id (event_key ev)) ids evs -> Forall (stored l) evs ->
  exists q' w' l', drain_ids c load ids q w = (q', w') /\ sends q w l evs q' w' l'.
Proof.
  intros El. revert evs q w l. induction ids as [|id ids IH]; intros evs q w l Hq Hf Hst; cbn [drain_ids].
  { apply Forall2_nil_inv_l in Hf as ->. exists q, w, l. split; [done|by apply sends_nil]. }
  apply Forall2_cons_inv_l in Hf as (ev & evs' & Href & Hf & ->). apply Forall_cons in Hst as [Hev Hst]. rewrite Hctx.
  destruct (holds_lazy _ _ El) as [_ Hl]. pose proof Hev as (e & He & Hee). rewrite (Hl q l id _ e Hq Href He), Hee.
  destruct (sends_cons ev evs' q (tick w) l Hq Hev Hst) as (q1 & w1 & l1 & -> & Hq1 & Hk1 & Hst1 & Hs).
  destruct (IH evs' q1 w1 l1 Hq1) as (q2 & w2 & l2 & E2 & Hs2); [|done|].
  - eapply Forall2_impl; [exact Hf|]. intros i ev'. apply Hk1.
  - exists q2, w2, l2. split; [done|]. by destruct (Hs _ _ _ Hs2).
Qed.
Lemma drain_events_sent evs q w l : holds q l -> Forall (stored l) evs ->
  exists q' w' l', drain_events c evs q w = (q', w') /\ sends q w l evs q' w' l'.
Proof.
  revert q w l. induction evs as [|ev evs IH]; intros q w l Hq Hst; cbn [drain_events].
  { exists q, w, l. split; [done|by apply sends_nil]. }
  apply Forall_cons in Hst as [Hev Hst]. destruct (sends_cons ev evs q w l Hq Hev Hst) as (q1 & w1 & l1 & -> & Hq1 & Hk1 & Hst1 & Hs).
  destruct (IH q1 w1 l1 Hq1 Hst1) as (q2 & w2 & l2 & E2 & Hs2). exists q2, w2, l2. auto.
Qed.
(** A drain sends one batch. *)
Lemma drain_sent q w l : holds q l -> room q ->
  exists q' w' l' evs, drain c limit q w = (q', w') /\ batch (cap q) limit l evs /\ sends q w l evs q' w' l'.
Proof.
  intros Hq Hr. unfold drain. destruct eq_lazy as [[pending load]|] eqn:El.
  - destruct (holds_lazy _ _ El) as [Hp _]. destruct (Hp q l limit Hq Hr) as (ids & evs & -> & Hb & Hf).
    destruct (drain_ids_sent _ _ ids evs q w l El Hq Hf (batch_stored _ _ _ _ Hb)) as (q' & w' & l' & E & Hs).
    exists q', w', l', evs. by split_and!.
  - destruct (holds_LoadPending q l limit Hq Hr) as (evs & -> & Hb).
    destruct (drain_events_sent evs q w l Hq (batch_stored _ _ _ _ Hb)) as (q' & w' & l' & E & Hs).
    exists q', w', l', evs. by split_and!.
Qed.

(** The batch size the limit stands for. *)
Definition batch_size : nat := Z.to_nat (if limit <=? 0 then 100 else limit).

(** A cost that a send lowers falls at each drain, by the batch size unless
    fewer events are pending. *)
Lemma drain_measure cost q w l : holds q l -> room q ->
  (forall now e, a_is_pending (cap q) e = true -> (cost (a_mark_pushed now e) < cost e)%nat) ->
  (forall now msg e, may_fail = true -> a_is_pending (cap q) e = true -> (cost (a_mark_failed now msg e) < cost e)%nat) ->
  exists q' w' l' evs, drain c limit q w = (q', w') /\ sends q w l evs q' w' l'
    /\ (total cost l' + Nat.min batch_size (size (l_pending (cap q) l)) <= total cost l)%nat.
Proof.
  intros Hq Hr Hok Hfail. destruct (drain_sent q w l Hq Hr) as (q' & w' & l' & evs & E & Hb & Hs).
  exists q', w', l', evs. split_and!; [done|done|]. unfold batch_size. rewrite <- (ba_length _ _ _ _ Hb).
  eapply sent_measure; [exact Hok|exact Hfail|apply Hb| |apply Hs]. eapply Forall_impl; [apply Hb|].
  intros ev (e & He & _). apply map_lookup_filter_Some in He as [He Hp]. by exists e.
Qed.
End progress.

(** What acknowledging alone leaves behind. *)
Lemma sent_acknowledged l evs l' k e' : sent false l evs l' -> l_entries l' !! k = Some e' -> l_entries l !! k = Some e' \/ e_status e' = 2.
Proof.
  intros Hs. induction Hs as [l|now ev evs l l' _ IH|]; [by left| |done]. intros Hk. destruct (IH Hk) as [Hl|]; [|by right].
  cbn [l_update l_entries] in Hl. apply lookup_alter_Some in Hl as [(_ & e & _ & ->)|[_ Hl]]; [by right|by left].
Qed.
Lemma pending_empty cap l cost : (forall e, a_is_pending cap e = true -> cost e <> 0%nat) -> total cost l = 0%nat -> l_pending cap l = ∅.
Proof.
  intros Hc Ht. apply map_empty. intros k. apply eq_None_not_Some. intros [e He]. apply map_lookup_filter_Some in He as [He Hp].
  apply (Hc e Hp). by eapply total_zero.
Qed.
Lemma total_empty cap l cost : (forall e, a_is_pending cap e = false -> cost e = 0%nat) -> l_pending cap l = ∅ -> total cost l = 0%nat.
Proof.
  intros Hc. unfold total, l_pending. induction (l_entries l) as [|k e m Hk IH] using map_ind; [done|]. intros Hp.
  rewrite map_fold_insert_L by (done || (intros; lia)). destruct (a_is_pending cap e) eqn:E.
  - rewrite map_filter_insert_True in Hp by done. by apply insert_non_empty in Hp.
  - rewrite map_filter_insert_False, delete_id in Hp by (done || (cbn; by rewrite E)). rewrite (Hc e E), IH; done.
Qed.
Lemma tries_pushed cap now e : a_is_pending cap e = true -> 0 < cap -> (tries cap (a_mark_pushed now e) < tries cap e)%nat.
Proof. intros Hp Hc. unfold tries at 2. rewrite Hp. cbn. unfold a_is_pending in Hp. b2p. destruct (cap <=? 0) eqn:?; b2p; [lia|]. cbn in *. b2p. lia. Qed.
Lemma tries_failed cap now msg e : a_is_pending cap e = true -> 0 < cap -> (tries cap (a_mark_failed now msg e) < tries cap e)%nat.
Proof.
  intros Hp Hc. unfold tries. rewrite Hp. assert (e_retry e < cap).
  { unfold a_is_pending in Hp. b2p. destruct (cap <=? 0) eqn:?; b2p; [lia|]. cbn in *. b2p. lia. }
  change (e_retry (a_mark_failed now msg e)) with (e_retry e + 1). destruct (a_is_pending cap (a_mark_failed now msg e)); lia.
Qed.
Lemma one_pending_pushed cap now e : a_is_pending cap e = true -> (one_pending cap (a_mark_pushed now e) < one_pending cap e)%nat.
Proof. intros Hp. unfold one_pending. rewrite Hp. cbn. lia. Qed.

(** ** Theorems *)

Section push_theorems.
Context `{Environment} {Q : Type} `{EventQueueLaws Q}.

(** C2.  Delivery is safe under every interleaving of the worker's steps with
    events the sensor enqueues: an event that is stored stays stored
    unchanged, and one that is recorded as pushed was so at the start or has
    been posted, with its JSON text as the body, to a server that answered
    with a 2xx status.  The worker's own code, one drain, is such a run. *)
Theorem push_safe (c : Client) (limit : Z) (q : Q) (l : ledger) (w : world) : holds q l ->
  (forall y, rtc (step c limit) (mkSystem q w Idle) y ->
     exists l', holds (sy_queue y) l'
       /\ (forall k e, l_entries l !! k = Some e -> exists e', l_entries l' !! k = Some e' /\ e_event e' = e_event e)
       /\ (forall k e', l_entries l' !! k = Some e' -> e_status e' = 2 ->
            (exists e, l_entries l !! k = Some e /\ e_status e = 2)
            \/ exists rq rs, (rq, Ok rs) ∈ w_log (sy_world y) /\ rq_Body rq = marshal_event (e_event e') /\ 200 <= rs_StatusCode rs < 300))
  /\ (room q -> let '(q', w') := drain c limit q w in rtc (step c limit) (mkSystem q w Idle) (mkSystem q' w' Idle)).
Proof.
  intros Hq. split.
  - intros y Hy. destruct (steps_safe c limit l _ y Hy) as (l' & Hl' & [Hk Hp] & _).
    + exists l. split_and!; [done|apply accounts_refl|done].
    + exists l'. by split_and!.
  - intros Hr. by eapply drain_steps.
Qed.

Lemma worker_acknowledges c limit q l w rounds : accepting c -> (forall n, ctx_Err n = false) -> holds q l -> room q ->
  (size (l_pending (cap q) l) <= rounds * batch_size limit)%nat ->
  exists q' w' l', StartWorker rounds c limit q w = (q', w') /\ holds q' l' /\ l_pending (cap q) l' = ∅ /\ grows w w' /\ accounts l l' w'
    /\ forall k e', l_entries l' !! k = Some e' -> l_entries l !! k = Some e' \/ e_status e' = 2.
Proof.
  intros Hacc Hctx. revert q l w. induction rounds as [|rounds IH]; intros q l w Hq Hr Hle; cbn [StartWorker].
  - exists q, w, l. split_and!; [done|done| |exists []; by rewrite app_nil_r|apply accounts_refl|by left]. apply map_size_empty_inv. lia.
  - rewrite <- total_pending in Hle.
    destruct (drain_measure c limit false ltac:(done) Hctx (one_pending (cap q)) q w l Hq Hr) as (q1 & w1 & l1 & evs & -> & [Hq1 Hk1 Hg1 Ha1 Hs1] & Hm);
      [intros; by apply one_pending_pushed|done|]. pose proof Hk1 as (Hc & Hr1 & _).
    destruct (IH q1 l1 w1 Hq1 (Hr1 Hr)) as (q2 & w2 & l2 & E & Hq2 & He & Hg & Ha & Hst).
    { rewrite Hc. rewrite !total_pending in Hm. rewrite total_pending in Hle. cbn [Nat.mul] in Hle. lia. }
    exists q2, w2, l2. rewrite Hc in He. split_and!; [done|done|done|by eapply grows_trans|by eapply accounts_trans|].
    + intros k e' Hk. destruct (Hst k e' Hk) as [Hl1|]; [|by right]. by eapply sent_acknowledged.
Qed.

(** C24.  The worker's loop runs dry: with a retry cap, whatever the server answers,
    after as many rounds as there are attempts left no event is pending; each
    is pushed or has failed as often as the cap allows. *)
Theorem worker_terminates (c : Client) (limit : Z) (q : Q) (l : ledger) (w : world) (rounds : nat) :
  (forall n, ctx_Err n = false) -> 0 < cap q -> holds q l -> room q -> (attempts_left (cap q) l <= rounds)%nat ->
  exists q' w' l', StartWorker rounds c limit q w = (q', w') /\ holds q' l' /\ l_pending (cap q) l' = ∅.
Proof.
  intros Hctx Hcap. revert q l w Hcap. induction rounds as [|rounds IH]; intros q l w Hcap Hq Hr Hle; cbn [StartWorker].
  - exists q, w, l. split_and!; [done|done|]. apply (pending_empty _ _ (tries (cap q))); [|unfold attempts_left in Hle; lia].
    intros e Hp. pose proof (tries_pushed (cap q) 0 e Hp Hcap). lia.
  - destruct (drain_measure c limit true ltac:(done) Hctx (tries (cap q)) q w l Hq Hr) as (q1 & w1 & l1 & evs & -> & [Hq1 (Hc & Hr1 & _) _ _ _] & Hm).
    + intros now e Hp. by apply tries_pushed.
    + intros now msg e _ Hp. by apply tries_failed.
    + rewrite <- Hc. destruct (IH q1 l1 w1) as (q2 & w2 & l2 & E & Hq2 & He); [by rewrite Hc|done|auto| |by exists q2, w2, l2].
      rewrite Hc. unfold attempts_left in *. destruct (decide (l_pending (cap q) l = ∅)) as [Ee|Hne].
      * assert (total (tries (cap q)) l = 0%nat); [|lia]. eapply total_empty; [|exact Ee]. intros e E. unfold tries. by rewrite E.
      * assert (size (l_pending (cap q) l) <> 0%nat) by (by intros ?%map_size_empty_inv).
        assert (batch_size limit <> 0%nat) by (unfold batch_size; destruct (limit <=? 0) eqn:?; b2p; lia). lia.
Qed.

(** C25.  With a server that accepts, [rounds] batches deliver up to [rounds] times
    the batch size events: each pending event is then recorded as pushed, and
    the server has received its text. *)
Theorem worker_delivers (c : Client) (limit : Z) (q : Q) (l : ledger) (w : world) (rounds : nat) :
  accepting c -> (forall n, ctx_Err n = false) -> holds q l -> room q -> (size (l_pending (cap q) l) <= rounds * batch_size limit)%nat ->
  exists q' w' l', StartWorker rounds c limit q w = (q', w') /\ holds q' l' /\ l_pending (cap q) l' = ∅
    /\ forall k e, l_pending (cap q) l !! k = Some e ->
         (exists e', l_entries l' !! k = Some e' /\ e_event e' = e_event e /\ e_status e' = 2) /\ delivered w' (e_event e).
Proof.
  intros Hacc Hctx Hq Hr Hle. destruct (worker_acknowledges c limit q l w rounds Hacc Hctx Hq Hr Hle) as (q' & w' & l' & E & Hq' & He & _ & Ha & Hst).
  exists q', w', l'. split_and!; [done|done|done|]. intros k e Hk. apply map_lookup_filter_Some in Hk as [Hk Hp].
  destruct (ac_kept _ _ _ Ha k e Hk) as (e' & He' & Ee). assert (Hs : e_status e' = 2).
  { destruct (Hst k e' He') as [Hl|]; [|done]. exfalso. simplify_eq.
    assert (Hin : l_pending (cap q) l' !! k = Some e) by (by apply map_lookup_filter_Some). rewrite He in Hin. by rewrite lookup_empty in Hin. }
  split; [by exists e'|]. destruct (ac_pushed _ _ _ Ha k e' He' Hs) as [(e0 & He0 & Hs0)|Hd]; [|by rewrite <- Ee].
  assert (e0 = e) as -> by congruence. cbn [snd] in Hp. unfold a_is_pending in Hp. by rewrite Hs0 in Hp.
Qed.
End push_theorems.

(** A server that accepts everything, and one that refuses everything. *)
Definition replies (code : Z) (status : string) : Environment := {|
  url_Parse := fun _ => None;
  net_Do := fun _ _ => Ok (mkResponse code status []);
  ctx_Err := fun _ => false;
  time_Unix := fun n => Z.of_nat n
|}.
Definition world0 : world := mkWorld 0 [].
Definition client0 : Client := NewClient "http://manager/api/v1/events" "secret".

(** A queue with one pending event and a cap of three tries, and its ledger. *)
Definition ledger1 : ledger := l_enqueue 7 sample_event (mkLedger ∅ ∅).
Definition queue3 : SQLiteQueue := SetMaxRetry 3 queue0.
Lemma one_event : exists q : SQLiteQueue, @Enqueue identity_zlib 7 queue3 sample_event = Ok q
  /\ @sqlite_holds identity_zlib q ledger1 /\ q_maxRetry q = 3.
Proof.
  assert (Hq0 : @sqlite_holds identity_zlib queue3 (mkLedger ∅ ∅)).
  { exists abstract0. split_and!; [apply represents_new|constructor|done]. }
  pose proof (@holds_Enqueue SQLiteQueue (@sqlite_queue identity_zlib) (@sqlite_laws identity_zlib identity_zlib_laws)
    7 queue3 (mkLedger ∅ ∅) sample_event Hq0 (conj sample_event_ok sample_event_plain)) as He.
  cbn [eq_Enqueue sqlite_queue] in He.
  destruct (@Enqueue identity_zlib 7 queue3 sample_event) as [q|e] eqn:E.
  - exists q. destruct He as (Hq & Hc & _). split; [reflexivity|]. split; [exact Hq|exact Hc].
  - exfalso. assert (F : is_ok (@Enqueue identity_zlib 7 queue3 sample_event) = true) by (vm_compute; reflexivity).
    rewrite E in F. discriminate F.
Qed.

(** One drain against a server that refuses keeps the event. *)
Lemma push_safe_witness : exists q : SQLiteQueue, @sqlite_holds identity_zlib q ledger1 /\
  exists l', @sqlite_holds identity_zlib (@drain (replies 500 "500 Internal Server Error") _ (@sqlite_queue identity_zlib) client0 10 q world0).1 l'
    /\ exists e, l_entries l' !! event_key sample_event = Some e /\ e_event e = sample_event.
Proof.
  destruct one_event as (q & _ & Hq & Hcap). exists q. split; [exact Hq|].
  destruct (@push_safe (replies 500 "500 Internal Server Error") SQLiteQueue _ (@sqlite_laws identity_zlib identity_zlib_laws) client0 10 q ledger1 world0 Hq)
    as [Hsafe Hdrain].
  specialize (Hdrain I). destruct (drain client0 10 q world0) as [q' w'] eqn:E. destruct (Hsafe _ Hdrain) as (l' & Hl' & Hk & _).
  exists l'. split; [exact Hl'|]. exact (Hk (event_key sample_event) (mkEntry sample_event 0 0 "" 7 7) eq_refl).
Defined.
(** Three refusals exhaust the tries. *)
Lemma worker_terminates_witness : exists q : SQLiteQueue, @sqlite_holds identity_zlib q ledger1 /\ attempts_left 3 ledger1 = 3%nat /\
  exists q' w' l', @StartWorker (replies 500 "500 Internal Server Error") _ (@sqlite_queue identity_zlib) 3 client0 10 q world0 = (q', w')
    /\ @sqlite_holds identity_zlib q' l' /\ l_pending 3 l' = ∅.
Proof.
  destruct one_event as (q & _ & Hq & Hcap). exists q. split; [exact Hq|]. split; [reflexivity|]. rewrite <- Hcap.
  apply (@worker_terminates (replies 500 "500 Internal Server Error") SQLiteQueue _ (@sqlite_laws identity_zlib identity_zlib_laws) client0 10 q ledger1 world0 3
    (fun n => eq_refl)); cbn [cap sqlite_laws]; [lia|exact Hq|exact I|rewrite Hcap; reflexivity].
Defined.
(** One round delivers the event. *)
Lemma worker_delivers_witness : exists q : SQLiteQueue, @sqlite_holds identity_zlib q ledger1 /\
  exists q' w' l', @StartWorker (replies 204 "204 No Content") _ (@sqlite_queue identity_zlib) 1 client0 10 q world0 = (q', w')
    /\ @sqlite_holds identity_zlib q' l' /\ l_pending 3 l' = ∅ /\ delivered w' sample_event.
Proof.
  destruct one_event as (q & _ & Hq & Hcap). exists q. split; [exact Hq|].
  destruct (@worker_delivers (replies 204 "204 No Content") SQLiteQueue _ (@sqlite_laws identity_zlib identity_zlib_laws) client0 10 q ledger1 world0 1)
    as (q' & w' & l' & E & Hq' & He & Hd); cbn [cap sqlite_laws] in *.
  - split; [reflexivity|]. intros n rq. eexists. split; [reflexivity|cbn; lia].
  - reflexivity.
  - exact Hq.
  - exact I.
  - rewrite Hcap. vm_compute. lia.
  - exists q', w', l'. rewrite Hcap in He, Hd. split_and!; [exact E|exact Hq'|exact He|].
    exact (proj2 (Hd (event_key sample_event) (mkEntry sample_event 0 0 "" 7 7) eq_refl)).
Defined.
