(* ===== verification/Stix.v ===== *)
(** * Stix: STIX bundles (internal/intel/stix.go)

    The management side can send indicators as a STIX bundle.  An object
    becomes an indicator when its pattern is one of five forms; the forms are
    regular expressions of the source, here written as scanners and proved to
    accept exactly their languages. *)

From S2P Require Import Prelude GoStrings GoNet Json Codec Events.

(** ** time.Parse with time.RFC3339 *)

Definition digit (c : ascii) : option Z := if (48 <=? bv c) && (bv c <=? 57) then Some (bv c - 48) else None.
(** getnum: one or two digits, two when [fixed]. *)
Definition getnum (fixed : bool) (b : bytes) : option (Z * bytes) :=
  match b with
  | [] => None
  | c :: r =>
      x ← digit c;
      match r with
      | d :: r' => match digit d with Some y => Some (x * 10 + y, r') | None => if fixed then None else Some (x, r) end
      | [] => if fixed then None else Some (x, [])
      end
  end.
Definition four_digits (b : bytes) : option (Z * bytes) :=
  '(x, r) ← getnum true b; '(y, r) ← getnum true r; Some (x * 100 + y, r).
Definition literal (c : Z) (b : bytes) : option bytes :=
  match b with d :: r => if bv d =? c then Some r else None | [] => None end.
Fixpoint skip_digits (b : bytes) : bytes :=
  match b with c :: r => match digit c with Some _ => skip_digits r | None => b end | [] => [] end.
(** A fraction after the seconds: a period or a comma and digits. *)
Definition skip_fraction (b : bytes) : bytes :=
  match b with
  | c :: d :: r => if ((bv c =? 46) || (bv c =? 44)) && bool_decide (is_Some (digit d)) then skip_digits r else b
  | _ => b
  end.
(** "Z" or a signed offset, in seconds. *)
Definition zone (b : bytes) : option (Z * bytes) :=
  match b with
  | c :: r =>
      if bv c =? 90 then Some (0, r)
      else
        sign ← (if bv c =? 43 then Some 1 else if bv c =? 45 then Some (-1) else None);
        '(h, r) ← getnum true r; r ← literal 58 r; '(m, r) ← getnum true r;
        if (24 <? h) || (60 <? m) then None else Some (sign * ((h * 60 + m) * 60), r)
  | [] => None
  end.
Definition leap (y : Z) : bool := (y mod 4 =? 0) && (negb (y mod 100 =? 0) || (y mod 400 =? 0)).
Definition days_in (m y : Z) : Z :=
  if m =? 2 then (if leap y then 29 else 28) else if (m =? 4) || (m =? 6) || (m =? 9) || (m =? 11) then 30 else 31.
(** Days since 1970-01-01 of a date. *)
Definition days_of (y m d : Z) : Z :=
  let y := if m <=? 2 then y - 1 else y in
  let doy := (153 * (if 2 <? m then m - 3 else m + 9) + 2) / 5 + d - 1 in
  let yoe := y mod 400 in
  y / 400 * 146097 + (yoe * 365 + yoe / 4 - yoe / 100 + doy) - 719468.
(** The Unix seconds of the instant. *)
Definition time_ParseRFC3339 (s : string) : option Z :=
  '(y, r) ← four_digits (byt s); r ← literal 45 r;
  '(mo, r) ← getnum true r; r ← literal 45 r;
  '(d, r) ← getnum true r; r ← literal 84 r;
  '(h, r) ← getnum false r; r ← literal 58 r;
  '(mi, r) ← getnum true r; r ← literal 58 r;
  '(sec, r) ← getnum true r;
  '(off, r) ← zone (skip_fraction r);
  match r with
  | _ :: _ => None
  | [] =>
      if (mo <? 1) || (12 <? mo) || (d <? 1) || (days_in mo y <? d) || (23 <? h) || (59 <? mi) || (59 <? sec) then None
      else Some (days_of y mo d * 86400 + h * 3600 + mi * 60 + sec - off)
  end.

Lemma parse_examples :
  time_ParseRFC3339 "2024-02-29T23:59:59Z" = Some 1709251199
  /\ time_ParseRFC3339 "2026-01-01T00:00:00.5+08:00" = Some 1767196800
  /\ time_ParseRFC3339 (format_RFC3339 (1753000000 * 1000000)) = Some 1753000000
  /\ time_ParseRFC3339 "2023-02-29T00:00:00Z" = None /\ time_ParseRFC3339 "2024-02-29" = None.
Proof. vm_compute. done. Qed.

(** ** Patterns *)

(** \s *)
Definition re_space (c : ascii) : bool := (bv c =? 9) || (bv c =? 10) || (bv c =? 12) || (bv c =? 13) || (bv c =? 32).
Fixpoint span (f : ascii -> bool) (b : bytes) : bytes * bytes :=
  match b with
  | c :: r => if f c then let '(x, y) := span f r in (c :: x, y) else ([], b)
  | [] => ([], [])
  end.
Definition skip_space (b : bytes) : bytes := (span re_space b).2.
(** \s+ *)
Definition some_space (b : bytes) : option bytes := match span re_space b with ([], _) => None | (_, r) => Some r end.
Definition strip (lit : string) (b : bytes) : option bytes :=
  if bytes_HasPrefix b (byt lit) then Some (drop (length (byt lit)) b) else None.
Definition not_quote (c : ascii) : bool := negb (bv c =? 39).
(** '([^']+)'\]$ *)
Definition quoted_end (b : bytes) : option bytes :=
  r ← strip "'" b;
  match span not_quote r with
  | ([], _) => None
  | (v, r) => if bool_decide (r = byt "']") then Some v else None
  end.
(** ^\[obj:value\s*=\s*'([^']+)'\]$ *)
Definition re_value (obj : string) (b : bytes) : option bytes :=
  r ← strip ("[" +:+ obj +:+ ":value") b;
  r ← strip "=" (skip_space r);
  quoted_end (skip_space r).
(** ^\[ipv4-addr:value\s+ISSUBSET\s+'([^']+)'\]$ *)
Definition re_subset (b : bytes) : option bytes :=
  r ← strip "[ipv4-addr:value" b; r ← some_space r; r ← strip "ISSUBSET" r; r ← some_space r; quoted_end r.
(** [A-Za-z0-9_-] *)
Definition word (c : ascii) : bool :=
  ((65 <=? bv c) && (bv c <=? 90)) || ((97 <=? bv c) && (bv c <=? 122)) || ((48 <=? bv c) && (bv c <=? 57)) || (bv c =? 95) || (bv c =? 45).
(** (?:'[^']+'|[A-Za-z0-9_-]+) *)
Definition hash_name (b : bytes) : option bytes :=
  match strip "'" b with
  | Some r => match span not_quote r with ([], _) => None | (_, r) => strip "'" r end
  | None => match span word b with ([], _) => None | (_, r) => Some r end
  end.
(** ^\[file:hashes\.(?:'[^']+'|[A-Za-z0-9_-]+)\s*=\s*'([^']+)'\]$ *)
Definition re_hash (b : bytes) : option bytes :=
  r ← strip "[file:hashes." b; r ← hash_name r; r ← strip "=" (skip_space r); quoted_end (skip_space r).

Definition first_of {A : Type} (x y : option A) : option A := match x with Some a => Some a | None => y end.
Definition stixPatterns : list ((bytes -> option bytes) * string) := [
  (fun b => first_of (re_value "ipv4-addr" b) (re_value "ipv6-addr" b), "ip");
  (re_value "domain-name", "domain");
  (re_value "url", "url");
  (re_subset, "cidr");
  (re_hash, "hash")
].
Fixpoint try_patterns (ps : list ((bytes -> option bytes) * string)) (b : bytes) : option (string * string) :=
  match ps with
  | [] => None
  | (re, typ) :: ps => match re b with Some v => Some (typ, str v) | None => try_patterns ps b end
  end.
Definition ParseSTIXPattern (pattern : string) : option (string * string) :=
  try_patterns stixPatterns (byt (strings_TrimSpace pattern)).

(** *** The languages of the expressions *)

Definition spaces (w : bytes) : Prop := Forall (fun c => re_space c = true) w.
(** [^']+ *)
Definition unquoted (v : bytes) : Prop := v <> [] /\ Forall (fun c => not_quote c = true) v.
Definition hash_text (n : bytes) : Prop :=
  (exists x, n = byt "'" ++ x ++ byt "'" /\ unquoted x) \/ (n <> [] /\ Forall (fun c => word c = true) n).
Definition assigned (lhs v b : bytes) : Prop :=
  exists w1 w2, spaces w1 /\ spaces w2 /\ unquoted v /\ b = lhs ++ w1 ++ byt "=" ++ w2 ++ byt "'" ++ v ++ byt "']".
(** [v] is what the group of an expression of type [typ] captures in [b]. *)
Inductive stix_language : string -> bytes -> bytes -> Prop :=
| stix_value obj typ v b : (obj, typ) ∈ [("ipv4-addr", "ip"); ("ipv6-addr", "ip"); ("domain-name", "domain"); ("url", "url")] ->
    assigned (byt ("[" +:+ obj +:+ ":value")) v b -> stix_language typ v b
| stix_subset w1 w2 v : spaces w1 -> w1 <> [] -> spaces w2 -> w2 <> [] -> unquoted v ->
    stix_language "cidr" v (byt "[ipv4-addr:value" ++ w1 ++ byt "ISSUBSET" ++ w2 ++ byt "'" ++ v ++ byt "']")
| stix_hash n v b : hash_text n -> assigned (byt "[file:hashes." ++ n) v b -> stix_language "hash" v b.

Lemma span_spec f b x y : span f b = (x, y) -> b = x ++ y /\ Forall (fun c => f c = true) x /\ (forall c r, y = c :: r -> f c = false).
Proof.
  revert x y. induction b as [|c b IH]; intros x y; cbn; [intros [= <- <-]; by split_and!|].
  destruct (f c) eqn:E.
  - destruct (span f b) as [x' y']. intros [= <- <-]. destruct (IH _ _ eq_refl) as (-> & Hx & Hy). split_and!; [done|by constructor|done].
  - intros [= <- <-]. split_and!; [done|constructor|]. by intros ? ? [= <- <-].
Qed.
Lemma span_app f x y : Forall (fun c => f c = true) x -> (forall c r, y = c :: r -> f c = false) -> span f (x ++ y) = (x, y).
Proof.
  intros Hx Hy. induction Hx as [|c x Hc _ IH]; cbn; [|by rewrite Hc, IH].
  destruct y as [|c y]; [done|]. cbn. by rewrite (Hy c y eq_refl).
Qed.
Lemma strip_Some lit b r : strip lit b = Some r <-> b = byt lit ++ r.
Proof.
  unfold strip. destruct (bytes_HasPrefix b (byt lit)) eqn:E.
  - apply bytes_HasPrefix_spec in E as [x ->]. rewrite drop_app_length. split; [by intros [= ->]|]. intros ?%app_inv_head. by subst.
  - split; [done|]. intros ->. by rewrite bytes_HasPrefix_app in E.
Qed.
Lemma skip_space_spec b : exists w, spaces w /\ b = w ++ skip_space b.
Proof. unfold skip_space. destruct (span re_space b) as [x y] eqn:E. apply span_spec in E as (-> & ? & _). by exists x. Qed.
Lemma skip_space_app w r : spaces w -> (forall c x, r = c :: x -> re_space c = false) -> skip_space (w ++ r) = r.
Proof. intros Hw Hr. unfold skip_space. by rewrite span_app. Qed.
Lemma some_space_Some b r : some_space b = Some r <-> exists w, spaces w /\ w <> [] /\ b = w ++ r /\ (forall c x, r = c :: x -> re_space c = false).
Proof.
  unfold some_space. split.
  - destruct (span re_space b) as [[|c x] y] eqn:E; [done|]. intros [= ->]. apply span_spec in E as (-> & ? & ?). by exists (c :: x).
  - intros (w & Hw & Hne & -> & Hr). rewrite span_app by done. by destruct w.
Qed.
Lemma quoted_end_Some b v : quoted_end b = Some v <-> unquoted v /\ b = byt "'" ++ v ++ byt "']".
Proof.
  unfold quoted_end. split.
  - destruct (strip "'" b) as [r|] eqn:E; cbn [mbind option_bind]; [|done]. apply strip_Some in E as ->.
    destruct (span not_quote r) as [[|c x] y] eqn:Es; [done|]. case_bool_decide as Hy; [|done]. intros [= <-].
    apply span_spec in Es as (-> & Hx & _). by rewrite Hy.
  - intros [[Hne Hv] ->]. rewrite (proj2 (strip_Some "'" _ _) eq_refl). cbn [mbind option_bind].
    rewrite span_app; [|done|by intros c r [= <- <-]]. destruct v as [|c v]; [done|]. by rewrite bool_decide_eq_true_2.
Qed.
(** The scanners accept their languages. *)
Lemma assigned_scan lhs b v :
  (exists r r2, b = lhs ++ r /\ strip "=" (skip_space r) = Some r2 /\ quoted_end (skip_space r2) = Some v) <-> assigned lhs v b.
Proof.
  split.
  - intros (r & r2 & -> & Hr & Hq). apply strip_Some in Hr. apply quoted_end_Some in Hq as [Hv Hq].
    destruct (skip_space_spec r) as (w1 & Hw1 & Er), (skip_space_spec r2) as (w2 & Hw2 & Er2). rewrite Er, Hr, Er2, Hq. by exists w1, w2.
  - intros (w1 & w2 & Hw1 & Hw2 & Hv & ->). eexists _, (w2 ++ byt "'" ++ v ++ byt "']"). split; [reflexivity|]. split.
    + apply strip_Some. apply skip_space_app; [done|]. by intros c x [= <- <-].
    + rewrite skip_space_app; [|done|by intros c x [= <- <-]]. by apply quoted_end_Some.
Qed.
Lemma re_value_Some obj b v : re_value obj b = Some v <-> assigned (byt ("[" +:+ obj +:+ ":value")) v b.
Proof.
  rewrite <- assigned_scan. unfold re_value. split.
  - destruct (strip _ b) as [r|] eqn:E; cbn [mbind option_bind]; [|done]. apply strip_Some in E as ->.
    destruct (strip "=" (skip_space r)) as [r2|] eqn:E2; cbn [mbind option_bind]; [|done]. intros Hq. by exists r, r2.
  - intros (r & r2 & -> & Hr & Hq). rewrite (proj2 (strip_Some _ _ r) eq_refl). cbn [mbind option_bind]. rewrite Hr. cbn [mbind option_bind]. done.
Qed.
Lemma re_subset_Some b v : re_subset b = Some v <->
  exists w1 w2, spaces w1 /\ w1 <> [] /\ spaces w2 /\ w2 <> [] /\ unquoted v /\ b = byt "[ipv4-addr:value" ++ w1 ++ byt "ISSUBSET" ++ w2 ++ byt "'" ++ v ++ byt "']".
Proof.
  unfold re_subset. split.
  - destruct (strip _ b) as [r|] eqn:E; cbn [mbind option_bind]; [|done]. apply strip_Some in E as ->.
    destruct (some_space r) as [r2|] eqn:E2; cbn [mbind option_bind]; [|done]. apply some_space_Some in E2 as (w1 & Hw1 & Hn1 & -> & _).
    destruct (strip "ISSUBSET" r2) as [r3|] eqn:E3; cbn [mbind option_bind]; [|done]. apply strip_Some in E3 as ->.
    destruct (some_space r3) as [r4|] eqn:E4; cbn [mbind option_bind]; [|done]. apply some_space_Some in E4 as (w2 & Hw2 & Hn2 & -> & _).
    intros [Hv ->]%quoted_end_Some. by exists w1, w2.
  - intros (w1 & w2 & Hw1 & Hn1 & Hw2 & Hn2 & Hv & ->). rewrite (proj2 (strip_Some _ _ _) eq_refl). cbn [mbind option_bind].
    erewrite (proj2 (some_space_Some _ _)); [|exists w1; split_and!; [done|done|reflexivity|by intros c x [= <- <-]]]. cbn [mbind option_bind].
    rewrite (proj2 (strip_Some "ISSUBSET" _ _) eq_refl). cbn [mbind option_bind].
    erewrite (proj2 (some_space_Some _ _)); [|exists w2; split_and!; [done|done|reflexivity|by intros c x [= <- <-]]]. cbn [mbind option_bind].
    by apply quoted_end_Some.
Qed.
Lemma hash_name_spec b r : hash_name b = Some r -> exists n, hash_text n /\ b = n ++ r.
Proof.
  unfold hash_name. destruct (strip "'" b) as [r1|] eqn:E.
  - apply strip_Some in E as ->. destruct (span not_quote r1) as [[|c x] y] eqn:Es; [done|]. apply span_spec in Es as (-> & Hx & _).
    intros ->%strip_Some. exists (byt "'" ++ (c :: x) ++ byt "'"). split; [left; by exists (c :: x)|]. by rewrite <- !app_assoc.
  - destruct (span word b) as [[|c x] y] eqn:Es; [done|]. intros [= ->]. apply span_spec in Es as (-> & Hx & _). exists (c :: x). split; [by right|done].
Qed.
Lemma hash_name_app n r : hash_text n -> (forall c x, r = c :: x -> word c = false) -> hash_name (n ++ r) = Some r.
Proof.
  intros [(x & -> & Hne & Hx)|[Hne Hn]] Hr; unfold hash_name.
  - rewrite <- !app_assoc, (proj2 (strip_Some "'" _ _) eq_refl). rewrite span_app; [|done|by intros c y [= <- <-]].
    destruct x; [done|]. by apply strip_Some.
  - assert (strip "'" (n ++ r) = None) as ->.
    { destruct (strip "'" (n ++ r)) as [y|] eqn:E; [|done]. apply strip_Some in E. destruct n as [|c n]; [done|]. injection E as -> _. by apply Forall_cons in Hn as [Hn _]. }
    rewrite span_app by done. by destruct n.
Qed.
Lemma re_hash_Some b v : re_hash b = Some v <-> exists n, hash_text n /\ assigned (byt "[file:hashes." ++ n) v b.
Proof.
  unfold re_hash. split.
  - destruct (strip _ b) as [r|] eqn:E; cbn [mbind option_bind]; [|done]. apply strip_Some in E as ->.
    destruct (hash_name r) as [r1|] eqn:E1; cbn [mbind option_bind]; [|done]. apply hash_name_spec in E1 as (n & Hn & ->).
    destruct (strip "=" (skip_space r1)) as [r2|] eqn:E2; cbn [mbind option_bind]; [|done]. intros Hq. exists n. split; [done|].
    apply assigned_scan. exists r1, r2. by rewrite <- app_assoc.
  - intros (n & Hn & w1 & w2 & Hw1 & Hw2 & Hv & ->). rewrite <- app_assoc, (proj2 (strip_Some _ _ _) eq_refl). cbn [mbind option_bind].
    rewrite hash_name_app; [|done|].
    2:{ intros c x. destruct w1 as [|d w1]; intros [= <- _]; [done|]. apply Forall_cons in Hw1 as [Hd _].
        unfold re_space in Hd. unfold word. repeat (apply orb_prop in Hd as [Hd|Hd]); apply Z.eqb_eq in Hd; by rewrite Hd. }
    cbn [mbind option_bind]. assert (Ha : assigned [] v (w1 ++ byt "=" ++ w2 ++ byt "'" ++ v ++ byt "']")) by (by exists w1, w2).
    apply assigned_scan in Ha as (r & r2 & E & Hr & Hq). change ([] ++ r) with r in E. subst r. rewrite Hr. done.
Qed.

(** Texts with different beginnings are not confused. *)
Lemma assigned_prefix lhs v b : assigned lhs v b -> exists r, b = lhs ++ r.
Proof. intros (w1 & w2 & _ & _ & _ & ->). eauto. Qed.
Lemma try_sound b typ v : try_patterns stixPatterns b = Some (typ, v) -> stix_language typ (byt v) b.
Proof.
  unfold stixPatterns. cbn [try_patterns]. destruct (re_value "ipv4-addr" b) as [x|] eqn:E1; cbn [first_of].
  { intros [= <- <-]. rewrite byt_str. apply re_value_Some in E1. eapply stix_value; [|exact E1]. set_solver. }
  destruct (re_value "ipv6-addr" b) as [x|] eqn:E2; cbn [first_of].
  { intros [= <- <-]. rewrite byt_str. apply re_value_Some in E2. eapply stix_value; [|exact E2]. set_solver. }
  destruct (re_value "domain-name" b) as [x|] eqn:E3.
  { intros [= <- <-]. rewrite byt_str. apply re_value_Some in E3. eapply stix_value; [|exact E3]. set_solver. }
  destruct (re_value "url" b) as [x|] eqn:E4.
  { intros [= <- <-]. rewrite byt_str. apply re_value_Some in E4. eapply stix_value; [|exact E4]. set_solver. }
  destruct (re_subset b) as [x|] eqn:E5.
  { intros [= <- <-]. rewrite byt_str. apply re_subset_Some in E5 as (w1 & w2 & ? & ? & ? & ? & ? & ->). by constructor. }
  destruct (re_hash b) as [x|] eqn:E6; [|done]. intros [= <- <-]. rewrite byt_str. apply re_hash_Some in E6 as (n & Hn & Ha). by eapply stix_hash.
Qed.
(** Scanners on texts of other forms. *)
Lemma re_value_other obj b r lit : b = byt lit ++ r -> negb (bytes_HasPrefix (byt lit) (byt ("[" +:+ obj +:+ ":value")))
  && negb (bytes_HasPrefix (byt ("[" +:+ obj +:+ ":value")) (byt lit)) = true -> re_value obj b = None.
Proof.
  intros -> Hc. apply andb_prop in Hc as [H1%negb_true_iff H2%negb_true_iff]. destruct (re_value obj _) as [v|] eqn:E; [|done]. exfalso.
  apply re_value_Some, assigned_prefix in E as [y E]. set (p := byt lit) in *. set (q := byt ("[" +:+ obj +:+ ":value")) in *.
  destruct (decide (length p <= length q)%nat) as [Hle|Hle].
  - assert (Hq : q = p ++ drop (length p) q).
    { rewrite <- (take_drop (length p) q) at 1. f_equal. transitivity (take (length p) (q ++ y)); [by rewrite take_app_le|]. by rewrite <- E, take_app_length. }
    rewrite Hq, bytes_HasPrefix_app in H2. done.
  - assert (Hp : p = q ++ drop (length q) p).
    { rewrite <- (take_drop (length q) p) at 1. f_equal. transitivity (take (length q) (p ++ r)); [by rewrite take_app_le by lia|]. by rewrite E, take_app_length. }
    rewrite Hp, bytes_HasPrefix_app in H1. done.
Qed.
Lemma try_complete b typ v : stix_language typ v b -> try_patterns stixPatterns b = Some (typ, str v).
Proof.
  intros Hl. unfold stixPatterns. cbn [try_patterns].
  destruct Hl as [obj typ v b Hobj Ha|w1 w2 v Hw1 Hn1 Hw2 Hn2 Huv|n v b Hn Ha].
  - apply assigned_prefix in Ha as Hp. destruct Hp as [r Er]. apply re_value_Some in Ha.
    rewrite !elem_of_cons, elem_of_nil in Hobj. destruct Hobj as [[= -> ->]|[[= -> ->]|[[= -> ->]|[[= -> ->]|[]]]]].
    + by rewrite Ha.
    + by rewrite (re_value_other "ipv4-addr" b r _ Er), Ha by reflexivity.
    + by rewrite (re_value_other "ipv4-addr" b r _ Er), (re_value_other "ipv6-addr" b r _ Er), Ha by reflexivity.
    + by rewrite (re_value_other "ipv4-addr" b r _ Er), (re_value_other "ipv6-addr" b r _ Er), (re_value_other "domain-name" b r _ Er), Ha by reflexivity.
  - match goal with |- context [first_of (re_value _ ?x)] => set (b := x) end.
    assert (E4 : re_value "ipv4-addr" b = None).
    { unfold re_value. unfold b. rewrite (proj2 (strip_Some _ _ _) eq_refl). cbn [mbind option_bind].
      rewrite skip_space_app; [done|done|by intros c x [= <- <-]]. }
    pose proof (eq_refl b) as Er. unfold b in Er at 2.
    rewrite E4, (re_value_other "ipv6-addr" b _ _ Er), (re_value_other "domain-name" b _ _ Er), (re_value_other "url" b _ _ Er) by reflexivity. cbn [first_of].
    by rewrite (proj2 (re_subset_Some b v)) by (by exists w1, w2).
  - apply assigned_prefix in Ha as Hp. destruct Hp as [r Er]. rewrite <- app_assoc in Er.
    assert (E5 : re_subset b = None).
    { unfold re_subset. destruct (strip "[ipv4-addr:value" b) as [x|] eqn:E; [|done]. exfalso. apply strip_Some in E. rewrite Er in E. discriminate E. }
    rewrite (re_value_other "ipv4-addr" b _ _ Er), (re_value_other "ipv6-addr" b _ _ Er), (re_value_other "domain-name" b _ _ Er), (re_value_other "url" b _ _ Er), E5 by reflexivity.
    cbn [first_of]. by rewrite (proj2 (re_hash_Some b v)) by (by exists n).
Qed.

(** ** Objects *)

Record STIXObject := mkSTIXObject {
  so_Type : string;
  so_ID : string;
  so_Pattern : string;
  so_Labels : list string;
  so_Confidence : Z;
  so_Description : string;
  so_ValidFrom : string;
  so_ValidUntil : string
}.
#[global] Instance settable_STIXObject : Settable STIXObject := fun o =>
  mkSTIXObject (so_Type o) (so_ID o) (so_Pattern o) (so_Labels o) (so_Confidence o) (so_Description o) (so_ValidFrom o) (so_ValidUntil o).
Definition zero_STIXObject : STIXObject := mkSTIXObject "" "" "" [] 0 "" "" "".
Record STIXEnvelope := mkSTIXEnvelope { sv_Type : string; sv_Objects : list STIXObject }.
#[global] Instance settable_STIXEnvelope : Settable STIXEnvelope := fun v => mkSTIXEnvelope (sv_Type v) (sv_Objects v).
Definition zero_STIXEnvelope : STIXEnvelope := mkSTIXEnvelope "" [].
Record STIXParseResult := mkSTIXResult { sr_Items : list ThreatIntel; sr_Skipped : Z; sr_Errors : list string }.

Definition fields_STIXObject : list (field STIXObject) := [
  req "type" jstring so_Type;
  req "id" jstring so_ID;
  req "pattern" jstring so_Pattern;
  req "labels" (jslice jstring) so_Labels;
  req "confidence" jint64 so_Confidence;
  req "description" jstring so_Description;
  req "valid_from" jstring so_ValidFrom;
  req "valid_until" jstring so_ValidUntil
].
Lemma spec_STIXObject : struct_spec fields_STIXObject zero_STIXObject.
Proof. struct_by_fields. Qed.
Definition fields_STIXEnvelope : list (field STIXEnvelope) := [
  req "type" jstring sv_Type;
  req "objects" (jslice (jstruct spec_STIXObject)) sv_Objects
].
Lemma spec_STIXEnvelope : struct_spec fields_STIXEnvelope zero_STIXEnvelope.
Proof. struct_by_fields. Qed.

(** json.NewDecoder(r).Decode(&env): the first value of the input. *)
Definition decode_envelope (b : bytes) : option STIXEnvelope :=
  let t := skip_ws b in
  r ← scan_value t;
  json_into_struct zero_STIXEnvelope (struct_member fields_STIXEnvelope) (before t r).

(** ** Classification *)

Definition severityFromConfidence (confidence : Z) : string :=
  if 90 <=? confidence then "critical" else if 70 <=? confidence then "high" else if 40 <=? confidence then "medium" else "low".

Definition orderedLabels : list (string * string) := [
  ("c2", "c2"); ("ransomware", "ransomware"); ("phishing", "phishing"); ("malware", "malware"); ("botnet", "botnet"); ("exploit", "exploit");
  ("webshell", "webshell"); ("scanner", "scanner"); ("network_activity", "network_activity"); ("command_and_control", "c2"); ("c2_server", "c2");
  ("trojan", "malware"); ("stealer", "malware"); ("backdoor", "malware"); ("rat", "malware"); ("spyware", "malware"); ("dropper", "malware");
  ("loader", "malware"); ("keylogger", "malware"); ("worm", "malware"); ("rootkit", "malware"); ("banker", "malware"); ("ddos", "botnet");
  ("spam", "botnet"); ("proxy", "botnet"); ("credential_phishing", "phishing"); ("spear_phishing", "phishing"); ("whaling", "phishing");
  ("smishing", "phishing"); ("vishing", "phishing"); ("sql_injection", "exploit"); ("sqli", "exploit"); ("xss", "exploit"); ("rce", "exploit");
  ("lfi", "exploit"); ("csrf", "exploit"); ("ssrf", "exploit"); ("port_scan", "scanner"); ("vulnerability_scan", "scanner"); ("reconnaissance", "scanner")
].
(** The first pair, in the order of the table, that some label satisfies. *)
Definition find_label (test : string -> string -> bool) (labels : list string) : option string :=
  snd <$> List.find (fun pair => existsb (fun label => test label pair.1) labels) orderedLabels.

Section stix.
Context `{GoUnicode}.

Definition categoryFromLabels (labels : list string) : string :=
  let normalized := (fun label => strings_ToLower (strings_TrimSpace label)) <$> labels in
  match find_label seqb normalized with
  | Some category => category
  | None =>
      match find_label strings_Contains normalized with
      | Some category => category
      | None => default "unknown" (List.find (fun label => negb (seqb label "")) normalized)
      end
  end.

Definition day : Z := 86400.
Definition defaultTTL (typ category : string) : Z :=
  if seqb typ "url" && seqb category "phishing" then 3 * day
  else if seqb typ "url" && seqb category "malware" then 7 * day
  else if seqb typ "ip" && seqb category "c2" then 14 * day
  else if seqb typ "ip" && seqb category "scanner" then 3 * day
  else if seqb typ "ip" && seqb category "botnet" then 30 * day
  else if seqb typ "domain" && seqb category "malware" then 30 * day
  else if seqb typ "cidr" && seqb category "scanner" then 3 * day
  else if seqb typ "hash" && seqb category "malware" then 180 * day
  else 30 * day.

(** ** Conversion *)

Definition STIXIndicatorToThreatIntel (now : Z) (obj : STIXObject) (defaultSource : string) : option ThreatIntel :=
  if negb (seqb (strings_ToLower (so_Type obj)) "indicator") then None
  else
    match ParseSTIXPattern (so_Pattern obj) with
    | None => None
    | Some (typ, value) =>
        let expireAt := if negb (seqb (so_ValidUntil obj) "") then default 0 (time_ParseRFC3339 (so_ValidUntil obj)) else 0 in
        let category := categoryFromLabels (so_Labels obj) in
        let expireAt := if expireAt =? 0 then i64 (now + defaultTTL typ category) else expireAt in
        let source := strings_TrimSpace defaultSource in
        let source := if seqb source "" then "Threat Intel Hub" else source in
        let id := if seqb (so_ID obj) "" then "stix-" +:+ typ +:+ "-" +:+ value else so_ID obj in
        Some (zero_ThreatIntel <| ti_ID := id |> <| ti_Type := typ |> <| ti_Value := value |> <| ti_Category := category |>
                <| ti_Severity := severityFromConfidence (so_Confidence obj) |> <| ti_Source := source |>
                <| ti_Description := so_Description obj |> <| ti_Tags := so_Labels obj |> <| ti_Enabled := true |>
                <| ti_CreatedAt := now |> <| ti_UpdatedAt := now |> <| ti_ExpireAt := expireAt |>)
    end.
(** [now i] is the clock when the object with index [i] is converted. *)
Fixpoint convert_all (now : nat -> Z) (i : nat) (defaultSource : string) (result : STIXParseResult) (objs : list STIXObject) : STIXParseResult :=
  match objs with
  | [] => result
  | obj :: objs =>
      let result :=
        match STIXIndicatorToThreatIntel (now i) obj defaultSource with
        | None => mkSTIXResult (sr_Items result) (sr_Skipped result + 1)
                    (if negb (seqb (so_ID obj) "") then sr_Errors result ++ ["skipped " +:+ so_ID obj] else sr_Errors result)
        | Some it => mkSTIXResult (sr_Items result ++ [it]) (sr_Skipped result) (sr_Errors result)
        end in
      convert_all now (S i) defaultSource result objs
  end.
Definition ParseSTIXIndicators (now : nat -> Z) (b : bytes) (defaultSource : string) : option STIXParseResult :=
  env ← decode_envelope b;
  Some (convert_all now 0 defaultSource (mkSTIXResult [] 0 []) (sv_Objects env)).
End stix.

(** ** Theorems *)

Definition bundle_text (env : STIXEnvelope) : bytes := json_Marshal (struct_value fields_STIXEnvelope env).
Lemma decode_bundle env : struct_ok fields_STIXEnvelope env -> decode_envelope (bundle_text env) = Some env.
Proof.
  intros Hok. unfold decode_envelope, bundle_text. set (t := json_Marshal _).
  assert (Ht : jtext t) by (apply json_Marshal_jtext, (struct_value_ok _ zero_STIXEnvelope); [apply spec_STIXEnvelope|done]).
  pose proof (skip_ws_jtext t [] Ht) as E1. pose proof (scan_value_jtext t [] Ht I) as E2. pose proof (before_app t []) as E3.
  rewrite !app_nil_r in *. cbv zeta. rewrite E1, E2. cbn [mbind option_bind]. rewrite E3. apply struct_unmarshal; [apply spec_STIXEnvelope|done].
Qed.

Section theorems.
Context `{GoUnicode}.

(** The objects with their indexes. *)
Definition numbered (i : nat) (objs : list STIXObject) : list (nat * STIXObject) := zip (seq i (length objs)) objs.
Definition converted (now : nat -> Z) (src : string) (p : nat * STIXObject) : option ThreatIntel := STIXIndicatorToThreatIntel (now p.1) p.2 src.
Lemma convert_all_spec now i src res objs :
  let r := convert_all now i src res objs in
  let its := omap (converted now src) (numbered i objs) in
  sr_Items r = sr_Items res ++ its /\ len (sr_Items r) + sr_Skipped r = len (sr_Items res) + sr_Skipped res + len objs.
Proof.
  revert i res. induction objs as [|obj objs IH]; intros i res; [cbn; rewrite app_nil_r; split; [done|]; change (len []) with 0; lia|].
  cbn [convert_all numbered length seq zip zip_with]. cbn [omap list_omap]. unfold converted at 1. cbn [fst snd]. cbv zeta.
  destruct (STIXIndicatorToThreatIntel (now i) obj src) as [it|]; destruct (IH (S i)
    (mkSTIXResult (sr_Items res ++ [it]) (sr_Skipped res) (sr_Errors res))) as [E1 E2] || destruct (IH (S i) (mkSTIXResult (sr_Items res) (sr_Skipped res + 1)
    (if negb (seqb (so_ID obj) "") then sr_Errors res ++ ["skipped " +:+ so_ID obj] else sr_Errors res))) as [E1 E2]; cbn [sr_Items sr_Skipped] in E1, E2;
    unfold len in *; rewrite ?length_app in *; cbn [length] in *; (split; [rewrite E1; by rewrite <- ?app_assoc|lia]).
Qed.
Lemma defaultTTL_bounds typ category : 3 * day <= defaultTTL typ category <= 180 * day.
Proof. unfold defaultTTL, day. repeat case_if; lia. Qed.
Lemma convert_spec now obj src it : STIXIndicatorToThreatIntel now obj src = Some it ->
  strings_ToLower (so_Type obj) = "indicator" /\ stix_language (ti_Type it) (byt (ti_Value it)) (byt (strings_TrimSpace (so_Pattern obj)))
  /\ ti_Enabled it = true /\ ti_CreatedAt it = now
  /\ (forall t, time_ParseRFC3339 (so_ValidUntil obj) = Some t -> t <> 0 -> ti_ExpireAt it = t)
  /\ (so_ValidUntil obj = "" -> 0 <= now < 2 ^ 62 -> now + 3 * day <= ti_ExpireAt it <= now + 180 * day).
Proof.
  unfold STIXIndicatorToThreatIntel. destruct (seqb (strings_ToLower (so_Type obj)) "indicator") eqn:Et; cbn [negb]; [|done].
  destruct (ParseSTIXPattern (so_Pattern obj)) as [[typ v]|] eqn:Ep; [|done]. intros [= <-]. cbn [ti_Type ti_Value ti_Enabled ti_CreatedAt ti_ExpireAt upd].
  apply seqb_spec in Et. split_and!; [done|by apply try_sound|done|done| |].
  - intros t Hpt Hne. destruct (seqb (so_ValidUntil obj) "") eqn:E; cbn [negb].
    + apply seqb_spec in E. rewrite E in Hpt. discriminate Hpt.
    + rewrite Hpt. cbn [from_option]. unfold id. rewrite (proj2 (Z.eqb_neq t 0) Hne). reflexivity.
  - intros -> Hn. change (seqb "" "") with true. cbn [negb]. change (0 =? 0) with true. cbv iota. pose proof (defaultTTL_bounds typ (categoryFromLabels (so_Labels obj))) as Hb. unfold i64, day in *. rewrite Z.mod_small; lia.
Qed.

(** C35.  A pattern is accepted exactly when it is of one of the five forms:
    ParseSTIXPattern answers with a type and a value if and only if the trimmed
    text is in the language of the expression of that type with the value as
    its group; the forms do not overlap, so the answer is the only one
    possible. *)
Theorem ParseSTIXPattern_exact pattern typ v :
  ParseSTIXPattern pattern = Some (typ, v) <-> stix_language typ (byt v) (byt (strings_TrimSpace pattern)).
Proof.
  unfold ParseSTIXPattern. split; [apply try_sound|]. intros Hl. rewrite (try_complete _ _ _ Hl). by rewrite str_byt.
Qed.

(** Importing a bundle: from the text of any bundle the decoder restores
    the objects, every object is either imported, in its place, or counted as
    skipped, and what is imported comes from an indicator with a pattern of its
    type, is enabled, and expires when the object says so, otherwise between 3
    and 180 days after the import. *)
Theorem stix_import now env src : struct_ok fields_STIXEnvelope env ->
  exists r, ParseSTIXIndicators now (bundle_text env) src = Some r
  /\ len (sr_Items r) + sr_Skipped r = len (sv_Objects env)
  /\ sr_Items r = omap (converted now src) (numbered 0 (sv_Objects env))
  /\ forall it, it ∈ sr_Items r -> exists i obj, obj ∈ sv_Objects env /\ strings_ToLower (so_Type obj) = "indicator"
       /\ stix_language (ti_Type it) (byt (ti_Value it)) (byt (strings_TrimSpace (so_Pattern obj)))
       /\ ti_Enabled it = true /\ ti_CreatedAt it = now i
       /\ (forall t, time_ParseRFC3339 (so_ValidUntil obj) = Some t -> t <> 0 -> ti_ExpireAt it = t)
       /\ (so_ValidUntil obj = "" -> 0 <= now i < 2 ^ 62 -> now i + 3 * day <= ti_ExpireAt it <= now i + 180 * day).
Proof.
  intros Hok. unfold ParseSTIXIndicators. rewrite decode_bundle by done. cbn [mbind option_bind].
  destruct (convert_all_spec now 0 src (mkSTIXResult [] 0 []) (sv_Objects env)) as [Hits Hlen]. cbn [sr_Items sr_Skipped app] in Hits, Hlen.
  eexists. split; [done|]. split; [change (len []) with 0 in Hlen; lia|]. split; [done|]. intros it. rewrite Hits.
  intros ([i obj] & Hin & Hc)%list_elem_of_omap. exists i, obj. split; [by eapply elem_of_zip_r|]. by eapply convert_spec in Hc.
Qed.
End theorems.

#[local] Existing Instance ascii_unicode.

Definition demo_object : STIXObject :=
  zero_STIXObject <| so_Type := "indicator" |> <| so_ID := "indicator--1" |> <| so_Pattern := " [ipv4-addr:value = '198.51.100.7'] " |>
    <| so_Labels := ["C2"] |> <| so_Confidence := 75 |>.
Definition demo_bundle : STIXEnvelope := mkSTIXEnvelope "bundle" [demo_object; zero_STIXObject <| so_Type := "malware" |> <| so_ID := "malware--1" |>].
Lemma stix_import_witness :
  exists r, ParseSTIXIndicators (fun _ => 1000) (bundle_text demo_bundle) "" = Some r /\ len (sr_Items r) + sr_Skipped r = 2
  /\ ti_Value <$> sr_Items r = ["198.51.100.7"] /\ ti_ExpireAt <$> sr_Items r = [1000 + 14 * 86400].
Proof.
  destruct (stix_import (fun _ => 1000) demo_bundle "") as (r & E & Hl & Hi & _).
  - apply (bool_decide_unpack (struct_ok fields_STIXEnvelope demo_bundle)). vm_compute. exact I.
  - exists r. split; [exact E|]. split; [exact Hl|]. rewrite Hi. split; vm_compute; reflexivity.
Defined.

(** A label is searched for the words of the table anywhere in it, and "rce" is
    in "source": an unknown label is then not kept. *)
Theorem category_of_source : categoryFromLabels ["open source"] = "exploit" /\ categoryFromLabels ["exfiltration"] = "malware".
Proof. split; vm_compute; reflexivity. Qed.
