(* ===== verification/Archive.v ===== *)
(** * Archive: moving acknowledged events into segments (internal/queue/maintenance.go, recovery.go)

    Archive copies a batch of pushed events into a new database file, checks
    the copy and only then removes the events from the queue, in the
    transaction that publishes the segment; RecoverArchives clears up after an
    interrupted run.  Copying reads the queue while other operations go on, so
    the two halves, [archive_prepare] and [archive_publish], work on two states
    of the queue.  The segments are files; failures of file operations are not
    modelled, a missing file is. *)

From S2P Require Import Prelude GoStrings GoNet Events Json AnyJson Codec EventJson Content Queue.

(** ** Copying *)

Section copy.
Context `{GoZlib}.

(** The loop over the children of a node. *)
Fixpoint visit_all (rec : objectWriter -> gset string -> string -> res (objectWriter * gset string))
    (w : objectWriter) (done : gset string) (l : list string) : res (objectWriter * gset string) :=
  match l with
  | [] => Ok (w, done)
  | c :: r => '(w, done) ← rec w done c; visit_all rec w done r
  end.
(** [left] is 257 less the depth. *)
Fixpoint visit (left : nat) (src : content_db) (visiting : gset string) (w : objectWriter) (done : gset string) (id : string) :
    res (objectWriter * gset string) :=
  if bool_decide (id ∈ done) then Ok (w, done)
  else
    match left with
    | O => Err "invalid content graph"
    | S l =>
        if bool_decide (id ∈ visiting) then Err "invalid content graph"
        else
          match readObject src id with
          | ObjMissing => Err "sql: no rows in result set"
          | ObjErr e => Err e
          | ObjOk raw =>
              match decodeNode raw with
              | None => Err "json"
              | Some n =>
                  '(w, done) ← visit_all (visit l src ({[id]} ∪ visiting)) w done (nodeRefs n);
                  '(f, w) ← save w n;
                  if negb (seqb (fr_Ref f) id) then Err "noncanonical content"
                  else Ok (w, {[id]} ∪ done)
              end
          end
    end.
Definition copyPayload (src dst : content_db) (payload : bytes) : res (bytes * content_db) :=
  root ← payloadRoot payload;
  if seqb root "" then
    match decode_any payload with
    | None => Err "json"
    | Some v => encodePayload dst v
    end
  else
    '(w, _) ← visit 257 src ∅ (mkWriter dst ∅) ∅ root;
    Ok (payload, ow_tx w).

(** ** Segments *)

(** A row goes to its place in the order of the primary key. *)
Fixpoint insert_by_id (r : record) (rows : list record) : list record :=
  match rows with
  | [] => [r]
  | x :: rest => if r_ID r <? r_ID x then r :: x :: rest else x :: insert_by_id r rest
  end.
Definition insertRecord (d : queue_db) (r : record) : res queue_db :=
  if existsb (fun x => (r_ID x =? r_ID r) || seqb (r_Key x) (r_Key r)) (db_rows d) then Err "UNIQUE constraint failed: event_queue"
  else
    let d := d <| db_rows ::= insert_by_id r |> <| db_seq ::= Z.max (r_ID r) |> in
    b ← decodePayload (db_content d) (r_Payload r);
    match unmarshal_event b with
    | None => Err "json"
    | Some ev => registerRoot (saveSummary d (r_Key r) ev) (r_Key r) (r_Payload r)
    end.

(** SELECT ... WHERE status=2 AND updated_at<? ORDER BY id LIMIT ? *)
Definition archive_select (before limit : Z) (d : queue_db) : list record :=
  take (Z.to_nat limit) (List.filter (fun r => (r_Status r =? 2) && (r_Updated r <? before)) (db_rows d)).
(** [ctx i]: the context is cancelled when record [i] is reached. *)
Fixpoint copy_records (ctx : nat -> bool) (i : nat) (src dest : queue_db) (rs : list record) : res queue_db :=
  match rs with
  | [] => Ok dest
  | r :: rest =>
      if ctx i then Err "context canceled"
      else
        match row_at src (r_ID r) with
        | None => Err "sql: no rows in result set"
        | Some x =>
            '(payload, content) ← copyPayload (db_content src) (db_content dest) (r_Payload x);
            dest ← insertRecord (dest <| db_content := content |>) (r <| r_Payload := payload |>);
            copy_records ctx (S i) src dest rest
        end
  end.
(** The columns that are compared besides the payload. *)
Definition same_columns (a b : record) : bool :=
  seqb (r_Key a) (r_Key b) && (r_Time a =? r_Time b) && (r_Status a =? r_Status b) && (r_Retry a =? r_Retry b)
  && seqb (r_Error a) (r_Error b) && (r_Created a =? r_Created b) && (r_Updated a =? r_Updated b).
Definition verify_record (src seg : queue_db) (r : record) : res unit :=
  match row_at seg (r_ID r), row_at src (r_ID r) with
  | Some saved, Some x =>
      original ← decodePayload (db_content src) (r_Payload x);
      restored ← decodePayload (db_content seg) (r_Payload saved);
      if negb (jsonEqual original restored) || negb (same_columns saved r) then Err "archive verification failed" else Ok tt
  | _, _ => Err "sql: no rows in result set"
  end.
Fixpoint verify_records (src seg : queue_db) (rs : list record) : res unit :=
  match rs with
  | [] => Ok tt
  | r :: rest => _ ← verify_record src seg r; verify_records src seg rest
  end.

(** The first half: select, copy into the database at the new path, verify.
    [None] when nothing is to be archived. *)
Definition archive_prepare (ctx : nat -> bool) (file : option queue_db) (path : string) (before limit : Z) (d : queue_db) :
    res (option (list record * queue_db)) :=
  match archive_select before limit d with
  | [] => Ok None
  | rs =>
      segment ← OpenSQLite file path "v2";
      seg ← copy_records ctx 0 d (q_db segment) rs;
      _ ← verify_records d seg rs;
      Ok (Some (rs, seg))
  end.

(** The second half, one transaction. *)
Definition unchanged (current r : record) : bool :=
  seqb (r_Key current) (r_Key r) && (r_Status current =? r_Status r) && (r_Retry current =? r_Retry r)
  && (r_Updated current =? r_Updated r) && (r_Created current =? r_Created r) && seqb (r_Error current) (r_Error r).
Fixpoint check_unchanged (d : queue_db) (rs : list record) : res unit :=
  match rs with
  | [] => Ok tt
  | r :: rest =>
      match row_at d (r_ID r) with
      | None => Err "sql: no rows in result set"
      | Some current => if negb (unchanged current r) then Err "source record changed during archive" else check_unchanged d rest
      end
  end.
Definition archive_record (path : string) (d : queue_db) (r : record) : res queue_db :=
  if bool_decide (is_Some (db_archived d !! r_Key r)) then Err "UNIQUE constraint failed: queue_archived"
  else Ok (d <| db_archived ::= <[r_Key r := (path, r_ID r)]> |> <| db_summary ::= delete (r_Key r) |> <| db_roots ::= delete (r_Key r) |>
             <| db_rows ::= List.filter (fun x => negb ((r_ID x =? r_ID r) && (r_Status x =? 2))) |>).
Fixpoint archive_records (path : string) (d : queue_db) (rs : list record) : res queue_db :=
  match rs with
  | [] => Ok d
  | r :: rest => d ← archive_record path d r; archive_records path d rest
  end.
Definition archive_publish (path : string) (rs : list record) (d : queue_db) : res queue_db :=
  _ ← check_unchanged d rs;
  match rs, last rs with
  | first :: _, Some final =>
      if bool_decide (is_Some (db_archives d !! path)) then Err "UNIQUE constraint failed: queue_archives"
      else archive_records path (d <| db_archives ::= <[path := (r_ID first, r_ID final)]> |>) rs
  | _, _ => Ok d
  end.
End copy.

(** ** Paths and recovery *)

Definition drop_slashes (b : bytes) : bytes := (fix go (b : bytes) := match b with c :: r => if bv c =? 47 then go r else b | [] => [] end) b.
Definition until_slash (b : bytes) : bytes := (fix go (b : bytes) := match b with c :: r => if bv c =? 47 then [] else c :: go r | [] => [] end) b.
Definition filepath_Base (p : string) : string :=
  if seqb p "" then "."
  else match drop_slashes (rev (byt p)) with
       | [] => "/"
       | b => str (rev (until_slash b))
       end.
Definition filepath_IsAbs (p : string) : bool := strings_HasPrefix p "/".
(** filepath.Join of an absolute directory in cleaned form and a file name. *)
Definition filepath_Join (dir name : string) : string := if seqb dir "/" then "/" +:+ name else dir +:+ "/" +:+ name.

(** github.com/google/uuid: whether Parse accepts a string. *)
Class GoUUID := { uuid_Parse : string -> bool }.
Notation disk := (gmap string queue_db).

Section recover.
Context `{GoUUID}.

Definition archive_name (id : string) : string := "queue-" +:+ id +:+ ".db".
Definition recover_path (d : queue_db) (files : disk) (p : string) : res (queue_db * disk) :=
  let name := filepath_Base p in
  let id := strings_TrimSuffix (strings_TrimPrefix name "queue-") ".db" in
  if negb (uuid_Parse id) || negb (seqb name (archive_name id)) || negb (filepath_IsAbs p) then Err "invalid archive recovery path"
  else
    let done := d <| db_archive_pending ::= fun s => s ∖ {[p]} |> in
    match db_archives d !! p with
    | Some _ => match files !! p with Some _ => Ok (done, files) | None => Err "published archive missing" end
    | None => Ok (done, delete p (delete (p +:+ "-journal") files))
    end.
(** What an error interrupts stays done. *)
Fixpoint recover_paths (ps : list string) (d : queue_db) (files : disk) : queue_db * disk * option string :=
  match ps with
  | [] => (d, files, None)
  | p :: ps =>
      match recover_path d files p with
      | Err e => (d, files, Some e)
      | Ok (d, files) => recover_paths ps d files
      end
  end.
Definition recoverArchivesLocked (d : queue_db) (files : disk) : queue_db * disk * option string :=
  recover_paths (base.elements (db_archive_pending d)) d files.
Definition RecoverArchives (q : SQLiteQueue) (files : disk) : SQLiteQueue * disk * option string :=
  let '(d, files, e) := recoverArchivesLocked (q_db q) files in (q <| q_db := d |>, files, e).

(** ** Archive *)

Context `{GoZlib}.

Definition archive_body (ctx : nat -> bool) (path : string) (before limit : Z) (d : queue_db) (files : disk) : res Z * queue_db * disk :=
  match archive_prepare ctx (files !! path) path before limit d with
  | Err e => (Err e, d, <[path := default new_db (files !! path)]> files)
  | Ok None => (Ok 0, d, files)
  | Ok (Some (rs, seg)) =>
      let files := <[path := seg]> files in
      match archive_publish path rs d with
      | Err e => (Err e, d, files)
      | Ok d => (Ok (len rs), d, files)
      end
  end.
(** [dir] is absolute and clean, as filepath.Abs returns it; [uuid] is the new
    identifier.  The recovery at the end runs on every return. *)
Definition Archive (ctx : nat -> bool) (uuid dir : string) (before limit : Z) (q : SQLiteQueue) (files : disk) : res Z * SQLiteQueue * disk :=
  if seqb dir "" then (Err "archive directory required", q, files)
  else
    let limit := if (limit <=? 0) || (1000 <? limit) then 100 else limit in
    match recoverArchivesLocked (q_db q) files with
    | (d, files, Some e) => (Err e, q <| q_db := d |>, files)
    | (d, files, None) =>
        let path := filepath_Join dir (archive_name uuid) in
        if bool_decide (path ∈ db_archive_pending d) then (Err "UNIQUE constraint failed: queue_archive_pending", q <| q_db := d |>, files)
        else
          let d := d <| db_archive_pending ::= union {[path]} |> in
          let '(r, d, files) := archive_body ctx path before limit d files in
          let '(d, files, _) := recoverArchivesLocked d files in
          (r, q <| q_db := d |>, files)
    end.

(** Collect on the tables of a queue. *)
Definition queue_Collect `{RangeOrder} (limit : Z) (q : SQLiteQueue) : Z * SQLiteQueue :=
  let '(n, content) := Collect limit (db_roots (q_db q)) (db_content (q_db q)) in
  (n, q <| q_db ::= fun d => d <| db_content := content |> |>).
End recover.

(** ** Copies are exact *)

Section exact.
Context `{GoZlibLaws}.

(** [D] is a set of nodes that are in both stores, closed under references. *)
Definition copied (src dst : content_db) (D : gset string) : Prop :=
  forall id, id ∈ D -> exists raw n, readObject src id = ObjOk raw /\ decodeNode raw = Some n /\ readObject dst id = ObjOk raw
    /\ forall c, c ∈ nodeRefs n -> c ∈ D.
Lemma copied_mono src dst dst' D : extends dst dst' -> copied src dst D -> copied src dst' D.
Proof. intros He Hc id Hid. destruct (Hc id Hid) as (raw & n & H1 & H2 & H3 & H4). exists raw, n. split_and!; auto. Qed.

(** What a visit leaves behind. *)
Definition visited (src : content_db) (w : objectWriter) (done : gset string) (w' : objectWriter) (done' : gset string) : Prop :=
  advances w w' /\ copied src (ow_tx w') done' /\ done ⊆ done'.
Lemma visited_trans src w done w1 done1 w2 done2 : visited src w done w1 done1 -> visited src w1 done1 w2 done2 -> visited src w done w2 done2.
Proof. intros (A1 & _ & S1) (A2 & C2 & S2). split_and!; [by eapply advances_trans|done|set_solver]. Qed.

Lemma visit_spec src left visiting w done id w' done' : store_ok src -> known_ok w -> copied src (ow_tx w) done ->
  visit left src visiting w done id = Ok (w', done') -> visited src w done w' done' /\ id ∈ done'.
Proof.
  intros Hsrc. revert visiting w done id w' done'. induction left as [|l IH]; intros visiting w done id w' done' Hk Hc; cbn [visit].
  - case_bool_decide as Hd; [|done]. intros [= <- <-]. split; [split_and!; [by apply advances_refl|done|done]|done].
  - case_bool_decide as Hd; [intros [= <- <-]; split; [split_and!; [by apply advances_refl|done|done]|done]|].
    case_bool_decide; [done|]. destruct (readObject src id) as [raw| |] eqn:Er; [|done|done].
    destruct (decodeNode raw) as [n|] eqn:En; [|done]. destruct (visit_all _ _ _ _) as [[w1 done1]|] eqn:Ea; cbn [mbind res_bind]; [|done].
    destruct (save w1 n) as [[f w2]|] eqn:Es; cbn [mbind res_bind]; [|done]. destruct (seqb (fr_Ref f) id) eqn:Ef; [|done]. intros [= <- <-].
    assert (Hall : forall cs w done w1 done1, known_ok w -> copied src (ow_tx w) done ->
      visit_all (visit l src ({[id]} ∪ visiting)) w done cs = Ok (w1, done1) -> visited src w done w1 done1 /\ forall c, c ∈ cs -> c ∈ done1).
    { clear -IH H0. induction cs as [|c cs IHc]; intros w done w1 done1 Hk Hc; cbn [visit_all].
      - intros [= <- <-]. split; [split_and!; [by apply advances_refl|done|done]|by intros c ?%elem_of_nil].
      - destruct (visit l _ _ w done c) as [[wa da]|] eqn:Ev; cbn [mbind res_bind]; [|done]. intros Er.
        destruct (IH _ _ _ _ _ _ Hk Hc Ev) as [Hv Hin]. destruct Hv as (A & C & S). destruct (IHc _ _ _ _ (advances_known _ _ A) C Er) as [Hv' Hin'].
        split; [by eapply visited_trans|]. intros x [->|Hx]%elem_of_cons; [|auto]. by apply Hv'. }
    destruct (Hall _ _ _ _ _ Hk Hc Ea) as [Hv Hch]. destruct (so_saved _ Hsrc _ _ Er) as [n0 Hs]. pose proof (proj2 (proj1 Hs)) as Hd0.
    assert (n0 = n) as -> by congruence. destruct Hv as (A1 & C1 & S1).
    destruct (save_spec w1 n f w2 raw Hs (advances_known _ _ A1) Es) as (A2 & -> & Hr).
    pose proof (readObject_id _ _ _ Er) as Hid. rewrite <- Hid in Hr. split; [|apply elem_of_union_l; by apply elem_of_singleton].
    split_and!; [by eapply advances_trans| |etransitivity; [exact S1|apply union_subseteq_r]].
    intros x [->%elem_of_singleton|Hx]%elem_of_union.
    + exists raw, n. split_and!; [done|done|done|]. intros c Hcn. apply elem_of_union_r. by apply Hch.
    + destruct (copied_mono _ _ _ _ (proj1 A2) C1 x Hx) as (rx & nx & X1 & X2 & X3 & X4). exists rx, nx. split_and!; [done..|].
      intros c Hcn. apply elem_of_union_r. auto.
Qed.

Lemma restore_copied src dst D l f t : copied src dst D -> (fr_Ref f <> "" -> fr_Ref f ∈ D) ->
  restore src l f = Some t -> restore dst l f = Some t.
Proof.
  intros Hc. revert f t. induction l as [|l IH]; intros f t Hf; cbn [restore].
  { by destruct (seqb (fr_Ref f) ""). }
  destruct (seqb (fr_Ref f) "") eqn:Er; [done|]. apply seqb_neq in Er.
  destruct (Hc _ (Hf Er)) as (raw & n & -> & Hn & -> & Hrefs). rewrite Hn. cbn [mbind option_bind]. unfold restore_node.
  destruct (seqb (nd_Kind n) "json"); [done|]. destruct (seqb (nd_Kind n) "object").
  { destruct (mapM _ _) as [ts|] eqn:Em; cbn [mbind option_bind]; [|done]. erewrite mapM_weaken_in; [done| |exact Em].
    intros m y Hm Hy. apply IH; [|done]. intros Hne. apply Hrefs, elem_of_nodeRefs. naive_solver. }
  destruct (seqb (nd_Kind n) "array").
  { destruct (mapM _ _) as [ts|] eqn:Em; cbn [mbind option_bind]; [|done]. erewrite mapM_weaken_in; [done| |exact Em].
    intros m y Hm Hy. apply IH; [|done]. intros Hne. apply Hrefs, elem_of_nodeRefs. naive_solver. }
  destruct (_ || _); [|done]. destruct (mapM _ _) as [ts|] eqn:Em; cbn [mbind option_bind]; [|done]. erewrite mapM_weaken_in; [done| |exact Em].
  intros c y Hcn Hy. pose proof (chunk_data_nonempty _ _ _ Hy) as Hne. assert (Hin : c ∈ D) by (apply Hrefs, elem_of_nodeRefs; naive_solver).
  destruct (Hc c Hin) as (rc & nc & E1 & _ & E2 & _). unfold chunk_data in *. by rewrite E1 in Hy; rewrite E2.
Qed.

(** Whatever is stored, the store only grows. *)
Definition grown (w w' : objectWriter) : Prop := extends (ow_tx w) (ow_tx w') /\ known_ok w'.
Lemma grown_trans w w1 w2 : grown w w1 -> grown w1 w2 -> grown w w2.
Proof. intros [H1 _] [H2 K]. split; [by etrans|done]. Qed.

Lemma save_grown w n f w' : known_ok w -> save w n = Ok (f, w') -> grown w w'.
Proof.
  intros Hk. unfold save. destruct (node_raw n) as [raw|]; [|done]. destruct (len raw >? maxObjectBytes) eqn:El; [done|].
  rewrite Z.gtb_ltb in El. b2p. destruct (ow_known w !! content_id raw) as [b|] eqn:Ek.
  { case_bool_decide; [|done]. by intros [= <- <-]. }
  destruct (readObject (ow_tx w) (content_id raw)) as [old| |] eqn:Er; [| |done].
  - case_bool_decide as Eb; [|done]. intros [= <- <-]. subst old. split; [done|]. intros id x. cbn [ow_known ow_tx]. rewrite lookup_insert_Some.
    intros [[<- <-]|[_ Hx]]; auto.
  - destruct (pack raw) as [codec data] eqn:Ep. destruct (insert_edges _ _ _) as [edges|]; cbn [mbind res_bind]; [|done]. intros [= <- <-].
    pose proof (read_insert (ow_tx w) raw edges El) as Hread. rewrite Ep in Hread. cbn [fst snd] in Hread.
    match type of Hread with readObject ?d _ = _ => set (db' := d) in * end.
    assert (Hext : extends (ow_tx w) db').
    { intros id x Hx. destruct (decide (content_id raw = id)) as [<-|Hne]; [congruence|]. unfold db'. by rewrite read_insert_ne. }
    split; [exact Hext|]. intros id x. cbn [ow_known ow_tx]. rewrite lookup_insert_Some. intros [[<- <-]|[_ Hx]]; [exact Hread|auto].
Qed.
Lemma save_chunks_grown fuel w data cs w' : known_ok w -> save_chunks fuel w data = Ok (cs, w') -> grown w w'.
Proof.
  revert w data cs. induction fuel as [|fuel IH]; intros w data cs Hk; cbn [save_chunks]; [by intros [= <- <-]|].
  destruct data as [|x data]; [by intros [= <- <-]|]. destruct (save w _) as [[f w1]|] eqn:Es; cbn [mbind res_bind]; [|done].
  destruct (save_chunks fuel w1 _) as [[cs' w2]|] eqn:Ec; cbn [mbind res_bind]; [|done]. intros [= <- <-].
  pose proof (save_grown _ _ _ _ Hk Es) as G1. eapply grown_trans; [exact G1|]. by eapply IH; [apply G1|].
Qed.
Definition encode_grows (v : gval) : Prop := forall w key f w', known_ok w -> encode w v key = Ok (f, w') -> grown w w'.
Lemma encode_members_grown kvs : Forall (fun kv => encode_grows kv.2) kvs -> forall w ms w', known_ok w -> encode_members w kvs = Ok (ms, w') -> grown w w'.
Proof.
  induction 1 as [|[k u] kvs Hu _ IH]; intros w ms w' Hk; cbn [encode_members]; [by intros [= <- <-]|].
  destruct (encode w u k) as [[f w1]|] eqn:E1; cbn [mbind res_bind]; [|done]. destruct (encode_members w1 kvs) as [[ms' w2]|] eqn:E2; cbn [mbind res_bind]; [|done].
  intros [= <- <-]. pose proof (Hu _ _ _ _ Hk E1) as G1. eapply grown_trans; [exact G1|]. by eapply IH; [apply G1|].
Qed.
Lemma encode_items_grown vs key : Forall encode_grows vs -> forall w fs w', known_ok w -> encode_items w key vs = Ok (fs, w') -> grown w w'.
Proof.
  induction 1 as [|u vs Hu _ IH]; intros w ms w' Hk; cbn [encode_items]; [by intros [= <- <-]|].
  destruct (encode w u key) as [[f w1]|] eqn:E1; cbn [mbind res_bind]; [|done]. destruct (encode_items w1 key vs) as [[ms' w2]|] eqn:E2; cbn [mbind res_bind]; [|done].
  intros [= <- <-]. pose proof (Hu _ _ _ _ Hk E1) as G1. eapply grown_trans; [exact G1|]. by eapply IH; [apply G1|].
Qed.
Lemma finish_grown w n v f w' : known_ok w -> finish w n v = Ok (f, w') -> grown w w'.
Proof. intros Hk. unfold finish. destruct (_ && _); [by intros [= <- <-]|by apply save_grown]. Qed.

Lemma encode_grown v : encode_grows v.
Proof.
  induction v as [|b|z|n|s|u IH|fs IH|kvs IH|vs IH] using gval_ind'; intros w key f w' Hk; try (by intros [= <- <-]).
  - cbn [encode]. unfold stringValue. destruct (len s <? 128); [by intros [= <- <-]|]. destruct (if bytes_HasSuffix key (byt "_hex") then _ else _) as [kind data].
    destruct (save_chunks _ w data) as [[cs w1]|] eqn:Ec; cbn [mbind res_bind]; [|done]. intros Es.
    pose proof (save_chunks_grown _ _ _ _ _ Hk Ec) as G1. eapply grown_trans; [exact G1|]. by eapply save_grown; [apply G1|].
  - cbn [encode]. by apply IH.
  - rewrite encode_struct. destruct (encode_members w (kept fs)) as [[ms w1]|] eqn:Em; cbn [mbind res_bind]; [|done]. intros Ef.
    pose proof (encode_members_grown _ (kept_Forall (fun kv => encode_grows kv.2) fs IH) _ _ _ Hk Em) as G1.
    eapply grown_trans; [exact G1|]. by eapply finish_grown; [apply G1|].
  - rewrite encode_map. destruct (encode_members w kvs) as [[ms w1]|] eqn:Em; cbn [mbind res_bind]; [|done]. intros Ef.
    pose proof (encode_members_grown _ IH _ _ _ Hk Em) as G1. eapply grown_trans; [exact G1|]. by eapply finish_grown; [apply G1|].
  - rewrite encode_slice. destruct (encode_items w key vs) as [[ms w1]|] eqn:Em; cbn [mbind res_bind]; [|done]. intros Ef.
    pose proof (encode_items_grown _ _ IH _ _ _ Hk Em) as G1. eapply grown_trans; [exact G1|]. by eapply finish_grown; [apply G1|].
Qed.
Lemma encodePayload_extends db v payload db' : encodePayload db v = Ok (payload, db') -> extends db db'.
Proof.
  unfold encodePayload. destruct (encode _ v []) as [[f w]|] eqn:E; cbn [mbind res_bind]; [|done].
  pose proof (encode_grown v _ _ _ _ (known_ok_new db) E) as [G1 K1]. cbn [ow_tx] in G1.
  destruct (seqb (fr_Ref f) ""); cbn [mbind res_bind]; [|by intros [= <- <-]].
  destruct (save w _) as [[f2 w2]|] eqn:Es; cbn [mbind res_bind]; [|done]. intros [= <- <-].
  pose proof (save_grown _ _ _ _ K1 Es) as [G2 _]. by etrans.
Qed.

(** A copied payload restores to a text of the same event; the destination keeps
    what it had and stays in order. *)
Lemma copyPayload_spec src dst payload payload' dst' : store_ok src -> copyPayload src dst payload = Ok (payload', dst') ->
  extends dst dst' /\ forall ev t, event_ok ev -> decodePayload src payload = Ok t -> event_text ev t ->
    (store_ok dst -> store_ok dst') /\ (exists t', decodePayload dst' payload' = Ok t' /\ event_text ev t') /\ exists root, payloadRoot payload' = Ok root.
Proof.
  intros Hsrc. unfold copyPayload. destruct (payloadRoot payload) as [root|] eqn:Ep; cbn [mbind res_bind]; [|done].
  destruct (seqb root "") eqn:Er.
  - apply seqb_spec in Er as ->. destruct (decode_any payload) as [v|] eqn:Ed; [|done]. intros E. split; [by eapply encodePayload_extends|].
    intros ev t Hev Ht Htext. assert (t = payload) as -> by (unfold decodePayload in Ht; rewrite Ep in Ht; by injection Ht).
    destruct (event_text_decode ev payload Hev Htext) as (v' & Ed' & Hv & Hdep & Hv'). assert (v' = v) as -> by congruence.
    destruct (encodePayload_spec dst v payload' dst' Hv ltac:(lia) E) as (_ & Hs & Hr). split_and!; [done| |].
    + eexists. split; [by apply decode_restores|done].
    + destruct Hr as (root & -> & Hok & _). exists root. by apply payloadRoot_manifest.
  - apply seqb_neq in Er. destruct (visit _ _ _ _ _ _) as [[w dn]|] eqn:Ev; cbn [mbind res_bind]; [|done]. intros [= <- <-].
    destruct (visit_spec src 257 ∅ (mkWriter dst ∅) ∅ root w dn Hsrc (known_ok_new dst)) as [(A & C & _) Hin]; [by intros id ?%elem_of_empty|done|].
    split; [apply A|]. intros ev t Hev Ht Htext. split_and!; [apply A| |by exists root]. exists t. split; [|done]. apply (decodePayload_iff _ _ root); [done..|].
    apply (decodePayload_iff _ _ root) in Ht; [|done..]. by eapply restore_copied.
Qed.

(** *** Records *)

Lemma find_insert_ne r rows id : r_ID r <> id ->
  List.find (fun x => r_ID x =? id) (insert_by_id r rows) = List.find (fun x => r_ID x =? id) rows.
Proof.
  intros Hne. apply Z.eqb_neq in Hne. induction rows as [|x rows IH]; cbn [insert_by_id List.find]; [by rewrite Hne|].
  destruct (r_ID r <? r_ID x); cbn [List.find]; [by rewrite Hne|]. by rewrite IH.
Qed.
Lemma find_insert_eq r rows : List.find (fun x => r_ID x =? r_ID r) rows = None ->
  List.find (fun x => r_ID x =? r_ID r) (insert_by_id r rows) = Some r.
Proof.
  induction rows as [|x rows IH]; cbn [insert_by_id List.find]; [by rewrite Z.eqb_refl|].
  destruct (r_ID x =? r_ID r) eqn:Ex; [done|]. intros Hn. destruct (r_ID r <? r_ID x); cbn [List.find]; [by rewrite Z.eqb_refl|].
  rewrite Ex. auto.
Qed.
Lemma registerRoot_rows d key payload d' : registerRoot d key payload = Ok d' -> db_rows d' = db_rows d /\ db_content d' = db_content d.
Proof.
  unfold registerRoot. destruct (payloadRoot payload) as [root|]; cbn [mbind res_bind]; [|done]. destruct (seqb root ""); by intros [= <-].
Qed.
Lemma insertRecord_spec d r d' : insertRecord d r = Ok d' ->
  db_content d' = db_content d /\ row_at d' (r_ID r) = Some r /\ row_at d (r_ID r) = None /\ forall id, id <> r_ID r -> row_at d' id = row_at d id.
Proof.
  unfold insertRecord. destruct (existsb _ (db_rows d)) eqn:Eu; [done|]. destruct (decodePayload _ _) as [b|]; cbn [mbind res_bind]; [|done].
  destruct (unmarshal_event b) as [ev|]; [|done]. intros [Er Ec]%registerRoot_rows. cbn in Er, Ec.
  assert (Hnone : List.find (fun x => r_ID x =? r_ID r) (db_rows d) = None).
  { destruct (List.find _ _) as [x|] eqn:Ef; [|done]. apply find_some in Ef as [Hin Hx].
    assert (existsb (fun x => (r_ID x =? r_ID r) || seqb (r_Key x) (r_Key r)) (db_rows d) = true); [|congruence].
    apply existsb_exists. exists x. split; [done|]. by rewrite Hx. }
  unfold row_at. rewrite Er. split_and!; [done|by apply find_insert_eq|done|]. intros id Hne. by apply find_insert_ne.
Qed.

(** The copy of a record in a segment. *)
Definition record_copy (src seg : queue_db) (r : record) : Prop :=
  exists x payload, row_at src (r_ID r) = Some x /\ row_at seg (r_ID r) = Some (r <| r_Payload := payload |>)
    /\ forall ev t, event_ok ev -> decodePayload (db_content src) (r_Payload x) = Ok t -> event_text ev t ->
         exists t', decodePayload (db_content seg) payload = Ok t' /\ event_text ev t'.
Lemma copy_records_spec ctx i src dest rs seg : store_ok (db_content src) -> copy_records ctx i src dest rs = Ok seg ->
  extends (db_content dest) (db_content seg) /\ (forall id x, row_at dest id = Some x -> row_at seg id = Some x) /\ Forall (record_copy src seg) rs.
Proof.
  intros Hsrc. revert i dest. induction rs as [|r rs IH]; intros i dest; cbn [copy_records]; [by intros [= <-]|].
  destruct (ctx i); [done|]. destruct (row_at src (r_ID r)) as [x|] eqn:Ex; [|done].
  destruct (copyPayload _ _ _) as [[payload content]|] eqn:Ecp; cbn [mbind res_bind]; [|done].
  destruct (insertRecord _ _) as [d1|] eqn:Ei; cbn [mbind res_bind]; [|done]. intros Erest.
  destruct (copyPayload_spec _ _ _ _ _ Hsrc Ecp) as [He Hroot]. apply insertRecord_spec in Ei as (Ec & Hnew & Hnone & Hold).
  cbn [r_ID upd] in Hnew, Hnone, Hold. change (r_ID (r <| r_Payload := payload |>)) with (r_ID r) in *.
  destruct (IH _ _ Erest) as (He2 & Hk & Hall). split_and!.
  - intros id raw Hr. apply He2. rewrite Ec. by apply He.
  - intros id y Hy. apply Hk. rewrite Hold; [exact Hy|]. intros ->. unfold row_at in Hy, Hnone. cbn in Hnone. congruence.
  - constructor; [|done]. exists x, payload. split_and!; [done|by apply Hk|]. intros ev t Hev Ht Htext. destruct (Hroot ev t Hev Ht Htext) as (_ & (t' & Hd & Ht') & _).
    exists t'. split; [|done]. eapply decodePayload_mono; [exact He2|]. by rewrite Ec.
Qed.

(** What is known of a record once it is copied and verified. *)
Definition verified (src seg : queue_db) (r : record) : Prop :=
  exists x saved, row_at src (r_ID r) = Some x /\ row_at seg (r_ID r) = Some saved /\ same_columns saved r = true
    /\ forall ev t, event_ok ev -> decodePayload (db_content src) (r_Payload x) = Ok t -> event_text ev t ->
         exists t', decodePayload (db_content seg) (r_Payload saved) = Ok t' /\ event_text ev t'.
Lemma verify_record_spec src seg r : record_copy src seg r -> verify_record src seg r = Ok tt -> verified src seg r.
Proof.
  intros (x & payload & Hx & Hs & Hroot). unfold verify_record. rewrite Hx, Hs. cbn [r_Payload upd].
  destruct (decodePayload (db_content src) _) as [t|] eqn:Et; cbn [mbind res_bind]; [|done].
  destruct (decodePayload (db_content seg) _) as [t'|] eqn:Et'; cbn [mbind res_bind]; [|done].
  destruct (negb (jsonEqual t t') || _) eqn:E; [done|]. intros _. b2p. eexists _, _. split_and!; try done. intros ev u Hev. rewrite Et. intros [= <-] Hu.
  destruct (Hroot ev t Hev eq_refl Hu) as (t2 & [= <-] & Ht2). by exists t'.
Qed.
Lemma verify_records_spec src seg rs : Forall (record_copy src seg) rs -> verify_records src seg rs = Ok tt -> Forall (verified src seg) rs.
Proof.
  induction 1 as [|r rs Hr _ IH]; cbn [verify_records]; [constructor|]. destruct (verify_record src seg r) as [[]|] eqn:E; cbn [mbind res_bind]; [|done].
  intros Hv. constructor; [by apply verify_record_spec|auto].
Qed.
Lemma prepare_spec ctx file path before limit d rs seg : store_ok (db_content d) ->
  archive_prepare ctx file path before limit d = Ok (Some (rs, seg)) ->
  rs = archive_select before limit d /\ rs <> [] /\ Forall (verified d seg) rs.
Proof.
  intros Hd. unfold archive_prepare. destruct (archive_select before limit d) as [|r0 rs0] eqn:Es; [done|].
  destruct (OpenSQLite _ _ _) as [q0|]; cbn [mbind res_bind]; [|done]. destruct (copy_records _ _ _ _ _) as [s|] eqn:Ec; cbn [mbind res_bind]; [|done].
  destruct (verify_records _ _ _) as [[]|] eqn:Ev; cbn [mbind res_bind]; [|done]. intros [= <- <-]. split_and!; [done|done|].
  eapply verify_records_spec; [|done]. by eapply copy_records_spec.
Qed.

Lemma filter_rows (R : record -> entry -> Prop) f g rows es : (forall r e, r ∈ rows -> R r e -> f r = g e) -> Forall2 R rows es ->
  Forall2 R (List.filter f rows) (List.filter g es).
Proof.
  intros Hfg Hr. induction Hr as [|r e rows es Hre _ IH]; [constructor|]. cbn [List.filter]. rewrite (Hfg r e) by (done || left).
  assert (IH' := IH (fun x y Hx => Hfg x y (list_elem_of_further _ _ _ Hx))). destruct (g e); [by constructor|done].
Qed.
Lemma StronglySorted_sublist {A} (R : A -> A -> Prop) l k : k `sublist_of` l -> StronglySorted R l -> StronglySorted R k.
Proof.
  induction 1 as [|x k l Hs IH|x k l Hs IH]; [done| |]; intros [Hl Hx]%StronglySorted_inv; [|auto].
  constructor; [auto|]. rewrite Forall_forall in Hx |- *. intros y Hy. apply Hx. by eapply sublist_subseteq.
Qed.
Lemma bfilter_all {A} (f : A -> bool) l : Forall (fun x => f x = true) l -> List.filter f l = l.
Proof. induction 1 as [|x l E _ IH]; cbn; [done|]. by rewrite E, IH. Qed.
Lemma bfilter_sublist {A} (f : A -> bool) l : List.filter f l `sublist_of` l.
Proof. induction l as [|x l IH]; cbn; [done|]. destruct (f x); by constructor. Qed.

Lemma Forall2_impl_rows (R R' : record -> entry -> Prop) rows es : Forall2 R rows es -> (forall r e, r ∈ rows -> R r e -> R' r e) -> Forall2 R' rows es.
Proof.
  intros Hf Hi. apply Forall2_same_length_lookup_2; [by eapply Forall2_length|]. intros i r e Hr He.
  apply Hi; [by eapply list_elem_of_lookup_2|]. by eapply Forall2_lookup_lr.
Qed.

(** Being in order is a matter of the identifiers. *)
Lemma StronglySorted_ids (rows rows' : list record) : StronglySorted (fun r r' => r_ID r < r_ID r') rows -> (r_ID <$> rows') = (r_ID <$> rows) ->
  StronglySorted (fun r r' => r_ID r < r_ID r') rows'.
Proof.
  intros Hs. revert rows'. induction Hs as [|r rows _ IH Hr]; intros [|r' rows'] E; try done; [constructor|]. rewrite !fmap_cons in E. injection E as E1 E2.
  constructor; [by apply IH|]. apply Forall_forall. intros x Hx%(list_elem_of_fmap_2 r_ID). rewrite E2 in Hx. apply list_elem_of_fmap in Hx as (y & Ey & Hy).
  rewrite Forall_forall in Hr. rewrite E1, Ey. by apply Hr.
Qed.

(** *** A segment is a queue

    What is copied into a new database is a queue of its own: the rows in their
    order, with the events and the delivery state they had. *)
Lemma insert_by_id_last r rows : Forall (fun x => r_ID x < r_ID r) rows -> insert_by_id r rows = rows ++ [r].
Proof.
  induction 1 as [|x rows Hx _ IH]; [done|]. cbn [insert_by_id app]. rewrite (proj2 (Z.ltb_ge _ _)) by lia. by rewrite IH.
Qed.
Lemma insert_by_id_split r rows : StronglySorted (fun r r' => r_ID r < r_ID r') rows -> r_ID r ∉ (r_ID <$> rows) ->
  exists lo hi, rows = lo ++ hi /\ insert_by_id r rows = lo ++ r :: hi /\ Forall (fun x => r_ID x < r_ID r) lo /\ Forall (fun x => r_ID r < r_ID x) hi.
Proof.
  induction 1 as [|x rows Hs IH Hx]; intros Hni; [by exists [], []|]. rewrite fmap_cons, not_elem_of_cons in Hni. destruct Hni as [Hne Hni].
  cbn [insert_by_id]. destruct (r_ID r <? r_ID x) eqn:E; b2p.
  - exists [], (x :: rows). split_and!; [done..|]. constructor; [done|]. eapply Forall_impl; [exact Hx|]. cbn. intros y. lia.
  - destruct (IH Hni) as (lo & hi & -> & -> & Hlo & Hhi). exists (x :: lo), hi. split_and!; [done..| |done]. constructor; [lia|done].
Qed.
(** A record is inserted in its place. *)
Lemma insertRecord_places dest sd content r e d' : represents dest sd -> extends (db_content dest) content -> store_ok content ->
  r_ID r ∉ (r_ID <$> db_rows dest) -> event_key (e_event e) ∉ a_keys sd ->
  (exists t, decodePayload content (r_Payload r) = Ok t /\ event_text (e_event e) t) -> event_ok (e_event e) ->
  r_Key r = event_key (e_event e) -> r_Time r = ev_EventTime (e_event e) ->
  (r_Status r, r_Retry r, r_Error r, r_Created r, r_Updated r) = (e_status e, e_retry e, e_error e, e_created e, e_updated e) ->
  insertRecord (dest <| db_content := content |>) r = Ok d' ->
  exists lo hi es1 es2, db_rows dest = lo ++ hi /\ a_entries sd = es1 ++ es2 /\ length lo = length es1 /\ db_rows d' = lo ++ r :: hi
  /\ Forall (fun x => r_ID x < r_ID r) lo /\ Forall (fun x => r_ID r < r_ID x) hi
  /\ represents d' (mkAQueue (es1 ++ e :: es2) (a_archived sd)) /\ db_content d' = content /\ db_metadata d' = db_metadata dest /\ db_seq d' = Z.max (r_ID r) (db_seq dest).
Proof.
  intros Hrep He Hs Hid Hk (t & Ht & Htext) Hev Rk Rt Rcols. pose proof (represents_keys _ _ Hrep) as Hkeys. destruct Hrep as [Hr Hnd Hids Hseq Ha _].
  destruct (insert_by_id_split r (db_rows dest) Hids Hid) as (lo & hi & Erows & Eins & Hlo & Hhi).
  unfold insertRecord. destruct (existsb _ _); [done|]. match goal with |- context [decodePayload ?c _] => change c with content end. rewrite Ht. cbn [mbind res_bind].
  rewrite (event_text_unmarshal (e_event e)) by done. unfold registerRoot. destruct (payloadRoot (r_Payload r)) as [root|] eqn:Eroot; cbn [mbind res_bind]; [|done].
  intros E. assert (Ed : d' = (saveSummary (dest <| db_content := content |> <| db_rows := lo ++ r :: hi |> <| db_seq ::= Z.max (r_ID r) |>) (r_Key r) (e_event e))
    <| db_roots ::= fun m => if seqb root "" then m else <[r_Key r := root]> m |>).
  { rewrite <- Eins. destruct (seqb root ""); injection E as <-; reflexivity. }
  subst d'. clear E Eins. injection Rcols as R1 R2 R3 R4 R5. rewrite Erows in Hr. apply Forall2_app_inv_l in Hr as (es1 & es2 & Hr1 & Hr2 & Ees).
  exists lo, hi, es1, es2. split_and!; [done|done|by eapply Forall2_length|done|done|done| |done|done|done].
  assert (forall rows es, (forall x, x ∈ rows -> x ∈ lo ++ hi) -> Forall2 (row_holds (db_content dest) (db_roots dest)) rows es ->
    Forall2 (row_holds content ((fun m => if seqb root "" then m else <[r_Key r := root]> m) (db_roots dest))) rows es) as Hmono.
  { intros rows es Hin Hf. eapply rows_hold_mono; [exact He| |exact Hf]. intros x y Hx Hy. cbn. destruct (seqb root ""); [done|].
    rewrite lookup_insert_ne; [done|]. intros E. apply Hk. rewrite <- Rk, <- Hkeys, E, Erows. by apply list_elem_of_fmap_2, Hin. }
  split; cbn [a_entries a_archived upd saveSummary db_rows db_seq db_archived db_content db_roots].
  - apply Forall2_app; [apply Hmono; [set_solver|done]|]. constructor; [|apply Hmono; [set_solver|done]].
    split; try done; [by exists t|]. exists root. split; [done|]. intros Hne. cbn. rewrite (proj2 (seqb_neq _ _) Hne). apply lookup_insert_eq.
  - unfold a_keys in *. cbn [a_entries]. rewrite Ees in Hnd, Hk. rewrite <- Permutation_middle, fmap_cons. by constructor.
  - rewrite Erows in Hids. clear -Hids Hlo Hhi. induction lo as [|x lo IH]; cbn in *; [by constructor|]. apply StronglySorted_inv in Hids as [Hids Hx].
    apply Forall_cons in Hlo as [Hx1 Hlo]. constructor; [by apply IH|]. apply Forall_app in Hx as [Hx2 Hx3]. apply Forall_app. split; [done|]. by constructor.
  - rewrite Erows in Hseq. apply Forall_app in Hseq as [Hs1 Hs2]. apply Forall_app. split; [|constructor; [lia|]]; [eapply Forall_impl; [exact Hs1|]|eapply Forall_impl; [exact Hs2|]]; cbn; lia.
  - done.
  - done.
Qed.
Lemma insertRecord_represents dest sd content r e d' : represents dest sd -> extends (db_content dest) content -> store_ok content ->
  Forall (fun x => r_ID x < r_ID r) (db_rows dest) -> event_key (e_event e) ∉ a_keys sd ->
  (exists t, decodePayload content (r_Payload r) = Ok t /\ event_text (e_event e) t) -> event_ok (e_event e) ->
  r_Key r = event_key (e_event e) -> r_Time r = ev_EventTime (e_event e) ->
  (r_Status r, r_Retry r, r_Error r, r_Created r, r_Updated r) = (e_status e, e_retry e, e_error e, e_created e, e_updated e) ->
  insertRecord (dest <| db_content := content |>) r = Ok d' ->
  represents d' (mkAQueue (a_entries sd ++ [e]) (a_archived sd)) /\ (r_ID <$> db_rows d') = (r_ID <$> db_rows dest) ++ [r_ID r].
Proof.
  intros Hrep He Hs Hid Hk Ht Hev Rk Rt Rc E. destruct (insertRecord_places dest sd content r e d' Hrep He Hs) as (lo & hi & es1 & es2 & E1 & E2 & Hl & E3 & _ & Hhi & Hd' & _); try done.
  { intros (x & Ex & Hx)%list_elem_of_fmap. rewrite Forall_forall in Hid. specialize (Hid x Hx). lia. }
  pose proof (Forall2_length _ _ _ (rp_rows _ _ Hrep)) as Hlen. destruct hi as [|x hi].
  - rewrite app_nil_r in E1. rewrite E1, E2, E3 in *. rewrite length_app in Hlen. destruct es2; [|cbn in Hlen; lia]. rewrite app_nil_r. by rewrite fmap_app.
  - rewrite E1 in Hid. apply Forall_app in Hid as [_ [Hx _]%Forall_cons]. apply Forall_cons in Hhi as [Hx' _]. lia.
Qed.
Lemma copy_records_represents ctx i src s dest sd rs es seg : represents src s -> represents dest sd ->
  Forall2 (fun r e => r ∈ db_rows src /\ row_holds (db_content src) (db_roots src) r e) rs es ->
  StronglySorted (fun r r' => r_ID r < r_ID r') (db_rows dest ++ rs) -> NoDup (a_keys (mkAQueue (a_entries sd ++ es) ∅)) ->
  copy_records ctx i src dest rs = Ok seg ->
  represents seg (mkAQueue (a_entries sd ++ es) (a_archived sd)) /\ (r_ID <$> db_rows seg) = (r_ID <$> db_rows dest) ++ (r_ID <$> rs).
Proof.
  intros Hsrc Hdest Hrs. revert i dest sd Hdest. induction Hrs as [|r e rs es [Hin Hre] _ IH]; intros i dest sd Hdest Hsort Hnd; cbn [copy_records].
  { intros [= <-]. rewrite !app_nil_r. by destruct sd. }
  destruct (ctx i); [done|]. unfold row_at. rewrite (row_at_own _ r) by (apply Hsrc || done).
  destruct (copyPayload _ _ _) as [[payload content]|] eqn:Ec; cbn [mbind res_bind]; [|done].
  destruct (copyPayload_spec _ _ _ _ _ (rp_store _ _ Hsrc) Ec) as [Hext Htext]. destruct (rh_payload _ _ _ _ Hre) as (t & Ht & Htt).
  destruct (Htext (e_event e) t ltac:(apply Hre) Ht Htt) as (Hstore & Ht' & _). specialize (Hstore (rp_store _ _ Hdest)).
  destruct (insertRecord _ _) as [d1|] eqn:Ei; cbn [mbind res_bind]; [|done]. intros Erest.
  destruct (insertRecord_represents dest sd content (r <| r_Payload := payload |>) e d1 Hdest Hext Hstore) as [Hd1 Hids1]; try done.
  - apply Forall_forall. intros x Hx. clear -Hsort Hx. induction (db_rows dest) as [|y rows IHr]; [by apply elem_of_nil in Hx|].
    cbn in Hsort. apply StronglySorted_inv in Hsort as [Hsort Hy]. apply elem_of_cons in Hx as [->|Hx]; [|by apply IHr].
    apply Forall_app in Hy as [_ Hy]. apply Forall_cons in Hy as [Hy _]. exact Hy.
  - intros Hk. unfold a_keys in Hnd, Hk. cbn [a_entries] in Hnd. rewrite fmap_app, fmap_cons in Hnd. apply NoDup_app in Hnd as (_ & Hnd & _). apply (Hnd _ Hk). left.
  - apply Hre.
  - apply Hre.
  - apply Hre.
  - destruct Hre. cbn. by repeat f_equal.
  - change (r_ID (r <| r_Payload := payload |>)) with (r_ID r) in Hids1.
    destruct (IH (S i) d1 (mkAQueue (a_entries sd ++ [e]) (a_archived sd)) Hd1) as [Hseg Hids]; [|cbn [a_entries]; by rewrite <- app_assoc|done|].
    + eapply (StronglySorted_ids (db_rows dest ++ [r] ++ rs)); [exact Hsort|]. rewrite !fmap_app, Hids1, <- app_assoc. done.
    + cbn [a_entries a_archived] in Hseg. rewrite <- app_assoc in Hseg. split; [exact Hseg|]. rewrite Hids, Hids1, <- app_assoc. done.
Qed.
(** The segment of a run of Archive, as the abstract queue it is. *)
Definition a_selected (before limit : Z) (s : aqueue) : list entry :=
  take (Z.to_nat limit) (List.filter (fun e => (e_status e =? 2) && (e_updated e <? before)) (a_entries s)).
Lemma prepare_segment ctx path before limit d s rs seg : represents d s -> archive_prepare ctx None path before limit d = Ok (Some (rs, seg)) ->
  represents seg (mkAQueue (a_selected before limit s) ∅) /\ (r_ID <$> db_rows seg) = (r_ID <$> rs)
  /\ Forall2 (fun r e => r ∈ db_rows d /\ row_holds (db_content d) (db_roots d) r e) rs (a_selected before limit s).
Proof.
  intros Hrep. unfold archive_prepare. destruct (archive_select before limit d) as [|r0 rs0] eqn:Es; [done|]. cbn [OpenSQLite init].
  destruct (OpenSQLite None path "v2") as [q0|] eqn:Eq; cbn [mbind res_bind]; [|done].
  assert (Hq0 : represents (q_db q0) (mkAQueue [] ∅) /\ db_rows (q_db q0) = []).
  { vm_compute in Eq. injection Eq as <-. split; [|done]. destruct represents_new as [H1 H2 H3 H4 H5 H6]. by split. }
  destruct Hq0 as [Hq0 Hrows0]. destruct (copy_records _ _ _ _ _) as [sg|] eqn:Ec; cbn [mbind res_bind]; [|done].
  destruct (verify_records _ _ _) as [[]|] eqn:Ev; cbn [mbind res_bind]; [|done]. intros [= <- <-]. rewrite <- Es in Ec |- *.
  assert (Hf : Forall2 (fun r e => r ∈ db_rows d /\ row_holds (db_content d) (db_roots d) r e) (archive_select before limit d) (a_selected before limit s)).
  { unfold archive_select, a_selected. apply Forall2_take. assert (Hall : Forall2 (fun r e => r ∈ db_rows d /\ row_holds (db_content d) (db_roots d) r e) (db_rows d) (a_entries s)).
    { eapply Forall2_impl_rows; [apply Hrep|]. done. }
    apply filter_rows; [|exact Hall]. intros r e _ [_ Hre]. by rewrite (rh_status _ _ _ _ Hre), (rh_updated _ _ _ _ Hre). }
  assert (Hsub : archive_select before limit d `sublist_of` db_rows d) by (etrans; [apply sublist_take|apply bfilter_sublist]).
  assert (Hsort : StronglySorted (fun r r' => r_ID r < r_ID r') (db_rows (q_db q0) ++ archive_select before limit d)).
  { rewrite Hrows0. eapply StronglySorted_sublist; [exact Hsub|apply Hrep]. }
  assert (Hnd : NoDup (a_keys (mkAQueue (a_entries (mkAQueue [] ∅) ++ a_selected before limit s) ∅))).
  { unfold a_keys. cbn [a_entries app]. eapply sublist_NoDup; [apply (rp_keys _ _ Hrep)|]. apply fmap_sublist.
    unfold a_selected. etrans; [apply sublist_take|apply bfilter_sublist]. }
  destruct (copy_records_represents _ _ d s (q_db q0) _ _ _ _ Hrep Hq0 Hf Hsort Hnd Ec) as [Hseg Hids]. rewrite Hrows0 in Hids. by split_and!.
Qed.

(** *** Publication *)

(** The abstract effect: entries with these keys become archived. *)
Definition a_archive (ks : list string) (s : aqueue) : aqueue :=
  mkAQueue (List.filter (fun e => negb (bool_decide (event_key (e_event e) ∈ ks))) (a_entries s)) (list_to_set ks ∪ a_archived s).

Definition goes (rs : list record) (x : record) : bool := existsb (fun r => (r_ID x =? r_ID r) && (r_Status x =? 2)) rs.
Lemma archive_records_spec path rs d d' : archive_records path d rs = Ok d' ->
  db_rows d' = List.filter (fun x => negb (goes rs x)) (db_rows d) /\ db_content d' = db_content d /\ db_seq d' = db_seq d
  /\ dom (db_archived d') = list_to_set (r_Key <$> rs) ∪ dom (db_archived d)
  /\ (forall k, k ∉ (r_Key <$> rs) -> db_roots d' !! k = db_roots d !! k)
  /\ (forall r, r ∈ rs -> exists id, db_archived d' !! r_Key r = Some (path, id))
  /\ (forall k, k ∈ dom (db_archived d) -> db_archived d' !! k = db_archived d !! k)
  /\ db_archives d' = db_archives d /\ db_archive_pending d' = db_archive_pending d.
Proof.
  revert d. induction rs as [|r rs IH]; intros d; cbn [archive_records].
  - intros [= <-]. split_and!; try done; [|set_solver|by intros r ?%elem_of_nil].
    clear. induction (db_rows d) as [|x rows IHr]; [done|]. cbn [List.filter goes existsb negb]. by f_equal.
  - unfold archive_record. case_bool_decide as Hn; [done|]. cbn [mbind res_bind]. intros E.
    destruct (IH _ E) as (Hr & Hc & Hq & Ha & Hro & Hin & Hold & Has & Hap). cbn in Hr, Hc, Hq, Ha, Hro, Hold, Has, Hap.
    rewrite dom_insert_L in Ha. split_and!; [|done|done| | | | |done|done].
    + rewrite Hr. clear. induction (db_rows d) as [|x rows IHr]; [done|]. cbn [List.filter goes existsb].
      destruct ((r_ID x =? r_ID r) && (r_Status x =? 2)); cbn [orb negb]; [by rewrite IHr|]. cbn [List.filter]. unfold goes in IHr |- *.
      destruct (existsb _ rs); cbn [negb]; by rewrite IHr.
    + rewrite Ha, fmap_cons, list_to_set_cons. set_solver.
    + intros k. rewrite fmap_cons, not_elem_of_cons. intros [Hne Hk]. rewrite Hro by done. by rewrite lookup_delete_ne.
    + intros y [->|Hy]%elem_of_cons; [|auto]. destruct (decide (r_Key r ∈ (r_Key <$> rs))) as [(z & Ez & Hz)%list_elem_of_fmap|Hni].
      * rewrite Ez. by apply Hin.
      * eexists. rewrite Hold; [by rewrite lookup_insert_eq|]. rewrite dom_insert_L. set_solver.
    + intros k Hk. rewrite Hold by (rewrite dom_insert_L; set_solver). rewrite lookup_insert_ne; [done|]. intros <-. by apply elem_of_dom in Hk.
Qed.

Lemma check_unchanged_spec d rs : check_unchanged d rs = Ok tt ->
  Forall (fun r => exists cur, row_at d (r_ID r) = Some cur /\ unchanged cur r = true) rs.
Proof.
  induction rs as [|r rs IH]; cbn [check_unchanged]; [constructor|]. destruct (row_at d (r_ID r)) as [cur|] eqn:E; [|done].
  destruct (unchanged cur r) eqn:Eu; cbn [negb]; [|done]. intros Hc. constructor; [by exists cur|auto].
Qed.
Lemma row_at_in d id x : row_at d id = Some x -> x ∈ db_rows d /\ r_ID x = id.
Proof. intros [Hin Hx]%find_some. b2p. by rewrite list_elem_of_In. Qed.
Lemma key_unique d s x y : represents d s -> x ∈ db_rows d -> y ∈ db_rows d -> r_Key x = r_Key y -> x = y.
Proof.
  intros Hrep [i Hi]%list_elem_of_lookup [j Hj]%list_elem_of_lookup E. assert (i = j) as ->; [|congruence].
  pose proof (rp_keys _ _ Hrep) as Hnd. rewrite <- (represents_keys _ _ Hrep) in Hnd.
  eapply (NoDup_lookup _ i j (r_Key x)); [exact Hnd| |]; rewrite list_lookup_fmap; [by rewrite Hi|]. rewrite Hj. cbn. by rewrite E.
Qed.
(** The rows the publication removes are those of the archived keys. *)
Lemma goes_key d s rs x : represents d s -> Forall (fun r => exists cur, row_at d (r_ID r) = Some cur /\ unchanged cur r = true) rs ->
  Forall (fun r => r_Status r = 2) rs -> x ∈ db_rows d -> goes rs x = bool_decide (r_Key x ∈ (r_Key <$> rs)).
Proof.
  intros Hrep Hun Hst Hx. apply eq_bool_prop_intro. rewrite bool_decide_spec, Is_true_true. unfold goes. rewrite existsb_exists.
  rewrite Forall_forall in Hun, Hst. split.
  - intros (r & Hr & E). b2p. apply list_elem_of_In in Hr. destruct (Hun r Hr) as (cur & Hcur & Hu).
    apply row_at_in in Hcur as Hc. destruct Hc as [Hin Hid]. unfold row_at in Hcur.
    pose proof (row_at_own (db_rows d) x (rp_ids _ _ Hrep) Hx) as Hown. rewrite H1 in Hown. rewrite Hown in Hcur. injection Hcur as <-.
    unfold unchanged in Hu. b2p. apply seqb_spec in H3. rewrite H3. by apply list_elem_of_fmap_2.
  - intros (r & E & Hr)%list_elem_of_fmap. exists r. split; [by apply list_elem_of_In|]. destruct (Hun r Hr) as (cur & Hcur & Hu).
    apply row_at_in in Hcur as [Hin Hid]. unfold unchanged in Hu. b2p. apply seqb_spec in H1.
    assert (x = cur) as -> by (eapply key_unique; [done..|congruence]). specialize (Hst r Hr). rewrite Hid, H6, Hst. by rewrite Z.eqb_refl.
Qed.
(** Removing the rows of some keys, with their roots, leaves the other events. *)
Lemma shrink_represents d s d' (keep : string -> bool) arch : represents d s ->
  db_rows d' = List.filter (fun r => keep (r_Key r)) (db_rows d) -> db_content d' = db_content d -> db_seq d' = db_seq d ->
  (forall k, keep k = true -> db_roots d' !! k = db_roots d !! k) -> dom (db_archived d') = arch ->
  represents d' (mkAQueue (List.filter (fun e => keep (event_key (e_event e))) (a_entries s)) arch).
Proof.
  intros Hrep Hr Hc Hq Hro Ha. assert (Hsub : db_rows d' `sublist_of` db_rows d) by (rewrite Hr; apply bfilter_sublist).
  split; cbn [a_entries a_archived].
  - rewrite Hr, Hc. assert (Hf : Forall2 (row_holds (db_content d) (db_roots d)) (List.filter (fun r => keep (r_Key r)) (db_rows d))
      (List.filter (fun e => keep (event_key (e_event e))) (a_entries s))).
    { apply filter_rows; [|apply Hrep]. intros r e Hrin Hre. by rewrite (rh_key _ _ _ _ Hre). }
    eapply Forall2_impl_rows; [exact Hf|]. intros r e Hrin Hre. destruct Hre as [? ? ? ? (root & Hp & Hroot) ? ? ? ? ?]. split; try done.
    exists root. split; [done|]. intros Hn. apply list_elem_of_In, filter_In in Hrin as [Hrin Hg]. rewrite Hro by done. auto.
  - unfold a_keys. cbn [a_entries]. eapply sublist_NoDup; [apply Hrep|]. apply fmap_sublist, bfilter_sublist.
  - eapply StronglySorted_sublist; [exact Hsub|apply Hrep].
  - rewrite Hq. eapply Forall_forall. intros r Hrin. eapply (proj1 (Forall_forall _ _) (rp_seq _ _ Hrep)). by eapply sublist_subseteq.
  - done.
  - rewrite Hc. apply Hrep.
Qed.

Lemma publish_represents path rs d s d' : represents d s -> rs <> [] -> Forall (fun r => r_Status r = 2) rs ->
  archive_publish path rs d = Ok d' ->
  represents d' (a_archive (r_Key <$> rs) s) /\ (forall r, r ∈ rs -> exists id, db_archived d' !! r_Key r = Some (path, id))
  /\ (forall k, k ∈ dom (db_archived d) -> db_archived d' !! k = db_archived d !! k)
  /\ (exists lo final, db_archives d' !! path = Some (lo, r_ID final) /\ last rs = Some final) /\ (forall p, p <> path -> db_archives d' !! p = db_archives d !! p) /\ db_archive_pending d' = db_archive_pending d
  /\ Forall (fun r => exists cur, row_at d (r_ID r) = Some cur /\ unchanged cur r = true) rs.
Proof.
  intros Hrep Hne Hst. unfold archive_publish. destruct (check_unchanged d rs) as [[]|] eqn:Ec; cbn [mbind res_bind]; [|done].
  destruct rs as [|first rest]; [done|]. destruct (last (first :: rest)) as [final|] eqn:El; [|by apply last_None in El].
  apply check_unchanged_spec in Ec. remember (first :: rest) as rs eqn:Ers. clear Ers rest.
  destruct (bool_decide (is_Some (db_archives d !! path))) eqn:Eb; [done|]. intros (Hr & Hc & Hq & Ha & Hro & Hin & Hold & Has & Hap)%archive_records_spec.
  cbn in Hr, Hc, Hq, Ha, Hro, Hold, Has, Hap. split_and!; [|done|done|rewrite Has, lookup_insert_eq; by eexists _, final
    |intros p Hp; by rewrite Has, lookup_insert_ne|done|done].
  set (keep := fun k : string => negb (bool_decide (k ∈ (r_Key <$> rs)))). apply (shrink_represents d s d' keep); try done.
  - rewrite Hr. apply filter_ext_in. intros r Hrin%list_elem_of_In. unfold keep. f_equal. by apply goes_key with (d := d) (s := s).
  - intros k Hk%negb_true_iff%bool_decide_eq_false. by apply Hro.
  - rewrite Ha. by rewrite (rp_archived _ _ Hrep).
Qed.

(** *** Meanwhile *)

(** What the rest of the program does to the queue between the two halves. *)
Inductive queue_step : SQLiteQueue -> SQLiteQueue -> Prop :=
| qs_enqueue now ev q q' : event_ok ev -> Enqueue now q ev = Ok q' -> queue_step q q'
| qs_pushed now id rev q : queue_step q (MarkPushed now q id rev)
| qs_failed now id rev msg q : queue_step q (MarkFailed now q id rev msg).

(** Payloads stay where they are and readable. *)
Definition evolved (d d' : queue_db) : Prop :=
  extends (db_content d) (db_content d') /\ forall r, r ∈ db_rows d -> exists r', r' ∈ db_rows d' /\ r_ID r' = r_ID r /\ r_Payload r' = r_Payload r.
Lemma evolved_refl d : evolved d d.
Proof. split; [done|]. eauto. Qed.
Lemma evolved_trans d1 d2 d3 : evolved d1 d2 -> evolved d2 d3 -> evolved d1 d3.
Proof.
  intros [E1 R1] [E2 R2]. split; [by etrans|]. intros r Hr. destruct (R1 r Hr) as (r' & Hr' & <- & <-). by apply R2.
Qed.
Lemma update_evolved key f d : (forall r, r_ID (f r) = r_ID r) -> (forall r, r_Payload (f r) = r_Payload r) -> evolved d (update_key key f d).
Proof.
  intros Hid Hp. split; [done|]. intros r Hr. exists (if seqb (r_Key r) key then f r else r). split.
  - apply list_elem_of_In, (in_map (fun r => if seqb (r_Key r) key then f r else r)), list_elem_of_In, Hr.
  - by destruct (seqb (r_Key r) key).
Qed.
Lemma Enqueue_evolved now q ev q' : event_ok ev -> Enqueue now q ev = Ok q' -> evolved (q_db q) (q_db q').
Proof.
  intros Hev. unfold Enqueue. destruct (bool_decide _); [intros [= <-]; apply evolved_refl|]. destruct (has_key _ _); [intros [= <-]; apply evolved_refl|].
  destruct (if seqb (q_backend q) "legacy" then _ else _) as [[payload content]|] eqn:Ep; cbn [mbind res_bind]; [|done].
  destruct (payload_spec _ _ _ _ _ Hev Ep) as (He & _ & _ & _).
  destruct (registerRoot _ _ _) as [d|] eqn:Er; cbn [mbind res_bind]; [|done]. intros [= <-]. apply registerRoot_rows in Er as [Er Ec].
  change (db_rows d = db_rows (q_db q) ++ [mkRecord (db_seq (q_db q) + 1) (event_key ev) (ev_EventTime ev) payload 0 0 "" now now]) in Er.
  change (db_content d = content) in Ec.
  split; [change (extends (db_content (q_db q)) (db_content d)); by rewrite Ec|]. intros r Hr. exists r. split; [|done].
  change (r ∈ db_rows d). rewrite Er. apply elem_of_app. by left.
Qed.
Lemma queue_steps q q' s : represents (q_db q) s -> rtc queue_step q q' -> (exists s', represents (q_db q') s') /\ evolved (q_db q) (q_db q').
Proof.
  intros Hrep Hs. revert s Hrep. induction Hs as [q|q q1 q' H1 _ IH]; intros s Hrep; [eauto using evolved_refl|].
  assert (Hone : (exists s1, represents (q_db q1) s1) /\ evolved (q_db q) (q_db q1)).
  { destruct H1 as [now ev q q1 Hev E|now id rev q|now id rev msg q].
    - split; [|by eapply Enqueue_evolved]. pose proof (Enqueue_represents now q ev s Hrep Hev) as He. rewrite E in He. destruct He as [He _]. eauto.
    - split; [by eexists; apply MarkPushed_represents|by apply update_evolved].
    - split; [by eexists; apply MarkFailed_represents|by apply update_evolved]. }
  destruct Hone as [[s1 Hrep1] He1]. destruct (IH s1 Hrep1) as [Hex He2]. split; [done|by eapply evolved_trans].
Qed.
Lemma select_spec before limit d r : r ∈ archive_select before limit d -> r ∈ db_rows d /\ r_Status r = 2 /\ r_Updated r < before.
Proof. intros Hin%subseteq_take. apply list_elem_of_In, filter_In in Hin as [Hin E]. b2p. by rewrite list_elem_of_In. Qed.
End exact.

(** ** Recovery *)

(** Two databases that differ only in the registrations of unfinished
    archives. *)
Definition same_but_pending (d d' : queue_db) : Prop := exists X, d' = d <| db_archive_pending := X |>.
Lemma same_refl d : same_but_pending d d.
Proof. exists (db_archive_pending d). by destruct d. Qed.
Lemma same_trans d1 d2 d3 : same_but_pending d1 d2 -> same_but_pending d2 d3 -> same_but_pending d1 d3.
Proof. intros [X ->] [Y ->]. by exists Y. Qed.
Lemma same_represents `{GoZlib} d d' s : same_but_pending d d' -> represents d s -> represents d' s.
Proof. intros [X ->] [? ? ? ? ? ?]. by split. Qed.
Lemma same_archives d d' : same_but_pending d d' -> db_archives d' = db_archives d.
Proof. by intros [X ->]. Qed.

(** Every published segment is there, under a name that ends in .db; it is a
    queue, whose identifiers are at most the one in the catalogue. *)
Definition published_ok `{GoZlib} (d : queue_db) (files : disk) : Prop :=
  forall p rng, db_archives d !! p = Some rng -> strings_HasSuffix p ".db" = true
    /\ exists seg sg, files !! p = Some seg /\ represents seg sg /\ Forall (fun r => r_ID r <= rng.2) (db_rows seg).

Lemma journal_not_db p : strings_HasSuffix (p +:+ "-journal") ".db" = false.
Proof.
  destruct (strings_HasSuffix _ _) eqn:E; [|done]. unfold strings_HasSuffix in E. apply bytes_HasSuffix_spec in E as [r E].
  rewrite byt_app in E. apply (f_equal (fun l => last l)) in E. rewrite !last_app in E. vm_compute in E. discriminate E.
Qed.

Section recovery.
Context `{GoUUID}.

(** Recovery only drops registrations, and never touches a published segment. *)
Definition keeps_published (d : queue_db) (files files' : disk) : Prop :=
  forall p, is_Some (db_archives d !! p) -> strings_HasSuffix p ".db" = true -> files' !! p = files !! p.
Lemma recover_path_spec d files p d' files' : recover_path d files p = Ok (d', files') ->
  same_but_pending d d' /\ keeps_published d files files' /\ files' ⊆ files.
Proof.
  unfold recover_path. destruct (_ || _ || _); [done|].
  assert (Hs : same_but_pending d (d <| db_archive_pending ::= fun s => s ∖ {[p]} |>)) by (by eexists).
  destruct (db_archives d !! p) as [r|] eqn:Ea.
  - destruct (files !! p); [|done]. by intros [= <- <-].
  - intros [= <- <-]. split_and!; [done| |by etransitivity; apply delete_subseteq]. intros p' Hp' Hdb. rewrite !lookup_delete_ne; [done| |].
    + intros <-. by rewrite journal_not_db in Hdb.
    + intros ->. rewrite Ea in Hp'. by destruct Hp'.
Qed.
Lemma recover_paths_spec ps d files d' files' e : recover_paths ps d files = (d', files', e) ->
  same_but_pending d d' /\ keeps_published d files files' /\ files' ⊆ files.
Proof.
  revert d files. induction ps as [|p ps IH]; intros d files; cbn [recover_paths].
  - intros [= <- <- <-]. split; [apply same_refl|done].
  - destruct (recover_path d files p) as [[d1 files1]|] eqn:E; [|intros [= <- <- <-]; split; [apply same_refl|done]].
    apply recover_path_spec in E as (S1 & K1 & U1). intros E2. destruct (IH _ _ E2) as (S2 & K2 & U2).
    split_and!; [by eapply same_trans| |by etransitivity]. intros x Hx Hdb. rewrite K2 by (done || by rewrite (same_archives _ _ S1)). by apply K1.
Qed.
End recovery.

(** ** Theorems *)

Section archive_theorems.
Context `{GoZlibLaws}.

Lemma archive_saves (q1 q2 : SQLiteQueue) (s1 : aqueue) (ctx : nat -> bool) (file : option queue_db) (path : string) (before limit : Z)
    (rs : list record) (seg d3 : queue_db) (s2 : aqueue) :
  represents (q_db q1) s1 -> archive_prepare ctx file path before limit (q_db q1) = Ok (Some (rs, seg)) ->
  rtc queue_step q1 q2 -> archive_publish path rs (q_db q2) = Ok d3 -> represents (q_db q2) s2 ->
  represents d3 (a_archive (r_Key <$> rs) s2)
    /\ forall e, e ∈ a_entries s2 -> event_key (e_event e) ∈ (r_Key <$> rs) ->
         e_status e = 2 /\ e_updated e < before /\ (exists id, db_archived d3 !! event_key (e_event e) = Some (path, id))
         /\ exists saved t, saved ∈ db_rows seg /\ r_Key saved = event_key (e_event e)
              /\ (r_Status saved, r_Retry saved, r_Error saved, r_Created saved, r_Updated saved)
                  = (e_status e, e_retry e, e_error e, e_created e, e_updated e)
              /\ decodePayload (db_content seg) (r_Payload saved) = Ok t /\ event_text (e_event e) t.
Proof.
  intros Hrep Hprep Hsteps Hpub Hrep2. destruct (queue_steps _ _ _ Hrep Hsteps) as [_ [Hext Hrows]].
  destruct (prepare_spec _ _ _ _ _ _ _ _ (rp_store _ _ Hrep) Hprep) as (Hrs & Hne & Hver).
  assert (Hst : Forall (fun r => r_Status r = 2) rs).
  { apply Forall_forall. intros r Hr. rewrite Hrs in Hr. by apply select_spec in Hr as (_ & ? & _). }
  destruct (publish_represents path rs _ s2 d3 Hrep2 Hne Hst Hpub) as (Hrep3 & Harch & _ & _ & _ & _ & Hun). split; [done|].
  intros e He (r & Ek & Hr)%list_elem_of_fmap. rewrite Forall_forall in Hver, Hun.
  destruct (Hun r Hr) as (cur & Hcur & Hu). destruct (Hver r Hr) as (x & saved & Hx & Hsaved & Hcols & Hexact).
  apply row_at_in in Hcur as [Hcin Hcid], Hx as [Hxin Hxid], Hsaved as [Hsin _].
  apply list_elem_of_lookup in He as [i Hi]. destruct (Forall2_lookup_r _ _ _ _ _ (rp_rows _ _ Hrep2) Hi) as (x2 & Hi2 & Hre).
  assert (Hx2 : x2 ∈ db_rows (q_db q2)) by (by eapply list_elem_of_lookup_2).
  unfold unchanged in Hu. unfold same_columns in Hcols. b2p.
  repeat match goal with E : seqb _ _ = true |- _ => apply seqb_spec in E end.
  assert (cur = x2) as -> by (eapply key_unique; [exact Hrep2|done|done|]; rewrite (rh_key _ _ _ _ Hre); congruence).
  assert (Hpay : r_Payload x2 = r_Payload x).
  { destruct (Hrows x Hxin) as (x' & Hx' & Hid' & <-). f_equal.
    pose proof (row_at_own _ x2 (rp_ids _ _ Hrep2) Hx2) as O1. pose proof (row_at_own _ x' (rp_ids _ _ Hrep2) Hx') as O2.
    rewrite Hid', Hxid, <- Hcid in O2. congruence. }
  destruct (rh_payload _ _ _ _ Hre) as (t & Ht & Htext).
  assert (Htx : exists t0, decodePayload (db_content (q_db q1)) (r_Payload x) = Ok t0).
  { apply list_elem_of_lookup in Hxin as [k Hk]. destruct (Forall2_lookup_l _ _ _ _ _ (rp_rows _ _ Hrep) Hk) as (e0 & _ & He0).
    destruct (rh_payload _ _ _ _ He0) as (t0 & ? & _). by exists t0. }
  destruct Htx as [t0 Ht0]. assert (t0 = t) as ->. { apply (decodePayload_mono _ _ _ _ Hext) in Ht0. rewrite Hpay in Ht. congruence. }
  destruct (Hexact (e_event e) t ltac:(apply Hre) Ht0 Htext) as (t' & Ht' & Htext').
  destruct Hre as [Rk _ Rok _ _ Rs Rr Re Rc Ru]. rewrite Hrs in Hr. apply select_spec in Hr as Hsel. destruct Hsel as (_ & Hs2 & Hupd).
  split_and!; [congruence|rewrite <- Ru; lia|rewrite Ek; apply Harch; by rewrite Hrs|].
  exists saved, t'. split_and!; [done|congruence|repeat f_equal; congruence|done|done].
Qed.

(** C4.  An event leaves the queue only for a segment that holds it.  Between
    copying and publishing, events may be enqueued and acknowledged.  When
    Archive then publishes, the queue is the one it was less the archived keys,
    which are recorded as archived in the segment; each of them belonged to an
    event acknowledged before the cutoff, and the segment has a row with the
    same delivery state whose payload reads back as the same event, in whatever
    format the queue had stored it. *)
Theorem archive_preserves (q1 q2 : SQLiteQueue) (s1 : aqueue) (ctx : nat -> bool) (file : option queue_db) (path : string) (before limit : Z)
    (rs : list record) (seg d3 : queue_db) :
  represents (q_db q1) s1 -> archive_prepare ctx file path before limit (q_db q1) = Ok (Some (rs, seg)) ->
  rtc queue_step q1 q2 -> archive_publish path rs (q_db q2) = Ok d3 ->
  exists s2, represents (q_db q2) s2 /\ represents d3 (a_archive (r_Key <$> rs) s2)
    /\ forall e, e ∈ a_entries s2 -> event_key (e_event e) ∈ (r_Key <$> rs) ->
         e_status e = 2 /\ e_updated e < before /\ (exists id, db_archived d3 !! event_key (e_event e) = Some (path, id))
         /\ exists saved t, saved ∈ db_rows seg /\ r_Key saved = event_key (e_event e)
              /\ (r_Status saved, r_Retry saved, r_Error saved, r_Created saved, r_Updated saved)
                  = (e_status e, e_retry e, e_error e, e_created e, e_updated e)
              /\ decodePayload (db_content seg) (r_Payload saved) = Ok t /\ unmarshal_event t = Some (e_event e).
Proof.
  intros Hrep Hprep Hsteps Hpub. destruct (queue_steps _ _ _ Hrep Hsteps) as [[s2 Hrep2] _]. exists s2. split; [done|].
  destruct (archive_saves q1 q2 s1 ctx file path before limit rs seg d3 s2 Hrep Hprep Hsteps Hpub Hrep2) as [Hrep3 Hsaved]. split; [done|].
  intros e He Hk. destruct (Hsaved e He Hk) as (H1 & H2 & H3 & saved & t & H4 & H5 & H6 & H7 & H8). split_and!; [done..|].
  exists saved, t. split_and!; [done..|]. apply event_text_unmarshal; [|done]. apply list_elem_of_lookup in He as [i Hi].
  destruct (Forall2_lookup_r _ _ _ _ _ (rp_rows _ _ Hrep2) Hi) as (x & _ & Hx). apply Hx.
Qed.

Lemma collect_represents `{RangeOrder} limit q s : represents (q_db q) s -> represents (q_db (queue_Collect limit q).2) s.
Proof.
  intros Hrep. unfold queue_Collect, Collect. destruct (collect_loop _ _ _ _ _) as [n db'] eqn:E.
  apply collect_loop_spec in E as (Hc & _ & _ & _); [|apply Hrep|lia|lia]. cbn [snd]. destruct Hrep as [Hr Hk Hi Hs Ha Hst].
  split; [|done|done|done|done|apply Hc]. cbn. eapply Forall2_impl; [exact Hr|]. intros r e [? ? ? (t & Hp & Ht) (root & Hpr & Hroot) ? ? ? ? ?].
  split; try done; [|by exists root]. exists t. split; [|done]. destruct (decide (root = "")) as [->|Hne].
  - unfold decodePayload in *. rewrite Hpr in *. exact Hp.
  - apply (decodePayload_iff _ _ root); [done..|]. apply (decodePayload_iff _ _ root) in Hp; [|done..]. eapply (co_roots _ _ _ Hc); [by apply Hroot|done].
Qed.

Lemma a_archive_nil s : a_archive [] s = s.
Proof.
  destruct s as [es ar]. unfold a_archive. cbn [a_entries a_archived list_to_set]. rewrite (left_id_L ∅ (∪)). f_equal.
  induction es as [|e es IH]; [done|]. cbn [List.filter]. rewrite bool_decide_eq_false_2 by apply not_elem_of_nil. cbn [negb]. by rewrite IH.
Qed.
Lemma HasSuffix_app a b c : strings_HasSuffix b c = true -> strings_HasSuffix (a +:+ b) c = true.
Proof. unfold strings_HasSuffix. rewrite byt_app, !bytes_HasSuffix_spec. intros [r ->]. exists (byt a ++ r). by rewrite app_assoc. Qed.
Lemma archive_path_db dir uuid : strings_HasSuffix (filepath_Join dir (archive_name uuid)) ".db" = true.
Proof. unfold filepath_Join, archive_name. destruct (seqb dir "/"); repeat apply HasSuffix_app; vm_compute; reflexivity. Qed.

(** The end of a run: the recovery keeps what is published. *)
Lemma recovered `{GoUUID} d files d' files' e s : represents d s -> published_ok d files -> recoverArchivesLocked d files = (d', files', e) ->
  represents d' s /\ published_ok d' files' /\ db_archives d' = db_archives d /\ (forall p, is_Some (db_archives d !! p) -> files' !! p = files !! p) /\ files' ⊆ files.
Proof.
  intros Hrep Hpub Hr. apply recover_paths_spec in Hr as (S & K & U). pose proof (same_archives _ _ S) as Ea.
  assert (Hkeep : forall p, is_Some (db_archives d !! p) -> files' !! p = files !! p) by (intros p [rng Hp]; apply K; [by eexists|by eapply Hpub]).
  split_and!; [by eapply same_represents| |done|done|done]. intros p rng. rewrite Ea. intros Hp. rewrite Hkeep by (by eexists). by apply Hpub.
Qed.
(** The event of an archived key is in its segment. *)
Definition shelved (d : queue_db) (files : disk) (k : string) (ev : ThreatEvent) : Prop :=
  k = event_key ev /\ exists path id seg sg e, db_archived d !! k = Some (path, id) /\ is_Some (db_archives d !! path) /\ files !! path = Some seg
    /\ represents seg sg /\ e ∈ a_entries sg /\ e_event e = ev.
Lemma shelved_mono d files d' files' k ev : shelved d files k ev -> (k ∈ dom (db_archived d) -> db_archived d' !! k = db_archived d !! k) ->
  (forall p, is_Some (db_archives d !! p) -> is_Some (db_archives d' !! p) /\ files' !! p = files !! p) -> shelved d' files' k ev.
Proof.
  intros (Ek & path & id & seg & sg & e & Ha & Hp & Hf & Hrest) Hk Hkeep. destruct (Hkeep path Hp) as [Hp' Hf'].
  split; [done|]. exists path, id, seg, sg, e. rewrite Hk, Hf' by (by eapply elem_of_dom_2). done.
Qed.
(** What becomes of the events when the keys [ks] are archived. *)
Definition moved (before : Z) (s : aqueue) (d : queue_db) (files : disk) (ks : list string) : Prop :=
  (forall k, k ∈ ks -> k ∈ a_keys s)
  /\ forall e, e ∈ a_entries s -> event_key (e_event e) ∈ ks -> e_status e = 2 /\ e_updated e < before /\ shelved d files (event_key (e_event e)) (e_event e).
Lemma moved_nil before s d files : moved before s d files [].
Proof. split; [by intros k ?%elem_of_nil|]. by intros e _ ?%elem_of_nil. Qed.
Lemma entry_unique s e e' : NoDup (a_keys s) -> e ∈ a_entries s -> e' ∈ a_entries s -> event_key (e_event e) = event_key (e_event e') -> e = e'.
Proof.
  intros Hnd [i Hi]%list_elem_of_lookup [j Hj]%list_elem_of_lookup E. assert (i = j) as ->; [|congruence].
  eapply (NoDup_lookup _ i j (event_key (e_event e))); [exact Hnd| |]; unfold a_keys; rewrite list_lookup_fmap; [by rewrite Hi|]. rewrite Hj. cbn. by rewrite E.
Qed.
Lemma a_selected_in before limit s e : e ∈ a_selected before limit s -> e ∈ a_entries s.
Proof. intros [He _]%subseteq_take%list_elem_of_In%filter_In. by apply list_elem_of_In. Qed.
(** The last record has the largest identifier. *)
Lemma segment_bound rs seg sg final : represents seg sg -> (r_ID <$> db_rows seg) = (r_ID <$> rs) -> last rs = Some final ->
  Forall (fun r => r_ID r <= r_ID final) (db_rows seg).
Proof.
  intros Hseg Hids Hl. assert (Hs : StronglySorted (fun r r' => r_ID r < r_ID r') rs) by (eapply StronglySorted_ids; [apply Hseg|done]).
  apply last_Some in Hl as [rs' ->]. apply Forall_forall. intros r Hr%(list_elem_of_fmap_2 r_ID). rewrite Hids in Hr.
  apply list_elem_of_fmap in Hr as (x & -> & Hx). clear -Hs Hx. induction rs' as [|y rs' IH]; [apply list_elem_of_singleton in Hx as ->; lia|].
  cbn in Hs, Hx. apply StronglySorted_inv in Hs as [Hs Hy]. apply elem_of_cons in Hx as [->|Hx]; [|by apply IH].
  rewrite Forall_app, Forall_singleton in Hy. lia.
Qed.
(** The body of a run: on an error the queue is as it was. *)
Lemma archive_body_spec ctx path before limit d files s r d' files' : represents d s -> published_ok d files -> files !! path = None ->
  strings_HasSuffix path ".db" = true -> archive_body ctx path before limit d files = (r, d', files') ->
  published_ok d' files' /\ (forall p, is_Some (db_archives d !! p) -> is_Some (db_archives d' !! p) /\ files' !! p = files !! p)
  /\ (forall k, k ∈ dom (db_archived d) -> db_archived d' !! k = db_archived d !! k)
  /\ match r with Ok n => exists ks, n = len ks /\ represents d' (a_archive ks s) /\ moved before s d' files' ks | Err _ => represents d' s end.
Proof.
  intros Hrep Hpub Hnone Hdb.
  assert (Hne : forall p, is_Some (db_archives d !! p) -> p <> path) by (intros p [rng Hp] ->; destruct (Hpub _ _ Hp) as (_ & seg & sg & Hs & _); congruence).
  assert (Hput : forall x, published_ok d (<[path := x]> files) /\ forall p, is_Some (db_archives d !! p) -> (<[path := x]> files : disk) !! p = files !! p).
  { intros x. split; [intros p rng Hp; rewrite lookup_insert_ne by (symmetry; eauto); auto|]. intros p Hp. rewrite lookup_insert_ne by (symmetry; auto). auto. }
  unfold archive_body. rewrite Hnone. destruct (archive_prepare _ _ _ _ _ _) as [[[rs seg]|]|] eqn:Ep.
  - destruct (prepare_segment _ _ _ _ _ s _ _ Hrep Ep) as (Hseg & Hids & Hsel). destruct (prepare_spec _ _ _ _ _ _ _ _ (rp_store _ _ Hrep) Ep) as (Hrs & Hnn & _).
    assert (Hst : Forall (fun r => r_Status r = 2) rs) by (apply Forall_forall; intros y Hy; rewrite Hrs in Hy; by apply select_spec in Hy as (_ & ? & _)).
    destruct (archive_publish path rs d) as [d1|] eqn:Eb; intros [= <- <- <-].
    + destruct (publish_represents path rs d s d1 Hrep Hnn Hst Eb) as (Hrep' & Hin & Hold & (lo & final & Hp1 & Hlast) & Hp2 & _). split_and!.
      * intros p rng Hp. destruct (decide (p = path)) as [->|Hn]; [|rewrite Hp2 in Hp by done; by apply Hput].
        rewrite Hp1 in Hp. injection Hp as <-. split; [done|]. exists seg, (mkAQueue (a_selected before limit s) ∅). rewrite lookup_insert_eq.
        split_and!; [done|done|]. by eapply segment_bound.
      * intros p Hp. split; [rewrite Hp2; auto|by apply Hput].
      * done.
      * exists (r_Key <$> rs). split; [unfold len; by rewrite length_fmap|]. split; [done|]. split.
        { intros k (r0 & -> & [i Hi]%list_elem_of_lookup)%list_elem_of_fmap. destruct (Forall2_lookup_l _ _ _ _ _ Hsel Hi) as (e0 & He0 & _ & Hre0).
          apply list_elem_of_lookup_2, a_selected_in in He0. rewrite (rh_key _ _ _ _ Hre0). by eapply list_elem_of_fmap_2'. }
        intros e He Hk.
        apply list_elem_of_fmap in Hk as (r0 & Ek & Hr0). apply list_elem_of_lookup in Hr0 as [i Hi]. apply list_elem_of_lookup_2 in Hi as Hr0.
        destruct (Forall2_lookup_l _ _ _ _ _ Hsel Hi) as (e0 & He0 & Hr0in & Hre0). apply list_elem_of_lookup_2 in He0.
        assert (e0 = e) as ->.
        { eapply (entry_unique s); [apply Hrep|apply (a_selected_in before limit), He0|done|]. by rewrite <- (rh_key _ _ _ _ Hre0), <- Ek. }
        rewrite Hrs in Hr0. destruct (select_spec _ _ _ _ Hr0) as (_ & H2 & H3). rewrite (rh_status _ _ _ _ Hre0) in H2. rewrite (rh_updated _ _ _ _ Hre0) in H3.
        split_and!; [done|done|]. split; [done|]. rewrite <- Hrs in Hr0. destruct (Hin r0 Hr0) as [id Hid]. exists path, id, seg, (mkAQueue (a_selected before limit s) ∅), e.
        rewrite lookup_insert_eq, Hp1, Ek. split_and!; [done|by eexists|done..].
    + split_and!; [apply Hput|intros p Hp; split; [done|by apply Hput]|done|done].
  - intros [= <- <- <-]. split_and!; [done|auto|done|]. exists []. rewrite a_archive_nil. split; [done|]. split; [done|]. apply moved_nil.
  - intros [= <- <- <-]. split_and!; [apply Hput|intros p Hp; split; [done|by apply Hput]|done|done].
Qed.

Lemma recovered_archived `{GoUUID} d files d' files' e : recoverArchivesLocked d files = (d', files', e) -> db_archived d' = db_archived d.
Proof. intros ([X ->] & _ & _)%recover_paths_spec. done. Qed.

Lemma recover_keeps `{GoUUID} d files d' files' e s : represents d s -> published_ok d files -> recoverArchivesLocked d files = (d', files', e) ->
  represents d' s /\ published_ok d' files' /\ (forall k ev, shelved d files k ev -> shelved d' files' k ev) /\ files' ⊆ files.
Proof.
  intros Hrep Hpub E. pose proof (recovered_archived _ _ _ _ _ E) as Ha. destruct (recovered _ _ _ _ _ _ Hrep Hpub E) as (Hr & Hp & Has & Hk & Hsub).
  split_and!; [done|done| |done]. intros k ev Hs. eapply shelved_mono; [exact Hs|by rewrite Ha|]. intros p Hp'. rewrite Has, Hk; done.
Qed.
Lemma Archive_spec `{GoUUID} (ctx : nat -> bool) (uuid dir : string) (before limit : Z) (q : SQLiteQueue) (files : disk) (s : aqueue) :
  represents (q_db q) s -> published_ok (q_db q) files ->
  files !! filepath_Join dir (archive_name uuid) = None ->
  let '(r, q', files') := Archive ctx uuid dir before limit q files in
  published_ok (q_db q') files'
  /\ (forall k ev, shelved (q_db q) files k ev -> shelved (q_db q') files' k ev)
  /\ match r with
     | Ok n => exists ks, n = len ks /\ represents (q_db q') (a_archive ks s) /\ moved before s (q_db q') files' ks
     | Err _ => represents (q_db q') s
     end.
Proof.
  intros Hrep Hpub Hfresh. unfold Archive. destruct (seqb dir ""); [by split_and!|].
  destruct (recoverArchivesLocked (q_db q) files) as [[d0 files0] e0] eqn:E0.
  destruct (recover_keeps _ _ _ _ _ _ Hrep Hpub E0) as (Hrep0 & Hpub0 & Hs0 & Hsub).
  destruct e0 as [e|]; [by split_and!|]. case_bool_decide; [by split_and!|].
  set (path := filepath_Join dir (archive_name uuid)) in *. set (d1 := d0 <| db_archive_pending ::= union {[path]} |>).
  destruct (archive_body _ _ _ _ _ _) as [[r d2] files2] eqn:E2.
  assert (Hfresh0 : files0 !! path = None) by (by eapply lookup_weaken_None).
  assert (Hrep1 : represents d1 s) by (eapply same_represents; [by eexists|exact Hrep0]).
  destruct (archive_body_spec ctx path before _ d1 _ s _ _ _ Hrep1 Hpub0 Hfresh0 (archive_path_db dir uuid) E2)
    as (Hpub2 & Hk2 & Hold2 & Hr2). cbn in Hk2, Hold2.
  assert (Hs2 : forall k ev, shelved d0 files0 k ev -> shelved d2 files2 k ev) by (intros k ev Hsh; eapply shelved_mono; [exact Hsh|apply Hold2|exact Hk2]).
  destruct (recoverArchivesLocked d2 files2) as [[d3 files3] e3] eqn:E3. cbn. destruct r as [n|e].
  - destruct Hr2 as (ks & -> & Hr2 & Hmoved). destruct (recover_keeps _ _ _ _ _ _ Hr2 Hpub2 E3) as (Hrep3 & Hpub3 & Hs3 & _).
    split_and!; [done|auto|]. exists ks. split_and!; [done|done|]. destruct Hmoved as [Hin Hmoved]. split; [done|]. intros x Hx Hk. destruct (Hmoved x Hx Hk) as (? & ? & ?). auto.
  - destruct (recover_keeps _ _ _ _ _ _ Hr2 Hpub2 E3) as (Hrep3 & Hpub3 & Hs3 & _). split_and!; [done|auto|done].
Qed.

(** A run of Archive on its own, with the recovery before and after it, in
    whatever way it ends: the segments that are published are on disk, what was
    archived before can still be read, and the queue holds its events except,
    when the run succeeds, the archived ones, whose number it reports.  Those
    were all acknowledged before the cutoff, and can be read from a published
    segment. *)
Theorem Archive_consistent `{GoUUID} (ctx : nat -> bool) (uuid dir : string) (before limit : Z) (q : SQLiteQueue) (files : disk) (s : aqueue) :
  represents (q_db q) s -> published_ok (q_db q) files ->
  files !! filepath_Join dir (archive_name uuid) = None ->
  let '(r, q', files') := Archive ctx uuid dir before limit q files in
  published_ok (q_db q') files'
  /\ (forall k ev, shelved (q_db q) files k ev -> shelved (q_db q') files' k ev)
  /\ match r with
     | Ok n => exists ks, n = len ks /\ represents (q_db q') (a_archive ks s) /\ moved before s (q_db q') files' ks
     | Err _ => represents (q_db q') s
     end.
Proof. apply Archive_spec. Qed.
End archive_theorems.

(** An acknowledged event is archived: the queue becomes empty. *)
Definition archive_run : res (SQLiteQueue * list record * queue_db * queue_db) :=
  q ← @Enqueue identity_zlib 7 queue0 sample_event;
  let q := MarkPushed 8 q "evt-1" 2 in
  p ← @archive_prepare identity_zlib (fun _ => false) None "/archive/queue-1.db" 100 10 (q_db q);
  match p with
  | Some (rs, seg) => d ← archive_publish "/archive/queue-1.db" rs (q_db q); Ok (q, rs, seg, d)
  | None => Err "nothing to archive"
  end.
Lemma archive_preserves_witness :
  exists q rs seg d s, archive_run = Ok (q, rs, seg, d) /\ @represents identity_zlib d (a_archive (r_Key <$> rs) s)
    /\ r_Key <$> rs = [event_key sample_event] /\ db_rows d = [].
Proof.
  destruct archive_run as [[[[q rs] seg] d]|e] eqn:E.
  2:{ exfalso. assert (F : is_ok archive_run = true) by (vm_compute; reflexivity). rewrite E in F. discriminate F. }
  assert (Hk : match archive_run with Ok (_, rs, _, d) => bool_decide (r_Key <$> rs = [event_key sample_event]) && bool_decide (len (db_rows d) = 0) | Err _ => false end = true)
    by (vm_compute; reflexivity).
  rewrite E in Hk. apply andb_prop in Hk as [Hk Hd]. apply bool_decide_eq_true in Hk. apply bool_decide_eq_true in Hd. apply len_zero in Hd.
  unfold archive_run in E.
  pose proof (@Enqueue_represents identity_zlib identity_zlib_laws 7 queue0 sample_event abstract0 represents_new sample_event_ok) as Hrep.
  destruct (@Enqueue identity_zlib 7 queue0 sample_event) as [q0|]; [|discriminate E]. cbn [mbind res_bind] in E. destruct Hrep as [Hrep _].
  pose proof (MarkPushed_represents 8 q0 _ "evt-1" 2 Hrep) as Hrep1. cbv zeta in E.
  destruct (archive_prepare _ _ _ _ _ _) as [[[rs1 seg1]|]|] eqn:Ep; [|discriminate E|discriminate E]. cbn [mbind res_bind] in E.
  destruct (archive_publish _ rs1 _) as [d1|] eqn:Eb; [|discriminate E]. injection E as <- <- <- <-.
  destruct (@archive_preserves identity_zlib identity_zlib_laws _ _ _ _ _ _ _ _ _ _ _ Hrep1 Ep (rtc_refl _ _) Eb) as (s & _ & Hs & _).
  exists (MarkPushed 8 q0 "evt-1" 2), rs1, seg1, d1, s.
  split; [reflexivity|]. split; [exact Hs|]. split; [exact Hk|exact Hd].
Defined.

(** A run on an empty queue archives nothing. *)
Definition any_uuid : GoUUID := {| uuid_Parse := fun _ => true |}.
Lemma Archive_consistent_witness :
  let '(r, q', files') := @Archive any_uuid identity_zlib (fun _ => false) "1" "/archive" 100 10 queue0 ∅ in
  exists n, r = Ok n /\ exists ks, n = len ks /\ @represents identity_zlib (q_db q') (a_archive ks abstract0).
Proof.
  pose proof (@Archive_consistent identity_zlib identity_zlib_laws any_uuid (fun _ => false) "1" "/archive" 100 10 queue0 ∅ abstract0 represents_new
    ltac:(intros p rng Hx; discriminate Hx) eq_refl) as H.
  destruct (@Archive any_uuid identity_zlib (fun _ => false) "1" "/archive" 100 10 queue0 ∅) as [[r q'] files'] eqn:E.
  destruct H as (_ & _ & H). destruct r as [n|e]; [exists n; split; [reflexivity|destruct H as (ks & H1 & H2 & _); exists ks; split; [exact H1|exact H2]]|]. exfalso. revert E. vm_compute. discriminate.
Defined.
