(* ===== verification/Ranges.v ===== *)
(** * Ranges: reading a part of a stored packet (internal/queue/range.go)

    The management interface shows packets piecewise.  [rangeFromPayload]
    descends to the packet in the tree of the payload and reads only the chunks
    that overlap the range; it is proved to return what restoring the whole
    event and cutting the packet would. *)

From S2P Require Import Prelude GoStrings GoNet Events Json AnyJson Codec EventJson Content Queue Shard Archive.

Record PacketRange := mkRange {
  pr_Offset : Z;
  pr_Length : Z;
  pr_TotalLength : Z;
  pr_PacketHex : string;
  pr_CaptureTruncated : bool
}.
#[global] Instance packet_range_eq_dec : EqDecision PacketRange.
Proof. solve_decision. Defined.

(** filepath.Glob on the names of the disk. *)
Class GoGlob := { filepath_Glob : list string -> string -> list string }.
(** No character of the name is special in a pattern. *)
Definition glob_plain (s : string) : bool := forallb (fun c => negb (existsb (Z.eqb (bv c)) [42; 63; 91; 92])) (byt s).
Class GoGlobLaws `{GoGlob} := {
  glob_prefix : forall names p x, glob_plain p = true -> x ∈ filepath_Glob names (p +:+ "*")
    <-> exists suffix, x = p +:+ suffix /\ x ∈ names /\ forallb (fun c => negb (bv c =? 47)) (byt suffix) = true
}.

(** The base database and its sibling shards; [None] is a panic of the slice
    expression. *)
Fixpoint shard_files (path : string) (matches : list string) : option (list string) :=
  match matches with
  | [] => Some []
  | m :: matches =>
      suffix ← slice_from (byt m) (slen path + slen ".shard");
      rest ← shard_files path matches;
      Some (if (parse_int suffix).2 && negb (bool_decide (suffix = [])) then m :: rest else rest)
  end.
Definition shardPaths `{GoGlob} (names : list string) (path : string) : option (list string) :=
  cons path <$> shard_files path (filepath_Glob names (path +:+ ".shard" +:+ "*")).

(** json.Unmarshal into a map of raw messages: the last member of a name counts. *)
Definition json_into_raw_map (t : bytes) : option (gmap bytes bytes) :=
  if json_Valid t then
    match json_shape t with
    | Some JNull => Some ∅
    | Some (JObject ms) => Some (foldl (fun m kv => <[kv.1 := kv.2]> m) ∅ ms)
    | _ => None
    end
  else None.

Section ranges.
Context `{GoZlib}.

Definition object (db : content_db) (id : string) : res bytes :=
  match readObject db id with
  | ObjOk raw => Ok raw
  | ObjMissing => Err no_rows
  | ObjErr e => Err e
  end.
Definition node (db : content_db) (id : string) : res contentNode :=
  raw ← object db id;
  match decodeNode raw with Some n => Ok n | None => Err "json" end.

Definition raw_member (t key : bytes) : res fragment :=
  match json_into_raw_map t with
  | None => Err "json"
  | Some obj => match obj !! key with Some v => Ok (inline v) | None => Err no_rows end
  end.
(** One member of an object, without expanding the others. *)
Definition child (db : content_db) (f : fragment) (key : bytes) : res fragment :=
  if seqb (fr_Ref f) "" then raw_member (fr_JSON f) key
  else
    n ← node db (fr_Ref f);
    if seqb (nd_Kind n) "object" then
      match List.find (fun m => bool_decide (mb_Key m = key)) (nd_Fields n) with
      | Some m => Ok (mb_Value m)
      | None => Err no_rows
      end
    else if negb (seqb (nd_Kind n) "json") then Err "expected JSON object"
    else raw_member (nd_Data n) key.

(** The text of a fragment. *)
Definition rendered (db : content_db) (f : fragment) : res bytes :=
  '(t, _) ← render db 257 new_reader ∅ f; Ok t.
Definition slice_panic : string := "runtime error: slice bounds out of range".

(** The part of a chunk that starts at [total] in the packet. *)
Definition chunk_part (db : content_db) (offset length total nbytes : Z) (id : string) : res bytes :=
  if (offset <? total + nbytes) && (total <? i64 (offset + length)) then
    c ← node db id;
    if negb (seqb (nd_Kind c) "bytes") then Err "invalid binary chunk"
    else
      let lo := if offset - total <? 0 then 0 else offset - total in
      let hi := i64 (offset + length) - total in
      let hi := if len (nd_Data c) <? hi then len (nd_Data c) else hi in
      match slice (nd_Data c) lo hi with Some p => Ok p | None => Err slice_panic end
  else Ok [].
(** The loop over the chunks of the packet. *)
Fixpoint range_chunks (db : content_db) (offset length total : Z) (data : bytes) (ids : list string) : res (Z * bytes) :=
  match ids with
  | [] => Ok (total, data)
  | id :: ids =>
      match cd_content db !! id with
      | None => Err no_rows
      | Some row =>
          let nbytes := cr_size row - 1 in
          if (nbytes <? 0) || (chunkBytes <? nbytes) then Err "invalid chunk size"
          else
            p ← chunk_part db offset length total nbytes id;
            range_chunks db offset length (total + nbytes) (data ++ p) ids
      end
  end.
(** The packet as text. *)
Definition range_text (db : content_db) (offset length : Z) (truncated : bool) (field : fragment) : res PacketRange :=
  t ← rendered db field;
  match (if json_Valid t then json_into_string [] t else None) with
  | None => Err "json"
  | Some s =>
      match hex_DecodeString s with
      | None => Err "encoding/hex"
      | Some data =>
          if len data <? offset then Err "offset exceeds packet length"
          else
            let stop := if len data <? i64 (offset + length) then len data else i64 (offset + length) in
            match slice data offset stop with
            | Some p => Ok (mkRange offset (stop - offset) (len data) (hex_EncodeToString p) truncated)
            | None => Err slice_panic
            end
      end
  end.
(** The packet as a tree, or as text. *)
Definition range_field (db : content_db) (offset length : Z) (truncated : bool) (field : fragment) : res PacketRange :=
  if seqb (fr_Ref field) "" then range_text db offset length truncated field
  else
    n ← node db (fr_Ref field);
    if seqb (nd_Kind n) "hex" then
      '(total, data) ← range_chunks db offset length 0 [] (nd_Chunks n);
      if total <? offset then Err "offset exceeds packet length"
      else Ok (mkRange offset (len data) total (hex_EncodeToString data) truncated)
    else range_text db offset length truncated field.
(** The flag of a capture that was cut off. *)
Definition range_truncated (db : content_db) (raw : fragment) : res bool :=
  match child db raw (byt "capture_truncated") with
  | Ok f =>
      t ← rendered db f;
      match (if json_Valid t then json_into_bool false t else None) with Some b => Ok b | None => Err "json" end
  | Err e => if isMissing e then Ok false else Err e
  end.
Definition rangeFromPayload (db : content_db) (payload : bytes) (offset length : Z) : res PacketRange :=
  root ← payloadRoot payload;
  let f := if seqb root "" then inline payload else reference root in
  raw ← child db f (byt "raw_packet");
  truncated ← range_truncated db raw;
  field ← child db raw (byt "packet_hex");
  range_field db offset length truncated field.

(** ** Files *)

(** SELECT payload FROM event_queue WHERE event_id=? *)
Definition row_of (d : queue_db) (key : string) : option record := List.find (fun r => seqb (r_Key r) key) (db_rows d).
(** An existing file, opened for reading. *)
Definition readOnly (files : disk) (path : string) : res queue_db :=
  match files !! path with Some d => Ok d | None => Err "no such file or directory" end.
Definition read_range (d : queue_db) (key : string) (offset length : Z) : res PacketRange :=
  match row_of d key with
  | None => Err no_rows
  | Some r => rangeFromPayload (db_content d) (r_Payload r) offset length
  end.

(** [master d name]: the table is in sqlite_master; databases of the first
    version lack the later ones. *)
Context (master : queue_db -> string -> bool).

Definition readPacketRangeOne (files : disk) (path key : string) (offset length : Z) : res PacketRange :=
  if (offset <? 0) || (length <? 1) || (65536 <? length) || (maxInt64 - length <? offset) then Err "invalid range"
  else
    d ← readOnly files path;
    match read_range d key offset length with
    | Ok p => Ok p
    | Err e =>
        if negb (isMissing e) then Err e
        else if negb (master d "queue_archived") then Err e
        else
          match db_archived d !! key with
          | None => Err no_rows
          | Some (archive, _) => a ← readOnly files archive; read_range a key offset length
          end
    end.
(** [paths] are those of shardPaths. *)
Fixpoint read_ranges (files : disk) (paths : list string) (key : string) (offset length : Z) (last : option string) : res PacketRange :=
  match paths with
  | [] => Err (default no_rows last)
  | p :: paths =>
      match readPacketRangeOne files p key offset length with
      | Ok r => Ok r
      | Err e => if isMissing e then read_ranges files paths key offset length (Some e) else Err e
      end
  end.
Definition ReadPacketRange (files : disk) (paths : list string) (key : string) (offset length : Z) : res PacketRange :=
  read_ranges files paths key offset length None.
End ranges.

(** ** The shards on the disk *)

Lemma string_app_assoc a b c : (a +:+ b) +:+ c = a +:+ (b +:+ c).
Proof. apply (inj byt). by rewrite !byt_app, app_assoc. Qed.
Lemma slice_suffix path x : slice_from (byt (path +:+ ".shard" +:+ x)) (slen path + slen ".shard") = Some (byt x).
Proof.
  rewrite !byt_app, app_assoc. apply slice_from_app. unfold slen. by rewrite len_app.
Qed.
(** The suffix names a shard. *)
Definition shard_suffix (x : string) : bool := (parse_int (byt x)).2 && negb (bool_decide (byt x = [])).
Lemma shard_files_spec path ms : Forall (fun m => exists x, m = path +:+ ".shard" +:+ x) ms -> exists ps, shard_files path ms = Some ps
  /\ Forall (fun p => p ∈ ms) ps /\ forall x, path +:+ ".shard" +:+ x ∈ ms -> shard_suffix x = true -> path +:+ ".shard" +:+ x ∈ ps.
Proof.
  induction 1 as [|m ms (x & ->) _ (ps & E & Hin & Hall)]; cbn [shard_files].
  { exists []. split; [done|]. split; [constructor|]. by intros x ?%not_elem_of_nil. }
  rewrite slice_suffix. cbn [mbind option_bind]. rewrite E. cbn [mbind option_bind]. fold (shard_suffix x). eexists. split; [done|].
  assert (Forall (fun p => p ∈ (path +:+ ".shard" +:+ x) :: ms) ps) as Hin' by (eapply Forall_impl; [exact Hin|]; intros ? ?; by right).
  split; [case_match; [constructor; [left|]|]; done|]. intros y [Hy|Hy]%elem_of_cons Hs.
  - assert (y = x) as -> by (apply (inj byt), (app_inv_head (byt path ++ byt ".shard")); by rewrite <-!app_assoc, <-!byt_app, Hy).
    rewrite Hs. left.
  - case_match; [right|]; by apply Hall.
Qed.
Lemma shard_numbers : forallb (fun i => shard_suffix (strconv_Itoa (Z.of_nat i)) && forallb (fun c => negb (bv c =? 47)) (byt (strconv_Itoa (Z.of_nat i)))) (seq 0 64) = true.
Proof. vm_compute. reflexivity. Qed.
Lemma glob_plain_app a b : glob_plain (a +:+ b) = glob_plain a && glob_plain b.
Proof. unfold glob_plain. by rewrite byt_app, forallb_app. Qed.
Section glob.
Context `{GoGlobLaws}.
(** Every shard that exists is found, and nothing that is neither the base nor
    an existing file. *)
Lemma shardPaths_covers names path : glob_plain path = true -> exists ps, shardPaths names path = Some (path :: ps)
  /\ Forall (fun p => p ∈ names) ps /\ forall i, (0 < i < 64)%nat -> shard_path path i ∈ names -> shard_path path i ∈ ps.
Proof.
  intros Hp. unfold shardPaths. rewrite <-string_app_assoc.
  assert (glob_plain (path +:+ ".shard") = true) as Hg by by rewrite glob_plain_app, Hp.
  destruct (shard_files_spec path (filepath_Glob names ((path +:+ ".shard") +:+ "*"))) as (ps & -> & Hin & Hall).
  { apply Forall_forall. intros m (x & -> & _)%(glob_prefix _ _ _ Hg). exists x. apply string_app_assoc. }
  exists ps. split; [done|]. split.
  - eapply Forall_impl; [exact Hin|]. cbn. by intros m (x & _ & ? & _)%(glob_prefix _ _ _ Hg).
  - intros i Hi. unfold shard_path. rewrite (proj2 (Nat.ltb_lt 0 i)) by lia. intros Hn.
    pose proof (proj1 (forallb_forall _ _) shard_numbers i ltac:(apply in_seq; lia)) as [Hs Hc]%andb_true_iff.
    apply Hall; [|done]. apply (glob_prefix _ _ _ Hg). exists (strconv_Itoa (Z.of_nat i)). split; [by rewrite string_app_assoc|]. done.
Qed.
End glob.

(** ** What a range is *)

(** The bytes of [xs] from [lo] to [hi], as far as there are any. *)
Definition window {A : Type} (lo hi : Z) (xs : list A) : list A := take (Z.to_nat hi - Z.to_nat lo) (drop (Z.to_nat lo) xs).
Definition cut (offset length : Z) (truncated : bool) (s : bytes) : res PacketRange :=
  match hex_DecodeString s with
  | None => Err "encoding/hex"
  | Some data =>
      if len data <? offset then Err "offset exceeds packet length"
      else let w := window offset (offset + length) data in
           Ok (mkRange offset (len w) (len data) (hex_EncodeToString w) truncated)
  end.
(** The range of the packet of an event. *)
Definition packet_range (ev : ThreatEvent) (offset length : Z) : res PacketRange :=
  match ev_RawPacket ev with
  | None => Err no_rows
  | Some p => cut offset length (rp_CaptureTruncated p) (byt (rp_PacketHex p))
  end.
(** What readPacketRangeOne accepts. *)
Definition valid_range (offset length : Z) : Prop := 0 <= offset /\ 1 <= length <= 65536 /\ offset <= maxInt64 - length.

Lemma window_app {A} lo hi (a b : list A) : window lo hi (a ++ b) = window lo hi a ++ window (lo - len a) (hi - len a) b.
Proof.
  unfold window, len. rewrite drop_app, take_app, length_drop. do 2 f_equal; [lia|]. f_equal. lia.
Qed.
Lemma window_nil {A} lo hi (xs : list A) : len xs <= lo \/ hi <= 0 -> window lo hi xs = [].
Proof.
  unfold window, len. intros [?|?].
  - rewrite drop_ge by lia. apply take_nil.
  - by replace (Z.to_nat hi - Z.to_nat lo)%nat with 0%nat by lia.
Qed.
Lemma slice_window {A} (xs : list A) lo hi : 0 <= lo <= len xs -> lo <= hi ->
  slice xs lo (if len xs <? hi then len xs else hi) = Some (window lo hi xs).
Proof.
  intros Hlo Hhi. unfold window. destruct (Z.ltb_spec (len xs) hi); (rewrite slice_ok by lia); f_equal.
  - rewrite !take_ge by (rewrite length_drop; unfold len in *; lia). done.
  - f_equal. lia.
Qed.
Lemma len_window {A} (xs : list A) lo hi : 0 <= lo <= len xs -> lo <= hi ->
  len (window lo hi xs) = (if len xs <? hi then len xs else hi) - lo.
Proof. intros. unfold window, len in *. rewrite length_take, length_drop. case_match; lia. Qed.

(** Hexadecimal text is read back. *)
Lemma hex_value_digit n : 0 <= n < 16 -> hex_value (hex_digit n) = Some n.
Proof. intros H. assert (forall k, (k < 16)%nat -> hex_value (hex_digit (Z.of_nat k)) = Some (Z.of_nat k)) as E; [|rewrite <-(Z2Nat.id n) by lia; apply E; lia].
  intros k Hk. do 16 (destruct k as [|k]; [done|]). lia.
Qed.
Lemma hex_decode_encode b : hex_DecodeString (byt (hex_EncodeToString b)) = Some b.
Proof.
  unfold hex_EncodeToString. rewrite byt_str. induction b as [|c b IH]; [done|].
  pose proof (bv_range c). cbn [map concat hex_byte app hex_DecodeString].
  rewrite !hex_value_digit by (split; [apply Z.div_pos || apply Z.mod_pos_bound|apply Z.div_lt_upper_bound || apply Z.mod_pos_bound]; lia).
  cbn [mbind option_bind]. unfold hex_byte in *. rewrite IH. cbn [mbind option_bind].
  replace (bv c / 16 * 16 + bv c mod 16) with (bv c) by (rewrite Z.mul_comm; apply Z.div_mod; lia).
  by rewrite chr_bv.
Qed.

Lemma i64_id z : minInt64 <= z <= maxInt64 -> i64 z = z.
Proof. unfold i64, minInt64, maxInt64. intros ?. rewrite Z.mod_small; lia. Qed.
Lemma NoDup_fst_inj {A B} (l : list (A * B)) k v w : NoDup l.*1 -> (k, v) ∈ l -> (k, w) ∈ l -> v = w.
Proof.
  induction l as [|[k' u] l IH]; cbn; [by intros _ ?%not_elem_of_nil|]. intros [Hn Hl]%NoDup_cons [Hv|Hv]%elem_of_cons [Hw|Hw]%elem_of_cons.
  - congruence.
  - destruct Hn. simplify_eq. by apply (list_elem_of_fmap_2 fst) in Hw.
  - destruct Hn. simplify_eq. by apply (list_elem_of_fmap_2 fst) in Hv.
  - by apply IH.
Qed.
Section range_proofs.
Context `{GoZlibLaws}.

(** A fragment of a stored tree: inline texts are compact. *)
Definition good (f : fragment) : Prop := fr_Ref f = "" -> jtext (fr_JSON f).
Lemma frag_ok_good f : frag_ok f -> good f.
Proof. intros [[_ ?]|[_ Hr]]; [by intros _|]. intros E. by destruct (ref_ok_nonempty _ Hr). Qed.
Lemma inline_good t : jtext t -> good (inline t).
Proof. by intros ? _. Qed.

(** The node a reference of a sound store leads to. *)
Lemma stored_node db id raw n : store_ok db -> readObject db id = ObjOk raw -> decodeNode raw = Some n ->
  node db id = Ok n /\ node_raw n = Some raw /\ (nd_Kind n = "bytes" \/ node_ok n).
Proof.
  intros Hs Hr Hd. destruct (so_saved _ Hs _ _ Hr) as (m & [Hraw Hm] & Hok). simplify_eq.
  split; [|done]. unfold node, object. by rewrite Hr; cbn; rewrite Hd.
Qed.
Lemma zip_members ks ts : zip_with json_member ks ts = member_texts (zip ks ts).
Proof. revert ts. induction ks as [|k ks IH]; intros [|t ts]; [done..|]. cbn. by rewrite IH. Qed.
Lemma node_fields_good n m : node_ok n -> m ∈ nd_Fields n -> utf8_Valid (mb_Key m) = true /\ good (mb_Value m).
Proof. intros Hn Hm. destruct (proj1 (Forall_forall _ _) (nok_fields _ Hn) m Hm). split; [done|by apply frag_ok_good]. Qed.
Lemma mapM_jtext {A} (f : A -> option bytes) l ts : mapM f l = Some ts -> (forall x t, x ∈ l -> f x = Some t -> jtext t) -> Forall jtext ts.
Proof.
  intros E%mapM_Some Hf. induction E as [|x t l ts Hx _ IH]; constructor; [eapply Hf; [by left|done]|].
  apply IH. intros y u Hy. apply Hf. by right.
Qed.
Lemma zip_jtext ks ts : Forall jtext ts -> Forall (fun m : bytes * bytes => jtext m.2) (zip ks ts).
Proof. intros Ht. revert ks. induction Ht as [|t ts Ht _ IH]; intros [|k ks]; constructor; [done|apply IH]. Qed.

Lemma restore_jtext db l f t : store_ok db -> good f -> restore db l f = Some t -> jtext t.
Proof.
  intros Hs. revert f t. induction l as [|l IH]; intros f t Hg; cbn [restore].
  all: destruct (seqb_reflect (fr_Ref f) "") as [E|E]; [case_match; intros; simplify_eq; by apply Hg|]. { done. }
  destruct (readObject db (fr_Ref f)) as [raw| |] eqn:Hr; [|done..]. intros (n & Hd & Hn)%bind_Some.
  destruct (stored_node _ _ _ _ Hs Hr Hd) as (_ & _ & Hk). unfold restore_node in Hn.
  destruct (seqb_reflect (nd_Kind n) "json") as [E1|E1]; [|destruct (seqb_reflect (nd_Kind n) "object") as [E2|E2];
    [|destruct (seqb_reflect (nd_Kind n) "array") as [E3|E3]; [|case_match; [|done]]]].
  - destruct Hk as [Hk|Hk]; [congruence|]. case_match; simplify_eq. by apply (nok_json _ Hk).
  - destruct Hk as [Hk|Hk]; [congruence|]. apply bind_Some in Hn as (ts & Hts & [= <-]). rewrite zip_members.
    apply jt_obj, zip_jtext. eapply mapM_jtext; [exact Hts|]. cbn. intros m u Hm Hu. eapply IH; [|exact Hu]. by eapply node_fields_good.
  - destruct Hk as [Hk|Hk]; [congruence|]. apply bind_Some in Hn as (ts & Hts & [= <-]).
    apply jt_arr. eapply mapM_jtext; [exact Hts|]. intros m u Hm. apply IH. apply frag_ok_good.
    by apply (proj1 (Forall_forall _ _) (nok_items _ Hk)).
  - apply bind_Some in Hn as (cs & _ & [= <-]). apply jt_str.
Qed.

(** *** Members *)

Lemma fold_insert_map (ms : list (bytes * bytes)) : foldl (fun (m : gmap bytes bytes) kv => <[kv.1 := kv.2]> m) ∅ ms = list_to_map (reverse ms).
Proof.
  induction ms as [|kv ms IH] using rev_ind; [done|]. rewrite foldl_app, reverse_app. cbn. by rewrite IH.
Qed.
Definition members_ok (ms : list (bytes * bytes)) : Prop := Forall (fun m => utf8_Valid m.1 = true /\ jtext m.2) ms /\ NoDup ms.*1.
Lemma members_jtext ms : members_ok ms -> jtext (braces (member_texts ms)).
Proof. intros [Hm _]. apply jt_obj. eapply Forall_impl; [exact Hm|]. by intros ? []. Qed.
Lemma raw_member_spec ms key : members_ok ms ->
  match raw_member (braces (member_texts ms)) key with
  | Ok g => exists t, g = inline t /\ (key, t) ∈ ms
  | Err e => e = no_rows /\ key ∉ ms.*1
  end.
Proof.
  intros Hms. unfold raw_member, json_into_raw_map.
  rewrite (jtext_valid _ (members_jtext _ Hms)), (shape_obj ms) by apply Hms. rewrite fold_insert_map.
  destruct (list_to_map (reverse ms) !! key) as [t|] eqn:E.
  - exists t. split; [done|]. apply elem_of_list_to_map_2 in E. by apply elem_of_reverse.
  - split; [done|]. apply not_elem_of_list_to_map_2 in E. intros Hin. apply E. by rewrite fmap_reverse, elem_of_reverse.
Qed.

(** One member of a stored object is found as in the whole text. *)
Definition finds (db : content_db) (l : nat) (r : res fragment) (ms : list (bytes * bytes)) (key : bytes) : Prop :=
  match r with
  | Ok g => good g /\ exists t l', (l' <= l)%nat /\ restore db l' g = Some t /\ (key, t) ∈ ms
  | Err e => e = no_rows /\ key ∉ ms.*1
  end.
Lemma raw_member_finds db l ms key : members_ok ms -> finds db l (raw_member (braces (member_texts ms)) key) ms key.
Proof.
  intros Hms. pose proof (raw_member_spec ms key Hms) as E. unfold finds. destruct (raw_member _ _) as [g|e]; [|done].
  destruct E as (t & -> & Hin). assert (jtext t) as Ht by apply (proj1 (Forall_forall _ _) (proj1 Hms) _ Hin).
  split; [by apply inline_good|]. exists t, l. split; [lia|]. split; [by apply restore_inline|done].
Qed.
Lemma find_member_finds db l (fields : list member) ts ms key : Forall (fun m => utf8_Valid (mb_Key m) = true /\ good (mb_Value m)) fields ->
  mapM (fun m => restore db l (mb_Value m)) fields = Some ts -> ms = zip (mb_Key <$> fields) ts ->
  finds db (S l) (match List.find (fun m => bool_decide (mb_Key m = key)) fields with Some m => Ok (mb_Value m) | None => Err no_rows end) ms key.
Proof.
  intros Hf Hts%mapM_Some ->. induction Hts as [|m t fields ts Ht _ IH]; cbn; [split; [done|apply not_elem_of_nil]|].
  apply Forall_cons in Hf as [[_ Hg] Hf]. specialize (IH Hf). case_bool_decide as E.
  - cbn. split; [done|]. exists t, l. split; [lia|]. split; [done|]. rewrite <-E. left.
  - destruct (List.find _ fields) as [x|]; cbn in *.
    + destruct IH as (? & u & l' & ? & ? & ?). split; [done|]. exists u, l'. split; [done|]. split; [done|by right].
    + destruct IH as [_ IH]. split; [done|]. by rewrite not_elem_of_cons.
Qed.
Lemma zip_ok db l (fields : list member) ts : store_ok db -> Forall (fun m => utf8_Valid (mb_Key m) = true /\ good (mb_Value m)) fields ->
  mapM (fun m => restore db l (mb_Value m)) fields = Some ts -> Forall (fun m => utf8_Valid m.1 = true /\ jtext m.2) (zip (mb_Key <$> fields) ts).
Proof.
  intros Hs Hf Hts%mapM_Some. induction Hts as [|m t fields ts Ht _ IH]; [constructor|].
  apply Forall_cons in Hf as [[Hu Hg] Hf]. constructor; [|by apply IH]. split; [done|]. by eapply restore_jtext.
Qed.
(** Arrays and strings are no objects. *)
Lemma restore_not_object db rec n ms : (if seqb (nd_Kind n) "array" then ts ← mapM rec (nd_Items n); Some (brackets ts)
    else if seqb (nd_Kind n) "string" || seqb (nd_Kind n) "hex" then cs ← mapM (chunk_data db) (nd_Chunks n); Some (string_text (nd_Kind n) cs)
    else None) = Some (braces ms) -> False.
Proof. repeat case_match; intros E; [apply bind_Some in E as (? & _ & E)..|]; discriminate E. Qed.
Lemma child_spec db l f ms key : store_ok db -> good f -> members_ok ms -> restore db l f = Some (braces (member_texts ms)) ->
  finds db l (child db f key) ms key.
Proof.
  intros Hs Hg Hms. unfold child. destruct l as [|l]; cbn [restore].
  all: destruct (seqb_reflect (fr_Ref f) "") as [E|E]; [case_match; intros; simplify_eq|].
  1, 3: replace (fr_JSON f) with (braces (member_texts ms)) by congruence; by apply raw_member_finds. 1: done.
  destruct (readObject db (fr_Ref f)) as [raw| |] eqn:Hr; [|done..]. intros (n & Hd & Hn)%bind_Some.
  destruct (stored_node _ _ _ _ Hs Hr Hd) as (-> & _ & Hk). cbn [mbind res_bind]. unfold restore_node in Hn.
  destruct (seqb_reflect (nd_Kind n) "json") as [E1|E1].
  - rewrite E1. cbn. case_match; simplify_eq. replace (nd_Data n) with (braces (member_texts ms)) by congruence. by apply raw_member_finds.
  - destruct (seqb_reflect (nd_Kind n) "object") as [E2|E2].
    + destruct Hk as [Hk|Hk]; [congruence|]. apply bind_Some in Hn as (ts & Hts & Hn). apply (inj Some) in Hn. rewrite zip_members in Hn.
      assert (Forall (fun m => utf8_Valid (mb_Key m) = true /\ good (mb_Value m)) (nd_Fields n)) as Hf.
      { apply Forall_forall. intros m. by apply node_fields_good. }
      eapply find_member_finds; [exact Hf|exact Hts|].
      pose proof (shape_obj _ (zip_ok db l _ _ Hs Hf Hts)) as Hsh. rewrite Hn, (shape_obj ms) in Hsh by apply Hms. congruence.
    + exfalso. by eapply restore_not_object.
Qed.

(** The same for a struct: the field, or no member when it is omitted. *)
Lemma struct_child {R} (fs : list (field R)) zero r tx f db l fr : struct_spec fs zero -> struct_ok fs r -> text_of tx -> f ∈ fs ->
  store_ok db -> good fr -> restore db l fr = Some (tx (struct_value fs r)) ->
  if fd_omit f && emptyValue (fd_value f r) then child db fr (byt (fd_name f)) = Err no_rows
  else exists g l', child db fr (byt (fd_name f)) = Ok g /\ good g /\ (l' <= l)%nat /\ restore db l' g = Some (tx (fd_value f r)).
Proof.
  intros Hspec Hr Htx Hf Hs Hg Ht. destruct (struct_text fs zero r tx Hspec Hr Htx) as (kvs & Hp & E & Hok & Hnd).
  set (ms := (fun kv => (kv.1, tx kv.2)) <$> kvs) in *.
  assert (ms.*1 = kvs.*1) as Ek by (unfold ms; rewrite <-list_fmap_compose; by apply list_fmap_ext).
  assert (members_ok ms) as Hms by (split; [done|by rewrite Ek]).
  rewrite E in Ht. pose proof (child_spec db l fr ms (byt (fd_name f)) Hs Hg Hms Ht) as Hc. unfold finds in Hc.
  pose proof (written_field fs zero r f Hspec Hf) as Hw. destruct (fd_omit f && emptyValue (fd_value f r)).
  - destruct (child db fr _) as [g|e]; [|by destruct Hc as [-> _]]. exfalso. apply Hw.
    destruct Hc as (_ & t & _ & _ & _ & Hin). apply (list_elem_of_fmap_2 fst) in Hin. rewrite Ek in Hin.
    by rewrite <-Hp.
  - rewrite <-Hp in Hw. destruct (child db fr _) as [g|e].
    + destruct Hc as (Hgg & t & l' & Hl & Hrt & Hin). exists g, l'. split; [done|]. split; [done|]. split; [done|]. rewrite Hrt. f_equal.
      unfold ms in Hin. apply list_elem_of_fmap in Hin as ([k v] & [= Ekk ->] & Hin). cbn in *.
      rewrite Ekk in Hw. f_equal. eapply (NoDup_fst_inj kvs); eauto.
    + destruct Hc as [_ []]. rewrite Ek. by apply (list_elem_of_fmap_2 fst) in Hw.
Qed.

(** *** Chunks *)

Lemma unpack_size codec size data raw : unpack codec size data = Ok raw -> size = len raw.
Proof.
  unfold unpack. repeat case_match; intros [= <-].
  all: match goal with E : negb (_ =? _) = false |- _ => by apply negb_false_iff, Z.eqb_eq in E end.
Qed.
Lemma chunk_row db id d : store_ok db -> chunk_data db id = Some d -> len d <= chunkBytes
  /\ (exists row, cd_content db !! id = Some row /\ cr_size row = len d + 1) /\ exists n, node db id = Ok n /\ nd_Kind n = "bytes" /\ nd_Data n = d.
Proof.
  intros Hs. unfold chunk_data. destruct (readObject db id) as [raw| |] eqn:Hr; [|done..]. intros (n & Hd & Hn)%bind_Some.
  destruct (stored_node _ _ _ _ Hs Hr Hd) as (Hnode & Hraw & _).
  destruct (seqb_reflect (nd_Kind n) "bytes") as [Ek|]; [|done]. cbn in Hn. destruct (Z.gtb_spec (len (nd_Data n)) chunkBytes); simplify_eq.
  split; [done|]. split; [|by exists n]. unfold node_raw in Hraw. rewrite Ek in Hraw. injection Hraw as <-.
  unfold readObject in Hr. destruct (cd_content db !! id) as [row|]; [|done]. exists row. split; [done|].
  destruct (unpack _ _ _) as [u|] eqn:Hu; [|done]. case_match; simplify_eq. apply unpack_size in Hu as ->. rewrite len_cons. lia.
Qed.
Lemma chunk_part_spec db id d off n total : store_ok db -> chunk_data db id = Some d -> valid_range off n -> 0 <= total ->
  chunk_part db off n total (len d) id = Ok (window (off - total) (off + n - total) d).
Proof.
  intros Hs Hd (Ho & Hn & Hsum) Ht. destruct (chunk_row _ _ _ Hs Hd) as (_ & _ & c & Hc & Ek & <-). unfold chunk_part.
  rewrite (i64_id (off + n)) by (unfold minInt64, maxInt64 in *; lia).
  destruct (Z.ltb_spec off (total + len (nd_Data c))); cbn; [|by rewrite window_nil by lia].
  destruct (Z.ltb_spec total (off + n)); [|by rewrite window_nil by lia]. rewrite Hc. cbn [mbind res_bind]. rewrite Ek. cbn.
  pose proof (len_nonneg (nd_Data c)). destruct (Z.ltb_spec (off - total) 0).
  - rewrite slice_window by lia. f_equal. unfold window. by replace (Z.to_nat (off - total)) with (Z.to_nat 0) by lia.
  - by rewrite slice_window by lia.
Qed.
Lemma range_chunks_spec db off n ids pieces : store_ok db -> valid_range off n -> mapM (chunk_data db) ids = Some pieces -> forall total data, 0 <= total ->
  range_chunks db off n total data ids = Ok (total + len (concat pieces), data ++ window (off - total) (off + n - total) (concat pieces)).
Proof.
  intros Hs Hv Hp%mapM_Some. induction Hp as [|id d ids pieces Hd _ IH]; intros total data Ht; cbn [range_chunks concat].
  - assert (forall lo hi, window lo hi (@nil ascii) = []) as -> by (intros; unfold window; by rewrite drop_nil, take_nil). unfold len; cbn. by rewrite Z.add_0_r, app_nil_r.
  - destruct (chunk_row _ _ _ Hs Hd) as (Hl & (row & -> & ->) & _). pose proof (len_nonneg d). replace (len d + 1 - 1) with (len d) by lia.
    rewrite (proj2 (Z.ltb_ge _ _)), (proj2 (Z.ltb_ge _ _)) by lia. cbn [orb]. rewrite (chunk_part_spec _ _ d) by done. cbn [mbind res_bind].
    rewrite IH by lia. rewrite len_app, window_app, app_assoc. do 2 f_equal; [lia|]. do 2 f_equal; lia.
Qed.

(** *** The packet *)

Lemma rendered_spec db l f t : (l <= 257)%nat -> restore db l f = Some t -> rendered db f = Ok t.
Proof.
  intros Hl Hr. unfold rendered. destruct (render_restore db 257 new_reader ∅ f t) as (rd & -> & _); [done| |done|done].
  by eapply restore_mono.
Qed.
Lemma range_text_spec db off n tr field s : valid_range off n -> utf8_Valid s = true -> rendered db field = Ok (json_quote s) ->
  range_text db off n tr field = cut off n tr s.
Proof.
  intros (Ho & Hn & Hsum) Hu Hr. unfold range_text, cut. rewrite Hr. cbn [mbind res_bind].
  rewrite (jtext_valid _ (jt_str s)), into_string_quote by done. destruct (hex_DecodeString s) as [data|]; [|done].
  destruct (Z.ltb_spec (len data) off); [done|]. rewrite i64_id by (unfold minInt64, maxInt64 in *; lia).
  rewrite slice_window by lia. by rewrite len_window by lia.
Qed.
Lemma range_field_spec db l off n tr field s : store_ok db -> valid_range off n -> utf8_Valid s = true -> (l <= 257)%nat ->
  restore db l field = Some (json_quote s) -> range_field db off n tr field = cut off n tr s.
Proof.
  intros Hs Hv Hu Hl Hr. pose proof (rendered_spec _ _ _ _ Hl Hr) as Ht. unfold range_field.
  destruct (seqb_reflect (fr_Ref field) "") as [E|E]; [by apply range_text_spec|].
  destruct l as [|l]; cbn [restore] in Hr; rewrite (proj2 (seqb_neq _ _) E) in Hr; [done|].
  destruct (readObject db (fr_Ref field)) as [raw| |] eqn:Ho; [|done..]. apply bind_Some in Hr as (nd & Hd & Hn).
  destruct (stored_node _ _ _ _ Hs Ho Hd) as (-> & _). cbn [mbind res_bind].
  destruct (seqb_reflect (nd_Kind nd) "hex") as [Ek|]; [|by apply range_text_spec].
  unfold restore_node in Hn. rewrite Ek in Hn. apply bind_Some in Hn as (cs & Hcs & Hq). apply (inj Some) in Hq.
  rewrite (range_chunks_spec db off n _ cs) by done. cbn [mbind res_bind app]. rewrite Z.add_0_l, !Z.sub_0_r.
  unfold string_text in Hq. cbn in Hq. assert (s = byt (hex_EncodeToString (concat cs))) as ->.
  { apply (f_equal json_shape) in Hq. rewrite shape_str in Hq by apply utf8_Valid_ascii, hex_ascii. rewrite shape_str in Hq by done. by injection Hq as <-. }
  unfold cut. by rewrite hex_decode_encode.
Qed.

Lemma text_of_ptr tx v : text_of tx -> tx (VPtr v) = tx v.
Proof. by intros [->| ->]. Qed.
Lemma text_of_string tx s : text_of tx -> tx (VString s) = json_quote s.
Proof. by intros [->| ->]. Qed.
Lemma text_of_bool tx b : text_of tx -> json_Valid (tx (VBool b)) = true /\ json_into_bool false (tx (VBool b)) = Some b.
Proof. by intros [->| ->]; destruct b. Qed.
(** The fields [rangeFromPayload] reads. *)
Definition f_raw_packet : field ThreatEvent := tagged "raw_packet" true (jptr spec_RawPacketContext) ev_RawPacket (fun x r => r <| ev_RawPacket := x |>).
Definition f_truncated : field RawPacketContext := tagged "capture_truncated" true jbool rp_CaptureTruncated (fun x r => r <| rp_CaptureTruncated := x |>).
Definition f_packet_hex : field RawPacketContext := tagged "packet_hex" false jstring rp_PacketHex (fun x r => r <| rp_PacketHex := x |>).
Lemma f_raw_packet_in : f_raw_packet ∈ fields_ThreatEvent.
Proof. apply (list_elem_of_lookup_2 _ 34). reflexivity. Qed.
Lemma f_truncated_in : f_truncated ∈ fields_RawPacketContext.
Proof. apply (list_elem_of_lookup_2 _ 14). reflexivity. Qed.
Lemma f_packet_hex_in : f_packet_hex ∈ fields_RawPacketContext.
Proof. apply (list_elem_of_lookup_2 _ 9). reflexivity. Qed.

Lemma range_truncated_spec tx db l raw p : text_of tx -> struct_ok fields_RawPacketContext p -> store_ok db -> good raw -> (l <= 257)%nat ->
  restore db l raw = Some (tx (struct_value fields_RawPacketContext p)) -> range_truncated db raw = Ok (rp_CaptureTruncated p).
Proof.
  intros Htx Hp Hs Hg Hl Hr. pose proof (struct_child _ _ p tx f_truncated db l raw spec_RawPacketContext Hp Htx f_truncated_in Hs Hg Hr) as Hc.
  unfold range_truncated. change (byt (fd_name f_truncated)) with (byt "capture_truncated") in Hc.
  change (fd_omit f_truncated && emptyValue (fd_value f_truncated p)) with (negb (rp_CaptureTruncated p)) in Hc.
  change (fd_value f_truncated p) with (VBool (rp_CaptureTruncated p)) in Hc.
  destruct (rp_CaptureTruncated p); cbn [negb] in Hc; [|by rewrite Hc].
  destruct Hc as (g & l' & -> & _ & Hl' & Ht). rewrite (rendered_spec db l' g _) with (2 := Ht) by lia. cbn [mbind res_bind].
  by destruct (text_of_bool tx true Htx) as [-> ->].
Qed.
Lemma range_packet_spec tx db l raw p off n : text_of tx -> struct_ok fields_RawPacketContext p -> store_ok db -> good raw -> (l <= 257)%nat -> valid_range off n ->
  restore db l raw = Some (tx (struct_value fields_RawPacketContext p)) ->
  (truncated ← range_truncated db raw; field ← child db raw (byt "packet_hex"); range_field db off n truncated field)
  = cut off n (rp_CaptureTruncated p) (byt (rp_PacketHex p)).
Proof.
  intros Htx Hp Hs Hg Hl Hv Hr. rewrite (range_truncated_spec tx db l raw p) by done. cbn [mbind res_bind].
  pose proof (struct_child _ _ p tx f_packet_hex db l raw spec_RawPacketContext Hp Htx f_packet_hex_in Hs Hg Hr) as (g & l' & Hc & _ & Hl' & Ht).
  change (byt (fd_name f_packet_hex)) with (byt "packet_hex") in Hc. rewrite Hc. cbn [mbind res_bind].
  change (fd_value f_packet_hex p) with (VString (byt (rp_PacketHex p))) in Ht. rewrite text_of_string in Ht by done.
  eapply range_field_spec; [done|done| |instantiate (1 := l'); lia|exact Ht].
  exact (proj1 (Forall_forall _ _) Hp f_packet_hex f_packet_hex_in).
Qed.
(** The range read from the tree is the range of the event. *)
Lemma rangeFromPayload_spec db payload ev t off n : store_ok db -> decodePayload db payload = Ok t -> event_text ev t -> event_ok ev -> valid_range off n ->
  rangeFromPayload db payload off n = packet_range ev off n.
Proof.
  intros Hs Hd Ht Hok Hv. unfold rangeFromPayload. destruct (event_text_of ev t Ht) as (tx & Htx & Et).
  assert (exists root, payloadRoot payload = Ok root /\ good (if seqb root "" then inline payload else reference root)
            /\ restore db 257 (if seqb root "" then inline payload else reference root) = Some t) as (root & -> & Hg & Hr).
  { unfold decodePayload in Hd. destruct (payloadRoot payload) as [root|] eqn:Hp; [|done]. exists root. split; [done|]. cbn [mbind res_bind] in Hd.
    destruct (seqb_reflect root "") as [->|Hroot].
    - injection Hd as ->. pose proof (event_text_jtext ev t Hok Ht). split; [by apply inline_good|by apply restore_inline].
    - split; [by intros ?|]. apply (decodePayload_iff db payload root t Hp Hroot). unfold decodePayload. rewrite Hp. cbn [mbind res_bind].
      by rewrite (proj2 (seqb_neq _ _) Hroot). }
  cbn [mbind res_bind]. set (f := if seqb root "" then _ else _) in *. rewrite Et in Hr.
  pose proof (struct_child _ _ ev tx f_raw_packet db 257 f spec_ThreatEvent Hok Htx f_raw_packet_in Hs Hg Hr) as Hc.
  change (byt (fd_name f_raw_packet)) with (byt "raw_packet") in Hc. unfold packet_range.
  pose proof (proj1 (Forall_forall _ _) Hok f_raw_packet f_raw_packet_in) as Hp. cbn in Hp.
  change (fd_value f_raw_packet ev) with (match ev_RawPacket ev with None => VNil | Some x => VPtr (struct_value fields_RawPacketContext x) end) in Hc.
  destruct (ev_RawPacket ev) as [p|]; cbn [fd_omit f_raw_packet tagged andb emptyValue] in Hc; [|by rewrite Hc].
  destruct Hc as (g & l' & -> & Hgg & Hl & Hrt). cbn [mbind res_bind]. rewrite text_of_ptr in Hrt by done. by apply (range_packet_spec tx db l').
Qed.

(** *** Files *)

Lemma row_of_entry d s e : represents d s -> e ∈ a_entries s ->
  exists r, row_of d (event_key (e_event e)) = Some r /\ row_holds (db_content d) (db_roots d) r e.
Proof.
  intros Hrep He. unfold row_of. pose proof (rp_keys _ _ Hrep) as Hnd. unfold a_keys in Hnd.
  pose proof (rp_rows _ _ Hrep) as Hrows. clear Hrep. induction Hrows as [|r e' rows es Hre _ IH]; [by apply not_elem_of_nil in He|].
  cbn. rewrite (rh_key _ _ _ _ Hre). cbn in Hnd. apply NoDup_cons in Hnd as [Hn Hnd]. apply elem_of_cons in He as [->|He].
  - rewrite seqb_refl. by exists r.
  - rewrite (proj2 (seqb_neq _ _)); [by apply IH|]. intros E. apply Hn. rewrite E. by apply (list_elem_of_fmap_2 (fun e => event_key (e_event e))).
Qed.
Lemma row_of_absent d s key : represents d s -> key ∉ a_keys s -> row_of d key = None.
Proof.
  intros Hrep Hk. unfold row_of. destruct (List.find _ _) as [r|] eqn:E; [|done]. apply find_some in E as [Hin E%seqb_spec].
  destruct Hk. rewrite <-(represents_keys _ _ Hrep), <-E. by apply list_elem_of_fmap_2, list_elem_of_In.
Qed.
Lemma read_range_entry d s e off n : represents d s -> e ∈ a_entries s -> valid_range off n ->
  read_range d (event_key (e_event e)) off n = packet_range (e_event e) off n.
Proof.
  intros Hrep He Hv. unfold read_range. destruct (row_of_entry d s e Hrep He) as (r & -> & Hr).
  destruct (rh_payload _ _ _ _ Hr) as (t & Hd & Ht). eapply rangeFromPayload_spec; [apply Hrep|done|done|apply Hr|done].
Qed.

Context (master : queue_db -> string -> bool).
(** The file of a shard knows nothing of the event, or holds it: in its table,
    or in a published segment. *)
Definition lacks_event (files : disk) (key p : string) : Prop :=
  exists d s, files !! p = Some d /\ represents d s /\ key ∉ a_keys s /\ key ∉ a_archived s.
Definition holds_event (files : disk) (key : string) (ev : ThreatEvent) (p : string) : Prop :=
  exists d s, files !! p = Some d /\ represents d s
    /\ ((key = event_key ev /\ (exists e, e ∈ a_entries s /\ e_event e = ev) /\ key ∉ a_archived s)
        \/ (key ∉ a_keys s /\ master d "queue_archived" = true /\ shelved d files key ev)).
(** At most one of the files has it. *)
Definition located (files : disk) (paths : list string) (key : string) (found : option ThreatEvent) : Prop :=
  match found with
  | None => Forall (lacks_event files key) paths
  | Some ev => exists ps p qs, paths = ps ++ p :: qs /\ Forall (lacks_event files key) ps /\ holds_event files key ev p /\ Forall (lacks_event files key) qs
  end.

#[export] Instance valid_range_dec off n : Decision (valid_range off n).
Proof. unfold valid_range. apply _. Defined.
Lemma valid_guard off n : (off <? 0) || (n <? 1) || (65536 <? n) || (maxInt64 - n <? off) = negb (bool_decide (valid_range off n)).
Proof.
  unfold valid_range. case_bool_decide; destruct (Z.ltb_spec off 0), (Z.ltb_spec n 1), (Z.ltb_spec 65536 n), (Z.ltb_spec (maxInt64 - n) off); cbn; done || lia.
Qed.
Lemma lacks_range files key p off n : lacks_event files key p -> valid_range off n -> readPacketRangeOne master files p key off n = Err no_rows.
Proof.
  intros (d & s & Hf & Hrep & Hk & Ha) Hv. unfold readPacketRangeOne, readOnly. rewrite valid_guard, bool_decide_true by done. cbn [negb]. rewrite Hf.
  cbn [mbind res_bind]. unfold read_range at 1. rewrite (row_of_absent d s) by done. change (isMissing no_rows) with true. cbn [negb].
  destruct (master d "queue_archived"); [|done]. cbn [negb]. rewrite <-(rp_archived _ _ Hrep) in Ha. by rewrite (proj1 (not_elem_of_dom _ _) Ha).
Qed.
Lemma packet_range_error ev off n e : packet_range ev off n = Err e -> e = no_rows \/ isMissing e = false.
Proof. unfold packet_range, cut. repeat case_match; intros [= <-]; auto. Qed.
Lemma holds_range files key ev p off n : holds_event files key ev p -> valid_range off n -> readPacketRangeOne master files p key off n = packet_range ev off n.
Proof.
  intros (d & s & Hf & Hrep & Hh) Hv. unfold readPacketRangeOne, readOnly. rewrite valid_guard, bool_decide_true by done. cbn [negb]. rewrite Hf.
  cbn [mbind res_bind]. destruct Hh as [(-> & (e & He & <-) & Ha)|(Hk & Hm & Hsh)].
  - rewrite (read_range_entry d s) by done. destruct (packet_range _ _ _) as [|x] eqn:E; [done|].
    rewrite <-(rp_archived _ _ Hrep) in Ha. rewrite (proj1 (not_elem_of_dom _ _) Ha).
    destruct (packet_range_error _ _ _ _ E) as [->|Hx]; [by destruct (master d _)|by rewrite Hx].
  - unfold read_range at 1. rewrite (row_of_absent d s) by done. change (isMissing no_rows) with true. rewrite Hm. cbn [negb].
    destruct Hsh as (-> & path & id & seg & sg & e & -> & _ & -> & Hseg & He & <-). cbn [mbind res_bind]. by apply (read_range_entry seg sg).
Qed.
Lemma read_ranges_lacks files ps qs key off n last : Forall (lacks_event files key) ps -> valid_range off n -> last = None \/ last = Some no_rows ->
  exists last', read_ranges master files (ps ++ qs) key off n last = read_ranges master files qs key off n last' /\ (last' = None \/ last' = Some no_rows).
Proof.
  intros Hps Hv. revert last. induction Hps as [|p ps Hp _ IH]; intros last Hl; [by exists last|]. cbn [app read_ranges].
  rewrite lacks_range by done. apply IH. by right.
Qed.
Lemma read_ranges_none files ps key off n last : Forall (lacks_event files key) ps -> valid_range off n -> last = None \/ last = Some no_rows ->
  read_ranges master files ps key off n last = Err no_rows.
Proof.
  intros Hps Hv Hl. destruct (read_ranges_lacks files ps [] key off n last) as (l' & E & [->| ->]); [done..| |]; by rewrite app_nil_r in E; rewrite E.
Qed.
(** C15.  Reading a range of a packet from the tree of its chunks is reading
    the packet and cutting it.  Whatever the form of the stored payload, inline,
    in chunks, compressed or as plain text, and whether the event is in the table
    of one of the shards or in an archive segment, [ReadPacketRange] answers the
    bytes of the window with their number, the length of the packet and the flag
    of a truncated capture; it refuses an invalid range, an offset past the end
    and a packet that is not hexadecimal, and answers no rows for an event that
    is in no shard or has no packet. *)
Theorem ReadPacketRange_exact (files : disk) (paths : list string) (key : string) (offset length : Z) (found : option ThreatEvent) :
  located files paths key found -> paths <> [] ->
  ReadPacketRange master files paths key offset length
  = (if bool_decide (valid_range offset length)
     then match found with Some ev => packet_range ev offset length | None => Err no_rows end
     else Err "invalid range").
Proof.
  intros Hloc Hne. unfold ReadPacketRange. case_bool_decide as Hv.
  - destruct found as [ev|]; [|apply read_ranges_none; auto]. destruct Hloc as (ps & p & qs & -> & Hps & Hp & Hqs).
    destruct (read_ranges_lacks files ps (p :: qs) key offset length None) as (l' & -> & Hl'); [auto..|]. cbn [read_ranges].
    rewrite (holds_range _ _ _ _ _ _ Hp Hv). destruct (packet_range ev offset length) as [|e] eqn:E; [done|].
    destruct (packet_range_error _ _ _ _ E) as [->|Hx]; [|by rewrite Hx]. apply read_ranges_none; auto.
  - destruct paths as [|p paths]; [done|]. cbn [read_ranges]. unfold readPacketRangeOne. rewrite valid_guard, bool_decide_false by done. done.
Qed.
End range_proofs.

(** An event with a packet of three bytes, and two of them. *)
Definition ranged_event : ThreatEvent :=
  sample_event <| ev_RawPacket := Some (zero_RawPacketContext <| rp_PacketHex := "0a0b0c" |>) |>.
Lemma ranged_event_ok : event_ok ranged_event.
Proof. apply (bool_decide_unpack (struct_ok fields_ThreatEvent ranged_event)). vm_compute. exact I. Qed.
Lemma ReadPacketRange_exact_witness : exists q, @Enqueue identity_zlib 7 queue0 ranged_event = Ok q
  /\ @ReadPacketRange identity_zlib (fun _ _ => true) {["q.db" := q_db q]} ["q.db"] (event_key ranged_event) 1 2 = Ok (mkRange 1 2 3 "0b0c" false).
Proof.
  pose proof (@Enqueue_represents identity_zlib identity_zlib_laws 7 queue0 ranged_event abstract0 represents_new ranged_event_ok) as Hrep.
  destruct (@Enqueue identity_zlib 7 queue0 ranged_event) as [q|e] eqn:E.
  2:{ exfalso. assert (F : is_ok (@Enqueue identity_zlib 7 queue0 ranged_event) = true) by (vm_compute; reflexivity). rewrite E in F. discriminate F. }
  exists q. split; [reflexivity|]. destruct Hrep as [Hrep _].
  rewrite (@ReadPacketRange_exact identity_zlib (fun _ _ => true) {["q.db" := q_db q]} ["q.db"] (event_key ranged_event) 1 2 (Some ranged_event)).
  - vm_compute. reflexivity.
  - exists [], "q.db", []. split; [reflexivity|]. split; [constructor|]. split; [|constructor].
    exists (q_db q), (a_enqueue 7 ranged_event abstract0). split; [apply lookup_singleton_eq|]. split; [exact Hrep|]. left.
    split; [reflexivity|]. split; [|exact (not_elem_of_empty (C := gset string) _)].
    exists (mkEntry ranged_event 0 0 "" 7 7). split; [left|reflexivity].
  - discriminate.
Defined.
