(* ===== verification/Admin.v ===== *)
(** * Admin: requeueing and deleting events (internal/queue/crud.go)

    The management interface works on the database files themselves: it resets
    or removes every revision of an event in all shard databases.  The rows are
    selected with the GLOB operator of SQLite, on a pattern built from the
    escaped identifier; the operator is a parameter with its documented
    behaviour on such patterns. *)

From S2P Require Import Prelude GoStrings GoNet Events Json Codec EventJson Content Queue EventQueue Archive.

(** ** Patterns *)

(** [text GLOB pattern]. *)
Class SqlGlob := { sql_glob : bytes -> bytes -> bool }.
(** Characters that stand for themselves, sets of one character, and [*]; the
    characters of the pattern are ASCII. *)
Class SqlGlobLaws `{SqlGlob} := {
  glob_nil : forall t, sql_glob [] t = bool_decide (t = []);
  glob_char : forall c p t, bv c < 128 -> c ∉ [chr 42; chr 63; chr 91] ->
    sql_glob (c :: p) t = match t with d :: t => bool_decide (c = d) && sql_glob p t | [] => false end;
  glob_set : forall c p t, bv c < 128 -> c ∉ [chr 93; chr 94] ->
    sql_glob (chr 91 :: c :: chr 93 :: p) t = match t with d :: t => bool_decide (c = d) && sql_glob p t | [] => false end;
  glob_star : forall t, sql_glob [chr 42] t = true
}.

(** globEscaper: strings.NewReplacer on single bytes. *)
Definition glob_escape (c : ascii) : bytes :=
  if bool_decide (c ∈ [chr 91; chr 42; chr 63]) then [chr 91; c; chr 93] else [c].
Definition globEscaper_Replace (s : bytes) : bytes := concat (glob_escape <$> s).
Definition revisionPattern (eventID : string) : bytes := globEscaper_Replace (byt eventID) ++ byt "@revision:*".

Definition validEventID (eventID : string) : res unit :=
  if seqb eventID "" || (512 <? slen eventID) then Err "invalid event id" else Ok tt.

(** ** Operations on the shard databases *)

Section admin.
Context `{SqlGlob}.

(** WHERE event_id=? OR event_id GLOB ? *)
Definition selects (eventID : string) (pattern : bytes) (key : string) : bool := seqb key eventID || sql_glob pattern (byt key).
Definition requeue_row (now : Z) (r : record) : record :=
  r <| r_Status := 0 |> <| r_Retry := 0 |> <| r_Error := "" |> <| r_Updated := now |>.
Definition affected (sel : string -> bool) (d : queue_db) : Z := len (List.filter (fun r => sel (r_Key r)) (db_rows d)).
(** One UPDATE, with the number of rows it affected. *)
Definition requeue_db (now : Z) (eventID : string) (pattern : bytes) (d : queue_db) : Z * queue_db :=
  (affected (selects eventID pattern) d,
   d <| db_rows ::= map (fun r => if selects eventID pattern (r_Key r) then requeue_row now r else r) |>).
Definition deleteEventFrom (eventID : string) (pattern : bytes) (d : queue_db) : Z * queue_db :=
  let keeps (k : string) := negb (selects eventID pattern k) in
  (affected (selects eventID pattern) d,
   d <| db_summary ::= filter (fun kv => keeps kv.1 = true) |> <| db_roots ::= filter (fun kv => keeps kv.1 = true) |>
     <| db_rows ::= List.filter (fun r => keeps (r_Key r)) |>).
(** The loop over the shard files. *)
Fixpoint each_db (f : queue_db -> Z * queue_db) (total : Z) (files : list queue_db) : Z * list queue_db :=
  match files with
  | [] => (total, [])
  | d :: files => let '(n, d) := f d in let '(total, files) := each_db f (i64 (total + n)) files in (total, d :: files)
  end.
Definition admin (f : string -> bytes -> queue_db -> Z * queue_db) (files : list queue_db) (eventID : string) : res Z * list queue_db :=
  match validEventID eventID with
  | Err e => (Err e, files)
  | Ok _ =>
      let '(total, files) := each_db (f eventID (revisionPattern eventID)) 0 files in
      (if total =? 0 then Err no_rows else Ok total, files)
  end.
(** [files] are the databases of shardPaths. *)
Definition RequeueEvent (now : Z) (files : list queue_db) (eventID : string) : res Z * list queue_db := admin (requeue_db now) files eventID.
Definition DeleteEvent (files : list queue_db) (eventID : string) : res Z * list queue_db := admin deleteEventFrom files eventID.
End admin.

(** ** The rows of an event *)

Definition ascii_string (s : string) : Prop := Forall (fun c => bv c < 128) (byt s).

Section patterns.
Context `{SqlGlobLaws}.

(** A pattern of literals selects by prefix. *)
Lemma glob_escaped s p t : Forall (fun c => bv c < 128) s ->
  sql_glob (globEscaper_Replace s ++ p) t = bytes_HasPrefix t s && sql_glob p (drop (length s) t).
Proof.
  intros Hs. revert t. induction Hs as [|c s Hc _ IH]; intros t; [by destruct t|].
  assert (E : sql_glob (globEscaper_Replace (c :: s) ++ p) t
    = match t with d :: t => bool_decide (c = d) && sql_glob (globEscaper_Replace s ++ p) t | [] => false end).
  { unfold globEscaper_Replace, glob_escape. cbn [fmap list_fmap concat]. case_bool_decide as Hin.
    - cbn [app]. apply glob_set; [done|]. intros Hbad. assert (Hbad' : c = chr 93 \/ c = chr 94) by set_solver.
      destruct Hbad' as [-> | ->]; revert Hin; apply (bool_decide_eq_false_1 _); vm_compute; reflexivity.
    - cbn [app]. apply glob_char; [done|]. set_solver. }
  rewrite E. destruct t as [|d t]; cbn; [done|]. rewrite IH. by rewrite andb_assoc.
Qed.
Lemma glob_revision id t : ascii_string id -> sql_glob (revisionPattern id) t = bytes_HasPrefix t (byt (id +:+ "@revision:")).
Proof.
  intros Hid. unfold revisionPattern. rewrite glob_escaped by done.
  change (byt "@revision:*") with (globEscaper_Replace (byt "@revision:") ++ [chr 42]). rewrite glob_escaped.
  2:{ apply (bool_decide_unpack _). vm_compute. exact I. }
  rewrite glob_star, andb_true_r, byt_app. apply eq_iff_eq_true. rewrite andb_true_iff, !bytes_HasPrefix_spec. split.
  - intros [[r ->] [r' Hr]]. rewrite drop_app_length in Hr. subst. exists r'. by rewrite <- app_assoc.
  - intros [r ->]. rewrite <- app_assoc. split; [by eexists|]. rewrite drop_app_length. by eexists.
Qed.
(** Among plain identifiers the selection is that of the event. *)
Lemma selects_key id ev : ascii_string id -> plain id -> plain (ev_EventID ev) ->
  selects id (revisionPattern id) (event_key ev) = seqb (ev_EventID ev) id.
Proof.
  intros Ha Hid Hev. unfold selects. rewrite glob_revision by done. apply eq_iff_eq_true. rewrite orb_true_iff, !seqb_spec, bytes_HasPrefix_spec. split.
  - intros [E|[r E]].
    + apply (queueRecordID_inj (ev_EventID ev) id (ev_ContextRevision ev) 1 Hev Hid). exact E.
    + assert (Hk : exists x, byt (event_key ev) = byt (ev_EventID ev) ++ x /\ (x = [] \/ exists t, x = chr 64 :: t)) by apply byt_queueRecordID.
      destruct Hk as (x & Ex & Hx). rewrite Ex, byt_app, <- app_assoc in E.
      destruct (split_at_inj _ _ _ _ Hev Hid Hx ltac:(right; by eexists) E) as [E' _]. by rewrite <- (str_byt id), <- E', str_byt.
  - intros <-. unfold event_key, queueRecordID. destruct (ev_ContextRevision ev <=? 1); [by left|right].
    eexists. rewrite !byt_app, app_assoc. reflexivity.
Qed.
End patterns.

(** ** On abstract queues *)

Definition of_event (id : string) (e : entry) : bool := seqb (ev_EventID (e_event e)) id.
Definition a_requeued (now : Z) (e : entry) : entry :=
  e <| e_status := 0 |> <| e_retry := 0 |> <| e_error := "" |> <| e_updated := now |>.
Definition a_requeue (now : Z) (id : string) (s : aqueue) : aqueue :=
  mkAQueue ((fun e => if of_event id e then a_requeued now e else e) <$> a_entries s) (a_archived s).
Definition a_delete (id : string) (s : aqueue) : aqueue := mkAQueue (List.filter (fun e => negb (of_event id e)) (a_entries s)) (a_archived s).
(** The number of revisions of the event over all shards. *)
Definition revisions (id : string) (ss : list aqueue) : Z := len (List.filter (of_event id) (concat (a_entries <$> ss))).
Definition plain_queue (s : aqueue) : Prop := Forall (fun e => plain (ev_EventID (e_event e))) (a_entries s).

Section exact.
Context `{GoZlib} `{SqlGlobLaws}.

Lemma holds_plain d s : represents d s -> plain_queue s ->
  Forall2 (fun r e => row_holds (db_content d) (db_roots d) r e /\ plain (ev_EventID (e_event e))) (db_rows d) (a_entries s).
Proof.
  intros [Hr _ _ _ _ _] Hs. unfold plain_queue in Hs. induction Hr as [|r e rows es Hre _ IH]; [constructor|].
  apply Forall_cons in Hs as [He Hs]. constructor; auto.
Qed.
Lemma affected_entries id d s : represents d s -> ascii_string id -> plain id -> plain_queue s ->
  affected (selects id (revisionPattern id)) d = len (List.filter (of_event id) (a_entries s)).
Proof.
  intros Hrep Ha Hid Hs. unfold affected, len. f_equal. eapply Forall2_length, filter_Forall2; [|by apply holds_plain].
  intros r e [Hre Hp]. cbn. rewrite (rh_key _ _ _ _ Hre). by apply selects_key.
Qed.
(** On a plain queue the selection by keys is the selection by events. *)
Lemma requeue_entries now id s : ascii_string id -> plain id -> plain_queue s ->
  mkAQueue ((fun e => if selects id (revisionPattern id) (event_key (e_event e)) then a_requeued now e else e) <$> a_entries s) (a_archived s) = a_requeue now id s.
Proof.
  intros Ha Hid Hs. unfold a_requeue. f_equal. apply list_fmap_ext. intros i e He. unfold of_event. rewrite selects_key; [done..|].
  by eapply (Forall_lookup_1 _ _ _ _ Hs).
Qed.
Lemma delete_entries id s : ascii_string id -> plain id -> plain_queue s ->
  mkAQueue (List.filter (fun e => negb (selects id (revisionPattern id) (event_key (e_event e)))) (a_entries s)) (a_archived s) = a_delete id s.
Proof.
  intros Ha Hid Hs. unfold a_delete. f_equal. apply filter_ext_in. intros e He%list_elem_of_In. unfold of_event. rewrite selects_key; [done..|].
  by eapply (proj1 (Forall_forall _ _) Hs).
Qed.

(** What an operation does to one database. *)
Definition acts_as (f : queue_db -> Z * queue_db) (id : string) (g : aqueue -> aqueue) : Prop := forall d s, represents d s -> plain_queue s ->
  (f d).1 = len (List.filter (of_event id) (a_entries s)) /\ represents (f d).2 (g s).
Lemma requeue_acts now id : ascii_string id -> plain id -> acts_as (requeue_db now id (revisionPattern id)) id (a_requeue now id).
Proof.
  intros Ha Hid d s Hrep Hs. split; [by apply affected_entries|]. rewrite <- requeue_entries by done. apply select_represents; try done.
  intros r e [? ? ? ? ? ? ? ? ? ?]. by split.
Qed.
Lemma delete_acts id : ascii_string id -> plain id -> acts_as (deleteEventFrom id (revisionPattern id)) id (a_delete id).
Proof.
  intros Ha Hid d s Hrep Hs. split; [by apply affected_entries|]. rewrite <- delete_entries by done.
  apply (shrink_represents d s _ (fun k => negb (selects id (revisionPattern id) k))); try done; [|apply Hrep].
  intros k Hk. cbn. rewrite map_lookup_filter. destruct (db_roots d !! k) as [x|]; cbn; [|done]. by rewrite option_guard_True.
Qed.
Lemma revisions_cons id s ss : revisions id (s :: ss) = len (List.filter (of_event id) (a_entries s)) + revisions id ss.
Proof. unfold revisions, len. cbn [fmap list_fmap concat]. rewrite List.filter_app, length_app. lia. Qed.
Lemma each_db_acts f id g files ss total : acts_as f id g -> Forall2 represents files ss -> Forall plain_queue ss ->
  0 <= total -> total + revisions id ss < 2 ^ 63 ->
  exists files', each_db f total files = (total + revisions id ss, files') /\ Forall2 represents files' (g <$> ss).
Proof.
  intros Hf Hr. revert total. induction Hr as [|d s files ss Hd _ IH]; intros total Hp Ht Hb.
  - exists []. cbn. rewrite Z.add_0_r. by split.
  - apply Forall_cons in Hp as [Hs Hp]. destruct (Hf d s Hd Hs) as [Hn Hg]. cbn [each_db]. destruct (f d) as [n d'] eqn:E. cbn [fst snd] in *.
    rewrite revisions_cons in Hb. assert (0 <= n) by (subst n; unfold len; lia). assert (0 <= revisions id ss) by (unfold revisions, len; lia).
    replace (i64 (total + n)) with (total + n) by (unfold i64; rewrite Z.mod_small; lia).
    destruct (IH (total + n) Hp ltac:(lia) ltac:(lia)) as (files' & -> & Hr'). exists (d' :: files'). rewrite revisions_cons. split; [f_equal; lia|].
    by constructor.
Qed.

(** C36.  Administration by event: for a valid plain identifier, RequeueEvent
    makes every revision of the event in every shard pending again with no
    tries used, DeleteEvent removes every revision, and neither touches any
    other event: its row, its delivery state and its stored payload stay.  The
    answer is the number of revisions, and an error when there are none.  The
    characters that are special in a pattern do not matter, and an identifier
    that is empty or too long changes nothing. *)
Theorem admin_exact now (files : list queue_db) (ss : list aqueue) (id : string) :
  Forall2 represents files ss -> Forall plain_queue ss -> ascii_string id -> plain id -> revisions id ss < 2 ^ 63 ->
  let answer := if revisions id ss =? 0 then Err no_rows else Ok (revisions id ss) in
  if seqb id "" || (512 <? slen id)
  then RequeueEvent now files id = (Err "invalid event id", files) /\ DeleteEvent files id = (Err "invalid event id", files)
  else (exists files', RequeueEvent now files id = (answer, files') /\ Forall2 represents files' (a_requeue now id <$> ss)
          /\ forall s e max, s ∈ ss -> e ∈ a_entries (a_requeue now id s) -> ev_EventID (e_event e) = id -> a_is_pending max e = true)
    /\ (exists files', DeleteEvent files id = (answer, files') /\ Forall2 represents files' (a_delete id <$> ss)).
Proof.
  intros Hr Hp Ha Hid Hb answer. unfold RequeueEvent, DeleteEvent, admin, validEventID. case_if; [done|]. split.
  - destruct (each_db_acts _ id _ files ss 0 (requeue_acts now id Ha Hid) Hr Hp) as (files' & -> & Hr'); [lia..|]. rewrite Z.add_0_l.
    exists files'. split; [done|]. split; [done|]. intros s e max _ (e' & -> & _)%list_elem_of_fmap.
    unfold of_event. destruct (seqb (ev_EventID (e_event e')) id) eqn:E; [|by apply seqb_neq in E].
    intros _. unfold a_is_pending. cbn. destruct (max <=? 0) eqn:Em; [done|]. cbn. b2p. by apply Z.ltb_lt.
  - destruct (each_db_acts _ id _ files ss 0 (delete_acts id Ha Hid) Hr Hp) as (files' & -> & Hr'); [lia..|]. rewrite Z.add_0_l. by exists files'.
Qed.
End exact.

(** ** A witness *)

(** The operator on patterns with [*] and sets of one character. *)
Fixpoint simple_glob (p t : bytes) : bool :=
  match p with
  | [] => bool_decide (t = [])
  | c :: p =>
      if bool_decide (c = chr 42) then existsb (fun i => simple_glob p (drop i t)) (seq 0 (S (length t)))
      else if bool_decide (c = chr 91) then
        match p, t with x :: _ :: p, d :: t => bool_decide (x = d) && simple_glob p t | _, _ => false end
      else match t with d :: t => bool_decide (c = d) && simple_glob p t | [] => false end
  end.
Definition glob_simple : SqlGlob := {| sql_glob := simple_glob |}.
Lemma glob_simple_laws : @SqlGlobLaws glob_simple.
Proof.
  split; cbn [sql_glob glob_simple].
  - done.
  - intros c p t _ Hc. cbn [simple_glob]. rewrite !bool_decide_eq_false_2 by set_solver. done.
  - intros c p t _ _. reflexivity.
  - intros t. cbn [simple_glob]. rewrite bool_decide_eq_true_2 by done. apply existsb_exists. exists (length t). split.
    + apply in_seq. lia.
    + by rewrite drop_ge.
Qed.

(** A failed revision becomes pending again; then it is deleted. *)
Lemma admin_exact_witness :
  exists q, @Enqueue identity_zlib 7 queue0 sample_event = Ok q
  /\ (let d := q_db (MarkFailed 8 q "evt-1" 2 "refused") in
      (exists files', @RequeueEvent glob_simple 9 [d] "evt-1" = (Ok 1, files')
        /\ Forall2 (@represents identity_zlib) files' [mkAQueue [mkEntry sample_event 0 0 "" 7 9] ∅])
      /\ exists files', @DeleteEvent glob_simple [d] "evt-1" = (Ok 1, files') /\ Forall2 (@represents identity_zlib) files' [mkAQueue [] ∅]).
Proof.
  pose proof (@Enqueue_represents identity_zlib identity_zlib_laws 7 queue0 sample_event abstract0 represents_new sample_event_ok) as He.
  destruct (@Enqueue identity_zlib 7 queue0 sample_event) as [q|e] eqn:E.
  2:{ exfalso. assert (F : is_ok (@Enqueue identity_zlib 7 queue0 sample_event) = true) by (vm_compute; reflexivity).
      rewrite E in F. discriminate F. }
  exists q. split; [reflexivity|]. destruct He as [Hq _].
  pose proof (@MarkFailed_represents identity_zlib 8 q _ "evt-1" 2 "refused" Hq) as Hf.
  match type of Hf with represents _ ?x => set (s := x) in Hf end.
  assert (Hn : revisions "evt-1" [s] = 1) by (vm_compute; reflexivity).
  assert (Hr : a_requeue 9 "evt-1" <$> [s] = [mkAQueue [mkEntry sample_event 0 0 "" 7 9] ∅]) by (vm_compute; reflexivity).
  assert (Hd : a_delete "evt-1" <$> [s] = [mkAQueue [] ∅]) by (vm_compute; reflexivity).
  assert (Hp : Forall plain_queue [s]) by (apply (bool_decide_unpack _); vm_compute; exact I). clearbody s.
  pose proof (@admin_exact identity_zlib glob_simple glob_simple_laws 9 [q_db (MarkFailed 8 q "evt-1" 2 "refused")] [s] "evt-1"
    (List.Forall2_cons _ _ Hf (List.Forall2_nil _)) Hp) as Hx.
  rewrite Hn, Hr, Hd in Hx. change (seqb "evt-1" "" || (512 <? slen "evt-1")) with false in Hx. cbv zeta in Hx.
  destruct Hx as [(f1 & E1 & H1 & _) (f2 & E2 & H2)].
  - apply (bool_decide_unpack _). vm_compute. exact I.
  - apply (bool_decide_unpack _). vm_compute. exact I.
  - lia.
  - split; [exists f1; split; [exact E1|exact H1]|exists f2; split; [exact E2|exact H2]].
Defined.
