(* ===== verification/Maintain.v ===== *)
(** * Maintain: the storage maintenance worker (internal/queue/worker.go, Stats of maintenance.go)

    Maintain recovers interrupted archives, then in every round measures the
    storage, archives acknowledged events and collects unreferenced content.
    It is proved against the interface [MaintenanceTarget]; the other
    goroutines enqueue and acknowledge events between any two of its
    operations. *)

From S2P Require Import Prelude GoStrings GoNet Events Json Codec EventJson Content Queue EventQueue Archive.

(** ** Measurements *)

Record StorageStats := mkStats {
  ss_PageBytes : Z;
  ss_ReusableBytes : Z;
  ss_FileBytes : Z;
  ss_AvailableBytes : Z;
  ss_ArchiveSegments : Z;
  ss_Backend : string;
  ss_Shards : Z
}.
(** What the engine and the file system answer: the three PRAGMAs, the sizes of
    the files that exist, and availableBytes of the directory. *)
Record readings := mkReadings {
  rd_page_size : Z; rd_page_count : Z; rd_freelist_count : Z;
  rd_size : string -> option Z;
  rd_available : res Z
}.
Definition Stats (m : readings) (q : SQLiteQueue) : res StorageStats :=
  let file := foldl (fun n suffix => match rd_size m (q_path q +:+ suffix) with Some k => i64 (n + k) | None => n end) 0 ["" : string; "-wal"; "-journal"] in
  available ← rd_available m;
  Ok (mkStats (i64 (rd_page_size m * rd_page_count m)) (i64 (rd_page_size m * rd_freelist_count m)) file available
        (Z.of_nat (size (db_archives (q_db q)))) (q_backend q) 0).

(** ** The worker *)

Record MaintenanceOptions := mkMaintenance {
  mo_ArchiveDir : string;
  mo_After : Z; (* nanoseconds *)
  mo_Interval : Z;
  mo_Batch : Z;
  mo_HighWater : Z;
  mo_LowWater : Z;
  mo_MinFree : Z
}.
#[global] Instance settable_MaintenanceOptions : Settable MaintenanceOptions := fun o =>
  mkMaintenance (mo_ArchiveDir o) (mo_After o) (mo_Interval o) (mo_Batch o) (mo_HighWater o) (mo_LowWater o) (mo_MinFree o).
(** The defaults at the start of Maintain. *)
Definition maintain_options (o : MaintenanceOptions) : MaintenanceOptions :=
  let o := if mo_Interval o <=? 0 then o <| mo_Interval := 60 * 1000000000 |> else o in
  if mo_Batch o <=? 0 then o <| mo_Batch := 100 |> else o.
(** Pressure begins at the high mark and ends at the low mark. *)
Definition pressure_after (o : MaintenanceOptions) (pressure : bool) (stats : res StorageStats) : bool :=
  match stats with
  | Err _ => pressure
  | Ok s =>
      let used := i64 (ss_PageBytes s - ss_ReusableBytes s) in
      let pressure := if (0 <? mo_HighWater o) && (mo_HighWater o <=? used) then true else pressure in
      if pressure && (used <=? mo_LowWater o) then false else pressure
  end.
(** time.Unix of an instant in nanoseconds. *)
Definition unix (t : Z) : Z := t / 1000000000.
(** What an archive run finds: the answers of MkdirAll and availableBytes, the
    clock, the context and the new identifier for each database. *)
Record archive_env := mkArchiveEnv {
  ae_mkdir : option string;
  ae_free : res Z;
  ae_now : Z;
  ae_pressed : Z;
  ae_ctx : nat -> nat -> bool;
  ae_uuid : nat -> string
}.

(** The storage surface Maintain drives; what depends on the database has its
    index.  [mt_paths] are the segments a queue mentions in its tables. *)
Class MaintenanceTarget (Q : Type) := {
  mt_RecoverArchives : Q -> disk -> Q * disk * option string;
  mt_Stats : (nat -> readings) -> Q -> res StorageStats;
  mt_Archive : (nat -> nat -> bool) -> (nat -> string) -> string -> Z -> Z -> Q -> disk -> res Z * Q * disk;
  mt_Collect : Z -> Q -> Z * Q;
  mt_paths : Q -> gset string
}.
Definition segment_path (dir : string) (uuid : nat -> string) (i : nat) : string := filepath_Join dir (archive_name (uuid i)).
(** New identifiers name files that nothing mentions. *)
Definition fresh {Q : Type} `{MaintenanceTarget Q} (dir : string) (uuid : nat -> string) (q : Q) (files : disk) : Prop :=
  forall i, files !! segment_path dir uuid i = None /\ segment_path dir uuid i ∉ mt_paths q
    /\ forall j, segment_path dir uuid i = segment_path dir uuid j -> i = j.

Section maintain.
Context {Q : Type} `{MaintenanceTarget Q} (o : MaintenanceOptions).

Definition cutoff (e : archive_env) (pressure : bool) : Z := unix (if pressure then ae_pressed e else ae_now e - mo_After o).
Definition archive_turn (e : archive_env) (pressure : bool) (q : Q) (files : disk) : Q * disk :=
  match ae_mkdir e, ae_free e with
  | Some _, _ | None, Err _ => (q, files)
  | None, Ok free =>
      if (0 <? mo_MinFree o) && (free <? mo_MinFree o) then (q, files)
      else let '(_, q, files) := mt_Archive (ae_ctx e) (ae_uuid e) (mo_ArchiveDir o) (cutoff e pressure) (mo_Batch o) q files in (q, files)
  end.

(** Where the worker is. *)
Inductive turn := Recovering | Measuring | Archiving | Collecting | Waiting | Stopped.
Record maintainer := mkMaintainer { ma_turn : turn; ma_pressure : bool; ma_queue : Q; ma_files : disk }.

(** The steps of the worker; [cancelled] is the answer of ctx.Err. *)
Inductive own_step : maintainer -> maintainer -> Prop :=
| own_recover q files q' files' e p : mt_RecoverArchives q files = (q', files', e) ->
    own_step (mkMaintainer Recovering p q files) (mkMaintainer Measuring false q' files')
| own_measure m cancelled p q files :
    own_step (mkMaintainer Measuring p q files)
      (mkMaintainer (if negb (seqb (mo_ArchiveDir o) "") && negb cancelled then Archiving else Waiting) (pressure_after o p (mt_Stats m q)) q files)
| own_archive e p q files q' files' : fresh (mo_ArchiveDir o) (ae_uuid e) q files ->
    archive_turn e p q files = (q', files') ->
    own_step (mkMaintainer Archiving p q files) (mkMaintainer Collecting p q' files')
| own_collect p q files : own_step (mkMaintainer Collecting p q files) (mkMaintainer Waiting p (mt_Collect 10000 q).2 files)
| own_tick p q files : own_step (mkMaintainer Waiting p q files) (mkMaintainer Measuring p q files)
| own_stop p q files : own_step (mkMaintainer Waiting p q files) (mkMaintainer Stopped p q files).
End maintain.
Arguments maintainer Q : clear implicits.

(** The steps of the other goroutines on the queue. *)
Inductive queue_use {Q : Type} `{EventQueue Q} : Q -> Q -> Prop :=
| use_enqueue now ev q q' : sendable ev -> eq_Enqueue now q ev = Ok q' -> queue_use q q'
| use_pushed now id rev q q' : plain id -> eq_MarkPushed now q id rev = Ok q' -> queue_use q q'
| use_failed now id rev msg q q' : plain id -> eq_MarkFailed now q id rev msg = Ok q' -> queue_use q q'.

(** ** The contract *)

(** The keys [ks] leave the ledger for the archive. *)
Definition l_archive (ks : list string) (l : ledger) : ledger :=
  mkLedger (filter (fun kv => kv.1 ∉ ks) (l_entries l)) (list_to_set ks ∪ l_archived l).

(** [published q files]: the segments the queue has published are on disk;
    [readable q files k ev]: the event of the archived key [k] can be read from
    its segment as [ev]. *)
Class MaintenanceLaws (Q : Type) `{EventQueueLaws Q} `{MaintenanceTarget Q} := {
  published : Q -> disk -> Prop;
  readable : Q -> disk -> string -> ThreatEvent -> Prop;
  law_recover : forall q l files q' files' e, holds q l -> published q files -> mt_RecoverArchives q files = (q', files', e) ->
    holds q' l /\ published q' files' /\ (forall k ev, readable q files k ev -> readable q' files' k ev);
  law_archive : forall ctx uuid dir before limit q l files r q' files', holds q l -> published q files ->
    fresh dir uuid q files -> mt_Archive ctx uuid dir before limit q files = (r, q', files') ->
    exists ks, holds q' (l_archive ks l) /\ published q' files' /\ (forall k ev, readable q files k ev -> readable q' files' k ev)
      /\ forall k e, k ∈ ks -> l_entries l !! k = Some e -> e_status e = 2 /\ e_updated e < before /\ readable q' files' k (e_event e);
  law_collect : forall limit q l files, holds q l -> published q files -> let q' := (mt_Collect limit q).2 in
    holds q' l /\ published q' files /\ (forall k ev, readable q files k ev -> readable q' files k ev);
  law_use : forall q q' files, queue_use q q' -> published q files ->
    published q' files /\ (forall k ev, readable q files k ev -> readable q' files k ev)
}.

(** ** No event is dropped *)

Section keeps.
Context {Q : Type} `{MaintenanceLaws Q} (o : MaintenanceOptions).

Definition maintain_step (st st' : maintainer Q) : Prop :=
  own_step o st st' \/ exists t p q q' files, st = mkMaintainer t p q files /\ st' = mkMaintainer t p q' files /\ queue_use q q'.

(** The event of every entry of [l] is in the queue or in the archive. *)
Definition kept (l : ledger) (st : maintainer Q) (l' : ledger) : Prop := forall k e, l_entries l !! k = Some e ->
  (exists e', l_entries l' !! k = Some e' /\ e_event e' = e_event e)
  \/ (k ∈ l_archived l' /\ readable (ma_queue st) (ma_files st) k (e_event e)).
Definition in_order (l : ledger) (st : maintainer Q) : Prop :=
  exists l', holds (ma_queue st) l' /\ published (ma_queue st) (ma_files st) /\ kept l st l'.
(** A step after which the ledger is [l2]. *)
Definition follows (l1 l2 : ledger) (st : maintainer Q) : Prop := l_archived l1 ⊆ l_archived l2 /\ kept l1 st l2.

Lemma kept_trans l l1 l2 st st' : kept l st l1 -> follows l1 l2 st' ->
  (forall k ev, readable (ma_queue st) (ma_files st) k ev -> readable (ma_queue st') (ma_files st') k ev) -> kept l st' l2.
Proof.
  intros Hk [Ha Hf] Hr k e Hl. destruct (Hk k e Hl) as [(e1 & Hl1 & E1)|[Hin Hread]]; [|right; split; [set_solver|auto]].
  rewrite <- E1. exact (Hf k e1 Hl1).
Qed.
Lemma follows_refl l st : follows l l st.
Proof. split; [done|]. intros k e Hl. left. eauto. Qed.
Lemma use_follows q q' l t p files : holds q l -> queue_use q q' -> exists l', holds q' l' /\ follows l l' (mkMaintainer t p q' files).
Proof.
  intros Hq Huse. destruct Huse as [now ev q q' Hev E|now id rev q q' Hid E|now id rev msg q q' Hid E].
  - pose proof (holds_Enqueue now q l ev Hq Hev) as He. rewrite E in He. destruct He as (Hq' & _). eexists. split; [exact Hq'|].
    unfold l_enqueue. destruct (_ || _) eqn:Eb; [apply follows_refl|]. split; [done|]. intros k e Hl. left. exists e. split; [|done]. cbn.
    rewrite lookup_insert_ne; [done|]. intros <-. apply orb_false_iff in Eb as [_ Eb]. apply bool_decide_eq_false in Eb. eauto.
  - destruct (holds_MarkPushed now q l id rev Hq Hid) as (q1 & E1 & Hq' & _). assert (q1 = q') as -> by congruence. eexists. split; [exact Hq'|].
    split; [done|]. intros k e Hl. left. by apply l_update_keeps.
  - destruct (holds_MarkFailed now q l id rev msg Hq Hid) as (q1 & E1 & Hq' & _). assert (q1 = q') as -> by congruence. eexists. split; [exact Hq'|].
    split; [done|]. intros k e Hl. left. by apply l_update_keeps.
Qed.
(** What a step of the worker does to the events. *)
Lemma own_follows st st' l : own_step o st st' -> holds (ma_queue st) l -> published (ma_queue st) (ma_files st) ->
  exists l', holds (ma_queue st') l' /\ published (ma_queue st') (ma_files st') /\ follows l l' st'
    /\ (forall k ev, readable (ma_queue st) (ma_files st) k ev -> readable (ma_queue st') (ma_files st') k ev)
    /\ (forall k e, l_entries l !! k = Some e -> e_status e <> 2 -> l_entries l' !! k = Some e).
Proof.
  destruct 1 as [q files q' files' e p E|m c p q files|e p q files q' files' Hfresh E|p q files|p q files|p q files]; cbn [ma_queue ma_files]; intros Hq Hp;
    [| |unfold archive_turn in E| | |]; [|exists l; by split_and!; [..|apply follows_refl| |]| | |exists l; by split_and!; [..|apply follows_refl| |]..].
  - destruct (law_recover q l files q' files' e Hq Hp E) as (Hq' & Hp' & Hr). exists l. by split_and!; [..|apply follows_refl| |].
  - assert (Hstay : exists l', holds q l' /\ published q files /\ follows l l' (mkMaintainer Collecting p q files)
      /\ (forall k ev, readable q files k ev -> readable q files k ev) /\ (forall k e, l_entries l !! k = Some e -> e_status e <> 2 -> l_entries l' !! k = Some e)).
    { exists l. by split_and!; [..|apply follows_refl| |]. }
    destruct (ae_mkdir e); [by injection E as <- <-|]. destruct (ae_free e) as [free|]; [|by injection E as <- <-].
    case_if_in E; [by injection E as <- <-|]. clear Hstay. destruct (mt_Archive _ _ _ _ _ q files) as [[r q1] files1] eqn:Ea. injection E as <- <-.
    destruct (law_archive _ _ _ _ _ q l files r q1 files1 Hq Hp Hfresh Ea) as (ks & Hq' & Hp' & Hr & Hks). exists (l_archive ks l).
    split_and!; [done|done| |done|].
    + split; [cbn; set_solver|]. intros k x Hl. destruct (decide (k ∈ ks)) as [Hin|Hni].
      * right. split; [cbn; set_solver|]. by apply Hks.
      * left. exists x. split; [|done]. cbn. by rewrite map_lookup_filter_Some.
    + intros k x Hl Hs. cbn. apply map_lookup_filter_Some. split; [done|]. intros Hin. by destruct (Hks k x Hin Hl).
  - destruct (law_collect 10000 q l files Hq Hp) as (Hq' & Hp' & Hr). exists l. by split_and!; [..|apply follows_refl| |].
Qed.
Lemma maintain_in_order l st st' : in_order l st -> maintain_step st st' -> in_order l st'.
Proof.
  intros (l1 & Hq & Hp & Hk) [Hs|(t & p & q & q' & files & -> & -> & Hu)].
  - destruct (own_follows st st' l1 Hs Hq Hp) as (l2 & Hq2 & Hp2 & Hf & Hr & _). exists l2. split_and!; [done|done|]. by eapply kept_trans.
  - cbn [ma_queue ma_files] in *. destruct (use_follows q q' l1 t p files Hq Hu) as (l2 & Hq2 & Hf). destruct (law_use q q' files Hu Hp) as [Hp2 Hr].
    exists l2. split_and!; [done|done|]. by eapply kept_trans.
Qed.

End keeps.

(** ** The single database *)

Section sqlite.
Context `{GoUUID} `{GoZlibLaws} `{RangeOrder}.

#[global] Instance sqlite_target : MaintenanceTarget SQLiteQueue := {|
  mt_RecoverArchives := RecoverArchives;
  mt_Stats := fun m => Stats (m 0%nat);
  mt_Archive := fun ctx uuid => Archive (ctx 0%nat) (uuid 0%nat);
  mt_Collect := queue_Collect;
  mt_paths := fun q => dom (db_archives (q_db q)) ∪ db_archive_pending (q_db q)
|}.

Lemma ledger_a_archive ks s : NoDup (a_keys s) -> aqueue_ledger (a_archive ks s) = l_archive ks (aqueue_ledger s).
Proof.
  intros Hnd. unfold aqueue_ledger, l_archive, a_archive. cbn [a_entries a_archived l_entries l_archived]. f_equal.
  apply map_eq. intros k. apply option_eq. intros e.
  rewrite ledger_lookup, map_lookup_filter_Some, ledger_lookup by (done || (eapply keys_sublist; [apply bfilter_sublist|done])).
  rewrite list_elem_of_In, filter_In, <- list_elem_of_In, negb_true_iff, bool_decide_eq_false. cbn. naive_solver.
Qed.
(** The tables of the archive. *)
Definition same_catalogue (q q' : SQLiteQueue) : Prop :=
  db_archives (q_db q') = db_archives (q_db q) /\ db_archived (q_db q') = db_archived (q_db q) /\ db_archive_pending (q_db q') = db_archive_pending (q_db q).
Lemma Enqueue_catalogue now q ev q' : Enqueue now q ev = Ok q' -> same_catalogue q q'.
Proof.
  intros E.
  unfold Enqueue in E. destruct (bool_decide _); [by injection E as <-|]. destruct (has_key _ _); [by injection E as <-|].
  destruct (if seqb (q_backend q) "legacy" then _ else _) as [[payload content]|]; cbn [mbind res_bind] in E; [|done].
  unfold registerRoot in E. destruct (payloadRoot payload) as [root|]; cbn [mbind res_bind] in E; [|done].
  destruct (seqb root ""); cbn [mbind res_bind] in E; by injection E as <-.
Qed.
Lemma use_archives q q' : queue_use q q' -> same_catalogue q q'.
Proof. destruct 1 as [now ev q q' _ E|now id rev q q' _ E|now id rev msg q q' _ E]; cbn in E; [by eapply Enqueue_catalogue|by injection E as <-..]. Qed.
Lemma archive_plain ks s : Forall (fun e => plain (ev_EventID (e_event e))) (a_entries s) ->
  Forall (fun e => plain (ev_EventID (e_event e))) (a_entries (a_archive ks s)).
Proof. intros Hp. apply Forall_forall. intros e [He _]%list_elem_of_In%filter_In. by eapply (proj1 (Forall_forall _ _) Hp), list_elem_of_In. Qed.

#[global, refine] Instance sqlite_maintenance : MaintenanceLaws SQLiteQueue := {|
  published := fun q => published_ok (q_db q);
  readable := fun q => shelved (q_db q)
|}.
Proof.
  - intros q l files q' files' e (s & Hrep & Hp & ->) Hpub E. cbn in E. unfold RecoverArchives in E.
    destruct (recoverArchivesLocked (q_db q) files) as [[d1 files1] e1] eqn:E1. injection E as <- <- <-.
    destruct (recover_keeps _ _ _ _ _ _ Hrep Hpub E1) as (Hrep' & Hpub' & Hs & _). split_and!; [by exists s|done|done].
  - intros ctx uuid dir before limit q l files r q' files' (s & Hrep & Hp & ->) Hpub Hf E. cbn in E.
    pose proof (Archive_spec (ctx 0%nat) (uuid 0%nat) dir before limit q files s Hrep Hpub (proj1 (Hf 0%nat))) as Ha. rewrite E in Ha.
    destruct Ha as (Hpub' & Hs & Hr).
    assert (exists ks, represents (q_db q') (a_archive ks s) /\ moved before s (q_db q') files' ks) as (ks & Hrep' & Hm).
    { destruct r as [n|e]; [destruct Hr as (ks & _ & ? & ?); by exists ks|]. exists []. rewrite a_archive_nil. split; [done|apply moved_nil]. }
    exists ks. split_and!; [|done|done|].
    + exists (a_archive ks s). split_and!; [done|by apply archive_plain|]. symmetry. apply ledger_a_archive, Hrep.
    + intros k e Hk Hl. cbn in Hl. apply ledger_lookup in Hl as [He <-]; [|apply Hrep]. by apply Hm.
  - intros limit q l files (s & Hrep & Hp & ->) Hpub. cbn. split_and!.
    + exists s. split_and!; [by apply collect_represents|done|done].
    + unfold queue_Collect. by destruct (Collect _ _ _).
    + unfold queue_Collect. by destruct (Collect _ _ _).
  - intros q q' files Hu Hpub. destruct (use_archives q q' Hu) as (Ea & Ed & _). unfold published_ok, shelved. rewrite Ea, Ed. done.
Defined.
End sqlite.

(** ** A witness: an acknowledged event is archived *)

#[local] Existing Instance identity_zlib.
#[local] Existing Instance any_uuid.
#[local] Existing Instance canonical_range.

Definition demo_options : MaintenanceOptions := mkMaintenance "/archive" 0 1 10 1000 500 0.
Definition demo_queue : SQLiteQueue :=
  match Enqueue 7 queue0 sample_event with Ok q => MarkPushed 8 q "evt-1" 2 | Err _ => queue0 end.
Definition demo_env : archive_env := mkArchiveEnv None (Ok 5000) (100 * 1000000000) (100 * 1000000000) (fun _ _ => false) (fun i => str (replicate i (chr 97))).
Definition demo_readings : readings := mkReadings 4096 1 0 (fun _ => None) (Ok 5000).

Lemma demo_fresh : fresh (mo_ArchiveDir demo_options) (ae_uuid demo_env) demo_queue ∅.
Proof.
  intros i. split; [apply lookup_empty|]. split.
  - assert (E : bool_decide (mt_paths demo_queue = ∅) = true) by (vm_compute; reflexivity). apply bool_decide_eq_true in E. rewrite E. apply not_elem_of_empty.
  - intros j E. cbn [mo_ArchiveDir demo_options ae_uuid demo_env] in E. unfold segment_path, filepath_Join, archive_name in E.
    change (seqb "/archive" "/") with false in E. cbv iota in E. apply (f_equal (fun s => length (byt s))) in E.
    rewrite !byt_app, !byt_str, !length_app, !length_replicate in E. lia.
Qed.
Lemma demo_holds : exists e, sqlite_holds demo_queue (mkLedger {[event_key sample_event := e]} ∅) /\ e_event e = sample_event.
Proof.
  pose proof (@Enqueue_represents identity_zlib identity_zlib_laws 7 queue0 sample_event abstract0 represents_new sample_event_ok) as He.
  unfold demo_queue. destruct (Enqueue 7 queue0 sample_event) as [q|e] eqn:E.
  - destruct He as [Hq _]. exists (a_mark_pushed 8 (mkEntry sample_event 0 0 "" 7 7)). split; [|reflexivity].
    eexists. split_and!; [apply MarkPushed_represents, Hq| |].
    + apply (bool_decide_unpack _). vm_compute. exact I.
    + vm_compute. reflexivity.
  - exfalso. assert (F : is_ok (Enqueue 7 queue0 sample_event) = true) by (vm_compute; reflexivity). rewrite E in F. discriminate F.
Qed.
Lemma demo_recover : mt_RecoverArchives demo_queue ∅ = (demo_queue, ∅, None).
Proof. vm_compute. reflexivity. Qed.

