(* ===== verification/ShardMaintain.v ===== *)
(** * ShardMaintain: maintenance of a sharded queue (internal/queue/shard.go)

    The storage surface that the maintenance worker drives, over the shards:
    recovery, measurement, archiving and collection visit them in order.  The
    shards share one archive directory, so that what one of them does to the
    segment files must leave those of the others alone. *)

From S2P Require Import Prelude GoStrings GoNet Events Json Codec EventJson Content Queue EventQueue Shard Archive Maintain.

(** ** The loops over the shards *)

Section operations.
Context `{GoUUID} `{GoZlib} `{RangeOrder}.

Fixpoint recover_shards (qs : list SQLiteQueue) (files : disk) : list SQLiteQueue * disk * option string :=
  match qs with
  | [] => ([], files, None)
  | q :: qs =>
      match RecoverArchives q files with
      | (q, files, Some e) => (q :: qs, files, Some e)
      | (q, files, None) => let '(qs, files, e) := recover_shards qs files in (q :: qs, files, e)
      end
  end.
Definition sharded_RecoverArchives (s : ShardedQueue) (files : disk) : ShardedQueue * disk * option string :=
  let '(qs, files, e) := recover_shards (sh_shards s) files in (mkSharded qs, files, e).

(** [i] is the index of the first shard. *)
Fixpoint archive_shards (ctx : nat -> nat -> bool) (uuid : nat -> string) (dir : string) (before limit : Z) (i : nat) (total : Z)
    (qs : list SQLiteQueue) (files : disk) : res Z * list SQLiteQueue * disk :=
  match qs with
  | [] => (Ok total, [], files)
  | q :: qs =>
      match Archive (ctx i) (uuid i) dir before limit q files with
      | (Err e, q, files) => (Err e, q :: qs, files)
      | (Ok n, q, files) =>
          let '(r, qs, files) := archive_shards ctx uuid dir before limit (S i) (i64 (total + n)) qs files in (r, q :: qs, files)
      end
  end.
Definition sharded_Archive (ctx : nat -> nat -> bool) (uuid : nat -> string) (dir : string) (before limit : Z) (s : ShardedQueue) (files : disk) :
    res Z * ShardedQueue * disk :=
  let '(r, qs, files) := archive_shards ctx uuid dir before limit 0 0 (sh_shards s) files in (r, mkSharded qs, files).

Fixpoint collect_shards (limit total : Z) (qs : list SQLiteQueue) : Z * list SQLiteQueue :=
  match qs with
  | [] => (total, [])
  | q :: qs => let '(n, q) := queue_Collect limit q in let '(total, qs) := collect_shards limit (i64 (total + n)) qs in (total, q :: qs)
  end.
Definition sharded_Collect (limit : Z) (s : ShardedQueue) : Z * ShardedQueue :=
  let '(n, qs) := collect_shards limit 0 (sh_shards s) in (n, mkSharded qs).

(** The sums over the shards; what is available and the backend are those of
    the first. *)
Definition add_stats (i : nat) (out st : StorageStats) : StorageStats :=
  mkStats (i64 (ss_PageBytes out + ss_PageBytes st)) (i64 (ss_ReusableBytes out + ss_ReusableBytes st)) (i64 (ss_FileBytes out + ss_FileBytes st))
    (if (i =? 0)%nat then ss_AvailableBytes st else ss_AvailableBytes out) (i64 (ss_ArchiveSegments out + ss_ArchiveSegments st))
    (if (i =? 0)%nat then ss_Backend st else ss_Backend out) (ss_Shards out).
Fixpoint stats_shards (m : nat -> readings) (i : nat) (out : StorageStats) (qs : list SQLiteQueue) : res StorageStats :=
  match qs with
  | [] => Ok out
  | q :: qs => st ← Stats (m i) q; stats_shards m (S i) (add_stats i out st) qs
  end.
Definition sharded_Stats (m : nat -> readings) (s : ShardedQueue) : res StorageStats :=
  out ← stats_shards m 0 (mkStats 0 0 0 0 0 "" 0) (sh_shards s);
  Ok (mkStats (ss_PageBytes out) (ss_ReusableBytes out) (ss_FileBytes out) (ss_AvailableBytes out) (ss_ArchiveSegments out) (ss_Backend out) (len (sh_shards s))).

Definition shard_paths (q : SQLiteQueue) : gset string := dom (db_archives (q_db q)) ∪ db_archive_pending (q_db q).
#[global] Instance sharded_target : MaintenanceTarget ShardedQueue := {|
  mt_RecoverArchives := sharded_RecoverArchives;
  mt_Stats := sharded_Stats;
  mt_Archive := sharded_Archive;
  mt_Collect := sharded_Collect;
  mt_paths := fun s => ⋃ (shard_paths <$> sh_shards s)
|}.
End operations.

(** ** What one shard does to the files of the others *)

(** Away from the new paths [X] the catalogue and the journal of a queue only
    shrink, and the segment files that are not in its journal stay. *)
Record framed (X : gset string) (d d' : queue_db) (files files' : disk) : Prop := {
  fr_archives : dom (db_archives d') ⊆ X ∪ dom (db_archives d);
  fr_pending : db_archive_pending d' ⊆ X ∪ db_archive_pending d;
  fr_files : forall p, p ∉ X -> p ∉ db_archive_pending d -> strings_HasSuffix p ".db" = true -> files' !! p = files !! p;
  fr_none : forall p, p ∉ X -> files !! p = None -> files' !! p = None
}.
Lemma framed_refl X d files : framed X d d files files.
Proof. split; [set_solver..|done|done]. Qed.
Lemma framed_trans X d d1 d2 files files1 files2 : framed X d d1 files files1 -> framed X d1 d2 files1 files2 -> framed X d d2 files files2.
Proof.
  intros [A1 P1 F1 N1] [A2 P2 F2 N2]. split; [clear -A1 A2; set_solver|clear -P1 P2; set_solver| |]; intros p Hx; [|intros Hn; auto]. intros Hp Hdb. rewrite F2; [by apply F1|done| |done]. set_solver.
Qed.
Lemma framed_weaken X Y d d' files files' : X ⊆ Y -> framed X d d' files files' -> framed Y d d' files files'.
Proof. intros Hs [A P F N]. split; [clear -Hs A; set_solver|clear -Hs P; set_solver| |]; intros p Hp; [apply F|apply N]; set_solver. Qed.

Section frames.
Context `{GoUUID}.

Lemma recover_path_framed d files p d' files' : p ∈ db_archive_pending d -> recover_path d files p = Ok (d', files') ->
  framed ∅ d d' files files' /\ db_archive_pending d' = db_archive_pending d ∖ {[p]} /\ forall x, x <> p -> strings_HasSuffix x ".db" = true -> files' !! x = files !! x.
Proof.
  intros Hin. unfold recover_path. destruct (_ || _ || _); [done|]. destruct (db_archives d !! p) as [r|].
  - destruct (files !! p); [|done]. intros [= <- <-]. split_and!; [|done|done]. split; [cbn; set_solver..|done|done].
  - intros [= <- <-]. split_and!; [|done|].
    + split; [cbn; set_solver..| |].
      * intros x _ Hx Hdb. rewrite !lookup_delete_ne; first [done|intros <-; by rewrite journal_not_db in Hdb|by intros <-].
      * intros x _ Hx. eapply lookup_weaken_None; [exact Hx|]. etransitivity; apply delete_subseteq.
    + intros x Hx Hdb. rewrite !lookup_delete_ne; first [done|intros <-; by rewrite journal_not_db in Hdb|by intros <-].
Qed.
Lemma recover_paths_framed ps d files d' files' e : (forall p, p ∈ ps -> p ∈ db_archive_pending d) -> NoDup ps -> recover_paths ps d files = (d', files', e) ->
  framed ∅ d d' files files'.
Proof.
  revert d files. induction ps as [|p ps IH]; intros d files Hps Hnd; cbn [recover_paths]; [intros [= <- <- <-]; apply framed_refl|].
  destruct (recover_path d files p) as [[d1 files1]|] eqn:E; [|intros [= <- <- <-]; apply framed_refl]. intros E2. apply NoDup_cons in Hnd as [Hp Hnd].
  destruct (recover_path_framed d files p d1 files1 ltac:(apply Hps; left) E) as (Hf & Hpend & _). eapply framed_trans; [exact Hf|]. eapply IH; [|done|exact E2].
  intros x Hx. rewrite Hpend. apply elem_of_difference. split; [apply Hps; by right|]. intros ->%elem_of_singleton. done.
Qed.
Lemma recover_framed d files d' files' e : recoverArchivesLocked d files = (d', files', e) -> framed ∅ d d' files files'.
Proof. apply recover_paths_framed; [intros p; by rewrite elem_of_elements|apply NoDup_elements]. Qed.
End frames.

Section archive_frame.
Context `{GoUUID} `{GoZlibLaws}.

Lemma publish_framed path rs d d' : archive_publish path rs d = Ok d' ->
  dom (db_archives d') ⊆ {[path]} ∪ dom (db_archives d) /\ db_archive_pending d' = db_archive_pending d.
Proof.
  unfold archive_publish. destruct (check_unchanged d rs); cbn [mbind res_bind]; [|done]. destruct rs as [|r rs]; [by intros [= <-]; split; [set_solver|]|].
  destruct (last (r :: rs)); [|by intros [= <-]; split; [set_solver|]]. case_bool_decide; [done|].
  intros (_ & _ & _ & _ & _ & _ & _ & -> & ->)%archive_records_spec. cbn. rewrite dom_insert_L. done.
Qed.
Lemma body_framed ctx path before limit d files r d' files' : archive_body ctx path before limit d files = (r, d', files') -> framed {[path]} d d' files files'.
Proof.
  assert (forall seg, framed {[path]} d d files (<[path := seg]> files)) as Hput.
  { intros seg. split; [set_solver..| |]; intros p Hp; [intros _ _|intros Hn]; rewrite lookup_insert_ne; try done; set_solver. }
  unfold archive_body. destruct (archive_prepare _ _ _ _ _ _) as [[[rs seg]|]|e]; [| |by intros [= <- <- <-]].
  - destruct (archive_publish path rs d) as [d1|e] eqn:Ep; intros [= <- <- <-]; [|done]. apply publish_framed in Ep as [Ha Hp]. destruct (Hput seg) as [_ _ F N].
    split; [done|rewrite Hp; set_solver|exact F|exact N].
  - intros [= <- <- <-]. apply framed_refl.
Qed.
Lemma Archive_framed ctx uuid dir before limit q files r q' files' : Archive ctx uuid dir before limit q files = (r, q', files') ->
  framed {[filepath_Join dir (archive_name uuid)]} (q_db q) (q_db q') files files' /\ q_maxRetry q' = q_maxRetry q.
Proof.
  unfold Archive. destruct (seqb dir ""); [intros [= <- <- <-]; split; [apply framed_refl|done]|]. destruct (recoverArchivesLocked (q_db q) files) as [[d0 files0] e0] eqn:E0.
  apply recover_framed, (framed_weaken _ {[filepath_Join dir (archive_name uuid)]}) in E0; [|set_solver].
  destruct e0; [by intros [= <- <- <-]|]. case_bool_decide; [by intros [= <- <- <-]|].
  destruct (archive_body _ _ _ _ _ _) as [[r2 d2] files2] eqn:E2. destruct (recoverArchivesLocked d2 files2) as [[d3 files3] e3] eqn:E3. intros [= <- <- <-].
  apply body_framed in E2. apply recover_framed, (framed_weaken _ {[filepath_Join dir (archive_name uuid)]}) in E3; [|set_solver].
  split; [|done]. eapply framed_trans; [exact E0|]. eapply framed_trans; [|exact E3]. eapply framed_trans; [|exact E2].
  split; [cbn; set_solver..|done|done].
Qed.
End archive_frame.

(** ** The shards together *)

Section together.
Context `{GoUUID} `{GoZlibLaws} `{GoSortLaws} `{RangeOrder}.

(** Every shard's segments are on disk, and no shard has one of them in its
    journal that another has published. *)
Record spread (qs : list SQLiteQueue) (files : disk) : Prop := {
  sp_published : Forall (fun q => published_ok (q_db q) files) qs;
  sp_apart : forall i j q q', i <> j -> qs !! i = Some q -> qs !! j = Some q' -> db_archive_pending (q_db q) ## dom (db_archives (q_db q'))
}.
(** The event of an archived key can be read from a segment of some shard. *)
Definition readable_in (qs : list SQLiteQueue) (files : disk) (k : string) (ev : ThreatEvent) : Prop :=
  exists q, q ∈ qs /\ shelved (q_db q) files k ev.

(** Archiving the keys [ks] of shard [i]. *)
Lemma merged_archive n ss i a ks : routed n ss -> Forall (fun s => NoDup (a_keys s)) ss -> ss !! i = Some a -> (forall k, k ∈ ks -> k ∈ a_keys a) ->
  routed n (<[i := a_archive ks a]> ss) /\ aqueue_ledger (merged (<[i := a_archive ks a]> ss)) = l_archive ks (aqueue_ledger (merged ss)).
Proof.
  intros Hrt Hnd Ha Hks. split.
  - eapply focus_routed; [done..|]. pose proof (Hrt _ _ Ha) as Hin. pose proof Hin as [He Har]. split.
    + apply Forall_forall. intros e [He' _]%list_elem_of_In%filter_In. by eapply (proj1 (Forall_forall _ _) He), list_elem_of_In.
    + cbn [a_archive a_archived]. intros k [Hk%elem_of_list_to_set|Hk]%elem_of_union; [|by apply Har]. by eapply in_shard_key, Hks.
  - rewrite <- ledger_a_archive by (by eapply merged_NoDup). unfold aqueue_ledger.
    destruct (focus_split n ss i a Hrt Hnd Ha) as (l1 & l2 & Ess & Hl1 & Eb). rewrite Eb. cbn [merged a_archive a_entries a_archived].
    rewrite Ess. rewrite !fmap_app, !concat_app, !union_list_app_L. cbn [fmap list_fmap concat a_archive a_entries a_archived union_list].
    change (list_fmap aqueue (list entry) a_entries l2) with (a_entries <$> l2).
    assert (Hout : forall l, (forall s, s ∈ l -> exists j, j <> i /\ ss !! j = Some s) ->
      List.filter (fun e => negb (bool_decide (event_key (e_event e) ∈ ks))) (concat (a_entries <$> l)) = concat (a_entries <$> l)).
    { intros l Hl. apply bfilter_all, Forall_forall. intros e (s & Hs & He)%elem_of_concat_map. apply negb_true_iff, bool_decide_eq_false. intros Hk.
      destruct (Hl s Hs) as (j & Hne & Hj). destruct (in_shard_key n i a _ (Hrt _ _ Ha) (Hks _ Hk)) as (id & rev & Ek & Hp & Hi).
      apply Hne. eapply (routed_key n ss i j s); [done|done|exact Hp|exact Hi|exact Ek|]. left. by eapply list_elem_of_fmap_2'. }
    rewrite !List.filter_app, (Hout l1), (Hout l2).
    + f_equal. set_solver.
    + intros s [j Hj]%list_elem_of_lookup. exists (S i + j)%nat. split; [lia|]. rewrite Ess, lookup_app_r by lia.
      replace (S i + j - length l1)%nat with (S j) by lia. done.
    + intros s [j Hj]%list_elem_of_lookup. pose proof (lookup_lt_Some _ _ _ Hj). exists j. split; [lia|]. by rewrite Ess, lookup_app_l by lia.
Qed.

(** What some of the loop does: the keys [ks] have been archived. *)
Definition passes (before : Z) (l : ledger) (qs : list SQLiteQueue) (files : disk) (ks : list string) (qs' : list SQLiteQueue) (files' : disk) : Prop :=
  sharded_holds (mkSharded qs') (l_archive ks l) /\ spread qs' files' /\ (forall k ev, readable_in qs files k ev -> readable_in qs' files' k ev)
  /\ forall k e, k ∈ ks -> l_entries l !! k = Some e -> e_status e = 2 /\ e_updated e < before /\ readable_in qs' files' k (e_event e).
Lemma l_archive_nil l : l_archive [] l = l.
Proof.
  destruct l as [es ar]. unfold l_archive. cbn. f_equal; [|set_solver]. apply map_filter_id. intros k e _. apply not_elem_of_nil.
Qed.
Lemma l_archive_app ks1 ks2 l : l_archive ks2 (l_archive ks1 l) = l_archive (ks1 ++ ks2) l.
Proof.
  unfold l_archive. cbn. f_equal; [|rewrite list_to_set_app_L; set_solver]. rewrite map_filter_filter. apply map_filter_ext. intros k e _. rewrite not_elem_of_app. tauto.
Qed.
Lemma passes_refl before l qs files : sharded_holds (mkSharded qs) l -> spread qs files -> passes before l qs files [] qs files.
Proof. intros Hl Hs. split_and!; [by rewrite l_archive_nil|done|done|by intros k e ?%elem_of_nil]. Qed.
Lemma passes_trans before l qs files ks1 qs1 files1 ks2 qs2 files2 : passes before l qs files ks1 qs1 files1 ->
  passes before (l_archive ks1 l) qs1 files1 ks2 qs2 files2 -> passes before l qs files (ks1 ++ ks2) qs2 files2.
Proof.
  intros (L1 & S1 & R1 & K1) (L2 & S2 & R2 & K2). split_and!; [by rewrite <- l_archive_app|done|auto|].
  intros k e Hk Hl. destruct (decide (k ∈ ks1)) as [Hin|Hni].
  - destruct (K1 k e Hin Hl) as (? & ? & ?). auto.
  - apply elem_of_app in Hk as [?|Hk]; [done|]. apply (K2 k e Hk). cbn. by apply map_lookup_filter_Some.
Qed.

(** What one shard has done, from its own point of view. *)
(** [ok] is what is known of the keys. *)
Definition shard_done (ok : list string -> Prop) (before : Z) (q q' : SQLiteQueue) (files files' : disk) : Prop :=
  forall a, represents (q_db q) a -> published_ok (q_db q) files -> exists ks, ok ks /\ represents (q_db q') (a_archive ks a) /\ published_ok (q_db q') files'
    /\ (forall k ev, shelved (q_db q) files k ev -> shelved (q_db q') files' k ev) /\ moved before a (q_db q') files' ks.
(** A segment of another shard is where it was. *)
Lemma others_keep X q q' q2 files files' : framed X (q_db q) (q_db q') files files' -> X ## shard_paths q2 ->
  db_archive_pending (q_db q) ## dom (db_archives (q_db q2)) -> published_ok (q_db q2) files ->
  published_ok (q_db q2) files' /\ forall k ev, shelved (q_db q2) files k ev -> shelved (q_db q2) files' k ev.
Proof.
  intros [_ _ F _] Hx Hd Hp.
  assert (forall p, is_Some (db_archives (q_db q2) !! p) -> files' !! p = files !! p) as Hk.
  { intros p Hs. destruct Hs as [rng Hrng]. destruct (Hp p rng Hrng) as (Hdb & _). apply elem_of_dom_2 in Hrng. apply F; [|set_solver|done].
    unfold shard_paths in Hx. set_solver. }
  split.
  - intros p rng Hrng. rewrite Hk by eauto. by apply Hp.
  - intros k ev Hs. eapply shelved_mono; [exact Hs|done|]. intros p Hs'. split; [done|by apply Hk].
Qed.
Lemma shard_passes ok before l qs i q q' X files files' : sharded_holds (mkSharded qs) l -> spread qs files -> qs !! i = Some q ->
  shard_done ok before q q' files files' -> framed X (q_db q) (q_db q') files files' -> q_maxRetry q' = q_maxRetry q ->
  (forall j q2, j <> i -> qs !! j = Some q2 -> X ## shard_paths q2) -> exists ks, ok ks /\ passes before l qs files ks (<[i := q']> qs) files'.
Proof.
  intros (ss & Hs & ->) [Hpub Hap] Hq Hdone Hf Hmax Hx. destruct (Forall2_lookup_l _ _ _ _ _ (sd_shards _ _ Hs) Hq) as (a & Ha & Hrep). cbn [sh_shards] in *.
  pose proof (Forall_lookup_1 _ _ _ _ Hpub Hq) as Hpq. cbn in Hpq. destruct (Hdone a Hrep Hpq) as (ks & Hok & Hrep' & Hp' & Hsh & Hkeys & Hm). exists ks. split; [done|].
  destruct (merged_archive _ ss i a ks (sd_routed _ _ Hs) (hold_NoDup _ _ Hs) Ha Hkeys) as [Hrt El].
  destruct (set_shard_hold _ ss i q q' _ Hs Hq Hrep' Hmax Hrt) as [Hs' _].
  assert (forall j q2, j <> i -> qs !! j = Some q2 -> published_ok (q_db q2) files' /\ forall k ev, shelved (q_db q2) files k ev -> shelved (q_db q2) files' k ev) as Hothers.
  { intros j q2 Hj Hq2. eapply others_keep; [exact Hf|by eapply Hx|by apply (Hap i j)|]. by eapply (Forall_lookup_1 _ _ _ _ Hpub). }
  assert (q' ∈ <[i := q']> qs) as Hin by (eapply list_elem_of_lookup_2, list_lookup_insert_eq, lookup_lt_Some, Hq).
  pose proof (hold_NoDup _ _ Hs) as Hnd. split_and!.
  - eexists. split; [exact Hs'|by symmetry].
  - split.
    + apply Forall_lookup. intros j q2 [(-> & <- & _)|[Hne Hj]]%list_lookup_insert_Some; [done|]. by apply (Hothers j q2).
    + destruct Hf as [Fa Fp _ _]. intros j k q1 q2 Hne [(-> & <- & _)|[Hj Hq1]]%list_lookup_insert_Some [(-> & <- & _)|[Hk Hq2]]%list_lookup_insert_Some; [done| | |by eapply (Hap j k)].
      * pose proof (Hap j k q q2 Hne Hq Hq2) as Hd. pose proof (Hx k q2 ltac:(done) Hq2) as Hx'. unfold shard_paths in Hx'. clear -Fp Hd Hx'. set_solver.
      * pose proof (Hap j k q1 q Hne Hq1 Hq) as Hd. pose proof (Hx j q1 ltac:(done) Hq1) as Hx'. unfold shard_paths in Hx'. clear -Fa Hd Hx'. set_solver.
  - intros k ev (q2 & [j Hj]%list_elem_of_lookup & Hr). destruct (decide (j = i)) as [->|Hne].
    + exists q'. split; [done|]. apply Hsh. congruence.
    + exists q2. split; [|by apply (Hothers j q2)]. eapply (list_elem_of_lookup_2 _ j). by rewrite list_lookup_insert_ne.
  - intros k e Hk Hl. cbn in Hl. apply ledger_lookup in Hl as [He <-]; [|by eapply merged_NoDup; [apply Hs|]].
    apply elem_of_concat_map in He as (b & [j Hj]%list_elem_of_lookup & He). assert (j = i) as ->.
    { destruct (in_shard_key _ i a _ (sd_routed _ _ Hs _ _ Ha) (Hkeys _ Hk)) as (id & rev & Ek & Hp & Hi).
      eapply (routed_key _ ss i j b); [apply Hs|done|exact Hp|exact Hi|exact Ek|]. left. by eapply list_elem_of_fmap_2'. }
    assert (b = a) as -> by congruence. destruct (Hm e He Hk) as (? & ? & ?). split_and!; [done|done|]. by exists q'.
Qed.

(** *** The loops *)

Lemma insert_mid {A} (pre : list A) x y qs : <[length pre := y]> (pre ++ x :: qs) = (pre ++ [y]) ++ qs.
Proof. rewrite insert_app_r_alt, Nat.sub_diag by lia. cbn. by rewrite <- app_assoc. Qed.
Lemma lookup_mid {A} (pre : list A) x qs : (pre ++ x :: qs) !! length pre = Some x.
Proof. by rewrite lookup_app_r, Nat.sub_diag by lia. Qed.

Lemma snoc_app {A} (pre : list A) x l : (pre ++ [x]) ++ l = pre ++ x :: l.
Proof. by rewrite <- app_assoc. Qed.

Lemma recover_done before q files q' files' e : RecoverArchives q files = (q', files', e) ->
  shard_done (fun ks => ks = []) before q q' files files' /\ framed ∅ (q_db q) (q_db q') files files' /\ q_maxRetry q' = q_maxRetry q.
Proof.
  unfold RecoverArchives. destruct (recoverArchivesLocked (q_db q) files) as [[d1 files1] e1] eqn:E. intros [= <- <- <-]. split; [|split; [by eapply recover_framed|done]].
  intros a Hrep Hp. destruct (recover_keeps _ _ _ _ _ _ Hrep Hp E) as (Hrep' & Hp' & Hs & _). exists []. rewrite a_archive_nil.
  split_and!; [done..|apply moved_nil].
Qed.
Lemma recover_shards_passes before qs pre l files qs' files' e : sharded_holds (mkSharded (pre ++ qs)) l -> spread (pre ++ qs) files ->
  recover_shards qs files = (qs', files', e) -> passes before l (pre ++ qs) files [] (pre ++ qs') files'.
Proof.
  revert pre files qs' files' e. induction qs as [|q qs IH]; intros pre files qs' files' e Hl Hs; cbn [recover_shards].
  { intros [= <- <- <-]. by apply passes_refl. }
  destruct (RecoverArchives q files) as [[q1 files1] e1] eqn:Er. destruct (recover_done before q files q1 files1 e1 Er) as (Hd & Hf & Hm).
  destruct (shard_passes _ before l _ _ q q1 ∅ files files1 Hl Hs (lookup_mid _ _ _) Hd Hf Hm) as (ks & -> & Hp); [intros; apply disjoint_empty_l|].
  rewrite insert_mid in Hp. destruct e1 as [e1|]; [intros [= <- <- <-]; by rewrite <- app_assoc in Hp|].
  destruct (recover_shards qs files1) as [[qs2 files2] e2] eqn:E2. intros [= <- <- <-]. pose proof Hp as (Hl1 & Hs1 & _). rewrite l_archive_nil in Hl1.
  rewrite <- (snoc_app pre q1 qs2). apply (passes_trans before l _ _ [] _ _ [] _ _ Hp). rewrite l_archive_nil. by eapply IH.
Qed.

Lemma archive_done ctx uuid dir before limit q files r q' files' : files !! filepath_Join dir (archive_name uuid) = None ->
  Archive ctx uuid dir before limit q files = (r, q', files') -> shard_done (fun _ => True) before q q' files files'.
Proof.
  intros Hn E a Hrep Hp. pose proof (Archive_spec ctx uuid dir before limit q files a Hrep Hp Hn) as Ha. rewrite E in Ha. destruct Ha as (Hp' & Hs & Hr).
  destruct r as [n|e]; [destruct Hr as (ks & _ & ? & ?); by exists ks|]. exists []. rewrite a_archive_nil. split_and!; [done..|apply moved_nil].
Qed.
Lemma shard_paths_framed X q q' files files' : framed X (q_db q) (q_db q') files files' -> shard_paths q' ⊆ X ∪ shard_paths q.
Proof. intros [A P _ _]. unfold shard_paths. clear -A P. set_solver. Qed.
(** The new paths of the shards from [i] on are unused. *)
Definition unused (dir : string) (uuid : nat -> string) (i : nat) (qs : list SQLiteQueue) (files : disk) : Prop :=
  forall j, (i <= j)%nat -> files !! segment_path dir uuid j = None /\ Forall (fun q => segment_path dir uuid j ∉ shard_paths q) qs
    /\ forall k, segment_path dir uuid j = segment_path dir uuid k -> j = k.
Lemma unused_step dir uuid pre q q' qs files files' : unused dir uuid (length pre) (pre ++ q :: qs) files ->
  framed {[segment_path dir uuid (length pre)]} (q_db q) (q_db q') files files' -> unused dir uuid (length (pre ++ [q'])) ((pre ++ [q']) ++ qs) files'.
Proof.
  intros Hu Hf j Hj. rewrite length_app in Hj. cbn in Hj. destruct (Hu j ltac:(lia)) as (Hn & Hall & Hinj).
  assert (segment_path dir uuid j ∉ ({[segment_path dir uuid (length pre)]} : gset string)) as Hne by (intros E%elem_of_singleton; apply Hinj in E; lia).
  split; [by apply (fr_none _ _ _ _ _ Hf)|]. split; [|done]. rewrite snoc_app. apply Forall_app in Hall as [H1' [H2' H3']%Forall_cons].
  apply Forall_app. split; [done|]. constructor; [|done]. pose proof (shard_paths_framed _ _ _ _ _ Hf) as Hsub. clear -Hne H2' Hsub. set_solver.
Qed.
Lemma archive_shards_passes ctx uuid dir before limit qs pre l files total r qs' files' : sharded_holds (mkSharded (pre ++ qs)) l -> spread (pre ++ qs) files ->
  unused dir uuid (length pre) (pre ++ qs) files -> archive_shards ctx uuid dir before limit (length pre) total qs files = (r, qs', files') ->
  exists ks, passes before l (pre ++ qs) files ks (pre ++ qs') files'.
Proof.
  revert pre l files total r qs' files'. induction qs as [|q qs IH]; intros pre l files total r qs' files' Hl Hs Hu; cbn [archive_shards].
  { intros [= <- <- <-]. exists []. by apply passes_refl. }
  destruct (Archive (ctx (length pre)) (uuid (length pre)) dir before limit q files) as [[r1 q1] files1] eqn:Ea.
  destruct (Archive_framed _ _ _ _ _ _ _ _ _ _ Ea) as [Hf Hm]. destruct (Hu (length pre) ltac:(lia)) as (Hn & Hall & _).
  destruct (shard_passes (fun _ => True) before l _ _ q q1 _ files files1 Hl Hs (lookup_mid _ _ _) (archive_done _ _ _ _ _ _ _ _ _ _ Hn Ea) Hf Hm) as (ks & _ & Hp).
  { intros j q2 _ Hj. apply disjoint_singleton_l. by eapply (Forall_lookup_1 _ _ _ _ Hall). }
  rewrite insert_mid in Hp. destruct r1 as [n|e]; [|intros [= <- <- <-]; exists ks; by rewrite snoc_app in Hp].
  destruct (archive_shards _ _ _ _ _ _ _ qs files1) as [[r2 qs2] files2] eqn:E2. intros [= <- <- <-]. pose proof Hp as (Hl1 & Hs1 & _).
  destruct (IH (pre ++ [q1]) (l_archive ks l) files1 (i64 (total + n)) r2 qs2 files2 Hl1 Hs1 (unused_step _ _ _ _ _ _ _ _ Hu Hf)) as (ks2 & Hp2).
  { rewrite <- E2. f_equal. rewrite length_app. cbn. lia. }
  exists (ks ++ ks2). rewrite <- (snoc_app pre q1 qs2). by eapply passes_trans.
Qed.

Lemma same_framed q q' files : same_catalogue q q' -> framed ∅ (q_db q) (q_db q') files files.
Proof. intros (Ea & _ & Ep). split; [rewrite Ea; set_solver|rewrite Ep; set_solver|done|done]. Qed.
Lemma collect_catalogue limit q : same_catalogue q (queue_Collect limit q).2 /\ q_maxRetry (queue_Collect limit q).2 = q_maxRetry q.
Proof. unfold queue_Collect. by destruct (Collect _ _ _). Qed.
Lemma collect_done before limit q files : shard_done (fun ks => ks = []) before q (queue_Collect limit q).2 files files.
Proof.
  intros a Hrep Hp. exists []. rewrite a_archive_nil. destruct (collect_catalogue limit q) as [(Ea & Ed & _) _].
  split_and!; [done|by apply collect_represents|unfold published_ok; by rewrite Ea|unfold shelved; by rewrite Ea, Ed|apply moved_nil].
Qed.
Lemma collect_shards_passes before limit qs pre l files total : sharded_holds (mkSharded (pre ++ qs)) l -> spread (pre ++ qs) files ->
  passes before l (pre ++ qs) files [] (pre ++ (collect_shards limit total qs).2) files.
Proof.
  revert pre total. induction qs as [|q qs IH]; intros pre total Hl Hs; cbn [collect_shards]; [by apply passes_refl|].
  pose proof (collect_catalogue limit q) as [Hc Hm]. pose proof (collect_done before limit q files) as Hd. destruct (queue_Collect limit q) as [n q1]. cbn [fst snd] in *.
  destruct (shard_passes _ before l _ _ q q1 ∅ files files Hl Hs (lookup_mid _ _ _) Hd (same_framed _ _ _ Hc) Hm) as (ks & -> & Hp); [intros; apply disjoint_empty_l|].
  rewrite insert_mid in Hp. pose proof Hp as (Hl1 & Hs1 & _). rewrite l_archive_nil in Hl1. specialize (IH (pre ++ [q1]) (i64 (total + n)) Hl1 Hs1).
  destruct (collect_shards limit (i64 (total + n)) qs) as [total' qs2]. cbn [fst snd] in *. rewrite <- (snoc_app pre q1 qs2).
  apply (passes_trans before l _ _ [] _ _ [] _ _ Hp). by rewrite l_archive_nil.
Qed.
(** The other goroutines change one shard, and not its catalogue. *)
Lemma use_shard s s' : queue_use s s' -> exists i q q', sh_shards s !! i = Some q /\ sh_shards s' = <[i := q']> (sh_shards s) /\ same_catalogue q q'.
Proof.
  destruct 1 as [now ev s s' _ E|now id rev s s' _ E|now id rev msg s s' _ E]; cbn in E;
    [unfold sharded_Enqueue, shard in E|unfold sharded_MarkPushed, shard in E|unfold sharded_MarkFailed, shard in E];
    (destruct (sh_shards s !! _) as [q|] eqn:Eq; [|done]); [|injection E as <-; eexists _, q, _; split; [exact Eq|]; split; [reflexivity|done]..].
  destruct (Enqueue now q ev) as [q1|] eqn:Ee; [|done]. cbn [mbind res_bind] in E. injection E as <-. eexists _, q, q1.
  split; [exact Eq|]. split; [reflexivity|]. by eapply Enqueue_catalogue.
Qed.
Lemma same_spread qs i q q' files : qs !! i = Some q -> same_catalogue q q' -> spread qs files ->
  spread (<[i := q']> qs) files /\ forall k ev, readable_in qs files k ev -> readable_in (<[i := q']> qs) files k ev.
Proof.
  intros Hq (Ea & Ed & Ep) [Hp Hap]. split; [split|].
  - apply Forall_lookup. intros j q2 [(-> & <- & _)|[Hne Hj]]%list_lookup_insert_Some; [|by eapply (Forall_lookup_1 _ _ _ _ Hp)].
    unfold published_ok. rewrite Ea. by apply (Forall_lookup_1 _ _ _ _ Hp Hq).
  - intros j k q1 q2 Hne [(-> & <- & _)|[Hj Hq1]]%list_lookup_insert_Some [(-> & <- & _)|[Hk Hq2]]%list_lookup_insert_Some; [done| | |by eapply (Hap j k)];
      rewrite ?Ea, ?Ep; by eapply (Hap j k).
  - intros k ev (q2 & [j Hj]%list_elem_of_lookup & Hr). destruct (decide (j = i)) as [->|Hne].
    + exists q'. split; [eapply list_elem_of_lookup_2, list_lookup_insert_eq, lookup_lt_Some, Hq|]. replace q2 with q in Hr by congruence. unfold shelved in *. by rewrite Ea, Ed.
    + exists q2. split; [|done]. eapply (list_elem_of_lookup_2 _ j). by rewrite list_lookup_insert_ne.
Qed.

#[global, refine] Instance sharded_maintenance : MaintenanceLaws ShardedQueue := {|
  published := fun s => spread (sh_shards s);
  readable := fun s => readable_in (sh_shards s)
|}.
Proof.
  - intros s l files s' files' e Hl Hs E. cbn in E. unfold sharded_RecoverArchives in E. destruct (recover_shards (sh_shards s) files) as [[qs1 files1] e1] eqn:E1.
    injection E as <- <- <-. destruct s as [qs]. destruct (recover_shards_passes 0 qs [] l files qs1 files1 e1 Hl Hs E1) as (Hl' & Hs' & Hr & _).
    rewrite l_archive_nil in Hl'. by split_and!.
  - intros ctx uuid dir before limit s l files r s' files' Hl Hs Hf E. cbn in E. unfold sharded_Archive in E.
    destruct (archive_shards _ _ _ _ _ 0 0 (sh_shards s) files) as [[r1 qs1] files1] eqn:E1. injection E as <- <- <-. destruct s as [qs].
    destruct (archive_shards_passes ctx uuid dir before limit qs [] l files 0 r1 qs1 files1 Hl Hs) as (ks & Hl' & Hs' & Hr & Hk); [|exact E1|by exists ks].
    intros j _. destruct (Hf j) as (Hn & Hp & Hinj). split_and!; [done| |done]. apply Forall_forall. intros q Hq Hin. apply Hp. cbn.
    apply elem_of_union_list. exists (shard_paths q). split; [by apply list_elem_of_fmap_2|done].
  - intros limit s l files Hl Hs. destruct s as [qs]. pose proof (collect_shards_passes 0 limit qs [] l files 0 Hl Hs) as (Hl' & Hs' & Hr & _).
    rewrite l_archive_nil in Hl'. cbn in *. unfold sharded_Collect. cbn [sh_shards] in *. by destruct (collect_shards limit 0 qs) as [n qs1].
  - intros s s' files Hu Hs. destruct (use_shard s s' Hu) as (i & q & q' & Hq & -> & Hc). by apply (same_spread _ i q).
Defined.

(** New databases have no segments. *)
Lemma Open_spread path backend n s : Open (fun _ => None) path backend n = Ok s -> spread (sh_shards s) ∅ /\ Forall (fun q => shard_paths q = ∅) (sh_shards s).
Proof.
  intros Ho. destruct (Open_shards _ _ _ _ _ Ho) as (_ & _ & Hf).
  assert (forall i q, sh_shards s !! i = Some q -> db_archives (q_db q) = ∅ /\ db_archive_pending (q_db q) = ∅) as Hempty.
  { intros i q Hq. destruct (Hf i q Hq) as [Hi _].
    assert (init new_db = Ok new_db) as E by (vm_compute; reflexivity). change (init new_db = Ok (q_db q)) in Hi. rewrite E in Hi. by injection Hi as <-. }
  split; [split|].
  - apply Forall_lookup. intros i q Hq p rng Hp. by rewrite (proj1 (Hempty i q Hq)) in Hp.
  - intros i j q q' _ Hq _. rewrite (proj2 (Hempty i q Hq)). apply disjoint_empty_l.
  - apply Forall_lookup. intros i q Hq. unfold shard_paths. destruct (Hempty i q Hq) as [-> ->]. set_solver.
Qed.

(** C13.  The shards keep the storage contract together.  Archiving them in
    order, wherever it fails, moves acknowledged events that are older than the
    cutoff, and nothing else, from the queue to segments from which they can be
    read; recovery and collection, wherever they stop, leave the ledger of the
    queue as it is.  Although the shards share the directory, none of them
    removes or changes a segment that another has published: all of them stay
    on disk, and what could be read from them still can. *)
Theorem sharded_maintains (s : ShardedQueue) (l : ledger) (files : disk) : sharded_holds s l -> spread (sh_shards s) files ->
  (forall ctx uuid dir before limit r s' files', fresh dir uuid s files -> sharded_Archive ctx uuid dir before limit s files = (r, s', files') ->
     exists ks, sharded_holds s' (l_archive ks l) /\ spread (sh_shards s') files'
     /\ (forall k ev, readable_in (sh_shards s) files k ev -> readable_in (sh_shards s') files' k ev)
     /\ (forall k e, k ∈ ks -> l_entries l !! k = Some e -> e_status e = 2 /\ e_updated e < before /\ readable_in (sh_shards s') files' k (e_event e)))
  /\ (forall s' files' e, sharded_RecoverArchives s files = (s', files', e) -> sharded_holds s' l /\ spread (sh_shards s') files'
     /\ forall k ev, readable_in (sh_shards s) files k ev -> readable_in (sh_shards s') files' k ev)
  /\ (forall limit, let s' := (sharded_Collect limit s).2 in sharded_holds s' l /\ spread (sh_shards s') files
     /\ forall k ev, readable_in (sh_shards s) files k ev -> readable_in (sh_shards s') files k ev).
Proof.
  intros Hl Hs. split_and!.
  - intros ctx uuid dir before limit r s' files' Hf E. exact (law_archive (Q := ShardedQueue) ctx uuid dir before limit s l files r s' files' Hl Hs Hf E).
  - intros s' files' e E. exact (law_recover (Q := ShardedQueue) s l files s' files' e Hl Hs E).
  - intros limit. exact (law_collect (Q := ShardedQueue) limit s l files Hl Hs).
Qed.
End together.

(** ** A witness: two shards, one of which archives *)

#[local] Existing Instance identity_zlib.
#[local] Existing Instance identity_zlib_laws.
#[local] Existing Instance insertion_sort.
#[local] Existing Instance any_uuid.
#[local] Existing Instance canonical_range.

Definition demo_sharded : res (ShardedQueue * ShardedQueue * ShardedQueue) :=
  s0 ← Open (fun _ => None) "events.db" "v2" 2;
  s1 ← sharded_Enqueue 7 s0 sample_event;
  s2 ← sharded_MarkPushed 8 s1 "evt-1" 2;
  Ok (s0, s1, s2).
Definition demo_uuid (i : nat) : string := str (replicate i (chr 97)).

Lemma demo_segments i j : segment_path "/archive" demo_uuid i = segment_path "/archive" demo_uuid j -> i = j.
Proof.
  unfold segment_path, filepath_Join, archive_name, demo_uuid. change (seqb "/archive" "/") with false. cbv iota. intros E.
  apply (f_equal (fun s => length (byt s))) in E. rewrite !byt_app, !byt_str, !length_app, !length_replicate in E. lia.
Qed.
Lemma same_paths i q q' qs : Forall (fun q => shard_paths q = ∅) qs -> qs !! i = Some q -> same_catalogue q q' -> Forall (fun q => shard_paths q = ∅) (<[i := q']> qs).
Proof.
  intros Hall Hq (Ea & _ & Ep). apply Forall_insert; [done|]. unfold shard_paths. rewrite Ea, Ep. exact (Forall_lookup_1 _ _ _ _ Hall Hq).
Qed.
Lemma demo_sharded_holds s0 s1 s2 : demo_sharded = Ok (s0, s1, s2) ->
  exists e, e_event e = sample_event /\ sharded_holds s2 (mkLedger {[event_key sample_event := e]} ∅) /\ spread (sh_shards s2) ∅ /\ fresh "/archive" demo_uuid s2 ∅.
Proof.
  unfold demo_sharded. destruct (Open _ _ _ _) as [t0|] eqn:E0; [|done]. cbn [mbind res_bind]. destruct (sharded_Enqueue 7 t0 sample_event) as [t1|] eqn:E1; [|done].
  cbn [mbind res_bind]. destruct (sharded_MarkPushed 8 t1 "evt-1" 2) as [t2|] eqn:E2; [|done]. intros [= -> -> ->].
  pose proof (Enqueue_law 7 s0 _ sample_event (Open_fresh _ _ _ _ E0) (conj sample_event_ok sample_event_plain)) as He. rewrite E1 in He. destruct He as (He & _).
  assert (plain "evt-1") as Hp by (apply (bool_decide_unpack _); vm_compute; exact I).
  pose proof (holds_MarkPushed (Q := ShardedQueue) 8 s1 _ "evt-1" 2 He Hp) as (s2' & E2' & Hs2 & _). cbn in E2'. rewrite E2 in E2'. injection E2' as <-.
  destruct (Open_spread _ _ _ _ E0) as [Hsp Hpaths].
  assert (queue_use s0 s1) as Hu1 by (by eapply use_enqueue; [split; [apply sample_event_ok|apply sample_event_plain]|]).
  assert (queue_use s1 s2) as Hu2 by (by eapply use_pushed).
  destruct (use_shard _ _ Hu1) as (i & q & q1 & Hq & Es1 & Hc1). destruct (use_shard _ _ Hu2) as (j & q2 & q3 & Hq2 & Es2 & Hc2).
  exists (a_mark_pushed 8 (mkEntry sample_event 0 0 "" 7 7)). split; [done|]. split; [|split].
  - assert (l_update (queueRecordID "evt-1" 2) (a_mark_pushed 8) (l_enqueue 7 sample_event (mkLedger ∅ ∅)) =
      mkLedger {[event_key sample_event := a_mark_pushed 8 (mkEntry sample_event 0 0 "" 7 7)]} ∅) as <-; [|exact Hs2].
    unfold l_update, l_enqueue. change (queueRecordID "evt-1" 2) with (event_key sample_event). rewrite (bool_decide_eq_false_2 (event_key sample_event ∈ _)) by apply not_elem_of_empty. rewrite bool_decide_eq_false_2 by (cbn; by intros [? ?]).
    cbn [orb l_entries l_archived]. f_equal.
  - rewrite Es2. apply (same_spread _ j q2); [done..|]. rewrite Es1. by apply (same_spread _ i q).
  - intros k. split; [apply lookup_empty|]. split; [|apply demo_segments]. cbn. intros (X & (q4 & -> & Hin)%list_elem_of_fmap & Hx)%elem_of_union_list.
    assert (Forall (fun q => shard_paths q = ∅) (sh_shards s2)) as Hall by (rewrite Es2; apply (same_paths j q2); [rewrite Es1; by apply (same_paths i q)|done..]).
    rewrite Forall_forall in Hall. rewrite (Hall q4 Hin) in Hx. by apply not_elem_of_empty in Hx.
Qed.
Lemma sharded_maintains_witness : exists s0 s1 s2 e r s' files' ks, demo_sharded = Ok (s0, s1, s2) /\ e_event e = sample_event
  /\ sharded_holds s2 (mkLedger {[event_key sample_event := e]} ∅) /\ sharded_Archive (fun _ _ => false) demo_uuid "/archive" 100 10 s2 ∅ = (r, s', files')
  /\ sharded_holds s' (l_archive ks (mkLedger {[event_key sample_event := e]} ∅)) /\ spread (sh_shards s') files'
  /\ (event_key sample_event ∈ ks -> readable_in (sh_shards s') files' (event_key sample_event) sample_event).
Proof.
  assert (is_ok demo_sharded = true) as Hd by (vm_compute; reflexivity). destruct demo_sharded as [[[s0 s1] s2]|e] eqn:E; [|discriminate Hd].
  destruct (demo_sharded_holds s0 s1 s2 E) as (e & He & Hl & Hs & Hf).
  destruct (sharded_Archive (fun _ _ => false) demo_uuid "/archive" 100 10 s2 ∅) as [[r s'] files'] eqn:Ea.
  destruct (proj1 (sharded_maintains s2 _ ∅ Hl Hs) _ _ _ _ _ _ _ _ Hf Ea) as (ks & Hl' & Hs' & _ & Hk).
  exists s0, s1, s2, e, r, s', files', ks. split; [reflexivity|]. split; [exact He|]. split; [exact Hl|]. split; [exact Ea|]. split; [exact Hl'|]. split; [exact Hs'|].
  intros Hin. destruct (Hk _ e Hin (lookup_singleton_eq _ _)) as (_ & _ & Hr). rewrite He in Hr. exact Hr.
Defined.
