(* ===== verification/Readers.v ===== *)
(** * Readers: listing and reading stored events (internal/queue/reader.go, inspect.go, crud.go)

    The management interface reads the database files of a running node: the
    newest records of a shard and its archive segments, one event by its key,
    and the push log, filtered and paged over all shards. *)

From S2P Require Import Prelude GoStrings GoNet Events Json AnyJson Codec EventJson Content Queue EventQueue Shard Archive Maintain Ranges.

(** ** Queries *)

(** SELECT path,max_id FROM queue_archives ORDER BY max_id DESC: the order of
    equal rows is open. *)
Class SqlOrder := { by_max_id : gmap string (Z * Z) -> list (string * (Z * Z)) }.
Class SqlOrderLaws `{SqlOrder} := {
  by_max_id_perm : forall m, by_max_id m ≡ₚ map_to_list m;
  by_max_id_sorted : forall m, StronglySorted (fun a b => b.2.2 <= a.2.2) (by_max_id m)
}.
(** LIMIT ?: a negative limit is none. *)
Definition sql_limit {A : Type} (n : Z) (rows : list A) : list A := if n <? 0 then rows else take (Z.to_nat n) rows.

(** [text LIKE pattern ESCAPE '\']. *)
Class SqlLike := { sql_like : bytes -> bytes -> bool }.

Section readers.
Context `{GoZlib} (master : queue_db -> string -> bool).

(** The rows of a query, with their payloads restored. *)
Fixpoint decode_rows (d : queue_db) (rows : list record) : res (list record) :=
  match rows with
  | [] => Ok []
  | r :: rows =>
      b ← decodePayload (db_content d) (r_Payload r);
      rs ← decode_rows d rows;
      Ok (r <| r_Payload := b |> :: rs)
  end.
(** [rows] answers the query on [d]. *)
Definition readRecords (d : queue_db) (rows : list record) : res (list record) := decode_rows d rows.
(** The columns: the payload, or the summary where there is one. *)
Definition summaryColumns (d : queue_db) (summary : bool) (r : record) : record :=
  if negb summary then r
  else if negb (master d "queue_summary") then r
  else r <| r_Payload := default (r_Payload r) (db_summary d !! r_Key r) |>.
(** SELECT ... FROM event_queue ORDER BY id DESC LIMIT ?; the rows are kept in
    the order of their identifiers. *)
Definition newest_rows (d : queue_db) (summary : bool) (limit : Z) : list record :=
  summaryColumns d summary <$> sql_limit limit (reverse (db_rows d)).
(** SELECT ... FROM event_queue WHERE event_id=? *)
Definition rows_of (d : queue_db) (key : string) : list record := List.filter (fun r => seqb (r_Key r) key) (db_rows d).

(** ** The newest records of a shard *)

Context `{GoSort} `{SqlOrder}.

Definition newer (a b : record) : bool := r_ID b <? r_ID a.
Definition index_panic : string := "runtime error: index out of range".
(** The loop over the segments; segments that can hold nothing newer end it. *)
Fixpoint recent_segments (files : disk) (limit : Z) (summary : bool) (out : list record) (paths : list (string * (Z * Z))) : res (list record) :=
  match paths with
  | [] => Ok out
  | (p, (_, maxID)) :: paths =>
      enough ← (if limit <=? len out then
                  match index out (len out - 1) with
                  | Some final => Ok (maxID <? r_ID final)
                  | None => Err index_panic
                  end
                else Ok false);
      if enough : bool then Ok out
      else
        match files !! p with
        | None => Err "open archive"
        | Some archive =>
            part ← readRecords archive (newest_rows archive summary limit);
            let out := sort_Slice newer (out ++ part) in
            out ← (if limit <? len out then
                     match slice_to out limit with Some o => Ok o | None => Err slice_panic end
                   else Ok out);
            recent_segments files limit summary out paths
        end
  end.
Definition recentRecords (files : disk) (path : string) (limit : Z) (summary : bool) : res (list record) :=
  d ← readOnly files path;
  let paths := if master d "queue_archives" then by_max_id (db_archives d) else [] in
  out ← decode_rows d (newest_rows d summary limit);
  recent_segments files limit summary out paths.

(** ** One event *)

(** The archive files to look into: that of the catalogue of events, or, in
    databases that have none, all of them. *)
Definition event_paths (d : queue_db) (key : string) : list string :=
  if master d "queue_archived" then match db_archived d !! key with Some (p, _) => [p] | None => [] end
  else if master d "queue_archives" then (by_max_id (db_archives d)).*1 else [].
Fixpoint find_archived (files : disk) (key : string) (paths : list string) : res (list record) :=
  match paths with
  | [] => Ok []
  | p :: paths =>
      archive ← readOnly files p;
      rs ← readRecords archive (rows_of archive key);
      match rs with [] => find_archived files key paths | _ => Ok rs end
  end.
(** The active rows are read from [d], the catalogue afterwards from [d'] and
    the segments from [files']: the node may write in between. *)
Definition ReadEvent (files : disk) (path : string) (d' : queue_db) (files' : disk) (key : string) : res ThreatEvent :=
  d ← readOnly files path;
  records ← readRecords d (rows_of d key);
  records ← match records with [] => find_archived files' key (event_paths d' key) | _ => Ok records end;
  match records with
  | [] => Err no_rows
  | r :: _ => match unmarshal_event (r_Payload r) with Some ev => Ok ev | None => Err "json" end
  end.

(** ** The push log *)

Record PushLog := mkPushLog {
  pl_EventID : string;
  pl_EventTime : Z;
  pl_OccurredAt : Z;
  pl_CreatedAt : Z;
  pl_EventName : string;
  pl_Severity : string;
  pl_IOCType : string;
  pl_IOCValue : string;
  pl_SrcIP : string;
  pl_SrcPort : Z;
  pl_DstIP : string;
  pl_DstPort : Z;
  pl_RawPacket : option RawPacketContext;
  pl_SessionID : string;
  pl_TransactionID : string;
  pl_ContextRevision : Z;
  pl_ContextFinal : bool;
  pl_Exchange : option ExchangeContext;
  pl_SessionSummary : option SessionSummary;
  pl_Status : string;
  pl_RetryCount : Z;
  pl_LastError : string;
  pl_UpdatedAt : Z
}.
Definition pushStatusName (status : Z) : string :=
  if status =? 0 then "pending" else if status =? 2 then "pushed" else if status =? 3 then "failed" else "unknown".
(** The log of a row, the event it belongs to, and whether its payload is an
    event at all; [now] is the clock. *)
Definition pushLogFromRecord (now : Z) (rec : record) (summary : bool) : PushLog * string * bool :=
  let decoded := unmarshal_event (r_Payload rec) in
  let ev := default zero_ThreatEvent ((fun ev => if summary then summarize ev else ev) <$> decoded) in
  let occurred := i64 (r_Time rec / 1000000) in
  (mkPushLog (match decoded with Some _ => ev_EventID ev | None => r_Key rec end) (r_Time rec)
     (if occurred =? 0 then r_Created rec else occurred) (r_Created rec)
     (ev_EventName ev) (ev_Severity ev) (ev_IOCType ev) (ev_IOCValue ev) (ev_SrcIP ev) (ev_SrcPort ev) (ev_DstIP ev) (ev_DstPort ev)
     (ev_RawPacket ev) (ev_SessionID ev) (ev_TransactionID ev) (ev_ContextRevision ev) (ev_ContextFinal ev) (ev_Exchange ev) (ev_SessionSummary ev)
     (pushStatusName (r_Status rec)) (r_Retry rec) (r_Error rec) (if r_Updated rec =? 0 then now else r_Updated rec),
   ev_EventID ev, match decoded with Some _ => true | None => false end).
(** The loops that keep one row per event. *)
Fixpoint one_per_event (now : Z) (summary : bool) (seen : gset string) (records : list record) : list PushLog :=
  match records with
  | [] => []
  | rec :: records =>
      let '(log, key, decoded) := pushLogFromRecord now rec summary in
      if decoded : bool then
        if bool_decide (key ∈ seen) then one_per_event now summary seen records
        else log :: one_per_event now summary ({[key]} ∪ seen) records
      else log :: one_per_event now summary seen records
  end.
(** The records of all shards; an error in one ends the loop. *)
Fixpoint all_shards {A : Type} (read : string -> res (list A)) (paths : list string) : res (list A) :=
  match paths with
  | [] => Ok []
  | p :: paths => recs ← read p; rest ← all_shards read paths; Ok (recs ++ rest)
  end.
Definition later (a b : record) : bool :=
  if negb (r_Updated a =? r_Updated b) then r_Updated b <? r_Updated a else r_Created b <? r_Created a.
(** [paths] are those of shardPaths; the loop stops at [limit] logs. *)
Definition recentPushLogs (now : Z) (files : disk) (path : string) (paths : list string) (limit : Z) (summary : bool) : res (list PushLog) :=
  let limit := if (limit <=? 0) || (200 <? limit) then 50 else limit in
  match files !! path with
  | None => Err "no such file or directory"
  | Some _ =>
      records ← all_shards (fun p => recentRecords files p (limit * 4) summary) paths;
      let records := sort_Slice later records in
      let records := if limit * 4 <? len records then take (Z.to_nat (limit * 4)) records else records in
      Ok (take (Z.to_nat limit) (one_per_event now summary ∅ records))
  end.
Definition RecentPushLogs now files path paths limit := recentPushLogs now files path paths limit false.
Definition RecentPushSummaries now files path paths limit := recentPushLogs now files path paths limit true.

(** ** Filtered and paged *)

Context `{SqlLike} `{RangeOrder}.

Record PushLogQuery := mkQuery { qy_Offset : Z; qy_Limit : Z; qy_Status : string; qy_Search : string }.
Definition fetchBuffer : Z := 4.
Definition maxFetch : Z := 20000.
(** likeEscaper: strings.NewReplacer on single bytes. *)
Definition like_escape (c : ascii) : bytes := if bool_decide (bv c = 92 \/ bv c = 37 \/ bv c = 95) then [chr 92; c] else [c].
Definition likeEscaper_Replace (s : bytes) : bytes := concat (like_escape <$> s).

(** WHERE ... AND status=? AND (event_id LIKE ? OR payload LIKE ?) *)
Definition row_matches (status : option Z) (search : string) (r : record) : bool :=
  match status with None => true | Some s => r_Status r =? s end
  && (seqb search ""
      || (let like := chr 37 :: likeEscaper_Replace (byt search) ++ [chr 37] in
          sql_like like (byt (r_Key r)) || sql_like like (r_Payload r))).
(** ORDER BY updated_at DESC, id DESC *)
Definition updated_le (a b : record) : Prop := r_Updated b < r_Updated a \/ (r_Updated a = r_Updated b /\ r_ID b <= r_ID a).
#[export] Instance updated_le_dec : RelDecision updated_le.
Proof. intros a b. unfold updated_le. apply _. Defined.
Definition queryDBRecords (d : queue_db) (status : option Z) (search : string) (fetch : Z) : res (list record * list string) :=
  let archives := if master d "queue_archives" then (range_map (db_archives d)).*1 else [] in
  let rows := sql_limit fetch (merge_sort updated_le (List.filter (row_matches status search) (summaryColumns d true <$> db_rows d))) in
  out ← decode_rows d rows;
  Ok (out, archives).
Fixpoint query_segments (files : disk) (status : option Z) (search : string) (fetch : Z) (out : list record) (capped : bool) (archives : list string) :
    res (list record * bool) :=
  match archives with
  | [] => Ok (out, capped)
  | p :: archives =>
      match files !! p with
      | None => Err "open archive"
      | Some adb =>
          '(part, _) ← queryDBRecords adb status search fetch;
          query_segments files status search fetch (out ++ part) (capped || (len part =? fetch)) archives
      end
  end.
Definition queryShardRecords (files : disk) (path : string) (status : option Z) (search : string) (fetch : Z) : res (list record * bool) :=
  d ← readOnly files path;
  '(out, archives) ← queryDBRecords d status search fetch;
  query_segments files status search fetch out (len out =? fetch) archives.
Fixpoint query_shards (files : disk) (status : option Z) (search : string) (fetch : Z) (records : list record) (capped : bool) (paths : list string) :
    res (list record * bool) :=
  match paths with
  | [] => Ok (records, capped)
  | p :: paths =>
      '(recs, hit) ← queryShardRecords files p status search fetch;
      query_shards files status search fetch (records ++ recs) (capped || hit) paths
  end.
Definition last_first (a b : record) : bool :=
  if negb (r_Updated a =? r_Updated b) then r_Updated b <? r_Updated a
  else if negb (r_Created a =? r_Created b) then r_Created b <? r_Created a
  else r_ID b <? r_ID a.
(** The status column of the names of the query. *)
Definition status_of (status : string) : res (option Z) :=
  if seqb status "" then Ok None
  else if seqb status "pending" then Ok (Some 0)
  else if seqb status "pushed" then Ok (Some 2)
  else if seqb status "failed" then Ok (Some 3)
  else Err "unknown status".
Definition fetch_size (offset limit : Z) : Z :=
  let fetch := i64 (i64 (offset + limit) * fetchBuffer) in
  if maxFetch <? fetch then maxFetch else fetch.
Definition ListPushLogs (now : Z) (files : disk) (path : string) (paths : list string) (query : PushLogQuery) : res (list PushLog * bool) :=
  let limit := if (qy_Limit query <=? 0) || (200 <? qy_Limit query) then 50 else qy_Limit query in
  let offset := if qy_Offset query <? 0 then 0 else qy_Offset query in
  match files !! path with
  | None => Err "no such file or directory"
  | Some _ =>
      status ← status_of (qy_Status query);
      let search := strings_TrimSpace (qy_Search query) in
      '(records, capped) ← query_shards files status search (fetch_size offset limit) [] false paths;
      let records := sort_Slice last_first records in
      let logs := one_per_event now true ∅ records in
      let hasMore := capped || (i64 (offset + limit) <? len logs) in
      if len logs <=? offset then Ok ([], hasMore)
      else
        let stop := i64 (offset + limit) in
        let stop := if len logs <? stop then len logs else stop in
        match slice logs offset stop with
        | Some page => Ok (page, hasMore)
        | None => Err slice_panic
        end
  end.
End readers.

(** ** The newest of some records *)

Lemma sorted_weaken {A} (R R' : A -> A -> Prop) l : (forall a b, R a b -> R' a b) -> StronglySorted R l -> StronglySorted R' l.
Proof. intros HR. induction 1 as [|x l _ IH Hall]; constructor; [done|]. eapply Forall_impl; [exact Hall|]. apply HR. Qed.
Definition id_desc (a b : record) : Prop := r_ID b <= r_ID a.
(** [out] are [n] newest records of [all], newest first. *)
Definition newest (n : nat) (all out : list record) : Prop :=
  exists rest, all ≡ₚ out ++ rest /\ StronglySorted id_desc out /\ length out = Nat.min n (length all)
    /\ forall x y, x ∈ out -> y ∈ rest -> id_desc x y.
#[global] Instance newest_Permutation n : Proper ((≡ₚ) ==> (=) ==> iff) (newest n).
Proof. intros A A' HA o ? <-. unfold newest. by setoid_rewrite HA. Qed.

Lemma bfilter_length {A} (f : A -> bool) l : (length (List.filter f l) <= length l)%nat.
Proof. induction l as [|x l IH]; cbn; [lia|]. destruct (f x); cbn; lia. Qed.
Lemma bfilter_none {A} (f : A -> bool) l : Forall (fun x => f x = false) l -> List.filter f l = [].
Proof. induction 1 as [|x l E _ IH]; cbn; [done|]. by rewrite E, IH. Qed.
Lemma bfilter_perm {A} (f : A -> bool) l k : l ≡ₚ k -> List.filter f l ≡ₚ List.filter f k.
Proof. induction 1; cbn; repeat case_match; eauto using perm_swap, Permutation_trans. Qed.
(** A sorted list with [n] elements above [v] begins with [n] of them. *)
Lemma sorted_above s n (v : Z) (x : record) : StronglySorted id_desc s -> (n <= length (List.filter (fun z => (v <=? r_ID z)%Z) s))%nat -> x ∈ take n s -> v <= r_ID x.
Proof.
  intros Hs Hn (l1 & l2 & E)%list_elem_of_split. destruct (Z.le_gt_cases v (r_ID x)) as [|Hx]; [done|exfalso].
  assert (s = l1 ++ x :: (l2 ++ drop n s)) as Es by (rewrite <-(take_drop n s) at 1; rewrite E, <-app_assoc; done).
  assert (length l1 < n)%nat as Hl.
  { assert (length (take n s) <= n)%nat as Hle by (rewrite length_take; lia). rewrite E, length_app in Hle. cbn in Hle. lia. }
  rewrite Es, List.filter_app in Hn. rewrite (bfilter_none _ (x :: _)) in Hn.
  - rewrite app_nil_r in Hn. pose proof (bfilter_length (fun z => v <=? r_ID z) l1). lia.
  - rewrite Es in Hs. apply StronglySorted_app_1_r in Hs. inversion Hs as [|? ? _ Hall]; subst.
    constructor; [apply Z.leb_gt; lia|]. eapply Forall_impl; [exact Hall|]. unfold id_desc. intros z Hz. apply Z.leb_gt. lia.
Qed.
Lemma newest_rest n A a ra y : A ≡ₚ a ++ ra -> length a = Nat.min n (length A) -> (forall x y, x ∈ a -> y ∈ ra -> id_desc x y) -> y ∈ ra ->
  (n <= length (List.filter (fun z => (r_ID y <=? r_ID z)%Z) a))%nat.
Proof.
  intros Hp Hl Hd Hy. rewrite bfilter_all; [|apply Forall_forall; intros x Hx; apply Z.leb_le; by apply Hd].
  apply Permutation_length in Hp. rewrite length_app in Hp. destruct ra; [by apply not_elem_of_nil in Hy|]. cbn in Hp. lia.
Qed.
Lemma newest_merge n A B a b s : newest n A a -> newest n B b -> s ≡ₚ a ++ b -> StronglySorted id_desc s -> newest n (A ++ B) (take n s).
Proof.
  intros (ra & HpA & Hsa & Hla & Hda) (rb & HpB & Hsb & Hlb & Hdb) Hp Hs. exists (drop n s ++ ra ++ rb). split_and!.
  - rewrite (app_assoc (take n s)), take_drop, HpA, HpB, Hp. solve_Permutation.
  - eapply StronglySorted_sublist; [apply sublist_take|done].
  - rewrite length_take, (Permutation_length Hp), !length_app. lia.
  - intros x y Hx Hy. rewrite !elem_of_app in Hy. destruct Hy as [Hy|Hy].
    + rewrite <-(take_drop n s) in Hs. by apply (StronglySorted_app_1_elem_of _ _ _ _ _ Hs Hx Hy).
    + eapply (sorted_above s n); [done| |done]. rewrite (Permutation_length (bfilter_perm _ _ _ Hp)), List.filter_app, length_app.
      destruct Hy as [Hy|Hy]; [pose proof (newest_rest n A a ra y HpA Hla Hda Hy)|pose proof (newest_rest n B b rb y HpB Hlb Hdb Hy)]; lia.
Qed.
(** Records that are all older add nothing to a full list. *)
Lemma newest_skip n A B a : newest n A a -> length a = n -> (forall x y, x ∈ a -> y ∈ B -> id_desc x y) -> newest n (A ++ B) a.
Proof.
  intros (ra & HpA & Hsa & Hla & Hda) Hn HB. exists (ra ++ B). split_and!; [by rewrite HpA, app_assoc|done|rewrite length_app; lia|].
  intros x y Hx [Hy|Hy]%elem_of_app; auto.
Qed.
Lemma newest_all n A a : A ≡ₚ a -> StronglySorted id_desc a -> newest n A (take n a).
Proof.
  intros Hp Hs. exists (drop n a). split_and!; [by rewrite take_drop|eapply StronglySorted_sublist; [apply sublist_take|done]|by rewrite length_take, (Permutation_length Hp)|].
  intros x y Hx Hy. rewrite <-(take_drop n a) in Hs. by apply (StronglySorted_app_1_elem_of _ _ _ _ _ Hs Hx Hy).
Qed.

(** ** The newest records of a shard are found *)

Section recent.
Context `{GoZlib} (master : queue_db -> string -> bool) `{GoSortLaws} `{SqlOrderLaws}.

(** What a reader shows for a row. *)
Definition shown (d : queue_db) (summary : bool) (r : record) : record :=
  let r := summaryColumns master d summary r in
  match decodePayload (db_content d) (r_Payload r) with Ok b => r <| r_Payload := b |> | Err _ => r end.
(** Every payload, or summary, can be restored. *)
Definition decodable (summary : bool) (d : queue_db) : Prop :=
  Forall (fun r => is_ok (decodePayload (db_content d) (r_Payload (summaryColumns master d summary r))) = true) (db_rows d).
Lemma shown_ID d summary r : r_ID (shown d summary r) = r_ID r.
Proof. unfold shown, summaryColumns. by repeat case_match. Qed.
Lemma decode_shown d summary rows : decodable summary d -> (forall r, r ∈ rows -> r ∈ db_rows d) ->
  decode_rows d (summaryColumns master d summary <$> rows) = Ok (shown d summary <$> rows).
Proof.
  intros Hd. induction rows as [|r rows IH]; intros Hin; [done|]. cbn. unfold shown at 1.
  pose proof (proj1 (Forall_forall _ _) Hd r (Hin r ltac:(left))) as Hr. cbn in Hr.
  destruct (decodePayload _ _) as [b|]; [|done]. cbn. fold (decode_rows d) (summaryColumns master d summary <$> rows). rewrite IH; [done|]. intros x Hx. apply Hin. by right.
Qed.
Lemma sorted_reverse rows : StronglySorted (fun r r' : record => r_ID r < r_ID r') rows -> StronglySorted id_desc (reverse rows).
Proof.
  induction 1 as [|r rows _ IH Hall]; [constructor|]. rewrite reverse_cons. apply StronglySorted_snoc; [done|].
  apply Forall_forall. intros x Hx. rewrite elem_of_reverse in Hx. unfold id_desc. pose proof (proj1 (Forall_forall _ _) Hall x Hx). cbn in *. lia.
Qed.
Lemma sorted_fmap (f : record -> record) rows : (forall r, r_ID (f r) = r_ID r) -> StronglySorted id_desc rows -> StronglySorted id_desc (f <$> rows).
Proof.
  intros Hf. induction 1 as [|r rows _ IH Hall]; [constructor|]. cbn. constructor; [done|]. apply Forall_fmap. eapply Forall_impl; [exact Hall|].
  unfold id_desc. cbn. intros x. by rewrite !Hf.
Qed.
(** The query on one database. *)
Lemma newest_rows_spec d summary limit : decodable summary d -> StronglySorted (fun r r' => r_ID r < r_ID r') (db_rows d) -> 0 < limit ->
  exists out, decode_rows d (newest_rows master d summary limit) = Ok out /\ newest (Z.to_nat limit) (shown d summary <$> db_rows d) out.
Proof.
  intros Hd Hs Hl. unfold newest_rows, sql_limit. rewrite (proj2 (Z.ltb_ge _ _)) by lia. eexists. split.
  - apply decode_shown; [done|]. intros r Hr. apply elem_of_reverse. eapply elem_of_submseteq; [exact Hr|]. apply sublist_submseteq, sublist_take.
  - rewrite fmap_take. apply newest_all; [by rewrite reverse_Permutation|]. apply sorted_fmap; [apply shown_ID|by apply sorted_reverse].
Qed.
Lemma sort_newer l : StronglySorted id_desc (sort_Slice newer l) /\ sort_Slice newer l ≡ₚ l.
Proof.
  split; [|apply sort_perm]. apply (sorted_weaken (fun a b => newer b a = false)); [|apply sort_sorted]; unfold newer, id_desc.
  - intros a b ?%Z.ltb_ge. done.
  - intros a b c ?%Z.ltb_ge ?%Z.ltb_ge. apply Z.ltb_ge. lia.
  - intros a b ?%Z.ltb_lt. apply Z.ltb_ge. lia.
Qed.

(** The records of some segments. *)
Definition segment_records (files : disk) (summary : bool) (paths : list string) : list record :=
  concat ((fun p => match files !! p with Some seg => shown seg summary <$> db_rows seg | None => [] end) <$> paths).
(** A catalogued segment: on the disk, readable, and with no row past the catalogue. *)
Definition segment_ok (files : disk) (summary : bool) (loc : string * (Z * Z)) : Prop :=
  exists seg, files !! loc.1 = Some seg /\ decodable summary seg /\ StronglySorted (fun r r' => r_ID r < r_ID r') (db_rows seg)
    /\ Forall (fun r => r_ID r <= loc.2.2) (db_rows seg).
Lemma segment_records_bound files summary locs m r : Forall (segment_ok files summary) locs -> Forall (fun loc => loc.2.2 <= m) locs ->
  r ∈ segment_records files summary locs.*1 -> r_ID r <= m.
Proof.
  intros Hok Hm. induction Hok as [|loc locs (seg & Hf & _ & _ & Hb) _ IH]; [by intros ?%not_elem_of_nil|].
  apply Forall_cons in Hm as [Hm Hms]. unfold segment_records. cbn. rewrite Hf. intros [Hr|Hr]%elem_of_app; [|by apply IH].
  apply list_elem_of_fmap in Hr as (x & -> & Hx). rewrite shown_ID. pose proof (proj1 (Forall_forall _ _) Hb x Hx). cbn in *. lia.
Qed.
Lemma index_last (out : list record) : out <> [] -> exists final, index out (len out - 1) = Some final /\ last out = Some final.
Proof.
  intros Hne. rewrite <-(rev_involutive out) in *. destruct (rev out) as [|x l] eqn:E; [done|]. cbn. exists x. split; [|apply last_snoc].
  unfold index, len. rewrite length_app. cbn. rewrite (proj2 (Z.leb_le _ _)) by lia. replace (Z.to_nat _) with (length (rev l)) by lia.
  by apply list_lookup_middle.
Qed.
Lemma sorted_last out final x : StronglySorted id_desc out -> last out = Some final -> x ∈ out -> id_desc x final.
Proof.
  intros Hs Hl Hx. apply last_Some in Hl as (l & ->). apply elem_of_app in Hx as [Hx|Hx].
  - eapply StronglySorted_app_1_elem_of; [done|done|]. by apply list_elem_of_singleton.
  - apply list_elem_of_singleton in Hx as ->. unfold id_desc. lia.
Qed.
Lemma recent_segments_spec files limit summary locs : 0 < limit -> Forall (segment_ok files summary) locs ->
  StronglySorted (fun a b => b.2.2 <= a.2.2) locs -> forall A out, newest (Z.to_nat limit) A out ->
  exists out', recent_segments master files limit summary out locs = Ok out' /\ newest (Z.to_nat limit) (A ++ segment_records files summary locs.*1) out'.
Proof.
  intros Hl Hok Hsort. induction Hsort as [|[p [lo hi]] locs Hs IH Hall]; intros A out Ho; cbn [recent_segments].
  { exists out. split; [done|]. unfold segment_records. cbn. by rewrite app_nil_r. }
  pose proof Hok as Hok'. apply Forall_cons in Hok as [(seg & Hf & Hd & Hss & Hb) Hok]. cbn in Hf.
  assert (exists enough, (if limit <=? len out then match index out (len out - 1) with Some final => Ok (hi <? r_ID final) | None => Err index_panic end else Ok false)
            = Ok enough /\ (enough = true -> length out = Z.to_nat limit /\ exists final, last out = Some final /\ hi < r_ID final)) as (enough & -> & He).
  { destruct (Z.leb_spec limit (len out)) as [Hlen|]; [|by exists false]. destruct (index_last out) as (final & -> & Hlast); [by intros ->; rewrite len_nil in Hlen; lia|].
    eexists. split; [done|]. intros E%Z.ltb_lt. split; [|by exists final]. destruct Ho as (_ & _ & _ & Hlo & _). unfold len in Hlen. lia. }
  cbn [mbind res_bind]. destruct enough.
  - destruct (He eq_refl) as (Hn & final & Hlast & Hhi). exists out. split; [done|]. apply newest_skip; [done|done|]. intros x y Hx Hy.
    assert (r_ID y <= hi) as Hy' by (eapply segment_records_bound; [exact Hok'| |exact Hy]; constructor; [cbn; lia|exact Hall]).
    destruct Ho as (_ & _ & Hso & _). pose proof (sorted_last out final x Hso Hlast Hx). unfold id_desc in *. lia.
  - rewrite Hf. unfold readRecords. destruct (newest_rows_spec seg summary limit Hd Hss Hl) as (part & -> & Hpart). cbn [mbind res_bind].
    destruct (sort_newer (out ++ part)) as [Hsorted Hperm]. pose proof (newest_merge _ _ _ _ _ _ Ho Hpart Hperm Hsorted) as Hm.
    assert ((if limit <? len (sort_Slice newer (out ++ part)) then match slice_to (sort_Slice newer (out ++ part)) limit with Some o => Ok o | None => Err slice_panic end
             else Ok (sort_Slice newer (out ++ part))) = Ok (take (Z.to_nat limit) (sort_Slice newer (out ++ part)))) as ->.
    { destruct (Z.ltb_spec limit (len (sort_Slice newer (out ++ part)))); [by rewrite slice_to_ok by lia|]. rewrite take_ge; [done|]. unfold len in *. lia. }
    cbn [mbind res_bind]. destruct (IH Hok _ _ Hm) as (out' & -> & Hout). exists out'. split; [done|].
    unfold segment_records in *. cbn [fmap list_fmap fst]. cbn. rewrite Hf. by rewrite app_assoc.
Qed.
(** Whole events can be restored; the summaries of the shard and of its
    segments are texts that stand for themselves. *)
Lemma represents_decodable d s : represents d s -> decodable false d.
Proof.
  intros Hrep. apply Forall_forall. intros r Hr. apply list_elem_of_lookup in Hr as [i Hi].
  destruct (Forall2_lookup_l _ _ _ _ _ (rp_rows _ _ Hrep) Hi) as (e & _ & He).
  destruct (rh_payload _ _ _ _ He) as (t & Ht & _). unfold summaryColumns. cbn. by rewrite Ht.
Qed.
Definition summaries_ok (files : disk) (d : queue_db) : Prop :=
  decodable true d /\ forall p seg, is_Some (db_archives d !! p) -> files !! p = Some seg -> decodable true seg.
(** All records of a shard: those of the table and those of the segments. *)
Definition shard_records (files : disk) (summary : bool) (d : queue_db) : list record :=
  (shown d summary <$> db_rows d) ++ segment_records files summary (map_to_list (db_archives d)).*1.

(** The records [recentRecords] lists are the newest of the shard: of all
    rows, those of the table and those of every catalogued segment, it returns
    the [limit] with the largest identifiers, newest first.  Leaving the loop at
    the first segment whose catalogued maximum lies below the list loses none. *)
Theorem recentRecords_newest (files : disk) (path : string) (limit : Z) (summary : bool) (d : queue_db) (s : aqueue) :
  0 < limit -> files !! path = Some d -> represents d s -> published_ok d files -> master d "queue_archives" = true ->
  (summary = true -> summaries_ok files d) ->
  exists out, recentRecords master files path limit summary = Ok out /\ newest (Z.to_nat limit) (shard_records files summary d) out.
Proof.
  intros Hl Hf Hrep Hpub Hm Hsum.
  assert (decodable summary d) as Hd by (destruct summary; [by apply Hsum|by eapply represents_decodable]).
  assert (Forall (segment_ok files summary) (by_max_id (db_archives d))) as Hall.
  { rewrite (by_max_id_perm (db_archives d)). apply Forall_forall. intros [p rng] Hp%elem_of_map_to_list.
    destruct (Hpub p rng Hp) as (_ & seg & sg & Hseg & Hrs & Hb). exists seg. split; [done|]. split; [|split; [apply Hrs|done]].
    destruct summary; [eapply Hsum; eauto|by eapply represents_decodable]. }
  unfold recentRecords, readOnly. rewrite Hf. cbn [mbind res_bind]. rewrite Hm.
  destruct (newest_rows_spec d summary limit Hd (rp_ids _ _ Hrep) Hl) as (out & -> & Ho). cbn [mbind res_bind].
  destruct (recent_segments_spec files limit summary _ Hl Hall (by_max_id_sorted _) _ _ Ho) as (out' & -> & Hout). exists out'. split; [done|].
  unfold shard_records, segment_records in *. by rewrite <-(by_max_id_perm (db_archives d)).
Qed.
End recent.

(** ** Reading one event *)

Section read_event.
Context `{GoUUID} `{GoZlibLaws} `{RangeOrder} `{SqlOrder} (master : queue_db -> string -> bool).

Lemma find_filter {A} (f : A -> bool) l x : List.find f l = Some x -> exists l', List.filter f l = x :: l'.
Proof. induction l as [|y l IH]; cbn; [done|]. destruct (f y); [intros [= ->]; eauto|done]. Qed.
Lemma read_rows d s key : represents d s -> readRecords d (rows_of d key) = Ok (shown master d false <$> rows_of d key).
Proof.
  intros Hrep. unfold readRecords. rewrite <-(list_fmap_id (rows_of d key)) at 1.
  apply (decode_shown master d false); [by eapply represents_decodable|]. intros r [Hr _]%list_elem_of_In%filter_In. by apply list_elem_of_In.
Qed.
Lemma read_entry d s e : represents d s -> e ∈ a_entries s ->
  exists r rs, readRecords d (rows_of d (event_key (e_event e))) = Ok (r :: rs) /\ unmarshal_event (r_Payload r) = Some (e_event e).
Proof.
  intros Hrep He. destruct (row_of_entry d s e Hrep He) as (r & Hr & Hh). apply find_filter in Hr as (l' & Hl).
  rewrite (read_rows d s) by done. unfold rows_of. rewrite Hl. cbn. eexists _, _. split; [done|].
  destruct (rh_payload _ _ _ _ Hh) as (t & Ht & Htext). unfold shown, summaryColumns. cbn. rewrite Ht. cbn.
  eapply event_text_unmarshal; [apply Hh|done].
Qed.
Lemma read_absent d s key : represents d s -> key ∉ a_keys s -> readRecords d (rows_of d key) = Ok [].
Proof.
  intros Hrep Hk. rewrite (read_rows d s) by done. unfold rows_of. rewrite bfilter_none; [done|]. apply Forall_forall. intros r Hr.
  apply seqb_neq. intros <-. apply Hk. rewrite <-(represents_keys _ _ Hrep). by apply list_elem_of_fmap_2.
Qed.
Lemma ledger_absent s key : NoDup (a_keys s) -> l_entries (aqueue_ledger s) !! key = None -> key ∉ a_keys s.
Proof.
  intros Hnd Hnone (e & -> & He)%list_elem_of_fmap. cbn in Hnone.
  assert (ledger_of (a_entries s) !! event_key (e_event e) = Some e) as E by by apply ledger_lookup. congruence.
Qed.
(** The event is in the table, or it has been moved to a segment. *)
Definition stored (st : maintainer SQLiteQueue) (l : ledger) (key : string) (ev : ThreatEvent) : Prop :=
  (exists e, l_entries l !! key = Some e /\ e_event e = ev) \/ (l_entries l !! key = None /\ readable (ma_queue st) (ma_files st) key ev).
Lemma run_readable o st st' l key ev : holds (ma_queue st) l -> published (ma_queue st) (ma_files st) -> rtc (maintain_step o) st st' ->
  readable (ma_queue st) (ma_files st) key ev -> readable (ma_queue st') (ma_files st') key ev.
Proof.
  intros Hq Hp Hrun Hr. revert l Hq Hp Hr. induction Hrun as [|st1 st2 st3 Hs _ IH]; intros l Hq Hp Hr; [done|].
  destruct Hs as [Hs|(t & p & q & q' & files & -> & -> & Hu)].
  - destruct (own_follows o _ _ _ Hs Hq Hp) as (l' & Hq' & Hp' & _ & Hread & _). eapply IH; [exact Hq'|exact Hp'|by apply Hread].
  - cbn [ma_queue ma_files] in *. destruct (use_follows q q' l t p files Hq Hu) as (l' & Hq' & _). destruct (law_use q q' files Hu Hp) as [Hp' Hread].
    eapply IH; [exact Hq'|exact Hp'|by apply Hread].
Qed.
End read_event.

(** ** One row per event *)

(** The event a row belongs to. *)
Definition event_of (now : Z) (summary : bool) (r : record) : option string :=
  let '(_, key, decoded) := pushLogFromRecord now r summary in if decoded : bool then Some key else None.
Definition log_of (now : Z) (summary : bool) (r : record) : PushLog := (pushLogFromRecord now r summary).1.1.

Lemma one_per_event_cons now summary seen r rs : one_per_event now summary seen (r :: rs)
  = match event_of now summary r with
    | Some k => if bool_decide (k ∈ seen) then one_per_event now summary seen rs else log_of now summary r :: one_per_event now summary ({[k]} ∪ seen) rs
    | None => log_of now summary r :: one_per_event now summary seen rs
    end.
Proof. cbn [one_per_event]. unfold event_of, log_of. by destruct (pushLogFromRecord now r summary) as [[log key] []]. Qed.
(** The rows that are kept: at most one of an event, the first of its rows, and
    every row that is no event. *)
Record keeps_one (ev : record -> option string) (R : record -> record -> Prop) (seen : gset string) (records kept : list record) : Prop := {
  ko_sub : kept `sublist_of` records;
  ko_once : NoDup (omap ev kept);
  ko_new : forall r k, r ∈ kept -> ev r = Some k -> k ∉ seen;
  ko_other : forall r, r ∈ records -> ev r = None -> r ∈ kept;
  ko_first : forall r k, r ∈ records -> ev r = Some k -> k ∈ seen \/ exists r0, r0 ∈ kept /\ ev r0 = Some k /\ (r0 = r \/ R r0 r)
}.
Section keeps_one.
Context (ev : record -> option string) (R : record -> record -> Prop).
Lemma keeps_one_nil seen : keeps_one ev R seen [] [].
Proof. split; [done|constructor|by intros ? ? ?%not_elem_of_nil|by intros ? ?%not_elem_of_nil|by intros ? ? ?%not_elem_of_nil]. Qed.
Lemma keeps_one_other seen r records kept : ev r = None -> keeps_one ev R seen records kept -> keeps_one ev R seen (r :: records) (r :: kept).
Proof.
  intros Er [Hs Ho Hn Hx Hf]. split; [by constructor|cbn; by rewrite Er| | |].
  - intros x k [->|?]%elem_of_cons ?; [congruence|by eapply Hn].
  - intros x [->|?]%elem_of_cons ?; [left|right; auto].
  - intros x k [->|Hin]%elem_of_cons Hk; [congruence|]. destruct (Hf x k Hin Hk) as [|(r0 & ? & ?)]; [by left|]. right. exists r0. split; [by right|done].
Qed.
Lemma keeps_one_seen seen r records kept k : ev r = Some k -> k ∈ seen -> keeps_one ev R seen records kept -> keeps_one ev R seen (r :: records) kept.
Proof.
  intros Er Hk [Hs Ho Hn Hx Hf]. split; [by constructor|done|done| |].
  - intros x [->|?]%elem_of_cons ?; [congruence|auto].
  - intros x k' [->|Hin]%elem_of_cons Hk'; [left; congruence|by apply Hf].
Qed.
Lemma keeps_one_new seen r records kept k : ev r = Some k -> k ∉ seen -> Forall (R r) records ->
  keeps_one ev R ({[k]} ∪ seen) records kept -> keeps_one ev R seen (r :: records) (r :: kept).
Proof.
  intros Er Hk Hall [Hs Ho Hn Hx Hf]. split; [by constructor| | | |].
  - cbn. rewrite Er. constructor; [|done]. intros (x & Hin & Ex)%list_elem_of_omap. apply (Hn x k Hin Ex), elem_of_union. left. by apply elem_of_singleton.
  - intros x k' [->|Hin]%elem_of_cons Ex; [congruence|]. intros Hs'. apply (Hn x k' Hin Ex), elem_of_union. by right.
  - intros x [->|?]%elem_of_cons ?; [left|right; auto].
  - intros x k' [->|Hin]%elem_of_cons Ex; [right; exists r; split; [left|auto]|].
    destruct (Hf x k' Hin Ex) as [[->%elem_of_singleton|?]%elem_of_union|(r0 & ? & ?)]; [|by left|right; exists r0; split; [by right|done]].
    right. exists r. split; [left|]. split; [done|]. right. exact (proj1 (Forall_forall _ _) Hall x Hin).
Qed.
End keeps_one.
Lemma one_per_event_spec now summary (R : record -> record -> Prop) records : StronglySorted R records -> forall seen,
  exists kept, keeps_one (event_of now summary) R seen records kept /\ one_per_event now summary seen records = log_of now summary <$> kept.
Proof.
  induction 1 as [|r records _ IH Hall]; intros seen; [exists []; split; [apply keeps_one_nil|done]|].
  rewrite one_per_event_cons. destruct (event_of now summary r) as [k|] eqn:Er.
  - case_bool_decide as Hk; [destruct (IH seen) as (kept & Ho & ->)|destruct (IH ({[k]} ∪ seen)) as (kept & Ho & ->)].
    + exists kept. split; [by eapply keeps_one_seen|done].
    + exists (r :: kept). split; [by eapply keeps_one_new|done].
  - destruct (IH seen) as (kept & Ho & ->). exists (r :: kept). split; [by apply keeps_one_other|done].
Qed.

(** ** Pages of the push log *)

Definition recent_first (a b : record) : Prop := last_first b a = false.
Lemma sort_last_first `{GoSortLaws} l : StronglySorted recent_first (sort_Slice last_first l).
Proof.
  apply sort_sorted; unfold last_first; intros a b; [intros c|];
    repeat (match goal with |- context [?x =? ?y] => destruct (Z.eqb_spec x y) | |- context [?x <? ?y] => destruct (Z.ltb_spec x y) end; cbn); try done; lia.
Qed.

Section pages.
Context `{GoZlib} (master : queue_db -> string -> bool) `{GoSortLaws} `{SqlLike} `{RangeOrder}.
Context (status : option Z) (search : string).

(** The rows of a database that match, as they are shown. *)
Definition matching (d : queue_db) : list record :=
  shown master d true <$> List.filter (fun r => row_matches status search (summaryColumns master d true r)) (db_rows d).
Definition shard_matching (files : disk) (d : queue_db) : list record :=
  matching d ++ concat ((fun p => match files !! p with Some seg => matching seg | None => [] end) <$> (range_map (db_archives d)).*1).
Definition all_matching (files : disk) (paths : list string) : list record :=
  concat ((fun p => match files !! p with Some d => shard_matching files d | None => [] end) <$> paths).
(** A shard and its segments can be read. *)
Definition segment_ready (files : disk) (p : string) : Prop := exists seg, files !! p = Some seg /\ decodable master true seg.
Definition shard_ready (files : disk) (p : string) : Prop :=
  exists d, files !! p = Some d /\ master d "queue_archives" = true /\ decodable master true d
    /\ forall q, is_Some (db_archives d !! q) -> segment_ready files q.
(** [part] is all of [all] unless the read was cut off. *)
Definition part_of (part all : list record) (cut_off : bool) : Prop := part ⊆+ all /\ (cut_off = false -> part ≡ₚ all).
Lemma part_of_app p1 a1 c1 p2 a2 c2 : part_of p1 a1 c1 -> part_of p2 a2 c2 -> part_of (p1 ++ p2) (a1 ++ a2) (c1 || c2).
Proof. intros [Hs1 Hp1] [Hs2 Hp2]. split; [by apply submseteq_app|]. intros [E1 E2]%orb_false_iff. by rewrite (Hp1 E1), (Hp2 E2). Qed.

Lemma bfilter_fmap {A B} (f : B -> bool) (g : A -> B) l : List.filter f (g <$> l) = g <$> List.filter (fun x => f (g x)) l.
Proof. induction l as [|x l IH]; cbn; [done|]. destruct (f (g x)); cbn; by rewrite IH. Qed.
Lemma sql_limit_part {A} n (l : list A) : sql_limit n l ⊆+ l /\ (len (sql_limit n l) <> n -> sql_limit n l = l).
Proof.
  unfold sql_limit. destruct (Z.ltb_spec n 0); [by split|]. split; [apply sublist_submseteq, sublist_take|].
  unfold len. rewrite length_take. intros Hl. apply take_ge. lia.
Qed.
(** What decoding shows for a selected row. *)
Definition restored (d : queue_db) (r : record) : record :=
  match decodePayload (db_content d) (r_Payload r) with Ok b => r <| r_Payload := b |> | Err _ => r end.
Lemma decode_restored d rows : Forall (fun r => is_ok (decodePayload (db_content d) (r_Payload r)) = true) rows -> decode_rows d rows = Ok (restored d <$> rows).
Proof.
  induction 1 as [|r rows Hr _ IH]; [done|]. cbn. unfold restored at 1. destruct (decodePayload _ _); [|done]. cbn. by rewrite IH.
Qed.
Lemma queryDBRecords_spec d fetch : decodable master true d -> exists out,
  queryDBRecords master d status search fetch = Ok (out, if master d "queue_archives" then (range_map (db_archives d)).*1 else [])
  /\ part_of out (matching d) (len out =? fetch).
Proof.
  intros Hd. unfold queryDBRecords.
  set (F := List.filter (row_matches status search) (summaryColumns master d true <$> db_rows d)).
  destruct (sql_limit_part fetch (merge_sort updated_le F)) as [Hsub Hall]. set (rows := sql_limit fetch (merge_sort updated_le F)) in *.
  assert (rows ⊆+ F) as HF by by rewrite (merge_sort_Permutation updated_le F) in Hsub.
  assert (restored d <$> F = matching d) as EF by (unfold F, matching; rewrite bfilter_fmap, <-list_fmap_compose; done).
  rewrite (decode_restored d rows).
  - cbn [mbind res_bind]. eexists. split; [done|]. split.
    + rewrite <-EF. by apply fmap_submseteq.
    + unfold len. rewrite length_fmap. intros E%Z.eqb_neq. rewrite <-EF. apply fmap_Permutation. rewrite (Hall E). apply merge_sort_Permutation.
  - apply Forall_forall. intros r Hr. assert (r ∈ F) as Hr' by by eapply elem_of_submseteq.
    apply list_elem_of_In, filter_In in Hr' as [Hr' _]. apply list_elem_of_In, list_elem_of_fmap in Hr' as (x & -> & Hx).
    exact (proj1 (Forall_forall _ _) Hd x Hx).
Qed.
Lemma query_segments_spec files fetch archives : Forall (segment_ready files) archives -> forall out capped, exists part hit,
  query_segments master files status search fetch out capped archives = Ok (out ++ part, capped || hit)
  /\ part_of part (concat ((fun p => match files !! p with Some seg => matching seg | None => [] end) <$> archives)) hit.
Proof.
  induction 1 as [|p archives (seg & Hf & Hd) _ IH]; intros out capped; cbn [query_segments].
  { exists [], false. rewrite app_nil_r, orb_false_r. done. }
  rewrite Hf. destruct (queryDBRecords_spec seg fetch Hd) as (part & -> & Hp). cbn [mbind res_bind].
  destruct (IH (out ++ part) (capped || (len part =? fetch))) as (rest & hit & -> & Hr). exists (part ++ rest), ((len part =? fetch) || hit).
  rewrite app_assoc, orb_assoc. split; [done|]. cbn. rewrite Hf. by apply part_of_app.
Qed.
Lemma queryShardRecords_spec files p fetch : shard_ready files p -> exists out hit, queryShardRecords master files p status search fetch = Ok (out, hit)
  /\ part_of out (match files !! p with Some d => shard_matching files d | None => [] end) hit.
Proof.
  intros (d & Hf & Hm & Hd & Hsegs). unfold queryShardRecords, readOnly. rewrite Hf. cbn [mbind res_bind].
  destruct (queryDBRecords_spec d fetch Hd) as (out & -> & Ho). cbn [mbind res_bind]. rewrite Hm.
  destruct (query_segments_spec files fetch (range_map (db_archives d)).*1) with (out := out) (capped := len out =? fetch) as (part & hit & -> & Hp).
  { apply Forall_forall. intros q ([q' rng] & -> & Hin)%list_elem_of_fmap. rewrite range_map_perm in Hin. apply elem_of_map_to_list in Hin. apply Hsegs. cbn. eauto. }
  eexists _, _. split; [done|]. by apply part_of_app.
Qed.
Lemma query_shards_spec files fetch paths : Forall (shard_ready files) paths -> forall records capped, exists part hit,
  query_shards master files status search fetch records capped paths = Ok (records ++ part, capped || hit) /\ part_of part (all_matching files paths) hit.
Proof.
  induction 1 as [|p paths Hp _ IH]; intros records capped; cbn [query_shards].
  { exists [], false. rewrite app_nil_r, orb_false_r. done. }
  destruct (queryShardRecords_spec files p fetch Hp) as (out & hit & -> & Ho). cbn [mbind res_bind].
  destruct (IH (records ++ out) (capped || hit)) as (rest & hit' & -> & Hr). exists (out ++ rest), (hit || hit').
  rewrite app_assoc, orb_assoc. split; [done|]. by apply part_of_app.
Qed.
End pages.

Section list_push_logs.
Context `{GoZlib} (master : queue_db -> string -> bool) `{GoSortLaws} `{SqlLike} `{RangeOrder}.
(** The page a query asks for. *)
Definition page_limit (q : PushLogQuery) : Z := if (qy_Limit q <=? 0) || (200 <? qy_Limit q) then 50 else qy_Limit q.
Definition page_offset (q : PushLogQuery) : Z := if qy_Offset q <? 0 then 0 else qy_Offset q.
Lemma page_bounds q : 0 < page_limit q <= 200 /\ 0 <= page_offset q.
Proof. unfold page_limit, page_offset. destruct (Z.leb_spec (qy_Limit q) 0), (Z.ltb_spec 200 (qy_Limit q)), (Z.ltb_spec (qy_Offset q) 0); cbn; lia. Qed.

(** A page of the push log is a window of one list with one row per
    event.  The list consists of rows that match the query, sorted by their last
    update; of every event it has the first row and no other.  When no more rows
    are announced, the list was built from all matching rows of all shards and
    segments and ends with the page. *)
Theorem ListPushLogs_pages (now : Z) (files : disk) (path : string) (paths : list string) (q : PushLogQuery) (status : option Z) :
  is_Some (files !! path) -> Forall (shard_ready master files) paths -> status_of (qy_Status q) = Ok status ->
  page_offset q + page_limit q <= maxInt64 ->
  exists page more records kept, ListPushLogs master now files path paths q = Ok (page, more)
    /\ records ⊆+ all_matching master status (strings_TrimSpace (qy_Search q)) files paths /\ StronglySorted recent_first records
    /\ keeps_one (event_of now true) recent_first ∅ records kept
    /\ page = log_of now true <$> window (page_offset q) (page_offset q + page_limit q) kept
    /\ (more = false -> records ≡ₚ all_matching master status (strings_TrimSpace (qy_Search q)) files paths /\ len kept <= page_offset q + page_limit q).
Proof.
  intros [d0 Hf] Hready Hst Hfit. destruct (page_bounds q) as [Hlim Hoff]. unfold ListPushLogs. fold (page_limit q) (page_offset q).
  rewrite Hf, Hst. cbn [mbind res_bind]. rewrite (i64_id (page_offset q + page_limit q)) by (unfold minInt64 in *; lia).
  destruct (query_shards_spec master status (strings_TrimSpace (qy_Search q)) files (fetch_size (page_offset q) (page_limit q)) paths Hready [] false)
    as (part & hit & -> & Hsub & Hall). cbn [mbind res_bind app orb].
  pose proof (sort_last_first part) as Hs. pose proof (sort_perm last_first part) as Hp. set (records := sort_Slice last_first part) in *.
  destruct (one_per_event_spec now true recent_first records Hs ∅) as (kept & Hkept & Hlogs). rewrite Hlogs.
  assert (len (log_of now true <$> kept) = len kept) as -> by (unfold len; by rewrite length_fmap).
  assert (exists page, (if len kept <=? page_offset q then Ok ([], hit || (page_offset q + page_limit q <? len kept))
     else match slice (log_of now true <$> kept) (page_offset q) (if len kept <? page_offset q + page_limit q then len kept else page_offset q + page_limit q) with
          | Some page => Ok (page, hit || (page_offset q + page_limit q <? len kept)) | None => Err slice_panic end)
     = Ok (page, hit || (page_offset q + page_limit q <? len kept)) /\ page = log_of now true <$> window (page_offset q) (page_offset q + page_limit q) kept) as (page & E & Hpage).
  { destruct (Z.leb_spec (len kept) (page_offset q)); [eexists; split; [done|]; by rewrite window_nil by lia|].
    assert (len kept = len (log_of now true <$> kept)) as El by (unfold len; by rewrite length_fmap). rewrite El, slice_window by lia. eexists. split; [done|].
    unfold window. by rewrite fmap_take, fmap_drop. }
  exists page, (hit || (page_offset q + page_limit q <? len kept)), records, kept. split_and!; [exact E|by rewrite Hp|done|done|done|].
  intros [Eh El]%orb_false_iff. apply Z.ltb_ge in El. split; [by rewrite Hp, (Hall Eh)|done].
Qed.
End list_push_logs.

(** *** The size of a read *)

Lemma fetch_size_bound offset limit : 0 <= offset -> 0 < limit -> (offset + limit) * 4 <= maxInt64 -> 0 < fetch_size offset limit <= 20000.
Proof.
  intros Ho Hl Hm. unfold fetch_size, fetchBuffer, maxFetch, maxInt64 in *. rewrite (i64_id (offset + limit)), i64_id by (unfold minInt64, maxInt64; lia).
  destruct (Z.ltb_spec 20000 ((offset + limit) * 4)); lia.
Qed.
(** A large offset overflows the product: the limit is negative, which is no limit. *)
Theorem fetch_size_unbounded {A} (rows : list A) : sql_limit (fetch_size (2 ^ 61) 50) rows = rows.
Proof. reflexivity. Qed.

(** *** Witnesses *)

#[local] Existing Instance identity_zlib.
#[local] Existing Instance any_uuid.
#[local] Existing Instance canonical_range.
#[local] Existing Instance insertion_sort.

Definition max_id_le (a b : string * (Z * Z)) : Prop := b.2.2 <= a.2.2.
#[local] Instance max_id_le_dec : RelDecision max_id_le.
Proof. intros a b. unfold max_id_le. apply _. Defined.
#[local] Instance max_id_le_trans : Transitive max_id_le.
Proof. intros a b c. unfold max_id_le. lia. Qed.
#[local] Instance max_id_le_total : Total max_id_le.
Proof. intros a b. unfold max_id_le. lia. Qed.
#[local] Instance merge_order : SqlOrder := {| by_max_id := fun m => merge_sort max_id_le (map_to_list m) |}.
#[local] Instance merge_order_laws : SqlOrderLaws.
Proof.
  split; intros m; [apply merge_sort_Permutation|]. apply (StronglySorted_merge_sort max_id_le).
Qed.
#[local] Instance no_like : SqlLike := {| sql_like := fun _ _ => false |}.

Definition demo_disk : disk := {["q.db" := q_db demo_queue]}.
Lemma demo_disk_at : demo_disk !! "q.db" = Some (q_db demo_queue).
Proof. apply lookup_singleton_eq. Qed.
Definition all_tables (_ : queue_db) (_ : string) : bool := true.
Lemma demo_archives : db_archives (q_db demo_queue) = ∅.
Proof.
  assert (E : bool_decide (db_archives (q_db demo_queue) = ∅) = true) by (vm_compute; reflexivity). exact (bool_decide_eq_true_1 _ E).
Qed.
Lemma demo_published : published_ok (q_db demo_queue) ∅.
Proof. intros p rng Hx. rewrite demo_archives in Hx. discriminate Hx. Qed.
Lemma recentRecords_newest_witness : exists out, recentRecords all_tables demo_disk "q.db" 10 false = Ok out
  /\ newest 10 (shard_records all_tables demo_disk false (q_db demo_queue)) out.
Proof.
  destruct demo_holds as (e & (s & Hrep & _) & _).
  apply (recentRecords_newest all_tables demo_disk "q.db" 10 false (q_db demo_queue) s); [lia|exact demo_disk_at|exact Hrep| |reflexivity|discriminate].
  intros p rng Hx. rewrite demo_archives in Hx. discriminate Hx.
Defined.
Lemma demo_ready : shard_ready all_tables demo_disk "q.db".
Proof.
  exists (q_db demo_queue). split; [exact demo_disk_at|]. split; [reflexivity|]. split.
  - assert (E : forallb (fun r => is_ok (decodePayload (db_content (q_db demo_queue)) (r_Payload (summaryColumns all_tables (q_db demo_queue) true r))))
                  (db_rows (q_db demo_queue)) = true) by (vm_compute; reflexivity).
    apply Forall_forall. intros r Hr. exact (proj1 (forallb_forall _ _) E r (proj1 (list_elem_of_In _ _) Hr)).
  - intros q [rng Hx]. rewrite demo_archives in Hx. discriminate Hx.
Qed.
Lemma ListPushLogs_pages_witness : exists page more records kept,
  ListPushLogs all_tables 9 demo_disk "q.db" ["q.db"] (mkQuery 0 10 "pushed" "") = Ok (page, more)
  /\ keeps_one (event_of 9 true) recent_first ∅ records kept /\ page = log_of 9 true <$> window 0 10 kept.
Proof.
  destruct (ListPushLogs_pages all_tables 9 demo_disk "q.db" ["q.db"] (mkQuery 0 10 "pushed" "") (Some 2)
    (ex_intro _ (q_db demo_queue) demo_disk_at) (Forall_cons_2 _ _ _ demo_ready (Forall_nil_2 _)) eq_refl) as (page & more & records & kept & E & _ & _ & Hk & Hp & _).
  - vm_compute. discriminate.
  - exists page, more, records, kept. split; [exact E|]. split; [exact Hk|exact Hp].
Defined.
(** Of two revisions the one that was tried last is listed, here the first. *)
Lemma lists_older_revision :
  let row n rev updated := mkRecord n (queueRecordID "evt-1" rev) 5 (marshal_event (sample_event <| ev_ContextRevision := rev |>)) 3 1 "" 1 updated in
  pl_ContextRevision <$> one_per_event 9 true ∅ (sort_Slice last_first [row 1 1 20; row 2 2 10]) = [1].
Proof. vm_compute. reflexivity. Qed.
(** ReadEvent looks in one database: an event of another shard is missing there. *)
Lemma ReadEvent_one_shard : let files := <["q.db.shard1" := q_db demo_queue]> {["q.db" := new_db]} in
  ReadEvent all_tables files "q.db" new_db files (event_key sample_event) = Err no_rows
  /\ ReadEvent all_tables files "q.db.shard1" (q_db demo_queue) files (event_key sample_event) = Ok sample_event.
Proof. split; vm_compute; reflexivity. Qed.
