(* ===== verification/Migrate.v ===== *)
(** * Migrate: copying a frozen queue (internal/queue/migrate.go)

    MigrateFrozen copies the events of a queue and of its archive segments into
    a new queue, one verified record per transaction, and remembers in the
    metadata of the destination how far each file has been copied, so that an
    interrupted run can be resumed.  Only a complete copy can be activated.  The
    theorems are about a run after any number of attempts that stopped anywhere;
    the source and its segments stay as they are. *)

From S2P Require Import Prelude GoStrings GoNet Events Json AnyJson Codec EventJson Content Queue EventQueue Shard Archive Maintain Ranges Readers.

(** ** The files *)

(** [strconv.ParseInt(s, 10, 64)]. *)
Definition ParseInt (s : string) : res Z := let '(v, ok) := parse_int (byt s) in if ok then Ok v else Err "invalid syntax".

Record identity := mkIdentity { id_Path : string; id_Size : Z; id_Modified : Z }.
Definition identity_value (i : identity) : gval :=
  VStruct [(byt "Path", false, VString (byt (id_Path i))); (byt "Size", false, VInt (id_Size i)); (byt "Modified", false, VInt (id_Modified i))].
(** The text that stands for the identities in the destination. *)
Definition fingerprint (ids : list identity) : string := str (json_Marshal (VSlice (identity_value <$> ids))).
(** What a run finds: the size and modification time of the files, at its
    start and at its end, which of them are the destination, and the context in
    each round of each file. *)
Record frozen := mkFrozen {
  fz_stat : string -> option (Z * Z);
  fz_end : string -> option (Z * Z);
  fz_same : string -> bool;
  fz_ctx : nat -> nat -> bool
}.
Definition is_destination (fz : frozen) (destination p : string) : bool := bool_decide (is_Some (fz_stat fz destination)) && fz_same fz p.

Fixpoint read_identities (fz : frozen) (destination : string) (paths : list string) : res (list identity) :=
  match paths with
  | [] => Ok []
  | p :: paths =>
      match fz_stat fz p with
      | None => Err "no such file or directory"
      | Some (size, modified) =>
          if is_destination fz destination p then Err "destination is a source archive file"
          else if match fz_stat fz (p +:+ "-wal") with Some (n, _) => 0 <? n | None => false end then Err "source has WAL; use a consistent offline checkpointed backup"
          else ids ← read_identities fz destination paths; Ok (mkIdentity p size modified :: ids)
      end
  end.
Fixpoint check_identities (fz : frozen) (ids : list identity) : option string :=
  match ids with
  | [] => None
  | i :: ids =>
      match fz_end fz (id_Path i) with
      | None => Some "no such file or directory"
      | Some (size, modified) =>
          if negb (size =? id_Size i) || negb (modified =? id_Modified i) then Some "source changed during migration; do not activate destination"
          else check_identities fz ids
      end
  end.

(** ** One record *)

Section migrate.
Context `{GoZlib} `{SqlOrder} (master : queue_db -> string -> bool).

Definition archivePaths (d : queue_db) : list string := if master d "queue_archives" then (by_max_id (db_archives d)).*1 else [].

Definition set_meta (k v : string) (d : queue_db) : queue_db := d <| db_metadata ::= <[k := v]> |>.
(** SELECT ... WHERE id>? ORDER BY id LIMIT 1 *)
Definition next_record (origin : queue_db) (cursor : Z) : option record := List.find (fun r => cursor <? r_ID r) (db_rows origin).
(** The transaction that copies a record and moves the cursor. *)
Definition migrate_record (origin : queue_db) (backend key : string) (r : record) (d : queue_db) : res queue_db :=
  original ← decodePayload (db_content origin) (r_Payload r);
  '(payload, content) ← (if seqb backend "legacy" then Ok (original, db_content d) else copyPayload (db_content origin) (db_content d) (r_Payload r));
  restored ← decodePayload content payload;
  if negb (jsonEqual original restored) then Err "migration payload mismatch"
  else d ← insertRecord (d <| db_content := content |>) (r <| r_Payload := payload |>); Ok (set_meta key (strconv_Itoa (r_ID r)) d).

(** ** One file *)

Definition cursor_key (index : nat) : string := "migration_file_" +:+ strconv_Itoa (Z.of_nat index).
Definition out_of_fuel : string := "out of fuel".
(** The rounds over one file: the destination, the number of copied records
    and the error.  [ctx] tells whether the context is cancelled in a round. *)
Fixpoint migrate_rows (fuel : nat) (ctx : nat -> bool) (round : nat) (origin : queue_db) (backend key : string) (cursor copied : Z) (d : queue_db) :
    queue_db * Z * option string :=
  match fuel with
  | O => (d, copied, Some out_of_fuel)
  | S fuel =>
      if ctx round then (d, copied, Some "context canceled")
      else
        match next_record origin cursor with
        | None => (set_meta key "complete" d, copied, None)
        | Some r =>
            match migrate_record origin backend key r d with
            | Err e => (d, copied, Some e)
            | Ok d => migrate_rows fuel ctx (S round) origin backend key (r_ID r) (copied + 1) d
            end
        end
  end.
(** Where to resume in a file; [None]: it is complete. *)
Definition file_cursor (d : queue_db) (key : string) (cursor : Z) : res (option Z) :=
  match db_metadata d !! key with
  | None => Ok (Some cursor)
  | Some saved => if seqb saved "complete" then Ok None else n ← ParseInt saved; Ok (Some n)
  end.
Fixpoint migrate_files (ctx : nat -> nat -> bool) (files : disk) (backend : string) (cursor : Z) (index : nat) (paths : list string) (copied : Z) (d : queue_db) :
    queue_db * Z * option string :=
  match paths with
  | [] => (d, copied, None)
  | p :: paths =>
      match file_cursor d (cursor_key index) cursor with
      | Err e => (d, copied, Some e)
      | Ok None => migrate_files ctx files backend cursor (S index) paths copied d
      | Ok (Some fileCursor) =>
          match readOnly files p with
          | Err e => (d, copied, Some e)
          | Ok origin =>
              match migrate_rows (S (length (db_rows origin))) (ctx index) 0 origin backend (cursor_key index) fileCursor copied d with
              | (d, copied, Some e) => (d, copied, Some e)
              | (d, copied, None) => migrate_files ctx files backend cursor (S index) paths copied d
              end
          end
      end
  end.

(** ** The migration *)

(** Before the first record: the destination is not activated, and belongs to
    this source and backend.  The destination and the floor of the cursors. *)
Definition claim_destination (fp backend : string) (d : queue_db) : queue_db * res Z :=
  match db_metadata d !! "migration_activated" with
  | Some _ => (d, Err "destination was activated by a node; refuse stale migration resume")
  | None =>
      let claimed :=
        match db_metadata d !! "migration_source" with
        | None =>
            if negb (bool_decide (db_rows d = [])) then Err "destination contains events without a migration cursor"
            else if bool_decide (is_Some (db_metadata d !! "migration_backend")) || bool_decide (is_Some (db_metadata d !! "migration_cursor"))
            then Err "UNIQUE constraint failed: queue_metadata.key"
            else Ok (set_meta "migration_cursor" "0" (set_meta "migration_backend" backend (set_meta "migration_source" fp d)))
        | Some saved => if negb (seqb saved fp) then Err "frozen source identity changed; refuse unsafe resume" else Ok d
        end in
      match claimed with
      | Err e => (d, Err e)
      | Ok d =>
          (d, match db_metadata d !! "migration_backend" with
              | None => Err no_rows
              | Some stored =>
                  if negb (seqb stored backend) then Err "migration backend changed"
                  else match db_metadata d !! "migration_cursor" with None => Err no_rows | Some saved => ParseInt saved end
              end)
      end
  end.
(** After the last record: the allocator's high water mark and the seal. *)
Definition complete_migration (sequence cursor : Z) (d : queue_db) : queue_db :=
  set_meta "migration_complete" "1" (if cursor <? sequence then d <| db_seq ::= Z.max sequence |> else d).

(** MigrateFrozen on absolute paths: the files, the number of records copied
    and the error.  Only the destination is written. *)
Definition MigrateFrozen (fz : frozen) (files : disk) (source destination backend : string) : disk * Z * option string :=
  match
    _ ← match fz_stat fz source with None => Err "no such file or directory" | Some _ => Ok tt end;
    _ ← (if is_destination fz destination source then Err "source and destination are the same file" else Ok tt);
    src ← readOnly files source;
    let paths := source :: archivePaths src in
    ids ← read_identities fz destination paths;
    q ← OpenSQLite (files !! destination) destination backend;
    Ok (src, paths, ids, q_db q)
  with
  | Err e => (files, 0, Some e)
  | Ok (src, paths, ids, d) =>
      match claim_destination (fingerprint ids) backend d with
      | (d, Err e) => (<[destination := d]> files, 0, Some e)
      | (d, Ok cursor) =>
          match migrate_files (fz_ctx fz) files backend cursor 0 paths 0 d with
          | (d, copied, Some e) => (<[destination := d]> files, copied, Some e)
          | (d, copied, None) =>
              match check_identities fz ids with
              | Some e => (<[destination := d]> files, copied, Some e)
              | None => (<[destination := complete_migration (db_seq src) cursor d]> files, copied, None)
              end
          end
      end
  end.
End migrate.

(** ** Cursors and rounds *)

Lemma scan_parse max acc b v : 0 <= acc -> parse_digits acc b = Some v -> v <= max -> scan_uint max acc b = (v, true) /\ acc <= v.
Proof.
  revert acc. induction b as [|c r IH]; intros acc Ha; cbn [parse_digits scan_uint]; [intros [= ->]; split; [done|lia]|].
  destruct (_ && _) eqn:Ed; [|done]. b2p. intros Hp Hv. destruct (IH (acc * 10 + (bv c - 48)) ltac:(lia) Hp Hv) as [E Hle].
  rewrite (proj2 (Z.ltb_ge _ _)) by lia. split; [done|lia].
Qed.
Lemma ParseInt_Itoa z : 0 < z < 2 ^ 63 -> ParseInt (strconv_Itoa z) = Ok z.
Proof.
  intros Hz. destruct z as [|p|p]; [lia| |lia]. unfold ParseInt, strconv_Itoa. change (pretty (Z.pos p)) with (pretty (N.pos p)).
  pose proof (parse_pretty (N.pos p)) as Hp. destruct (digits_text_head _ (pretty_N_digits (N.pos p))) as (c & r & Hc & Hd). rewrite Hc in *.
  change (Z.of_N (N.pos p)) with (Z.pos p) in Hp. destruct (scan_parse (2 ^ 64 - 1) 0 (c :: r) (Z.pos p)) as [E _]; [lia|done|lia|].
  assert (parse_int (c :: r) = (Z.pos p, true)) as ->; [|done]. unfold is_digit in Hd. b2p. unfold parse_int.
  rewrite !(proj2 (Z.eqb_neq _ _)) by lia. cbn [parse_uint]. rewrite E. cbn [negb andb]. by rewrite (proj2 (Z.leb_gt _ _)) by lia.
Qed.
Lemma cursor_key_inj i j : cursor_key i = cursor_key j -> i = j.
Proof. unfold cursor_key. intros [= E]. apply pretty_Z_inj in E. lia. Qed.

(** The first row after a cursor that [n] rows precede. *)
Definition after (rows : list record) (c : Z) (n : nat) : Prop := forall j r, rows !! j = Some r -> (r_ID r <= c <-> (j < n)%nat).
Lemma next_after d c n : after (db_rows d) c n -> next_record d c = db_rows d !! n.
Proof.
  unfold next_record. generalize (db_rows d) as rows. induction n as [|n IH] in |- *; intros [|r rows] Ha; [done| |done|]; cbn [List.find].
  - pose proof (Ha 0%nat r eq_refl). rewrite (proj2 (Z.ltb_lt _ _)) by lia. done.
  - pose proof (Ha 0%nat r eq_refl). rewrite (proj2 (Z.ltb_ge _ _)) by lia. cbn. apply IH. intros j x Hj. rewrite (Ha (S j) x Hj). lia.
Qed.
Lemma after_start rows : Forall (fun r => 0 < r_ID r) rows -> after rows 0 0.
Proof. intros Hp j r Hr. apply (Forall_lookup_1 _ _ _ _ Hp) in Hr. lia. Qed.
Lemma sorted_lookup (rows : list record) i j x y : StronglySorted (fun r r' => r_ID r < r_ID r') rows -> rows !! i = Some x -> rows !! j = Some y ->
  (i < j)%nat -> r_ID x < r_ID y.
Proof.
  intros Hs. revert i j. induction Hs as [|r rows _ IH Hr]; intros i j Hi Hj Hij; [done|]. destruct j as [|j]; [lia|]. destruct i as [|i]; cbn in Hi, Hj.
  - injection Hi as ->. by apply (Forall_lookup_1 _ _ _ _ Hr) in Hj.
  - eapply (IH i j); [done..|lia].
Qed.
Lemma after_row rows n r : StronglySorted (fun r r' => r_ID r < r_ID r') rows -> rows !! n = Some r -> after rows (r_ID r) (S n).
Proof.
  intros Hs Hr j x Hx. destruct (lt_eq_lt_dec j n) as [[Hj|<-]|Hj].
  - pose proof (sorted_lookup _ _ _ _ _ Hs Hx Hr Hj). lia.
  - assert (x = r) as -> by congruence. lia.
  - pose proof (sorted_lookup _ _ _ _ _ Hs Hr Hx Hj). lia.
Qed.

(** Each round takes a row beyond the cursor, so their number bounds the rounds. *)
Definition remaining (origin : queue_db) (cursor : Z) : nat := length (List.filter (fun r => cursor <? r_ID r) (db_rows origin)).
Lemma remaining_next origin cursor r : next_record origin cursor = Some r -> (remaining origin (r_ID r) < remaining origin cursor)%nat.
Proof.
  unfold next_record, remaining. intros Hf%find_some. destruct Hf as [Hin Hlt]. b2p. revert Hin.
  assert (forall rows : list record, (length (List.filter (fun x => (r_ID r <? r_ID x)%Z) rows) <= length (List.filter (fun x => (cursor <? r_ID x)%Z) rows))%nat) as Hle.
  { induction rows as [|x rows IH]; cbn [List.filter]; [done|]. destruct (r_ID r <? r_ID x) eqn:E1, (cursor <? r_ID x) eqn:E2; cbn [length]; b2p; lia. }
  induction (db_rows origin) as [|x rows IH]; [done|]. intros [->|Hin]; cbn [List.filter].
  - rewrite Z.ltb_irrefl, (proj2 (Z.ltb_lt _ _)) by done. cbn [length]. specialize (Hle rows). lia.
  - specialize (IH Hin). destruct (r_ID r <? r_ID x) eqn:E1, (cursor <? r_ID x) eqn:E2; cbn [length]; b2p; lia.
Qed.
Lemma migrate_rows_any `{GoZlib} fuel fuel' ctx round origin backend key cursor copied d :
  (remaining origin cursor < fuel)%nat -> (remaining origin cursor < fuel')%nat ->
  migrate_rows fuel ctx round origin backend key cursor copied d = migrate_rows fuel' ctx round origin backend key cursor copied d.
Proof.
  revert fuel' round cursor copied d. induction fuel as [|fuel IH]; intros [|fuel'] round cursor copied d Hf Hf'; try lia. cbn [migrate_rows].
  destruct (ctx round); [done|]. destruct (next_record origin cursor) as [r|] eqn:En; [|done]. apply remaining_next in En.
  destruct (migrate_record _ _ _ _ _); [|done]. apply IH; lia.
Qed.

(** ** How far a destination is

    The files of the source hold [items]: the entries of each, with their
    identifiers.  Of file [i] the first [ns !! i] are copied. *)

Notation item := (Z * entry)%type.
Definition item_key (x : item) : string := event_key (e_event x.2).
Definition numbered (d : queue_db) (s : aqueue) : list item := zip (r_ID <$> db_rows d) (a_entries s).
Definition copied_items (ns : list nat) (items : list (list item)) : list item := concat (zip_with take ns items).

Lemma copied_sub ns items : copied_items ns items ⊆+ concat items.
Proof.
  unfold copied_items. revert ns. induction items as [|l items IH]; intros [|n ns]; try apply submseteq_nil_l. cbn [zip_with concat].
  apply submseteq_app; [apply sublist_submseteq, sublist_take|apply IH].
Qed.
Lemma copied_all ns items : ns = length <$> items -> copied_items ns items = concat items.
Proof. intros ->. unfold copied_items. induction items as [|l items IH]; [done|]. cbn. f_equal; [by rewrite take_ge|done]. Qed.
Lemma copied_none items : copied_items (replicate (length items) 0%nat) items = [].
Proof. unfold copied_items. by induction items. Qed.
Lemma copied_step ns items i n l x : ns !! i = Some n -> items !! i = Some l -> l !! n = Some x ->
  copied_items (<[i := S n]> ns) items ≡ₚ x :: copied_items ns items.
Proof.
  unfold copied_items. revert ns items. induction i as [|i IH]; intros [|m ns] [|k items] Hn Hl Hx; try done; cbn in Hn, Hl.
  - injection Hn as ->. injection Hl as ->. cbn [insert list_insert zip_with concat]. rewrite (take_S_r _ _ _ Hx), <- app_assoc.
    by rewrite Permutation_middle.
  - cbn [insert list_insert zip_with concat]. specialize (IH _ _ Hn Hl Hx). unfold insert in IH. rewrite IH. by rewrite Permutation_middle.
Qed.

Lemma numbered_fst `{GoZlibLaws} d s : represents d s -> (numbered d s).*1 = r_ID <$> db_rows d.
Proof. intros Hrep. apply fst_zip. rewrite length_fmap. by rewrite (Forall2_length _ _ _ (rp_rows _ _ Hrep)). Qed.
Lemma numbered_snd `{GoZlibLaws} d s : represents d s -> (numbered d s).*2 = a_entries s.
Proof. intros Hrep. apply snd_zip. rewrite length_fmap. by rewrite (Forall2_length _ _ _ (rp_rows _ _ Hrep)). Qed.
Lemma numbered_keys `{GoZlibLaws} d s : represents d s -> item_key <$> numbered d s = a_keys s.
Proof. intros Hrep. unfold a_keys. rewrite <- (numbered_snd d s Hrep), <- list_fmap_compose. done. Qed.
Lemma numbered_lookup `{GoZlibLaws} d s i : represents d s ->
  match numbered d s !! i with
  | Some x => exists r, db_rows d !! i = Some r /\ r_ID r = x.1 /\ row_holds (db_content d) (db_roots d) r x.2
  | None => db_rows d !! i = None
  end.
Proof.
  intros Hrep. unfold numbered. rewrite lookup_zip_with, list_lookup_fmap. pose proof (rp_rows _ _ Hrep) as Hr.
  destruct (db_rows d !! i) as [r|] eqn:E; cbn; [|done]. destruct (Forall2_lookup_l _ _ _ _ _ Hr E) as (e & -> & He). by exists r.
Qed.

(** ** One record *)

Section records.
Context `{GoZlibLaws}.

Lemma insertRecord_total dest sd content r e : represents dest sd -> r_ID r ∉ (r_ID <$> db_rows dest) -> event_key (e_event e) ∉ a_keys sd ->
  (exists t, decodePayload content (r_Payload r) = Ok t /\ event_text (e_event e) t) -> event_ok (e_event e) -> r_Key r = event_key (e_event e) ->
  (exists root, payloadRoot (r_Payload r) = Ok root) -> exists d', insertRecord (dest <| db_content := content |>) r = Ok d'.
Proof.
  intros Hrep Hid Hk (t & Ht & Htext) Hev Rk [root Hroot]. unfold insertRecord. destruct (existsb _ _) eqn:Ee.
  - exfalso. apply existsb_exists in Ee as (x & Hx%list_elem_of_In & E). apply orb_prop in E as [E|E].
    + b2p. apply Hid. rewrite <- E. by apply list_elem_of_fmap_2.
    + apply seqb_spec in E. apply Hk. rewrite <- (represents_keys _ _ Hrep), <- Rk, <- E. by apply list_elem_of_fmap_2.
  - match goal with |- context [decodePayload ?c _] => change c with content end. rewrite Ht. cbn [mbind res_bind].
    rewrite (event_text_unmarshal (e_event e)) by done. unfold registerRoot. rewrite Hroot. cbn [mbind res_bind]. destruct (seqb root ""); by eexists.
Qed.
Lemma set_meta_represents k v d s : represents d s -> represents (set_meta k v d) s.
Proof. intros [? ? ? ? ? ?]. by split. Qed.

(** What is written restores to the text the source has, so the check of the
    payloads passes; only storing a content graph can fail. *)
Lemma migrate_record_spec origin so backend key r e d sd : represents origin so -> row_holds (db_content origin) (db_roots origin) r e ->
  represents d sd -> r_ID r ∉ (r_ID <$> db_rows d) -> event_key (e_event e) ∉ a_keys sd ->
  match migrate_record origin backend key r d with
  | Ok d' => exists sd', represents d' sd' /\ a_archived sd' = a_archived sd /\ numbered d' sd' ≡ₚ (r_ID r, e) :: numbered d sd
      /\ db_metadata d' = <[key := strconv_Itoa (r_ID r)]> (db_metadata d) /\ length (db_rows d') = S (length (db_rows d))
  | Err _ => backend <> "legacy"
  end.
Proof.
  intros Hor Hre Hrep Hid Hk. destruct (rh_payload _ _ _ _ Hre) as (t & Ht & Htext). pose proof (rh_ok _ _ _ _ Hre) as Hev.
  unfold migrate_record. rewrite Ht. cbn [mbind res_bind].
  assert (Hwrite : forall payload content, extends (db_content d) content -> store_ok content -> (exists root, payloadRoot payload = Ok root) ->
    (exists t', decodePayload content payload = Ok t' /\ event_text (e_event e) t') ->
    exists d' sd', (restored ← decodePayload content payload;
       if negb (jsonEqual t restored) then Err "migration payload mismatch"
       else d' ← insertRecord (d <| db_content := content |>) (r <| r_Payload := payload |>); Ok (set_meta key (strconv_Itoa (r_ID r)) d')) = Ok d'
     /\ represents d' sd' /\ a_archived sd' = a_archived sd /\ numbered d' sd' ≡ₚ (r_ID r, e) :: numbered d sd
     /\ db_metadata d' = <[key := strconv_Itoa (r_ID r)]> (db_metadata d) /\ length (db_rows d') = S (length (db_rows d))).
  { intros payload content Hext Hst Hroot (t' & Ht' & Htext'). rewrite Ht'. cbn [mbind res_bind]. rewrite (event_text_equal (e_event e)) by done. cbn [negb].
    destruct (insertRecord_total d sd content (r <| r_Payload := payload |>) e Hrep) as [d1 E1]; [done|done|by exists t'|done|apply Hre|done|]. rewrite E1. cbn [mbind res_bind].
    destruct (insertRecord_places d sd content (r <| r_Payload := payload |>) e d1 Hrep Hext Hst) as (lo & hi & es1 & es2 & R1 & R2 & Hl & R3 & _ & _ & Hd & _ & Hm & _);
      [done|done|by exists t'|done|apply Hre|apply Hre|destruct Hre; cbn; by repeat f_equal|done|].
    exists (set_meta key (strconv_Itoa (r_ID r)) d1), (mkAQueue (es1 ++ e :: es2) (a_archived sd)). split_and!; [done|by apply set_meta_represents|done| | |].
    - unfold numbered. cbn [a_entries set_meta upd db_rows]. rewrite R3, R1, R2, !fmap_app, fmap_cons, !zip_with_app by (by rewrite length_fmap).
      cbn [zip_with]. by rewrite <- Permutation_middle.
    - cbn. by rewrite Hm.
    - cbn. rewrite R3, R1, !length_app. cbn. lia. }
  destruct (seqb backend "legacy") eqn:Eb; cbn [mbind res_bind].
  - destruct (Hwrite t (db_content d)) as (d' & sd' & E & Hd'); [done|apply Hrep| | |rewrite E; by exists sd'].
    + exists "". by apply (payloadRoot_event (e_event e)).
    + exists t. split; [|done]. unfold decodePayload. by rewrite (payloadRoot_event (e_event e)).
  - apply seqb_neq in Eb. destruct (copyPayload _ _ _) as [[payload content]|] eqn:Ec; cbn [mbind res_bind]; [|done].
    destruct (copyPayload_spec _ _ _ _ _ (rp_store _ _ Hor) Ec) as [Hext Hcopy]. destruct (Hcopy (e_event e) t Hev Ht Htext) as (Hst & Ht' & Hroot).
    destruct (Hwrite payload content Hext (Hst (rp_store _ _ Hrep)) Hroot Ht') as (d' & sd' & E & Hd'). rewrite E. by exists sd'.
Qed.
End records.

(** ** The files in turn *)

(** The cursor of a file of which [n] entries are copied. *)
Definition cursor_at (saved : option string) (n : nat) (l : list item) : Prop :=
  match saved with
  | None => n = 0%nat
  | Some v => v = "complete" /\ n = length l \/ exists m x, n = S m /\ l !! m = Some x /\ v = strconv_Itoa x.1
  end.
Lemma cursor_at_le saved n l : cursor_at saved n l -> (n <= length l)%nat.
Proof. unfold cursor_at. destruct saved; [|lia]. intros [[_ ->]|(m & x & -> & Hx%lookup_lt_Some & _)]; lia. Qed.
(** Distinct identifiers and keys; the identifiers are positive, as those of
    AUTOINCREMENT are. *)
Record distinct (items : list (list item)) : Prop := {
  di_ids : NoDup (concat items).*1;
  di_keys : NoDup (item_key <$> concat items);
  di_range : Forall (fun x : item => 0 < x.1 < 2 ^ 63) (concat items)
}.

(** More and more entries of each file are copied. *)
Definition further : list nat -> list nat -> Prop := Forall2 le.
Lemma further_refl ns : further ns ns.
Proof. unfold further. reflexivity. Qed.
Lemma further_trans ns ns1 ns2 : further ns ns1 -> further ns1 ns2 -> further ns ns2.
Proof. unfold further. apply transitivity. Qed.
Lemma further_insert ns i n n' : ns !! i = Some n -> (n <= n')%nat -> further ns (<[i := n']> ns).
Proof. intros Hn Hle. rewrite <- (list_insert_id ns i n Hn) at 1. apply Forall2_insert; [apply further_refl|done]. Qed.

Section files.
Context `{GoZlibLaws} (items : list (list item)) (Hitems : distinct items).

Record copy_state (ns : list nat) (d : queue_db) (s : aqueue) : Prop := {
  cs_rep : represents d s;
  cs_archived : a_archived s = ∅;
  cs_items : numbered d s ≡ₚ copied_items ns items;
  cs_length : length ns = length items;
  cs_cursors : forall i n l, ns !! i = Some n -> items !! i = Some l -> cursor_at (db_metadata d !! cursor_key i) n l
}.
(** The metadata besides the cursors of the files. *)
Definition meta_kept (d d' : queue_db) : Prop := forall k, (forall i, k <> cursor_key i) -> db_metadata d' !! k = db_metadata d !! k.
Lemma meta_kept_trans d d1 d2 : meta_kept d d1 -> meta_kept d1 d2 -> meta_kept d d2.
Proof. intros H1 H2 k Hk. by rewrite H2, H1. Qed.
Lemma meta_kept_insert d d' i v : db_metadata d' = <[cursor_key i := v]> (db_metadata d) -> meta_kept d d'.
Proof. intros E k Hk. rewrite E, lookup_insert_ne; [done|]. intros Ek. by apply (Hk i). Qed.

(** The item that comes next is not in the destination. *)
Lemma item_new ns d s i n l x : copy_state ns d s -> ns !! i = Some n -> items !! i = Some l -> l !! n = Some x ->
  x.1 ∉ (r_ID <$> db_rows d) /\ item_key x ∉ a_keys s.
Proof.
  intros Hcs Hn Hl Hx. pose proof (copied_step _ _ _ _ _ _ Hn Hl Hx) as Hp. pose proof (copied_sub (<[i := S n]> ns) items) as Hsub. rewrite Hp in Hsub.
  rewrite <- (numbered_fst _ _ (cs_rep _ _ _ Hcs)), <- (numbered_keys _ _ (cs_rep _ _ _ Hcs)), (cs_items _ _ _ Hcs).
  destruct Hitems as [H1 H2 _]. split.
  - apply (fmap_submseteq fst) in Hsub. eapply submseteq_Permutation in Hsub as [k Hk]. rewrite Hk in H1. apply NoDup_app in H1 as [H1 _]. by apply NoDup_cons in H1 as [? _].
  - apply (fmap_submseteq item_key) in Hsub. eapply submseteq_Permutation in Hsub as [k Hk]. rewrite Hk in H2. apply NoDup_app in H2 as [H2 _]. by apply NoDup_cons in H2 as [? _].
Qed.
Lemma item_range i l n x : items !! i = Some l -> l !! n = Some x -> 0 < x.1 < 2 ^ 63.
Proof.
  intros Hl Hx. eapply (proj1 (Forall_forall _ _) (di_range _ Hitems)). apply list_elem_of_In, in_concat. exists l.
  rewrite <- !list_elem_of_In. split; by eapply list_elem_of_lookup_2.
Qed.
Lemma state_step ns d s i n l x d' s' : copy_state ns d s -> ns !! i = Some n -> items !! i = Some l -> l !! n = Some x ->
  represents d' s' -> a_archived s' = a_archived s -> numbered d' s' ≡ₚ x :: numbered d s ->
  db_metadata d' = <[cursor_key i := strconv_Itoa x.1]> (db_metadata d) -> copy_state (<[i := S n]> ns) d' s'.
Proof.
  intros Hcs Hn Hl Hx Hrep Ha Hnum Hm. split; [done| | | |].
  - rewrite Ha. apply Hcs.
  - by rewrite Hnum, (cs_items _ _ _ Hcs), (copied_step _ _ _ _ _ _ Hn Hl Hx).
  - rewrite length_insert. apply Hcs.
  - intros j m k Hj Hk. rewrite Hm. destruct (decide (j = i)) as [->|Hne].
    + rewrite lookup_insert_eq. rewrite list_lookup_insert_eq in Hj by (by eapply lookup_lt_Some). injection Hj as <-.
      assert (k = l) as -> by congruence. right. by exists n, x.
    + rewrite lookup_insert_ne by (intros ?%cursor_key_inj; congruence). rewrite list_lookup_insert_ne in Hj by done. by eapply cs_cursors.
Qed.
Lemma state_complete ns d s i l : copy_state ns d s -> ns !! i = Some (length l) -> items !! i = Some l -> copy_state ns (set_meta (cursor_key i) "complete" d) s.
Proof.
  intros Hcs Hn Hl. split; try apply Hcs; [by apply set_meta_represents, Hcs|]. intros j m k Hj Hk. cbn. destruct (decide (j = i)) as [->|Hne].
  - rewrite lookup_insert_eq. assert (k = l) as -> by congruence. left. split; [done|congruence].
  - rewrite lookup_insert_ne by (intros ?%cursor_key_inj; congruence). by eapply cs_cursors.
Qed.

(** The rows of a file, from wherever an earlier run stopped. *)
Lemma migrate_rows_spec fuel ctx round origin so backend i l cursor copied ns d s n :
  represents origin so -> items !! i = Some (numbered origin so) -> l = numbered origin so -> copy_state ns d s -> ns !! i = Some n ->
  after (db_rows origin) cursor n -> (n <= length l)%nat -> (length l - n < fuel)%nat ->
  let '(d', copied', e) := migrate_rows fuel ctx round origin backend (cursor_key i) cursor copied d in
  (exists n' s', copy_state (<[i := n']> ns) d' s' /\ (n <= n' <= length l)%nat /\ (e = None -> n' = length l)
     /\ copied' = copied + Z.of_nat (n' - n) /\ length (db_rows d') = (length (db_rows d) + (n' - n))%nat)
  /\ meta_kept d d' /\ (backend = "legacy" -> (forall k, ctx k = false) -> e = None).
Proof.
  intros Hor Hi -> . revert round cursor copied ns d s n. induction fuel as [|fuel IH]; intros round cursor copied ns d s n Hcs Hn Ha Hle Hf; [lia|]. cbn [migrate_rows].
  assert (Hstop : forall e : option string, e <> None -> exists n' s', copy_state (<[i := n']> ns) d s' /\ (n <= n' <= length (numbered origin so))%nat
    /\ (e = None -> n' = length (numbered origin so)) /\ copied = copied + Z.of_nat (n' - n) /\ length (db_rows d) = (length (db_rows d) + (n' - n))%nat).
  { intros e He. exists n, s. rewrite list_insert_id by done. split_and!; [done|lia|lia|done|lia|lia]. }
  destruct (ctx round) eqn:Ectx; [split_and!; [by apply Hstop|by intros k|intros _ Hc; by rewrite Hc in Ectx]|].
  rewrite (next_after origin cursor n Ha). pose proof (numbered_lookup origin so n Hor) as Hx. destruct (numbered origin so !! n) as [[id e]|] eqn:Ex.
  - destruct Hx as (r & Hrow & Hid & Hre). rewrite Hrow. cbn [fst snd] in Hid, Hre. subst id. destruct (item_new _ _ _ _ _ _ _ Hcs Hn Hi Ex) as [Hnew Hkey].
    pose proof (migrate_record_spec origin so backend (cursor_key i) r e d s Hor Hre (cs_rep _ _ _ Hcs) Hnew Hkey) as Hr.
    destruct (migrate_record _ _ _ _ _) as [d1|err]; [|split_and!; [by apply Hstop|by intros k|done]].
    destruct Hr as (s1 & Hrep1 & Ha1 & Hnum1 & Hm1 & Hlen1). pose proof (state_step _ _ _ _ _ _ _ _ _ Hcs Hn Hi Ex Hrep1 Ha1 Hnum1 Hm1) as Hcs1.
    apply lookup_lt_Some in Ex as Hlt.
    specialize (IH (S round) (r_ID r) (copied + 1) (<[i := S n]> ns) d1 s1 (S n) Hcs1 ltac:(apply list_lookup_insert_eq; by eapply lookup_lt_Some)).
    specialize (IH (after_row _ _ _ (rp_ids _ _ Hor) Hrow) ltac:(lia) ltac:(lia)).
    destruct (migrate_rows _ _ _ _ _ _ _ _ _) as [[d2 copied2] e2]. destruct IH as ((n2 & s2 & Hcs2 & Hn2 & He2 & Hc2 & Hl2) & Hm2 & Hok2).
    rewrite list_insert_insert_eq in Hcs2. split_and!; [exists n2, s2; split_and!; [done|lia|lia|done|lia|lia]| |].
    + eapply meta_kept_trans; [by eapply meta_kept_insert|done].
    + auto.
  - rewrite Hx. apply lookup_ge_None in Ex. assert (n = length (numbered origin so)) as -> by lia. split_and!.
    + exists (length (numbered origin so)), s. rewrite list_insert_id by done. split_and!; [by eapply state_complete|lia|lia|done|lia|cbn; lia].
    + by eapply meta_kept_insert.
    + done.
Qed.

(** Where a file is resumed. *)
Lemma file_cursor_spec d i n origin so : represents origin so -> items !! i = Some (numbered origin so) ->
  cursor_at (db_metadata d !! cursor_key i) n (numbered origin so) ->
  match file_cursor d (cursor_key i) 0 with
  | Ok None => n = length (numbered origin so)
  | Ok (Some c) => after (db_rows origin) c n
  | Err _ => False
  end.
Proof.
  intros Hor Hi. unfold file_cursor, cursor_at. destruct (db_metadata d !! cursor_key i) as [v|].
  - intros [[-> ->]|(m & x & -> & Hx & ->)]; [done|]. pose proof (item_range _ _ _ _ Hi Hx) as Hr. pose proof (ParseInt_Itoa _ Hr) as Hp.
    destruct (seqb (strconv_Itoa x.1) "complete") eqn:E; [apply seqb_spec in E; rewrite E in Hp; by vm_compute in Hp|]. rewrite Hp. cbn [mbind res_bind].
    pose proof (numbered_lookup origin so m Hor) as Hl. rewrite Hx in Hl. destruct Hl as (r & Hrow & <- & _). apply after_row; [apply Hor|done].
  - intros ->. apply after_start, Forall_forall. intros r [j Hj]%list_elem_of_lookup. pose proof (numbered_lookup origin so j Hor) as Hl.
    destruct (numbered origin so !! j) as [x|] eqn:Ex; [|congruence]. destruct Hl as (r' & Hr' & Hid & _). assert (r' = r) as -> by congruence.
    rewrite Hid. eapply item_range; [exact Hi|exact Ex].
Qed.

(** [file_items fs p l]: the file at [p] is a queue that holds the items [l]. *)
Definition file_items (fs : disk) (p : string) (l : list item) : Prop := exists d s, fs !! p = Some d /\ represents d s /\ l = numbered d s.
Lemma migrate_files_spec ctx fs backend index paths copied ns d s :
  (forall j p, paths !! j = Some p -> exists l, items !! (index + j)%nat = Some l /\ file_items fs p l) -> copy_state ns d s ->
  let '(d', copied', e) := migrate_files ctx fs backend 0 index paths copied d in
  (exists ns' s', copy_state ns' d' s' /\ (forall j, (j < index)%nat -> ns' !! j = ns !! j) /\ further ns ns'
     /\ (e = None -> forall j l, (index <= j < index + length paths)%nat -> items !! j = Some l -> ns' !! j = Some (length l)))
  /\ copied' - copied = len (db_rows d') - len (db_rows d) /\ meta_kept d d' /\ (backend = "legacy" -> (forall i k, ctx i k = false) -> e = None).
Proof.
  revert index copied ns d s. induction paths as [|p paths IH]; intros index copied ns d s Hpaths Hcs; cbn [migrate_files].
  { split_and!; [exists ns, s; split_and!; [done|done|apply further_refl|cbn; intros; lia]|lia|by intros k|done]. }
  destruct (Hpaths 0%nat p eq_refl) as (l & Hl & origin & so & Hf & Hor & ->). rewrite Nat.add_0_r in Hl.
  destruct (lookup_lt_is_Some_2 ns index) as [n Hn]; [rewrite (cs_length _ _ _ Hcs); by eapply lookup_lt_Some|].
  pose proof (cs_cursors _ _ _ Hcs _ _ _ Hn Hl) as Hcur. pose proof (file_cursor_spec d index n origin so Hor Hl Hcur) as Hfc.
  assert (Hpaths' : forall j q, paths !! j = Some q -> exists l, items !! (S index + j)%nat = Some l /\ file_items fs q l).
  { intros j q Hj. destruct (Hpaths (S j) q Hj) as (l & E & Hfi). exists l. split; [|done]. by rewrite Nat.add_succ_r in E. }
  assert (Hnext : forall n' copied1 d1 s1, copy_state (<[index := n']> ns) d1 s1 -> (n <= n')%nat -> n' = length (numbered origin so) -> copied1 - copied = len (db_rows d1) - len (db_rows d) ->
    meta_kept d d1 -> let '(d', copied', e) := migrate_files ctx fs backend 0 (S index) paths copied1 d1 in
    (exists ns' s', copy_state ns' d' s' /\ (forall j, (j < index)%nat -> ns' !! j = ns !! j) /\ further ns ns'
       /\ (e = None -> forall j l, (index <= j < index + length (p :: paths))%nat -> items !! j = Some l -> ns' !! j = Some (length l)))
    /\ copied' - copied = len (db_rows d') - len (db_rows d) /\ meta_kept d d' /\ (backend = "legacy" -> (forall i k, ctx i k = false) -> e = None)).
  { intros n' copied1 d1 s1 Hcs1 Hle -> Hc1 Hm1. specialize (IH (S index) copied1 _ d1 s1 Hpaths' Hcs1).
    destruct (migrate_files _ _ _ _ _ _ _ _) as [[d2 copied2] e2]. destruct IH as ((ns2 & s2 & Hcs2 & Hlow & Hgr & Hall) & Hc2 & Hm2 & Hok2). split_and!; [|lia|by eapply meta_kept_trans|done].
    exists ns2, s2. split_and!; [done| |by eapply further_trans; [by eapply further_insert|]|].
    - intros j Hj. rewrite Hlow by lia. apply list_lookup_insert_ne. lia.
    - intros He j l Hj Hl'. cbn in Hj. destruct (decide (j = index)) as [->|Hne]; [|apply Hall; [done|lia|done]]. rewrite Hlow by lia.
      rewrite list_lookup_insert_eq by (by eapply lookup_lt_Some). congruence. }
  destruct (file_cursor d (cursor_key index) 0) as [[c|]|]; [|apply (Hnext n copied d s); [by rewrite list_insert_id|done|done|lia|by intros k]|done].
  unfold readOnly. rewrite Hf.
  pose proof (migrate_rows_spec (S (length (db_rows origin))) (ctx index) 0 origin so backend index _ c copied ns d s n Hor Hl eq_refl Hcs Hn Hfc (cursor_at_le _ _ _ Hcur)) as Hrows.
  assert (Hlen : length (numbered origin so) = length (db_rows origin)) by (rewrite <- (length_fmap fst), (numbered_fst _ _ Hor); apply length_fmap).
  specialize (Hrows ltac:(lia)). destruct (migrate_rows _ _ _ _ _ _ _ _ _) as [[d1 copied1] e1].
  destruct Hrows as ((n1 & s1 & Hcs1 & Hn1 & He1 & Hc1 & Hl1) & Hm1 & Hok1). destruct e1 as [e1|].
  - split_and!; [|unfold len; lia|done|intros; by apply Hok1]. exists (<[index := n1]> ns), s1. split_and!; [done| |eapply further_insert; [done|lia]|done]. intros j Hj. apply list_lookup_insert_ne. lia.
  - apply (Hnext n1 copied1 d1 s1); [done|lia|auto|unfold len; lia|done].
Qed.
End files.

(** ** Runs *)

Section runs.
Context `{GoZlibLaws} `{SqlOrder} (master : queue_db -> string -> bool).

(** A destination a run can leave behind: claimed, not activated, with the
    first entries of each file, and marked complete only with all of them. *)
Record partial_copy (items : list (list item)) (ns : list nat) (d : queue_db) (s : aqueue) : Prop := {
  pc_state : copy_state items ns d s;
  pc_schema : db_metadata d !! "storage_schema" = Some "2";
  pc_activated : db_metadata d !! "migration_activated" = None;
  pc_source : is_Some (db_metadata d !! "migration_source");
  pc_backend : is_Some (db_metadata d !! "migration_backend");
  pc_cursor : db_metadata d !! "migration_cursor" = Some "0";
  pc_complete : is_Some (db_metadata d !! "migration_complete") -> ns = length <$> items
}.
Lemma lengths_of (items : list (list item)) ns : length ns = length items -> (forall j (l : list item), (j < length items)%nat -> items !! j = Some l -> ns !! j = Some (length l)) ->
  ns = length <$> items.
Proof.
  intros Hlen Hall. apply list_eq. intros j. rewrite list_lookup_fmap. destruct (items !! j) as [l|] eqn:E; cbn.
  - apply Hall; [by eapply lookup_lt_Some|done].
  - apply lookup_ge_None. rewrite Hlen. by apply lookup_ge_None.
Qed.
Lemma all_copied items ns ns' d s : copy_state items ns' d s -> ns = length <$> items -> further ns ns' -> ns' = length <$> items.
Proof.
  intros Hcs -> Hg. apply lengths_of; [apply Hcs|]. intros j l Hj Hl. assert (Hn : (length <$> items) !! j = Some (length l)) by (by rewrite list_lookup_fmap, Hl).
  destruct (Forall2_lookup_l _ _ _ _ _ Hg Hn) as (n & Hn' & Hle). rewrite Hn'. f_equal. pose proof (cs_cursors _ _ _ _ Hcs _ _ _ Hn' Hl) as Hc%cursor_at_le. lia.
Qed.

(** The destination as a run finds it, and what it makes of it before the first record. *)
Lemma OpenSQLite_new destination backend q : OpenSQLite None destination backend = Ok q -> q_db q = new_db.
Proof. unfold OpenSQLite. destruct (_ && _); [done|]. change (init (default new_db None)) with (init new_db). by intros [= <-]. Qed.
Lemma OpenSQLite_old destination backend d q : db_metadata d !! "storage_schema" = Some "2" -> OpenSQLite (Some d) destination backend = Ok q -> q_db q = d.
Proof.
  intros Hm. unfold OpenSQLite. destruct (_ && _); [done|]. unfold init. cbn [default]. unfold id. rewrite !Hm. cbn.
  intros [= <-]. by destruct d.
Qed.
Lemma claim_new items fp backend : distinct items -> exists d s, claim_destination fp backend new_db = (d, Ok 0)
  /\ partial_copy items (replicate (length items) 0%nat) d s /\ db_metadata d !! "migration_source" = Some fp /\ db_rows d = [].
Proof.
  intros Hitems. set (d := set_meta "migration_cursor" "0" (set_meta "migration_backend" backend (set_meta "migration_source" fp new_db))).
  assert (Hb : db_metadata d !! "migration_backend" = Some backend) by (vm_compute; reflexivity).
  assert (Hc : db_metadata d !! "migration_cursor" = Some "0") by (vm_compute; reflexivity).
  exists d, (mkAQueue [] ∅). split; [|split; [|split; [vm_compute; reflexivity|done]]].
  - unfold claim_destination. change (db_metadata new_db !! "migration_activated") with (@None string). cbv iota.
    change (db_metadata new_db !! "migration_source") with (@None string). cbv iota.
    change (if negb (bool_decide (db_rows new_db = [])) then _ else _) with (@Ok queue_db d). cbv iota. by rewrite Hb, seqb_refl, Hc.
  - split; [|done|done|by eexists|by rewrite Hb|done|by intros [? [=]]]. split; [by do 3 apply set_meta_represents; apply represents_new|done| |by rewrite length_replicate|].
    + by rewrite copied_none.
    + intros i n l [-> _]%lookup_replicate _. unfold cursor_at. cbn [d set_meta upd db_metadata]. rewrite !lookup_insert_ne by (by intros [=]). done.
Qed.
Lemma claim_again items ns d s fp backend : partial_copy items ns d s ->
  let '(d', r) := claim_destination fp backend d in d' = d /\ (r = Ok 0 \/ is_ok r = false)
  /\ (db_metadata d !! "migration_source" = Some fp -> db_metadata d !! "migration_backend" = Some backend -> r = Ok 0).
Proof.
  intros Hp. unfold claim_destination. rewrite (pc_activated _ _ _ _ Hp). destruct (pc_source _ _ _ _ Hp) as [saved Hs], (pc_backend _ _ _ _ Hp) as [stored Hb].
  rewrite Hs. destruct (seqb saved fp) eqn:E1; cbn [negb].
  - rewrite Hb, (pc_cursor _ _ _ _ Hp). destruct (seqb stored backend) eqn:E2; cbn [negb]; split_and!; auto. intros _ [= ->]. by rewrite seqb_refl in E2.
  - split_and!; [done|by right|]. intros [= ->]. by rewrite seqb_refl in E1.
Qed.
Lemma complete_represents sequence d s : represents d s -> represents (complete_migration sequence 0 d) s.
Proof.
  intros Hrep. unfold complete_migration. apply set_meta_represents. destruct (0 <? sequence); [|done]. destruct Hrep as [? ? ? Hseq ? ?]. split; try done.
  eapply Forall_impl; [exact Hseq|]. cbn. lia.
Qed.

(** The source: a queue, with the segments it lists, that nothing changes. *)
Definition frozen_source (fs : disk) (source : string) (src : queue_db) (items : list (list item)) : Prop :=
  fs !! source = Some src /\ Forall2 (file_items fs) (source :: archivePaths master src) items /\ distinct items.
Definition elsewhere (destination : string) (fs fs' : disk) : Prop := forall p, p <> destination -> fs' !! p = fs !! p.
(** The destination is not there yet, or is a partial copy. *)
Definition destination_ok (items : list (list item)) (file : option queue_db) : Prop :=
  match file with None => True | Some d => exists ns s, partial_copy items ns d s end.
Definition row_count (file : option queue_db) : Z := match file with None => 0 | Some d => len (db_rows d) end.
(** A complete copy: all entries under their identifiers, ready to be activated. *)
Definition complete_copy (items : list (list item)) (src d : queue_db) : Prop :=
  exists s, partial_copy items (length <$> items) d s /\ db_metadata d !! "migration_complete" = Some "1" /\ (0 < db_seq src -> db_seq src <= db_seq d).

Lemma state_meta items ns d s k v : copy_state items ns d s -> (forall i, k <> cursor_key i) -> copy_state items ns (set_meta k v d) s.
Proof.
  intros Hcs Hk. split; try apply Hcs; [by apply set_meta_represents, Hcs|]. intros i n l Hn Hl. cbn. rewrite lookup_insert_ne by apply Hk. by eapply cs_cursors.
Qed.
Lemma partial_kept items ns ns' d d' s s' : partial_copy items ns d s -> copy_state items ns' d' s' -> meta_kept d d' -> further ns ns' -> partial_copy items ns' d' s'.
Proof.
  intros [Hcs M1 M2 M3 M4 M5 M6] Hcs' Hm Hg. split; [done|rewrite Hm by (by intros ? [=]); done..|]. rewrite Hm by (by intros ? [=]). intros Hc.
  eapply all_copied; [done|by apply M6|done].
Qed.
Lemma complete_partial items ns d s src : partial_copy items ns d s -> ns = length <$> items -> complete_copy items src (complete_migration (db_seq src) 0 d).
Proof.
  intros [Hcs M1 M2 M3 M4 M5 M6] ->. assert (Hmeta : db_metadata (complete_migration (db_seq src) 0 d) = <["migration_complete" := "1"]> (db_metadata d))
    by (unfold complete_migration; by destruct (0 <? db_seq src)).
  assert (Hrows : db_rows (complete_migration (db_seq src) 0 d) = db_rows d) by (unfold complete_migration; by destruct (0 <? db_seq src)).
  exists s. split; [split|split].
  - pose proof (state_meta _ _ _ _ "migration_complete" "1" Hcs ltac:(by intros ? [=])) as Hc. split; [by apply complete_represents, Hcs|apply Hcs| |apply Hcs|].
    + unfold numbered. rewrite Hrows. apply Hcs.
    + intros i n l Hn Hl. rewrite Hmeta. exact (cs_cursors _ _ _ _ Hc _ _ _ Hn Hl).
  - by rewrite Hmeta, lookup_insert_ne.
  - by rewrite Hmeta, lookup_insert_ne.
  - by rewrite Hmeta, lookup_insert_ne.
  - by rewrite Hmeta, lookup_insert_ne.
  - by rewrite Hmeta, lookup_insert_ne.
  - done.
  - by rewrite Hmeta, lookup_insert_eq.
  - intros Hq. unfold complete_migration. rewrite (proj2 (Z.ltb_lt _ _)) by done. cbn. lia.
Qed.
(** A node accepts a partial copy only when it is complete. *)
Lemma activated_complete items ns d s q q' : partial_copy items ns d s -> q_db q = d -> Activate q = Ok q' -> ns = length <$> items.
Proof.
  intros Hp Hq. unfold Activate. rewrite Hq. destruct (pc_source _ _ _ _ Hp) as [v ->]. destruct (db_metadata d !! "migration_complete") eqn:E; [|done].
  intros _. apply (pc_complete _ _ _ _ Hp). by rewrite E.
Qed.

(** What a run needs to come to its end: the files are as they were when it
    ends, none has a log, and the context is not cancelled. *)
Record quiet (fz : frozen) (source destination : string) (src : queue_db) (ids : list identity) : Prop := {
  qu_ids : read_identities fz destination (source :: archivePaths master src) = Ok ids;
  qu_end : check_identities fz ids = None;
  qu_ctx : forall i k, fz_ctx fz i k = false
}.
Definition same_claim (ids : list identity) (backend : string) (file : option queue_db) : Prop :=
  match file with
  | None => True
  | Some d => db_metadata d !! "migration_source" = Some (fingerprint ids) /\ db_metadata d !! "migration_backend" = Some backend
  end.

(** From the opened destination on. *)
Lemma claimed_spec items file destination backend fp q : distinct items -> destination_ok items file -> OpenSQLite file destination backend = Ok q ->
  let '(d, r) := claim_destination fp backend (q_db q) in
  exists ns s, partial_copy items ns d s /\ len (db_rows d) = row_count file /\ (r = Ok 0 \/ is_ok r = false)
    /\ (forall ids, fp = fingerprint ids -> same_claim ids backend file -> r = Ok 0).
Proof.
  intros Hi Hd Eo. destruct file as [d|]; cbn in Hd.
  - destruct Hd as (ns & s & Hp). rewrite (OpenSQLite_old _ _ _ _ (pc_schema _ _ _ _ Hp) Eo). pose proof (claim_again _ _ _ _ fp backend Hp) as Hc.
    destruct (claim_destination _ _ _) as [d' r]. destruct Hc as (-> & Hr & Hs). exists ns, s. split_and!; [done|done|done|]. intros ids -> [Hfp Hbk]. auto.
  - rewrite (OpenSQLite_new _ _ _ Eo). destruct (claim_new items fp backend Hi) as (d & s & -> & Hp & _ & Hr). exists (replicate (length items) 0%nat), s.
    split_and!; [done|by rewrite Hr|by left|done].
Qed.
(** What is known when a run has ended; [fin] is when it must have succeeded. *)
Record outcome (fs : disk) (destination : string) (items : list (list item)) (src : queue_db) (fin : Prop) (files : disk) (o : disk * Z * option string) : Prop := {
  oc_elsewhere : elsewhere destination fs o.1.1;
  oc_destination : destination_ok items (o.1.1 !! destination);
  oc_copied : o.1.2 = row_count (o.1.1 !! destination) - row_count (files !! destination);
  oc_complete : o.2 = None -> exists d, o.1.1 !! destination = Some d /\ complete_copy items src d;
  oc_finished : fin -> o.2 = None
}.
Lemma outcome_stop fs destination items src (fin : Prop) files e : elsewhere destination fs files -> destination_ok items (files !! destination) -> ~ fin ->
  outcome fs destination items src fin files (files, 0, Some e).
Proof. intros He Hd Hf. split; try done. cbn. lia. Qed.
Lemma outcome_write fs destination items src (fin : Prop) files d e : elsewhere destination fs files -> destination_ok items (Some d) ->
  (e = None -> complete_copy items src d) -> (fin -> e = None) ->
  outcome fs destination items src fin files (<[destination := d]> files, len (db_rows d) - row_count (files !! destination), e).
Proof.
  intros He Hd Hc Hf. split; cbn [fst snd]; rewrite ?lookup_insert_eq; try done.
  - intros p Hp. rewrite lookup_insert_ne by done. by apply He.
  - intros E. exists d. auto.
Qed.
Lemma read_head fz destination p ps ids : read_identities fz destination (p :: ps) = Ok ids -> is_Some (fz_stat fz p) /\ is_destination fz destination p = false.
Proof. cbn [read_identities]. destruct (fz_stat fz p) as [[size modified]|]; [|done]. by destruct (is_destination fz destination p). Qed.
Lemma OpenSQLite_legacy items file destination : destination_ok items file -> exists q, OpenSQLite file destination "legacy" = Ok q.
Proof.
  destruct file as [d|]; cbn [destination_ok]; [|by eexists]. intros (ns & s & Hp). unfold OpenSQLite, init. cbn [default]. unfold id.
  rewrite !(pc_schema _ _ _ _ Hp). by eexists.
Qed.
Lemma MigrateFrozen_run fs source src items destination fz backend files :
  frozen_source fs source src items -> fs !! destination = None -> elsewhere destination fs files -> destination_ok items (files !! destination) ->
  outcome fs destination items src (backend = "legacy" /\ exists ids, quiet fz source destination src ids /\ same_claim ids backend (files !! destination))
    files (MigrateFrozen master fz files source destination backend).
Proof.
  intros (Hsrc & Hfiles & Hi) Hnone Hels Hdest. assert (Hlook : forall p x, fs !! p = Some x -> files !! p = Some x) by (intros p x Hp; rewrite Hels; [done|congruence]).
  set (fin := _ /\ _). unfold MigrateFrozen, readOnly. rewrite (Hlook _ _ Hsrc).
  destruct (fz_stat fz source) as [st|] eqn:E1; cbn [mbind res_bind]; [|apply outcome_stop; [done..|]; intros (_ & ids & [Hq _ _] & _); apply read_head in Hq as [[? ?] _]; congruence].
  destruct (is_destination fz destination source) eqn:E2; cbn [mbind res_bind]; [apply outcome_stop; [done..|]; intros (_ & ids & [Hq _ _] & _); apply read_head in Hq as [_ ?]; congruence|].
  destruct (read_identities _ _ _) as [ids|] eqn:E3; cbn [mbind res_bind]; [|apply outcome_stop; [done..|]; intros (_ & ids & [Hq _ _] & _); congruence].
  destruct (OpenSQLite _ _ _) as [q|] eqn:E4; cbn [mbind res_bind];
    [|apply outcome_stop; [done..|]; intros (-> & _); destruct (OpenSQLite_legacy _ _ destination Hdest) as [q Hq]; congruence].
  pose proof (claimed_spec items _ destination backend (fingerprint ids) q Hi Hdest E4) as Hclaim. destruct (claim_destination _ _ _) as [d r].
  destruct Hclaim as (ns & s & Hp & Hrows & Hr & Hfin).
  assert (Hids : fin -> r = Ok 0) by (intros (_ & ids' & [Hq _ _] & Hsame); apply (Hfin ids'); [congruence|done]).
  destruct Hr as [->|Hr]; [|destruct r as [|err]; [done|]].
  2:{ pose proof (outcome_write fs destination items src fin files d (Some err) Hels) as Ho. rewrite Hrows, Z.sub_diag in Ho. apply Ho; [by exists ns, s|done|]. intros Hf. by apply Hids in Hf. }
  assert (Hpaths : forall j p, (source :: archivePaths master src) !! j = Some p -> exists l, items !! (0 + j)%nat = Some l /\ file_items files p l).
  { intros j p Hj. destruct (Forall2_lookup_l _ _ _ _ _ Hfiles Hj) as (l & Hl & o & so & Ho & Hrest). exists l. split; [done|]. exists o, so. split; [by apply Hlook|done]. }
  pose proof (migrate_files_spec items Hi (fz_ctx fz) files backend 0 _ 0 ns d s Hpaths (pc_state _ _ _ _ Hp)) as Hmf.
  destruct (migrate_files _ _ _ _ _ _ _ _) as [[d' copied] e]. destruct Hmf as ((ns' & s' & Hcs' & _ & Hg & Hall) & Hcopied & Hm & Hok).
  pose proof (partial_kept _ _ _ _ _ _ _ Hp Hcs' Hm Hg) as Hp'. assert (copied = len (db_rows d') - row_count (files !! destination)) as -> by lia.
  destruct e as [e|]; [apply outcome_write; [done|by exists ns', s'|done|intros (Hb & ids' & [_ _ Hctx] & _); by apply Hok]|].
  destruct (check_identities fz ids) as [err|] eqn:E5; [apply outcome_write; [done|by exists ns', s'|done|intros (_ & ids' & [Hq Hend _] & _); congruence]|].
  assert (Hfull : ns' = length <$> items).
  { apply lengths_of; [apply Hcs'|]. intros j l Hj Hl. apply Hall; [done| |done]. apply Forall2_length in Hfiles. lia. }
  pose proof (complete_partial _ _ _ _ src Hp' Hfull) as Hc. 
  assert (Hlen : db_rows d' = db_rows (complete_migration (db_seq src) 0 d')) by (unfold complete_migration; by destruct (0 <? db_seq src)). rewrite Hlen.
  apply outcome_write; [done| |done|done]. destruct Hc as (s2 & Hp2 & _). by eexists _, s2.
Qed.

(** ** Theorems *)

(** One attempt, with whatever backend, files found and cancellation. *)
Definition attempt (source destination : string) (files files' : disk) : Prop :=
  exists fz backend n e, MigrateFrozen master fz files source destination backend = (files', n, e).
Lemma attempts_ok fs source src items destination files : frozen_source fs source src items -> fs !! destination = None ->
  rtc (attempt source destination) fs files -> elsewhere destination fs files /\ destination_ok items (files !! destination).
Proof.
  intros Hsrc Hnone Hr. assert (Hgen : forall a b, rtc (attempt source destination) a b -> elsewhere destination fs a /\ destination_ok items (a !! destination) ->
    elsewhere destination fs b /\ destination_ok items (b !! destination)).
  { induction 1 as [a|a b c (fz & backend & n & e & E) _ IH]; [done|]. intros [He Hd]. apply IH.
    pose proof (MigrateFrozen_run _ _ _ _ _ fz backend _ Hsrc Hnone He Hd) as Ho. rewrite E in Ho. destruct Ho as [H1' H2' _ _ _]. done. }
  apply (Hgen _ _ Hr). by rewrite Hnone.
Qed.

(** C9.  A queue is migrated exactly.  Take a source and the segments it lists,
    with distinct positive identifiers and distinct keys, and a destination that
    does not exist; and let any number of attempts stop wherever they do, in
    whatever way.  A further run writes the destination alone and reports the
    number of records it added.  The destination is then absent, and the run has
    failed, or it is a queue: it holds entries of the source, each once, with its
    event, delivery state and identifier; a node can activate it only when it
    holds all of them; and when the run succeeds it does, its allocator is at
    least at the mark of the source's, and it can be activated. *)
Theorem MigrateFrozen_exact (fs files files' : disk) (source destination backend : string) (src : queue_db) (items : list (list item)) (fz : frozen) (n : Z) (e : option string) :
  frozen_source fs source src items -> fs !! destination = None -> rtc (attempt source destination) fs files ->
  MigrateFrozen master fz files source destination backend = (files', n, e) ->
  (forall p, p <> destination -> files' !! p = fs !! p)
  /\ n = row_count (files' !! destination) - row_count (files !! destination)
  /\ match files' !! destination with
     | None => e <> None
     | Some d => exists s, represents d s /\ a_archived s = ∅ /\ numbered d s ⊆+ concat items
         /\ (forall q, q_db q = d -> is_ok (Activate q) = true -> numbered d s ≡ₚ concat items)
         /\ (e = None -> numbered d s ≡ₚ concat items /\ (0 < db_seq src -> db_seq src <= db_seq d)
              /\ forall q, q_db q = d -> is_ok (Activate q) = true)
     end.
Proof.
  intros Hsrc Hnone Hr Hrun. destruct (attempts_ok _ _ _ _ _ _ Hsrc Hnone Hr) as [He Hd].
  pose proof (MigrateFrozen_run _ _ _ _ _ fz backend _ Hsrc Hnone He Hd) as Ho. rewrite Hrun in Ho. destruct Ho as [Hel Hdst Hn Hcomp _]. cbn [fst snd] in *.
  split_and!; [done|done|]. destruct (files' !! destination) as [d|] eqn:Ed; [|intros E; destruct (Hcomp E) as (? & [=] & _)].
  assert (Hfull : forall s, partial_copy items (length <$> items) d s -> numbered d s ≡ₚ concat items).
  { intros s Hp. rewrite (cs_items _ _ _ _ (pc_state _ _ _ _ Hp)). by rewrite copied_all. }
  destruct (decide (e = None)) as [Ee|Ee].
  - destruct (Hcomp Ee) as (? & [= <-] & s & Hp & Hc & Hq). exists s. pose proof (pc_state _ _ _ _ Hp) as Hcs. split_and!; [apply Hcs|apply Hcs|by rewrite Hfull|auto|].
    intros _. split_and!; [by apply Hfull|done|]. intros q Eq. unfold Activate. rewrite Eq, Hc. by destruct (pc_source _ _ _ _ Hp) as [v ->].
  - destruct Hdst as (ns & s & Hp). exists s. pose proof (pc_state _ _ _ _ Hp) as Hcs. split_and!; [apply Hcs|apply Hcs| | |done].
    + rewrite (cs_items _ _ _ _ Hcs). apply copied_sub.
    + intros q Eq Hact. destruct (Activate q) as [q'|] eqn:Ea; [|done]. apply Hfull. by rewrite <- (activated_complete _ _ _ _ _ _ Hp Eq Ea).
Qed.

(** C26.  A migration to the legacy backend ends: after any attempts, a run that
    finds the files without logs and unchanged, is not cancelled, and continues
    its own destination or a new one, copies what is missing and succeeds. *)
Theorem MigrateFrozen_finishes (fs files : disk) (source destination : string) (src : queue_db) (items : list (list item)) (fz : frozen) (ids : list identity) :
  frozen_source fs source src items -> fs !! destination = None -> rtc (attempt source destination) fs files ->
  quiet fz source destination src ids -> same_claim ids "legacy" (files !! destination) ->
  exists files', MigrateFrozen master fz files source destination "legacy" = (files', len (concat items) - row_count (files !! destination), None)
    /\ exists d s, files' !! destination = Some d /\ represents d s /\ numbered d s ≡ₚ concat items.
Proof.
  intros Hsrc Hnone Hr Hq Hc. destruct (attempts_ok _ _ _ _ _ _ Hsrc Hnone Hr) as [He Hd].
  pose proof (MigrateFrozen_run _ _ _ _ _ fz "legacy" _ Hsrc Hnone He Hd) as Ho. destruct (MigrateFrozen _ _ _ _ _ _) as [[files' n] e].
  destruct Ho as [_ _ Hn Hcomp Hfin]. cbn [fst snd] in *. assert (e = None) as -> by (apply Hfin; split; [done|by exists ids]).
  destruct (Hcomp eq_refl) as (d & Ed & s & Hp & _). pose proof (pc_state _ _ _ _ Hp) as Hcs. pose proof (cs_items _ _ _ _ Hcs) as Hit. rewrite copied_all in Hit by done.
  exists files'. rewrite Ed in Hn. cbn [row_count] in Hn. split; [|by exists d, s; split_and!; [|apply Hcs|]]. repeat f_equal. rewrite Hn. f_equal. unfold len. f_equal.
  rewrite <- Hit. rewrite <- (length_fmap fst), (numbered_fst _ _ (cs_rep _ _ _ _ Hcs)). symmetry. apply length_fmap.
Qed.
End runs.

(** ** A migration

    A queue with one event is copied into a legacy database; the first attempt
    is cancelled before the record. *)

#[local] Instance table_order : SqlOrder := {| by_max_id := map_to_list |}.
Definition old_queue : res SQLiteQueue := @Enqueue identity_zlib 7 (queue0 <| q_backend := "legacy" |>) sample_event.
Definition old_items : list (list item) := [[(1, mkEntry sample_event 0 0 "" 7 7)]].
Definition old_files (d : queue_db) : disk := {["/old.db" := d]}.
Definition old_stat (p : string) : option (Z * Z) := if seqb p "/old.db" then Some (4096, 9) else None.
Definition old_frozen (cancelled : bool) : frozen := mkFrozen old_stat old_stat (fun _ => false) (fun _ _ => cancelled).
Definition old_master (_ : queue_db) (_ : string) : bool := true.
Definition old_ids : list identity := [mkIdentity "/old.db" 4096 9].
Lemma old_source : exists q, old_queue = Ok q /\ db_archives (q_db q) = ∅
  /\ @frozen_source identity_zlib table_order old_master (old_files (q_db q)) "/old.db" (q_db q) old_items.
Proof.
  pose proof (@Enqueue_represents identity_zlib identity_zlib_laws 7 (queue0 <| q_backend := "legacy" |>) sample_event abstract0 represents_new sample_event_ok) as Hrep.
  assert (Hrows : match old_queue with Ok q => bool_decide (r_ID <$> db_rows (q_db q) = [1]) && bool_decide (db_archives (q_db q) = ∅) | Err _ => false end = true) by (vm_compute; reflexivity).
  unfold old_queue in *. destruct (Enqueue _ _ _) as [q|e]; [|discriminate Hrows]. exists q. split; [reflexivity|].
  apply andb_prop in Hrows as [Hrows Harch]. apply bool_decide_eq_true in Hrows, Harch. destruct Hrep as [Hrep _].
  assert (Ha : archivePaths old_master (q_db q) = []) by (unfold archivePaths, old_master; rewrite Harch; vm_compute; reflexivity).
  split; [exact Harch|]. split; [apply lookup_singleton_eq|]. rewrite Ha. split.
  - constructor; [|constructor]. exists (q_db q), (a_enqueue 7 sample_event abstract0). split; [apply lookup_singleton_eq|]. split; [exact Hrep|].
    unfold numbered. rewrite Hrows. vm_compute. reflexivity.
  - split; [exact (NoDup_singleton 1)|exact (NoDup_singleton (event_key sample_event))|]. constructor; [cbn; lia|constructor].
Qed.
Lemma old_quiet d : db_archives d = ∅ -> @quiet table_order old_master (old_frozen false) "/old.db" "/new.db" d old_ids.
Proof. intros Ha. split; [|reflexivity|reflexivity]. unfold archivePaths, old_master. rewrite Ha. vm_compute. reflexivity. Qed.

(** After the cancelled attempt a second run completes the copy. *)
Lemma MigrateFrozen_finishes_witness : exists q files files', old_queue = Ok q
  /\ @attempt identity_zlib table_order old_master "/old.db" "/new.db" (old_files (q_db q)) files /\ is_Some (files !! "/new.db")
  /\ @MigrateFrozen identity_zlib table_order old_master (old_frozen false) files "/old.db" "/new.db" "legacy" = (files', 1, None)
  /\ exists d s, files' !! "/new.db" = Some d /\ @represents identity_zlib d s /\ numbered d s ≡ₚ concat old_items.
Proof.
  destruct old_source as (q & Eq & Ha & Hsrc).
  assert (Hrun : match old_queue with
    | Ok q => let '(files, _, _) := @MigrateFrozen identity_zlib table_order old_master (old_frozen true) (old_files (q_db q)) "/old.db" "/new.db" "legacy" in
        match files !! "/new.db" with
        | Some d => bool_decide (db_rows d = []) && bool_decide (db_metadata d !! "migration_source" = Some (fingerprint old_ids)) && bool_decide (db_metadata d !! "migration_backend" = Some "legacy")
        | None => false
        end
    | Err _ => false
    end = true) by (vm_compute; reflexivity).
  rewrite Eq in Hrun. destruct (@MigrateFrozen identity_zlib table_order old_master (old_frozen true) (old_files (q_db q)) "/old.db" "/new.db" "legacy") as [[files n] e] eqn:E.
  destruct (files !! "/new.db") as [d|] eqn:Ed; [|discriminate Hrun]. apply andb_prop in Hrun as [Hrun Hb]. apply andb_prop in Hrun as [Hrows Hs].
  apply bool_decide_eq_true in Hrows, Hs, Hb.
  assert (Hatt : @attempt identity_zlib table_order old_master "/old.db" "/new.db" (old_files (q_db q)) files) by (eexists _, _, _, _; exact E).
  destruct (@MigrateFrozen_finishes identity_zlib identity_zlib_laws table_order old_master (old_files (q_db q)) files "/old.db" "/new.db" (q_db q) old_items (old_frozen false) old_ids
    Hsrc ltac:(reflexivity) (rtc_once _ _ Hatt) (old_quiet _ Ha) ltac:(unfold same_claim; rewrite Ed; split; [exact Hs|exact Hb])) as (files' & E' & Hd).
  exists q, files, files'. split; [exact Eq|]. split; [exact Hatt|]. split; [rewrite Ed; eexists; reflexivity|]. rewrite Ed in E'. unfold row_count in E'. rewrite Hrows in E'.
  split; [exact E'|exact Hd].
Defined.
(** A cancelled attempt leaves a destination that no node activates. *)
Lemma MigrateFrozen_exact_witness : exists q files d, old_queue = Ok q /\ files !! "/new.db" = Some d
  /\ @MigrateFrozen identity_zlib table_order old_master (old_frozen true) (old_files (q_db q)) "/old.db" "/new.db" "legacy" = (files, 0, Some "context canceled")
  /\ exists s, @represents identity_zlib d s /\ numbered d s ⊆+ concat old_items.
Proof.
  destruct old_source as (q & Eq & Ha & Hsrc).
  assert (Hrun : match old_queue with
    | Ok q => let '(files, n, e) := @MigrateFrozen identity_zlib table_order old_master (old_frozen true) (old_files (q_db q)) "/old.db" "/new.db" "legacy" in
        bool_decide (is_Some (files !! "/new.db")) && bool_decide (n = 0) && bool_decide (e = Some "context canceled")
    | Err _ => false
    end = true) by (vm_compute; reflexivity).
  rewrite Eq in Hrun. destruct (@MigrateFrozen identity_zlib table_order old_master (old_frozen true) (old_files (q_db q)) "/old.db" "/new.db" "legacy") as [[files n] e] eqn:E.
  apply andb_prop in Hrun as [Hrun He]. apply andb_prop in Hrun as [Hd Hn]. apply bool_decide_eq_true in Hd, Hn, He. subst n e.
  destruct (@MigrateFrozen_exact identity_zlib identity_zlib_laws table_order old_master (old_files (q_db q)) (old_files (q_db q)) files "/old.db" "/new.db" "legacy" (q_db q) old_items
    (old_frozen true) 0 (Some "context canceled") Hsrc ltac:(reflexivity) (rtc_refl _ _) E) as (_ & _ & Hdest).
  destruct (files !! "/new.db") as [d|] eqn:Ed; [|destruct Hd as [x Hx]; discriminate Hx]. destruct Hdest as (s & Hrep & _ & Hsub & _).
  exists q, files, d. split; [exact Eq|]. split; [exact Ed|]. split; [exact E|]. exists s. split; [exact Hrep|exact Hsub].
Defined.
