(* ===== verification/Config.v ===== *)
(** * Config: the configuration of the node (internal/config/config.go)

    The structs with their JSON form, the defaults, the validation of the storage
    settings, loading and saving the YAML file, and the command line, which
    overrides the file. *)

From S2P Require Import Prelude GoStrings GoNet Events Json AnyJson Codec EventJson Content Queue EventQueue Shard Archive Maintain Detector IntelStore.

Definition jint32 : jtype Z := mkJtype _ (range_codec (- 2 ^ 31) (2 ^ 31 - 1)) _ (range_codec_ok _ _) _.

(** ** The structs *)

Record StorageConfig := mkStorageConfig {
  sc_Backend : string;
  sc_ArchiveDir : string;
  sc_ArchiveAfterHours : Z;
  sc_MaintenanceIntervalSec : Z;
  sc_ArchiveBatchSize : Z;
  sc_HighWaterBytes : Z;
  sc_LowWaterBytes : Z;
  sc_MinFreeBytes : Z;
  sc_Shards : Z
}.
#[global] Instance settable_StorageConfig : Settable StorageConfig := fun r =>
  mkStorageConfig (sc_Backend r) (sc_ArchiveDir r) (sc_ArchiveAfterHours r) (sc_MaintenanceIntervalSec r) (sc_ArchiveBatchSize r) (sc_HighWaterBytes r) (sc_LowWaterBytes r) (sc_MinFreeBytes r) (sc_Shards r).
Definition zero_StorageConfig : StorageConfig := mkStorageConfig "" "" 0 0 0 0 0 0 0.
#[global] Instance StorageConfig_eq_dec : EqDecision StorageConfig.
Proof. solve_decision. Defined.
Definition fields_StorageConfig : list (field StorageConfig) := [
  req "backend" jstring sc_Backend;
  req "archive_dir" jstring sc_ArchiveDir;
  req "archive_after_hours" jint64 sc_ArchiveAfterHours;
  req "maintenance_interval_sec" jint64 sc_MaintenanceIntervalSec;
  req "archive_batch_size" jint64 sc_ArchiveBatchSize;
  req "high_water_bytes" jint64 sc_HighWaterBytes;
  req "low_water_bytes" jint64 sc_LowWaterBytes;
  req "min_free_bytes" juint64 sc_MinFreeBytes;
  req "shards" jint64 sc_Shards
].
Lemma spec_StorageConfig : struct_spec fields_StorageConfig zero_StorageConfig.
Proof. struct_by_fields. Qed.

Record NodeConfig := mkNodeConfig {
  nc_DeviceID : string;
  nc_ManagementURL : string;
  nc_APIKey : string;
  nc_HomeNet : list string
}.
#[global] Instance settable_NodeConfig : Settable NodeConfig := fun r =>
  mkNodeConfig (nc_DeviceID r) (nc_ManagementURL r) (nc_APIKey r) (nc_HomeNet r).
Definition zero_NodeConfig : NodeConfig := mkNodeConfig "" "" "" [].
Definition fields_NodeConfig : list (field NodeConfig) := [
  req "device_id" jstring nc_DeviceID;
  req "management_url" jstring nc_ManagementURL;
  req "api_key" jstring nc_APIKey;
  req "home_net" (jslice jstring) nc_HomeNet
].
Lemma spec_NodeConfig : struct_spec fields_NodeConfig zero_NodeConfig.
Proof. struct_by_fields. Qed.

Record CaptureConfig := mkCaptureConfig {
  cc_Interface : string;
  cc_PCAPFile : string;
  cc_BPFFilter : string;
  cc_Snaplen : Z;
  cc_Promiscuous : bool;
  cc_Workers : Z
}.
#[global] Instance settable_CaptureConfig : Settable CaptureConfig := fun r =>
  mkCaptureConfig (cc_Interface r) (cc_PCAPFile r) (cc_BPFFilter r) (cc_Snaplen r) (cc_Promiscuous r) (cc_Workers r).
Definition zero_CaptureConfig : CaptureConfig := mkCaptureConfig "" "" "" 0 false 0.
Definition fields_CaptureConfig : list (field CaptureConfig) := [
  req "interface" jstring cc_Interface;
  req "pcap_file" jstring cc_PCAPFile;
  req "bpf_filter" jstring cc_BPFFilter;
  req "snaplen" jint32 cc_Snaplen;
  req "promiscuous" jbool cc_Promiscuous;
  req "workers" jint64 cc_Workers
].
Lemma spec_CaptureConfig : struct_spec fields_CaptureConfig zero_CaptureConfig.
Proof. struct_by_fields. Qed.

Record PatternConfig := mkPatternConfig {
  pc_Enable : bool;
  pc_PatternDir : string
}.
#[global] Instance settable_PatternConfig : Settable PatternConfig := fun r =>
  mkPatternConfig (pc_Enable r) (pc_PatternDir r).
Definition zero_PatternConfig : PatternConfig := mkPatternConfig false "".
Definition fields_PatternConfig : list (field PatternConfig) := [
  req "enable" jbool pc_Enable;
  req "pattern_dir" jstring pc_PatternDir
].
Lemma spec_PatternConfig : struct_spec fields_PatternConfig zero_PatternConfig.
Proof. struct_by_fields. Qed.

Record IntelConfig := mkIntelConfig {
  ic_IntelFile : string;
  ic_ReloadIntervalSec : Z;
  ic_EnableHotReload : bool;
  ic_PruneExpiredIntervalSec : Z;
  ic_AcceptSTIX : bool;
  ic_DefaultSource : string;
  ic_MaxItems : Z;
  ic_IocSyncDir : string;
  ic_IocSyncDir2 : string;
  ic_EnableIocSync : bool;
  ic_IocSyncIntervalMin : Z;
  ic_IocSyncRetainDays : Z
}.
#[global] Instance settable_IntelConfig : Settable IntelConfig := fun r =>
  mkIntelConfig (ic_IntelFile r) (ic_ReloadIntervalSec r) (ic_EnableHotReload r) (ic_PruneExpiredIntervalSec r) (ic_AcceptSTIX r) (ic_DefaultSource r) (ic_MaxItems r) (ic_IocSyncDir r) (ic_IocSyncDir2 r) (ic_EnableIocSync r) (ic_IocSyncIntervalMin r) (ic_IocSyncRetainDays r).
Definition zero_IntelConfig : IntelConfig := mkIntelConfig "" 0 false 0 false "" 0 "" "" false 0 0.
Definition fields_IntelConfig : list (field IntelConfig) := [
  req "intel_file" jstring ic_IntelFile;
  req "reload_interval_sec" jint64 ic_ReloadIntervalSec;
  req "enable_hot_reload" jbool ic_EnableHotReload;
  req "prune_expired_interval_sec" jint64 ic_PruneExpiredIntervalSec;
  req "accept_stix" jbool ic_AcceptSTIX;
  req "default_source" jstring ic_DefaultSource;
  req "max_items" jint64 ic_MaxItems;
  req "ioc_sync_dir" jstring ic_IocSyncDir;
  req "ioc_sync_dir2" jstring ic_IocSyncDir2;
  req "enable_ioc_sync" jbool ic_EnableIocSync;
  req "ioc_sync_interval_min" jint64 ic_IocSyncIntervalMin;
  req "ioc_sync_retain_days" jint64 ic_IocSyncRetainDays
].
Lemma spec_IntelConfig : struct_spec fields_IntelConfig zero_IntelConfig.
Proof. struct_by_fields. Qed.

Record EvidenceConfig := mkEvidenceConfig {
  xc_EnablePCAPSave : bool;
  xc_PCAPDir : string;
  xc_RetainDays : Z;
  xc_HashEvidenceDir : bool;
  xc_ArchiveMonthly : bool
}.
#[global] Instance settable_EvidenceConfig : Settable EvidenceConfig := fun r =>
  mkEvidenceConfig (xc_EnablePCAPSave r) (xc_PCAPDir r) (xc_RetainDays r) (xc_HashEvidenceDir r) (xc_ArchiveMonthly r).
Definition zero_EvidenceConfig : EvidenceConfig := mkEvidenceConfig false "" 0 false false.
Definition fields_EvidenceConfig : list (field EvidenceConfig) := [
  req "enable_pcap_save" jbool xc_EnablePCAPSave;
  req "pcap_dir" jstring xc_PCAPDir;
  req "retain_days" jint64 xc_RetainDays;
  req "hash_evidence_dir" jbool xc_HashEvidenceDir;
  req "archive_monthly" jbool xc_ArchiveMonthly
].
Lemma spec_EvidenceConfig : struct_spec fields_EvidenceConfig zero_EvidenceConfig.
Proof. struct_by_fields. Qed.

Record EventConfig := mkEventConfig {
  ec_EnablePush : bool;
  ec_QueueDB : string;
  ec_PushBatchSize : Z;
  ec_RetryIntervalSec : Z;
  ec_PushTimeoutSec : Z;
  ec_MaxPushRetry : Z;
  ec_LocalHitWindowSec : Z
}.
#[global] Instance settable_EventConfig : Settable EventConfig := fun r =>
  mkEventConfig (ec_EnablePush r) (ec_QueueDB r) (ec_PushBatchSize r) (ec_RetryIntervalSec r) (ec_PushTimeoutSec r) (ec_MaxPushRetry r) (ec_LocalHitWindowSec r).
Definition zero_EventConfig : EventConfig := mkEventConfig false "" 0 0 0 0 0.
Definition fields_EventConfig : list (field EventConfig) := [
  req "enable_push" jbool ec_EnablePush;
  req "queue_db" jstring ec_QueueDB;
  req "push_batch_size" jint64 ec_PushBatchSize;
  req "retry_interval_sec" jint64 ec_RetryIntervalSec;
  req "push_timeout_sec" jint64 ec_PushTimeoutSec;
  req "max_push_retry" jint64 ec_MaxPushRetry;
  req "local_hit_window_sec" jint64 ec_LocalHitWindowSec
].
Lemma spec_EventConfig : struct_spec fields_EventConfig zero_EventConfig.
Proof. struct_by_fields. Qed.

Record FlowConfig := mkFlowConfig {
  fc_MaxFlows : Z;
  fc_IdleTimeoutSec : Z;
  fc_CleanupIntervalSec : Z
}.
#[global] Instance settable_FlowConfig : Settable FlowConfig := fun r =>
  mkFlowConfig (fc_MaxFlows r) (fc_IdleTimeoutSec r) (fc_CleanupIntervalSec r).
Definition zero_FlowConfig : FlowConfig := mkFlowConfig 0 0 0.
Definition fields_FlowConfig : list (field FlowConfig) := [
  req "max_flows" jint64 fc_MaxFlows;
  req "idle_timeout_sec" jint64 fc_IdleTimeoutSec;
  req "cleanup_interval_sec" jint64 fc_CleanupIntervalSec
].
Lemma spec_FlowConfig : struct_spec fields_FlowConfig zero_FlowConfig.
Proof. struct_by_fields. Qed.

Record AggregationConfig := mkAggregationConfig {
  ac_Mode : string;
  ac_EnableTransactionLink : bool;
  ac_ResponseWaitSec : Z;
  ac_RevisionIntervalSec : Z;
  ac_MaxSessions : Z;
  ac_MaxTransactionsPerSession : Z;
  ac_MaxPacketsPerTransaction : Z;
  ac_MaxReassemblyBytesPerSide : Z;
  ac_MaxOutOfOrderBytes : Z;
  ac_StorePacketIndex : bool;
  ac_SaveFullSessionPCAP : bool
}.
#[global] Instance settable_AggregationConfig : Settable AggregationConfig := fun r =>
  mkAggregationConfig (ac_Mode r) (ac_EnableTransactionLink r) (ac_ResponseWaitSec r) (ac_RevisionIntervalSec r) (ac_MaxSessions r) (ac_MaxTransactionsPerSession r) (ac_MaxPacketsPerTransaction r) (ac_MaxReassemblyBytesPerSide r) (ac_MaxOutOfOrderBytes r) (ac_StorePacketIndex r) (ac_SaveFullSessionPCAP r).
Definition zero_AggregationConfig : AggregationConfig := mkAggregationConfig "" false 0 0 0 0 0 0 0 false false.
Definition fields_AggregationConfig : list (field AggregationConfig) := [
  req "mode" jstring ac_Mode;
  req "enable_transaction_link" jbool ac_EnableTransactionLink;
  req "response_wait_sec" jint64 ac_ResponseWaitSec;
  req "revision_interval_sec" jint64 ac_RevisionIntervalSec;
  req "max_sessions" jint64 ac_MaxSessions;
  req "max_transactions_per_session" jint64 ac_MaxTransactionsPerSession;
  req "max_packets_per_transaction" jint64 ac_MaxPacketsPerTransaction;
  req "max_reassembly_bytes_per_side" jint64 ac_MaxReassemblyBytesPerSide;
  req "max_out_of_order_bytes" jint64 ac_MaxOutOfOrderBytes;
  req "store_packet_index" jbool ac_StorePacketIndex;
  req "save_full_session_pcap" jbool ac_SaveFullSessionPCAP
].
Lemma spec_AggregationConfig : struct_spec fields_AggregationConfig zero_AggregationConfig.
Proof. struct_by_fields. Qed.

Record ServerConfig := mkServerConfig {
  vc_Enable : bool;
  vc_Listen : string;
  vc_Token : string
}.
#[global] Instance settable_ServerConfig : Settable ServerConfig := fun r =>
  mkServerConfig (vc_Enable r) (vc_Listen r) (vc_Token r).
Definition zero_ServerConfig : ServerConfig := mkServerConfig false "" "".
Definition fields_ServerConfig : list (field ServerConfig) := [
  req "enable" jbool vc_Enable;
  req "listen" jstring vc_Listen;
  req "token" jstring vc_Token
].
Lemma spec_ServerConfig : struct_spec fields_ServerConfig zero_ServerConfig.
Proof. struct_by_fields. Qed.

Record RuntimeConfig := mkRuntimeConfig {
  rc_ConfigOnly : bool
}.
#[global] Instance settable_RuntimeConfig : Settable RuntimeConfig := fun r =>
  mkRuntimeConfig (rc_ConfigOnly r).
Definition zero_RuntimeConfig : RuntimeConfig := mkRuntimeConfig false.
#[global] Instance RuntimeConfig_eq_dec : EqDecision RuntimeConfig.
Proof. solve_decision. Defined.

Record Config := mkConfig {
  cf_Node : NodeConfig;
  cf_Capture : CaptureConfig;
  cf_Patterns : PatternConfig;
  cf_Intel : IntelConfig;
  cf_Evidence : EvidenceConfig;
  cf_Event : EventConfig;
  cf_Flow : FlowConfig;
  cf_Aggregation : AggregationConfig;
  cf_Server : ServerConfig;
  cf_Storage : StorageConfig;
  cf_Runtime : RuntimeConfig
}.
#[global] Instance settable_Config : Settable Config := fun r =>
  mkConfig (cf_Node r) (cf_Capture r) (cf_Patterns r) (cf_Intel r) (cf_Evidence r) (cf_Event r) (cf_Flow r) (cf_Aggregation r) (cf_Server r) (cf_Storage r) (cf_Runtime r).
Definition zero_Config : Config := mkConfig zero_NodeConfig zero_CaptureConfig zero_PatternConfig zero_IntelConfig zero_EvidenceConfig zero_EventConfig zero_FlowConfig zero_AggregationConfig zero_ServerConfig zero_StorageConfig zero_RuntimeConfig.
(** The last field; the runtime part is not written, so a text carries a
    configuration only when that part is zero. *)
Definition storage_field : field Config :=
  let f := req "storage" (jstruct spec_StorageConfig) cf_Storage in
  mkField Config (fd_name f) (fd_omit f) (fd_value f) (fd_into f) (fun r => fd_ok f r /\ cf_Runtime r = zero_RuntimeConfig)
    (fun r => @and_dec (fd_ok f r) (fd_dec f r) (cf_Runtime r = zero_RuntimeConfig) (RuntimeConfig_eq_dec _ _)).
Definition fields_Config : list (field Config) := [
  req "node" (jstruct spec_NodeConfig) cf_Node;
  req "capture" (jstruct spec_CaptureConfig) cf_Capture;
  req "patterns" (jstruct spec_PatternConfig) cf_Patterns;
  req "intel" (jstruct spec_IntelConfig) cf_Intel;
  req "evidence" (jstruct spec_EvidenceConfig) cf_Evidence;
  req "event" (jstruct spec_EventConfig) cf_Event;
  req "flow" (jstruct spec_FlowConfig) cf_Flow;
  req "aggregation" (jstruct spec_AggregationConfig) cf_Aggregation;
  req "server" (jstruct spec_ServerConfig) cf_Server;
  storage_field
].
Ltac storage_step Hr :=
  let H := fresh in let Hz := fresh in
  apply Forall_cons in Hr as [[H Hz] Hr];
  match goal with |- fill_all ?r _ ?s _ =>
    apply (fill_cons r storage_field [] s (s <| cf_Storage := cf_Storage r |>) r
             (tagged_fills "storage" false (jstruct spec_StorageConfig) cf_Storage (fun x r => r <| cf_Storage := x |>) r s H eq_refl eq_refl)) end;
  match goal with |- fill_all _ _ ?s _ => let s' := eval cbn in s in change s with s' end;
  match goal with r : Config |- _ => destruct r; cbn in Hz |- *; subst; apply fill_nil end.
Lemma spec_Config : struct_spec fields_Config zero_Config.
Proof.
  split.
  - vm_compute. reflexivity.
  - do 9 (apply Forall_cons; split; [apply tagged_ok|]). apply Forall_singleton. intros r [Hr _].
    exact (tagged_ok "storage" false (jstruct spec_StorageConfig) cf_Storage (fun x r => r <| cf_Storage := x |>) r Hr).
  - intros r Hr. unfold struct_ok in Hr. do 9 fill_step Hr. storage_step Hr.
  - pose (order := tag_order (fd_name <$> fields_Config)). vm_compute in order. exists order.
    assert (Ho : Codec.in_order order fields_Config = true) by (vm_compute; reflexivity). split; [exact Ho|].
    intros r Hr. apply (pick_ok fields_Config order r Ho) in Hr. clear Ho. unfold order, fields_Config in Hr |- *. clear order.
    cbn [pick_order omap list_omap lookup list_lookup] in Hr |- *. do 9 fill_step Hr. storage_step Hr.
Qed.

(** ** Defaults and validation *)

Definition Default : Config :=
  zero_Config
    <| cf_Storage := zero_StorageConfig <| sc_Backend := "v2" |> <| sc_ArchiveAfterHours := 24 |> <| sc_MaintenanceIntervalSec := 60 |>
         <| sc_ArchiveBatchSize := 100 |> <| sc_Shards := 1 |> |>
    <| cf_Node := zero_NodeConfig <| nc_DeviceID := "node-001" |> <| nc_ManagementURL := "http://127.0.0.1:8080/api/events" |> |>
    <| cf_Capture := zero_CaptureConfig <| cc_Interface := "eth0" |> <| cc_Snaplen := 65535 |> <| cc_Promiscuous := true |> |>
    <| cf_Patterns := zero_PatternConfig <| pc_PatternDir := "./patterns" |> |>
    <| cf_Intel := mkIntelConfig "./configs/intel.yaml" 30 true 300 true "Threat Intel Hub" 100000 "/data/yt" "/data/yt/ioc" true 60 10 |>
    <| cf_Evidence := mkEvidenceConfig true "./data/evidence" 7 true true |>
    <| cf_Event := mkEventConfig true "./data/event_queue.db" 100 30 5 20 60 |>
    <| cf_Flow := mkFlowConfig 1000000 120 30 |>
    <| cf_Aggregation := zero_AggregationConfig <| ac_Mode := "packet" |> <| ac_ResponseWaitSec := 30 |> <| ac_RevisionIntervalSec := 10 |>
         <| ac_MaxSessions := 100000 |> <| ac_MaxTransactionsPerSession := 16 |> <| ac_MaxPacketsPerTransaction := 128 |>
         <| ac_MaxReassemblyBytesPerSide := 262144 |> <| ac_MaxOutOfOrderBytes := 65536 |> <| ac_StorePacketIndex := true |> |>
    <| cf_Server := zero_ServerConfig <| vc_Enable := true |> <| vc_Listen := "127.0.0.1:19090" |> |>.

(** StorageConfig.Validate: the error, if any. *)
Definition Validate (s : StorageConfig) : option string :=
  if negb (seqb (sc_Backend s) "") && negb (seqb (sc_Backend s) "v2") && negb (seqb (sc_Backend s) "legacy") then Some "storage.backend must be v2 or legacy"
  else if (sc_ArchiveAfterHours s <? 0) || (sc_MaintenanceIntervalSec s <? 0) || (sc_ArchiveBatchSize s <? 0) || (1000 <? sc_ArchiveBatchSize s)
          || (sc_HighWaterBytes s <? 0) || (sc_LowWaterBytes s <? 0) then Some "invalid storage limit"
  else if (sc_Shards s <? 0) || (64 <? sc_Shards s) then Some "storage.shards must be between 0 (single file) and 64"
  else if (0 <? sc_HighWaterBytes s) && (sc_HighWaterBytes s <=? sc_LowWaterBytes s) then Some "storage.low_water_bytes must be smaller than high_water_bytes"
  else None.

(** ** The file *)

(** yaml.Marshal and yaml.Unmarshal of gopkg.in/yaml.v3 on the configuration;
    Unmarshal fills the variable it is given. *)
Class ConfigYAML := {
  config_Marshal : Config -> bytes;
  config_Unmarshal : bytes -> Config -> Config * option string
}.
(** What Load and Save rely on: every field but the runtime part is written. *)
Class ConfigYAMLLaws `{ConfigYAML} := {
  config_yaml_roundtrip : forall cfg old, config_Unmarshal (config_Marshal cfg) old = (cfg <| cf_Runtime := cf_Runtime old |>, None)
}.
Inductive load_error := NotExist | LoadErr (e : string).
(** [read path]: the answer of os.ReadFile, [None] for a file that is not there. *)
Definition Load `{ConfigYAML} (read : string -> option (res bytes)) (path : string) : Config * option load_error :=
  if seqb path "" then (Default, None)
  else match read path with
       | None => (Default, Some NotExist)
       | Some (Err e) => (Default, Some (LoadErr e))
       | Some (Ok data) => let '(cfg, err) := config_Unmarshal data Default in (cfg, LoadErr <$> err)
       end.
(** Which call of Save fails; a failing write leaves a part of the text. *)
Inductive write_fault := write_ok | write_mkdir | write_open | write_part (n : nat).
Definition Save `{ConfigYAML} (path : string) (cfg : Config) (fault : write_fault) (d : gmap string bytes) : gmap string bytes * option string :=
  match Validate (cf_Storage cfg) with
  | Some e => (d, Some e)
  | None =>
      let data := config_Marshal cfg in
      match fault with
      | write_mkdir => (d, Some "mkdir")
      | write_open => (d, Some "open")
      | write_part n => (<[path := take n data]> d, Some "write")
      | write_ok => (<[path := data]> d, None)
      end
  end.

(** ** The command line *)

Inductive flag_kind := FString | FBool.
Definition ta_node_flags : list (string * flag_kind) := [
  ("config", FString); ("interface", FString); ("pcap-file", FString); ("device-id", FString); ("management-url", FString);
  ("pattern-dir", FString); ("intel-file", FString); ("event-db", FString); ("enable-pcap-save", FBool); ("config-only", FBool)].
Definition flag_Lookup (flags : list (string * flag_kind)) (name : string) : option flag_kind :=
  snd <$> List.find (fun f => seqb f.1 name) flags.
(** strconv.ParseBool *)
Definition strconv_ParseBool (s : string) : option bool :=
  if existsb (seqb s) ["1"; "t"; "T"; "TRUE"; "true"; "True"] then Some true
  else if existsb (seqb s) ["0"; "f"; "F"; "FALSE"; "false"; "False"] then Some false else None.
(** What parseOne of the flag package sees in an argument. *)
Inductive flag_arg := NotFlag | Terminator | BadSyntax | Flag (name : string) (value : option string).
Definition flag_split (name : bytes) : flag_arg :=
  match name with
  | [] => BadSyntax
  | c :: _ =>
      if (bv c =? 45) || (bv c =? 61) then BadSyntax
      else let '(n, v, found) := bytes_Cut name (byt "=") in Flag (str n) (if found : bool then Some (str v) else None)
  end.
Definition flag_classify (s : string) : flag_arg :=
  match byt s with
  | m :: c :: r =>
      if negb (bv m =? 45) then NotFlag
      else if bv c =? 45 then match r with [] => Terminator | _ => flag_split r end
      else flag_split (c :: r)
  | _ => NotFlag
  end.
(** FlagSet.Parse: the flags that were set, and the remaining arguments. *)
Fixpoint flag_Parse (flags : list (string * flag_kind)) (actual : gmap string string) (args : list string) : res (gmap string string * list string) :=
  match args with
  | [] => Ok (actual, [])
  | s :: rest =>
      match flag_classify s with
      | NotFlag => Ok (actual, args)
      | Terminator => Ok (actual, rest)
      | BadSyntax => Err "bad flag syntax"
      | Flag name value =>
          match flag_Lookup flags name with
          | None => if seqb name "help" || seqb name "h" then Err "flag: help requested" else Err "flag provided but not defined"
          | Some FBool =>
              let v := default "true" value in
              match strconv_ParseBool v with
              | None => Err "invalid boolean value"
              | Some _ => flag_Parse flags (<[name := v]> actual) rest
              end
          | Some FString =>
              match value, rest with
              | Some v, _ => flag_Parse flags (<[name := v]> actual) rest
              | None, v :: rest => flag_Parse flags (<[name := v]> actual) rest
              | None, [] => Err "flag needs an argument"
              end
          end
      end
  end.
Definition flagWasSet (actual : gmap string string) (name : string) : bool := bool_decide (is_Some (actual !! name)).
Definition flag_string (actual : gmap string string) (name : string) (value : string) : string := default value (actual !! name).
Definition flag_bool (actual : gmap string string) (name : string) : bool := default false (actual !! name ≫= strconv_ParseBool).
Definition override (v : string) (set : string -> Config -> Config) (cfg : Config) : Config := if seqb v "" then cfg else set v cfg.
(** The settings the flags override, in the order of the source. *)
Definition flag_settings : list (string * (string -> Config -> Config)) := [
  ("interface", fun v c => c <| cf_Capture ::= fun x => x <| cc_Interface := v |> |>);
  ("pcap-file", fun v c => c <| cf_Capture ::= fun x => x <| cc_PCAPFile := v |> |>);
  ("device-id", fun v c => c <| cf_Node ::= fun x => x <| nc_DeviceID := v |> |>);
  ("management-url", fun v c => c <| cf_Node ::= fun x => x <| nc_ManagementURL := v |> |>);
  ("pattern-dir", fun v c => c <| cf_Patterns ::= fun x => x <| pc_PatternDir := v |> |>);
  ("intel-file", fun v c => c <| cf_Intel ::= fun x => x <| ic_IntelFile := v |> |>);
  ("event-db", fun v c => c <| cf_Event ::= fun x => x <| ec_QueueDB := v |> |>)].
Definition set_flag (m : gmap string string) (cfg : Config) (s : string * (string -> Config -> Config)) : Config := override (flag_string m s.1 "") s.2 cfg.
Definition apply_flags (m : gmap string string) (cfg : Config) : Config :=
  let cfg := foldl (set_flag m) cfg flag_settings in
  let cfg := if flagWasSet m "enable-pcap-save" then cfg <| cf_Evidence ::= fun x => x <| xc_EnablePCAPSave := flag_bool m "enable-pcap-save" |> |> else cfg in
  cfg <| cf_Runtime := mkRuntimeConfig (flag_bool m "config-only") |>.
Definition LoadWithFlags `{ConfigYAML} (read : string -> option (res bytes)) (args : list string) : res (Config * string * list string) :=
  '(m, rest) ← flag_Parse ta_node_flags ∅ args;
  let configPath := flag_string m "config" "./configs/ta_node.yaml" in
  match Load read configPath with
  | (_, Some (LoadErr e)) => Err e
  | (cfg, _) => Ok (apply_flags m cfg, configPath, rest)
  end.

(** ** Intervals, in nanoseconds *)

Definition Second : Z := 1000000000.
Definition Minute : Z := 60 * Second.
Definition Hour : Z := 60 * Minute.
Definition ReloadInterval (c : Config) : Z := i64 (ic_ReloadIntervalSec (cf_Intel c) * Second).
Definition PruneExpiredInterval (c : Config) : Z := i64 (ic_PruneExpiredIntervalSec (cf_Intel c) * Second).
Definition IocSyncInterval (c : Config) : Z := i64 (ic_IocSyncIntervalMin (cf_Intel c) * Minute).
Definition RetryInterval (c : Config) : Z := i64 (ec_RetryIntervalSec (cf_Event c) * Second).
Definition PushTimeout (c : Config) : Z := i64 (ec_PushTimeoutSec (cf_Event c) * Second).
Definition FlowIdleTimeout (c : Config) : Z := i64 (fc_IdleTimeoutSec (cf_Flow c) * Second).
Definition FlowCleanupInterval (c : Config) : Z :=
  let interval := fc_CleanupIntervalSec (cf_Flow c) in
  i64 ((if interval <=? 0 then 30 else interval) * Second).
Definition SessionAggregationEnabled (c : Config) : bool := seqb (ac_Mode (cf_Aggregation c)) "session" && ac_EnableTransactionLink (cf_Aggregation c).

(** ** The command line is read as it was written *)

(** A flag as it can be written. *)
Inductive flag_style := Dash_eq | Dashes_eq | Dash_next | Dashes_next | Dash_bare | Dashes_bare.
Record assignment := mkAssign { as_style : flag_style; as_name : string; as_value : string }.
Definition written_flag (a : assignment) : list string :=
  match as_style a with
  | Dash_eq => ["-" +:+ as_name a +:+ "=" +:+ as_value a]
  | Dashes_eq => ["--" +:+ as_name a +:+ "=" +:+ as_value a]
  | Dash_next => ["-" +:+ as_name a; as_value a]
  | Dashes_next => ["--" +:+ as_name a; as_value a]
  | Dash_bare => ["-" +:+ as_name a]
  | Dashes_bare => ["--" +:+ as_name a]
  end.
(** Values follow in the next argument for strings only; a bare flag is true. *)
Definition assignable (flags : list (string * flag_kind)) (a : assignment) : bool :=
  match flag_Lookup flags (as_name a) with
  | None => false
  | Some FString => match as_style a with Dash_bare | Dashes_bare => false | _ => true end
  | Some FBool => match as_style a with
                  | Dash_eq | Dashes_eq => bool_decide (is_Some (strconv_ParseBool (as_value a)))
                  | Dash_bare | Dashes_bare => seqb (as_value a) "true"
                  | _ => false
                  end
  end.
Definition assigned_by (m : gmap string string) (l : list assignment) : gmap string string := foldl (fun m a => <[as_name a := as_value a]> m) m l.
(** No flag is written after the first argument that is none. *)
Definition after_flags (rest : list string) : Prop := match rest with [] => True | s :: _ => flag_classify s = NotFlag end.
Definition plain_name (n : string) : bool :=
  match byt n with
  | [] => false
  | c :: _ => negb (bv c =? 45) && forallb (fun c => negb (bv c =? 61)) (byt n)
  end.
Definition plain_flags (flags : list (string * flag_kind)) : bool := forallb (fun f => plain_name f.1) flags.

Lemma Index_eq (n v : bytes) : forallb (fun c => negb (bv c =? 61)) n = true -> bytes_Index (n ++ chr 61 :: v) [chr 61] = Some (length n).
Proof.
  induction n as [|c n IH]; [reflexivity|]. intros [Hc Hn]%andb_prop.
  assert (bytes_HasPrefix ((c :: n) ++ chr 61 :: v) [chr 61] = false) as E.
  { cbn [app bytes_HasPrefix]. rewrite andb_true_r. apply bool_decide_eq_false. intros <-. discriminate Hc. }
  cbn [app] in *. unfold bytes_Index. fold bytes_Index. rewrite E, (IH Hn). done.
Qed.
Lemma Index_none (n : bytes) : forallb (fun c => negb (bv c =? 61)) n = true -> bytes_Index n [chr 61] = None.
Proof.
  induction n as [|c n IH]; [reflexivity|]. intros [Hc Hn]%andb_prop.
  assert (bytes_HasPrefix (c :: n) [chr 61] = false) as E.
  { cbn [bytes_HasPrefix]. rewrite andb_true_r. apply bool_decide_eq_false. intros <-. discriminate Hc. }
  unfold bytes_Index. fold bytes_Index. rewrite E, (IH Hn). done.
Qed.
Lemma plain_name_inv n : plain_name n = true -> exists c r, byt n = c :: r /\ bv c <> 45 /\ bv c <> 61 /\ forallb (fun c => negb (bv c =? 61)) (byt n) = true.
Proof.
  unfold plain_name. destruct (byt n) as [|c r]; [done|]. intros [H45 H61]%andb_prop. exists c, r.
  pose proof H61 as [Hc _]%andb_prop. apply negb_true_iff, Z.eqb_neq in H45. apply negb_true_iff, Z.eqb_neq in Hc. auto.
Qed.
Lemma split_eq n v : plain_name n = true -> flag_split (byt n ++ chr 61 :: byt v) = Flag n (Some v).
Proof.
  intros (c & r & E & H45 & H61 & Hall)%plain_name_inv. unfold flag_split. rewrite E. cbn [app].
  rewrite (proj2 (Z.eqb_neq _ _) H45), (proj2 (Z.eqb_neq _ _) H61). cbn [orb]. change (c :: r ++ chr 61 :: byt v) with ((c :: r) ++ chr 61 :: byt v). rewrite <-E.
  unfold bytes_Cut. change (byt "=") with [chr 61]. rewrite (Index_eq _ _ Hall). rewrite take_app_length. rewrite Nat.add_comm. cbn [length Nat.add].
  rewrite drop_app_ge by lia. replace (S (length (byt n)) - length (byt n))%nat with 1%nat by lia. rewrite skipn_cons, drop_0. by rewrite !str_byt.
Qed.
Lemma split_bare n : plain_name n = true -> flag_split (byt n) = Flag n None.
Proof.
  intros (c & r & E & H45 & H61 & Hall)%plain_name_inv. unfold flag_split. rewrite E.
  rewrite (proj2 (Z.eqb_neq _ _) H45), (proj2 (Z.eqb_neq _ _) H61). cbn [orb]. rewrite <-E. unfold bytes_Cut. change (byt "=") with [chr 61].
  rewrite (Index_none _ Hall). by rewrite str_byt.
Qed.
Lemma classify_dash n (x : bytes) : plain_name n = true -> flag_classify (str (chr 45 :: byt n ++ x)) = flag_split (byt n ++ x).
Proof.
  intros (c & r & E & H45 & _)%plain_name_inv. unfold flag_classify. rewrite byt_str, E. cbn [app]. change (bv (chr 45) =? 45) with true. cbn [negb].
  by rewrite (proj2 (Z.eqb_neq _ _) H45).
Qed.
Lemma classify_dashes n (x : bytes) : plain_name n = true -> flag_classify (str (chr 45 :: chr 45 :: byt n ++ x)) = flag_split (byt n ++ x).
Proof. intros (c & r & E & H45 & _)%plain_name_inv. unfold flag_classify. rewrite byt_str, E. reflexivity. Qed.
Lemma string_bytes s : s = str (byt s).
Proof. by rewrite str_byt. Qed.
(** The first argument of a flag, however it is written. *)
Lemma classify_written a : plain_name (as_name a) = true -> match as_style a with
  | Dash_eq => flag_classify ("-" +:+ as_name a +:+ "=" +:+ as_value a) = Flag (as_name a) (Some (as_value a))
  | Dashes_eq => flag_classify ("--" +:+ as_name a +:+ "=" +:+ as_value a) = Flag (as_name a) (Some (as_value a))
  | Dash_next | Dash_bare => flag_classify ("-" +:+ as_name a) = Flag (as_name a) None
  | Dashes_next | Dashes_bare => flag_classify ("--" +:+ as_name a) = Flag (as_name a) None
  end.
Proof.
  intros Hn. destruct (as_style a).
  1, 3, 5: rewrite (string_bytes ("-" +:+ _)), !byt_app; change (byt "-") with [chr 45].
  4, 5, 6: rewrite (string_bytes ("--" +:+ _)), !byt_app; change (byt "--") with [chr 45; chr 45].
  all: cbn [app].
  1: rewrite classify_dash by done; by apply split_eq.
  3: rewrite classify_dashes by done; by apply split_eq.
  1, 2: rewrite <-(app_nil_r (byt (as_name a))), classify_dash, app_nil_r by done; by apply split_bare.
  all: rewrite <-(app_nil_r (byt (as_name a))), classify_dashes, app_nil_r by done; by apply split_bare.
Qed.
Lemma lookup_plain flags n k : plain_flags flags = true -> flag_Lookup flags n = Some k -> plain_name n = true.
Proof.
  unfold flag_Lookup. intros Hp Hk. destruct (List.find _ flags) as [[m k']|] eqn:E; [|done]. apply find_some in E as [Hin E%seqb_spec]. cbn in E. subst m.
  exact (proj1 (forallb_forall _ _) Hp (n, k') Hin).
Qed.
Lemma flag_Parse_written flags l rest m : plain_flags flags = true -> forallb (assignable flags) l = true -> after_flags rest ->
  flag_Parse flags m (concat (written_flag <$> l) ++ rest) = Ok (assigned_by m l, rest).
Proof.
  intros Hp Hl Hrest. revert m. induction l as [|a l IH]; intros m; cbn [fmap list_fmap concat app].
  { destruct rest as [|s rest]; [done|]. cbn [flag_Parse after_flags] in *. by rewrite Hrest. }
  cbn [forallb] in Hl. apply andb_prop in Hl as [Ha Hl]. unfold assignable in Ha. destruct (flag_Lookup flags (as_name a)) as [k|] eqn:Ek; [|done].
  pose proof (classify_written a (lookup_plain _ _ _ Hp Ek)) as Hc. unfold written_flag at 1. rewrite <-app_assoc. specialize (IH Hl (<[as_name a := as_value a]> m)).
  destruct (as_style a), k; try done; cbn [app flag_Parse]; rewrite Hc, Ek; cbn [from_option id].
  all: try (apply bool_decide_eq_true in Ha as [b Hb]; rewrite Hb; exact IH).
  all: try exact IH.
  all: apply seqb_spec in Ha; change (assigned_by m (a :: l)) with (assigned_by (<[as_name a := as_value a]> m) l); rewrite Ha in *; exact IH.
Qed.

(** ** The layers *)

(** The settings that have a flag. *)
Definition flag_fields : list (string * (Config -> string)) := [
  ("interface", fun c => cc_Interface (cf_Capture c)); ("pcap-file", fun c => cc_PCAPFile (cf_Capture c)); ("device-id", fun c => nc_DeviceID (cf_Node c));
  ("management-url", fun c => nc_ManagementURL (cf_Node c)); ("pattern-dir", fun c => pc_PatternDir (cf_Patterns c));
  ("intel-file", fun c => ic_IntelFile (cf_Intel c)); ("event-db", fun c => ec_QueueDB (cf_Event c))].
(** A configuration without them. *)
Definition without_flags (c : Config) : Config :=
  c <| cf_Capture ::= fun x => x <| cc_Interface := "" |> <| cc_PCAPFile := "" |> |> <| cf_Node ::= fun x => x <| nc_DeviceID := "" |> <| nc_ManagementURL := "" |> |>
    <| cf_Patterns ::= fun x => x <| pc_PatternDir := "" |> |> <| cf_Intel ::= fun x => x <| ic_IntelFile := "" |> |> <| cf_Event ::= fun x => x <| ec_QueueDB := "" |> |>
    <| cf_Evidence ::= fun x => x <| xc_EnablePCAPSave := false |> |> <| cf_Runtime := zero_RuntimeConfig |>.
Section overrides.
Context {A : Type} (get : Config -> A) (m : gmap string string).
Lemma settings_other l c : Forall (fun s => forall v c, get (s.2 v c) = get c) l ->
  get (foldl (set_flag m) c l) = get c.
Proof.
  intros Hl. revert c. induction Hl as [|[n set] l Hs _ IH]; intros c; [done|]. cbn [foldl]. rewrite IH. unfold set_flag, override. by case_match.
Qed.
End overrides.
Lemma settings_own (get : Config -> string) m l1 n set l2 c : Forall (fun s => forall v c, get (s.2 v c) = get c) (l1 ++ l2) -> (forall v c, get (set v c) = v) ->
  get (foldl (set_flag m) c (l1 ++ (n, set) :: l2))
  = match m !! n with Some v => if seqb v "" then get c else v | None => get c end.
Proof.
  intros [H1 H2]%Forall_app Hs. rewrite foldl_app. cbn [foldl]. rewrite (settings_other get m) by done. unfold set_flag, override, flag_string. cbn [fst snd].
  destruct (m !! n) as [v|]; cbn [from_option id]; [|rewrite seqb_refl; by rewrite (settings_other get m)]. destruct (seqb v ""); [by rewrite (settings_other get m)|apply Hs].
Qed.
(** A getter that neither the evidence flag nor the runtime part changes. *)
Lemma apply_flags_get {A} (get : Config -> A) m c : (forall c b r, get (c <| cf_Evidence ::= fun x => x <| xc_EnablePCAPSave := b |> |> <| cf_Runtime := r |>) = get c) ->
  (forall c r, get (c <| cf_Runtime := r |>) = get c) ->
  get (apply_flags m c) = get (foldl (set_flag m) c flag_settings).
Proof. intros H1 H2. unfold apply_flags. cbv zeta. case_match; [apply H1|apply H2]. Qed.
Lemma apply_flag_own (get : Config -> string) k n set m c : flag_settings !! k = Some (n, set) ->
  (forall c b r, get (c <| cf_Evidence ::= fun x => x <| xc_EnablePCAPSave := b |> |> <| cf_Runtime := r |>) = get c) -> (forall c r, get (c <| cf_Runtime := r |>) = get c) ->
  Forall (fun s => forall v c, get (s.2 v c) = get c) (take k flag_settings ++ drop (S k) flag_settings) -> (forall v c, get (set v c) = v) ->
  get (apply_flags m c) = match m !! n with Some v => if seqb v "" then get c else v | None => get c end.
Proof.
  intros Hk H1 H2 Ho Hs. rewrite (apply_flags_get get) by done. rewrite <-(take_drop_middle _ _ _ Hk). by apply settings_own.
Qed.
Ltac flag_case Hk i :=
  injection Hk as <- <-;
  match goal with |- snd (?n, ?get) _ = _ =>
    refine (apply_flag_own get i n _ _ _ eq_refl (fun _ _ _ => eq_refl) (fun _ _ => eq_refl) _ (fun _ _ => eq_refl));
    repeat (apply Forall_cons; split; [intros; reflexivity|]); apply Forall_nil_2
  end.
Lemma apply_flags_strings m c :
  Forall (fun f => f.2 (apply_flags m c) = match m !! f.1 with Some v => if seqb v "" then f.2 c else v | None => f.2 c end) flag_fields.
Proof.
  apply Forall_lookup. intros k [n get] Hk.
  destruct k as [|k]; [flag_case Hk 0%nat|].
  destruct k as [|k]; [flag_case Hk 1%nat|].
  destruct k as [|k]; [flag_case Hk 2%nat|].
  destruct k as [|k]; [flag_case Hk 3%nat|].
  destruct k as [|k]; [flag_case Hk 4%nat|].
  destruct k as [|k]; [flag_case Hk 5%nat|].
  destruct k as [|k]; [flag_case Hk 6%nat|].
  discriminate Hk.
Qed.
Lemma apply_flags_rest m c : without_flags (apply_flags m c) = without_flags c
  /\ cf_Runtime (apply_flags m c) = mkRuntimeConfig (flag_bool m "config-only")
  /\ xc_EnablePCAPSave (cf_Evidence (apply_flags m c)) = (if flagWasSet m "enable-pcap-save" then flag_bool m "enable-pcap-save" else xc_EnablePCAPSave (cf_Evidence c)).
Proof.
  split_and!.
  - rewrite (apply_flags_get without_flags) by reflexivity. apply settings_other. repeat (apply Forall_cons; split; [intros; reflexivity|]). apply Forall_nil_2.
  - reflexivity.
  - assert (forall X, xc_EnablePCAPSave (cf_Evidence ((if flagWasSet m "enable-pcap-save" then X <| cf_Evidence ::= fun x => x <| xc_EnablePCAPSave := flag_bool m "enable-pcap-save" |> |> else X)
      <| cf_Runtime := mkRuntimeConfig (flag_bool m "config-only") |>)) = if flagWasSet m "enable-pcap-save" then flag_bool m "enable-pcap-save" else xc_EnablePCAPSave (cf_Evidence X)) as E
      by (intros X; by case_match).
    unfold apply_flags. cbv zeta. rewrite E. case_match; [done|].
    apply (settings_other (fun c => xc_EnablePCAPSave (cf_Evidence c))). repeat (apply Forall_cons; split; [intros; reflexivity|]). apply Forall_nil_2.
Qed.

Section layers.
Context `{ConfigYAML}.


(** A saved configuration is loaded as it was.  Save refuses invalid
    storage settings before it touches the disk; when it succeeds, only the file
    is changed and Load returns the configuration, apart from the part that
    belongs to the running process. *)
Lemma Save_Load `{!ConfigYAMLLaws} (path : string) (cfg : Config) (fault : write_fault) (d d' : gmap string bytes) (err : option string) :
  path <> "" -> Save path cfg fault d = (d', err) ->
  (forall p, p <> path -> d' !! p = d !! p)
  /\ match err with
     | None => Validate (cf_Storage cfg) = None /\ Load (fun p => Ok <$> d' !! p) path = (cfg <| cf_Runtime := zero_RuntimeConfig |>, None)
     | Some e => Validate (cf_Storage cfg) = Some e -> d' = d
     end.
Proof.
  intros Hp. unfold Save. destruct (Validate (cf_Storage cfg)) as [e|] eqn:Ev; [by intros [= <- <-]|].
  assert (forall x p, p <> path -> (<[path := x]> d : gmap string bytes) !! p = d !! p) as Hother by (intros x p Hne; by rewrite lookup_insert_ne).
  destruct fault; intros [= <- <-]; (split; [first [done|apply Hother]|]); try done. split; [done|]. unfold Load. rewrite (proj2 (seqb_neq _ _) Hp), lookup_insert_eq. cbn [fmap option_fmap option_map].
  by rewrite config_yaml_roundtrip.
Qed.
End layers.

(** ** Accepted storage settings *)

Lemma Validate_None s : Validate s = None -> (sc_Backend s = "" \/ sc_Backend s = "v2" \/ sc_Backend s = "legacy") /\ 0 <= sc_ArchiveAfterHours s
  /\ 0 <= sc_MaintenanceIntervalSec s /\ 0 <= sc_ArchiveBatchSize s <= 1000 /\ 0 <= sc_Shards s <= 64 /\ 0 <= sc_LowWaterBytes s /\ 0 <= sc_HighWaterBytes s
  /\ (0 < sc_HighWaterBytes s -> sc_LowWaterBytes s < sc_HighWaterBytes s).
Proof.
  unfold Validate. destruct (negb _ && _ && _) eqn:Eb; [done|]. case_match eqn:El; [done|]. case_match eqn:Es; [done|]. case_match eqn:Ew; [done|]. intros _.
  rewrite !andb_false_iff, !negb_false_iff, !seqb_spec in Eb. split; [tauto|]. clear Eb.
  repeat match goal with H : _ || _ = false |- _ => apply orb_false_iff in H as [? ?] end. apply andb_false_iff in Ew.
  rewrite ?Z.ltb_ge, ?Z.leb_gt in *. lia.
Qed.

(** ** Witnesses *)

#[global, refine] Instance StorageConfig_countable : Countable StorageConfig :=
  inj_countable' (fun r => (sc_Backend r, sc_ArchiveDir r, sc_ArchiveAfterHours r, sc_MaintenanceIntervalSec r, sc_ArchiveBatchSize r, sc_HighWaterBytes r, sc_LowWaterBytes r, sc_MinFreeBytes r, sc_Shards r)) (fun '(x0, x1, x2, x3, x4, x5, x6, x7, x8) => mkStorageConfig x0 x1 x2 x3 x4 x5 x6 x7 x8) _.
Proof. by intros []. Defined.
#[global] Instance NodeConfig_eq_dec : EqDecision NodeConfig.
Proof. solve_decision. Defined.
#[global, refine] Instance NodeConfig_countable : Countable NodeConfig :=
  inj_countable' (fun r => (nc_DeviceID r, nc_ManagementURL r, nc_APIKey r, nc_HomeNet r)) (fun '(x0, x1, x2, x3) => mkNodeConfig x0 x1 x2 x3) _.
Proof. by intros []. Defined.
#[global] Instance CaptureConfig_eq_dec : EqDecision CaptureConfig.
Proof. solve_decision. Defined.
#[global, refine] Instance CaptureConfig_countable : Countable CaptureConfig :=
  inj_countable' (fun r => (cc_Interface r, cc_PCAPFile r, cc_BPFFilter r, cc_Snaplen r, cc_Promiscuous r, cc_Workers r)) (fun '(x0, x1, x2, x3, x4, x5) => mkCaptureConfig x0 x1 x2 x3 x4 x5) _.
Proof. by intros []. Defined.
#[global] Instance PatternConfig_eq_dec : EqDecision PatternConfig.
Proof. solve_decision. Defined.
#[global, refine] Instance PatternConfig_countable : Countable PatternConfig :=
  inj_countable' (fun r => (pc_Enable r, pc_PatternDir r)) (fun '(x0, x1) => mkPatternConfig x0 x1) _.
Proof. by intros []. Defined.
#[global] Instance IntelConfig_eq_dec : EqDecision IntelConfig.
Proof. solve_decision. Defined.
#[global, refine] Instance IntelConfig_countable : Countable IntelConfig :=
  inj_countable' (fun r => (ic_IntelFile r, ic_ReloadIntervalSec r, ic_EnableHotReload r, ic_PruneExpiredIntervalSec r, ic_AcceptSTIX r, ic_DefaultSource r, ic_MaxItems r, ic_IocSyncDir r, ic_IocSyncDir2 r, ic_EnableIocSync r, ic_IocSyncIntervalMin r, ic_IocSyncRetainDays r)) (fun '(x0, x1, x2, x3, x4, x5, x6, x7, x8, x9, x10, x11) => mkIntelConfig x0 x1 x2 x3 x4 x5 x6 x7 x8 x9 x10 x11) _.
Proof. by intros []. Defined.
#[global] Instance EvidenceConfig_eq_dec : EqDecision EvidenceConfig.
Proof. solve_decision. Defined.
#[global, refine] Instance EvidenceConfig_countable : Countable EvidenceConfig :=
  inj_countable' (fun r => (xc_EnablePCAPSave r, xc_PCAPDir r, xc_RetainDays r, xc_HashEvidenceDir r, xc_ArchiveMonthly r)) (fun '(x0, x1, x2, x3, x4) => mkEvidenceConfig x0 x1 x2 x3 x4) _.
Proof. by intros []. Defined.
#[global] Instance EventConfig_eq_dec : EqDecision EventConfig.
Proof. solve_decision. Defined.
#[global, refine] Instance EventConfig_countable : Countable EventConfig :=
  inj_countable' (fun r => (ec_EnablePush r, ec_QueueDB r, ec_PushBatchSize r, ec_RetryIntervalSec r, ec_PushTimeoutSec r, ec_MaxPushRetry r, ec_LocalHitWindowSec r)) (fun '(x0, x1, x2, x3, x4, x5, x6) => mkEventConfig x0 x1 x2 x3 x4 x5 x6) _.
Proof. by intros []. Defined.
#[global] Instance FlowConfig_eq_dec : EqDecision FlowConfig.
Proof. solve_decision. Defined.
#[global, refine] Instance FlowConfig_countable : Countable FlowConfig :=
  inj_countable' (fun r => (fc_MaxFlows r, fc_IdleTimeoutSec r, fc_CleanupIntervalSec r)) (fun '(x0, x1, x2) => mkFlowConfig x0 x1 x2) _.
Proof. by intros []. Defined.
#[global] Instance AggregationConfig_eq_dec : EqDecision AggregationConfig.
Proof. solve_decision. Defined.
#[global, refine] Instance AggregationConfig_countable : Countable AggregationConfig :=
  inj_countable' (fun r => (ac_Mode r, ac_EnableTransactionLink r, ac_ResponseWaitSec r, ac_RevisionIntervalSec r, ac_MaxSessions r, ac_MaxTransactionsPerSession r, ac_MaxPacketsPerTransaction r, ac_MaxReassemblyBytesPerSide r, ac_MaxOutOfOrderBytes r, ac_StorePacketIndex r, ac_SaveFullSessionPCAP r)) (fun '(x0, x1, x2, x3, x4, x5, x6, x7, x8, x9, x10) => mkAggregationConfig x0 x1 x2 x3 x4 x5 x6 x7 x8 x9 x10) _.
Proof. by intros []. Defined.
#[global] Instance ServerConfig_eq_dec : EqDecision ServerConfig.
Proof. solve_decision. Defined.
#[global, refine] Instance ServerConfig_countable : Countable ServerConfig :=
  inj_countable' (fun r => (vc_Enable r, vc_Listen r, vc_Token r)) (fun '(x0, x1, x2) => mkServerConfig x0 x1 x2) _.
Proof. by intros []. Defined.
#[global, refine] Instance RuntimeConfig_countable : Countable RuntimeConfig := inj_countable' rc_ConfigOnly mkRuntimeConfig _.
Proof. by intros []. Defined.
#[global] Instance Config_eq_dec : EqDecision Config.
Proof. solve_decision. Defined.
#[global, refine] Instance Config_countable : Countable Config :=
  inj_countable' (fun r => (cf_Node r, cf_Capture r, cf_Patterns r, cf_Intel r, cf_Evidence r, cf_Event r, cf_Flow r, cf_Aggregation r, cf_Server r, cf_Storage r, cf_Runtime r)) (fun '(x0, x1, x2, x3, x4, x5, x6, x7, x8, x9, x10) => mkConfig x0 x1 x2 x3 x4 x5 x6 x7 x8 x9 x10) _.
Proof. by intros []. Defined.

(** A codec for the examples. *)
Definition bits_config : ConfigYAML :=
  {| config_Marshal := fun cfg => bits_of (countable.encode cfg);
     config_Unmarshal := fun b old => match countable.decode (of_bits b) with Some cfg => (cfg <| cf_Runtime := cf_Runtime old |>, None) | None => (old, Some "yaml") end |}.
#[global] Instance bits_config_laws : @ConfigYAMLLaws bits_config.
Proof. constructor. intros cfg old. cbn. by rewrite of_bits_of, countable.decode_encode. Qed.

