(* ===== verification/Paths.v ===== *)
(** * Paths: filepath.Clean and filepath.Join on Unix

    The cleaned form of a path and what joining adds to it: a name in which
    ".." does not occur leads to a place beneath the directory it is joined to. *)

From S2P Require Import Prelude GoStrings Detector.

(** filepath.Join: from the first element that is not empty. *)
Fixpoint join_elems (elems : list string) : string :=
  match elems with
  | [] => ""
  | e :: rest => if seqb e "" then join_elems rest else filepath_Clean (strings_Join elems "/")
  end.

Definition join_paths (dir name : string) : string := join_elems [dir; name].

(** ** Splitting at one byte *)

Fixpoint cut_at (c : ascii) (b : bytes) : list bytes :=
  match b with
  | [] => [[]]
  | x :: r => if bool_decide (x = c) then [] :: cut_at c r else match cut_at c r with [] => [[x]] | h :: t => (x :: h) :: t end
  end.
Lemma split_fuel_cut c s : forall n, (length s < n)%nat -> split_fuel n s [c] = cut_at c s.
Proof.
  induction s as [|x s IH]; intros [|n] Hn; cbn [length] in Hn; try lia; [done|]. cbn [split_fuel bytes_Index bytes_HasPrefix cut_at].
  destruct (decide (x = c)) as [->|Hne].
  - rewrite !bool_decide_true by done. cbn [andb take]. cbn [length Nat.add drop]. by rewrite IH by lia.
  - rewrite (bool_decide_false (c = x)), (bool_decide_false (x = c)) by congruence. cbn [andb]. rewrite <-(IH (S n)) by lia. cbn [split_fuel].
    destruct (bytes_Index s [c]) as [i|]; done.
Qed.
Lemma Split_cut s : strings_Split s "/" = str <$> cut_at "/" (byt s).
Proof. unfold strings_Split. f_equal. apply (split_fuel_cut "/"). lia. Qed.
Lemma cut_at_app c a b : cut_at c (a ++ c :: b) = cut_at c a ++ cut_at c b.
Proof.
  induction a as [|x a IH]; cbn [cut_at app]; [by rewrite bool_decide_true|]. rewrite IH. case_match; [done|].
  destruct (cut_at c a) eqn:E; [|done]. by destruct a; cbn in E; repeat case_match.
Qed.
Lemma cut_at_free c a : c ∉ a -> cut_at c a = [a].
Proof.
  induction a as [|x a IH]; [done|]. intros [Hne Hn]%not_elem_of_cons. cbn [cut_at]. rewrite bool_decide_false by congruence. by rewrite IH.
Qed.
Lemma cut_at_inside c b e : e ∈ cut_at c b -> c ∉ e /\ exists p q, b = p ++ e ++ q.
Proof.
  revert e. enough (forall e, (head (cut_at c b) = Some e -> c ∉ e /\ exists q, b = e ++ q) /\ (e ∈ cut_at c b -> c ∉ e /\ exists p q, b = p ++ e ++ q)) as Hx by (intros e; apply Hx).
  induction b as [|x b IH]; intros e; cbn [cut_at].
  - split; [intros [= <-]|intros ->%list_elem_of_singleton]; (split; [apply not_elem_of_nil|]); first [by exists []|by exists [], []].
  - case_match eqn:Ex.
    + split; [intros [= <-]; split; [apply not_elem_of_nil|by eexists]|].
      intros [->|He]%elem_of_cons; [split; [apply not_elem_of_nil|by exists [], (x :: b)]|].
      destruct (IH e) as [_ Hi]. destruct (Hi He) as (Hf & p & q & ->). split; [done|]. by exists (x :: p), q.
    + apply bool_decide_eq_false in Ex. destruct (cut_at c b) as [|h t]; cbn [head].
      * assert (c ∉ [x]) by (intros ->%list_elem_of_singleton; done).
        split; [intros [= <-]|intros ->%list_elem_of_singleton]; (split; [done|]); [by exists b|by exists [], b].
      * destruct (IH h) as [(Hf & q & Eb) _]; [done|]. assert (c ∉ x :: h) by (apply not_elem_of_cons; split; congruence).
        split; [intros [= <-]; split; [done|]; exists q; by rewrite Eb|].
        intros [->|He]%elem_of_cons; [split; [done|]; exists [], q; cbn; by rewrite Eb at 1|].
        destruct (IH e) as [_ Hi]. destruct (Hi ltac:(by right)) as (Hf' & p & q' & E'). split; [done|]. exists (x :: p), q'. cbn. by rewrite E' at 1.
Qed.
Lemma Index_inside p s q : is_Some (bytes_Index (p ++ s ++ q) s).
Proof.
  induction p as [|x p IH]; cbn [app].
  - destruct (s ++ q) eqn:E; cbn [bytes_Index]; rewrite <-E, bytes_HasPrefix_app; eauto.
  - cbn [bytes_Index]. case_match; [eauto|]. destruct IH as [i ->]. by eexists.
Qed.

(** ** Clean paths *)

(** The path of the elements from the root, or from the working directory. *)
Definition path_string (rooted : bool) (elems : list string) : string :=
  let out := strings_Join elems "/" in if rooted then "/" +:+ out else if seqb out "" then "." else out.
(** The name of an entry of a directory. *)
Definition slash_free (s : string) : Prop := ("/"%char : ascii) ∉ byt s.
Definition entry_name (s : string) : Prop := slash_free s /\ s <> "" /\ s <> "." /\ s <> "..".
(** What Clean keeps: names, and ".." at the front of a relative path. *)
Definition kept_name (s : string) : Prop := slash_free s /\ s <> "" /\ s <> ".".
Definition elements (path : string) : list string := rev (foldl (clean_step (strings_HasPrefix path "/")) [] (strings_Split path "/")).
Lemma Clean_string path : filepath_Clean path = path_string (strings_HasPrefix path "/") (elements path).
Proof. done. Qed.
Lemma slash_free_split path : Forall slash_free (strings_Split path "/").
Proof. rewrite Split_cut. apply Forall_fmap, Forall_forall. intros e [He _]%cut_at_inside. unfold compose, slash_free. by rewrite byt_str. Qed.
Lemma clean_step_kept rooted kept e : slash_free e -> Forall kept_name kept -> Forall kept_name (clean_step rooted kept e).
Proof.
  intros He Hk. unfold clean_step. destruct (seqb_reflect e "") as [|H1], (seqb_reflect e ".") as [|H2]; cbn [orb]; try done.
  assert (kept_name e) by done. repeat case_match; try done; subst; auto. by inversion Hk.
Qed.
Lemma elements_kept path : Forall kept_name (elements path).
Proof.
  unfold elements. apply Forall_rev. generalize (strings_HasPrefix path "/") as rooted. intros rooted.
  pose proof (Forall_nil_2 kept_name) as Hk. revert Hk. generalize (@nil string) as kept.
  induction (slash_free_split path) as [|e l He Hl IH]; intros kept Hk; [done|]. cbn [foldl]. by apply IH, clean_step_kept.
Qed.
(** Cleaned elements are split as they were joined. *)
Lemma Split_Join l : l <> [] -> Forall kept_name l -> strings_Split (strings_Join l "/") "/" = l.
Proof.
  intros Hne Hl. rewrite Split_cut. induction Hl as [|e l [He _] Hl IH]; [done|]. destruct l as [|f l].
  - cbn. rewrite cut_at_free by done. cbn. by rewrite str_byt.
  - specialize (IH ltac:(done)). change (strings_Join (e :: f :: l) "/") with (e +:+ "/" +:+ strings_Join (f :: l) "/"). rewrite !byt_app.
    change (byt "/" ++ ?b) with ("/"%char :: b). rewrite cut_at_app, fmap_app, IH, cut_at_free by done. cbn. by rewrite str_byt.
Qed.
(** Names are pushed. *)
Lemma clean_names rooted l : forall kept, Forall (fun e => slash_free e /\ e <> "..") l ->
  exists names, Forall entry_name names /\ foldl (clean_step rooted) kept l = rev names ++ kept.
Proof.
  induction l as [|e l IH]; intros kept Hl; [by exists []|]. inversion Hl as [|? ? [Hf Hd] Hl' [Ee El]]; subst. cbn [foldl].
  destruct (decide (e = "" \/ e = ".")) as [Hs|Hs].
  - destruct (IH kept Hl') as (names & Hn & E). exists names. split; [done|]. rewrite <-E. f_equal. unfold clean_step. by destruct Hs as [-> | ->].
  - destruct (IH (e :: kept) Hl') as (names & Hn & E). exists (e :: names). assert (e <> "" /\ e <> ".") as [H1 H2] by tauto. split; [by constructor|].
    cbn [rev]. rewrite <-app_assoc. cbn [app]. rewrite <-E. f_equal. unfold clean_step.
    by rewrite (proj2 (seqb_neq _ _) H1), (proj2 (seqb_neq _ _) H2), (proj2 (seqb_neq _ _) Hd).
Qed.

(** The stack of elements kept so far, last first. *)
Definition clean_stack (rooted : bool) (kept : list string) : Prop :=
  exists names n, kept = names ++ replicate n ".." /\ Forall entry_name names /\ (rooted = true -> n = 0%nat).
Lemma clean_step_stack rooted kept e : slash_free e -> clean_stack rooted kept -> clean_stack rooted (clean_step rooted kept e).
Proof.
  intros He (names & n & -> & Hn & Hr). unfold clean_step. destruct (seqb_reflect e "") as [|H1], (seqb_reflect e ".") as [|H2]; cbn [orb]; try (by exists names, n).
  destruct (seqb_reflect e "..") as [->|H3]; [|exists (e :: names), n; split_and!; [done|by constructor|done]].
  destruct Hn as [|x names (Hx & ? & ? & Hd) Hn]; cbn [app].
  - destruct n as [|n]; cbn [replicate]; [destruct rooted; [by exists [], 0%nat|by exists [], 1%nat]|].
    exists [], (S (S n)). split_and!; [done|done|]. intros Ht. by specialize (Hr Ht).
  - rewrite (proj2 (seqb_neq _ _) Hd). by exists names, n.
Qed.
Lemma elements_stack path : clean_stack (strings_HasPrefix path "/") (rev (elements path)).
Proof.
  unfold elements. rewrite rev_involutive. generalize (strings_HasPrefix path "/") as rooted. intros rooted.
  assert (clean_stack rooted []) as Hk by by (exists [], 0%nat). revert Hk. generalize (@nil string) as kept.
  induction (slash_free_split path) as [|e l He Hl IH]; intros kept Hk; [done|]. cbn [foldl]. by apply IH, clean_step_stack.
Qed.
Lemma clean_push rooted l : forall kept, Forall entry_name l -> foldl (clean_step rooted) kept l = rev l ++ kept.
Proof.
  induction l as [|e l IH]; intros kept Hl; [done|]. inversion Hl as [|? ? (Hf & H1 & H2 & H3) Hl' [Ee El]]; subst. cbn [foldl rev]. rewrite IH, <-app_assoc by done.
  unfold clean_step at 1. by rewrite (proj2 (seqb_neq _ _) H1), (proj2 (seqb_neq _ _) H2), (proj2 (seqb_neq _ _) H3).
Qed.
Lemma clean_dots n : forall m, foldl (clean_step false) (replicate m "..") (replicate n "..") = replicate (n + m) "..".
Proof.
  induction n as [|n IH]; intros m; [done|]. cbn [replicate foldl]. change ((S n + m)%nat) with (S (n + m)). rewrite <-Nat.add_succ_r, <-(IH (S m)). f_equal.
  by destruct m.
Qed.
(** Cleaning keeps a clean stack. *)
Lemma clean_again rooted kept : clean_stack rooted kept -> foldl (clean_step rooted) [] (rev kept) = kept.
Proof.
  intros (names & n & -> & Hn & Hr). rewrite rev_app_distr, foldl_app.
  assert (foldl (clean_step rooted) [] (rev (replicate n "..")) = replicate n "..") as ->.
  { rewrite rev_alt. change (rev_append (replicate n "..") []) with (reverse (replicate n "..")). rewrite reverse_replicate. destruct rooted; [by rewrite Hr|]. pose proof (clean_dots n 0) as Hd. by rewrite Nat.add_0_r in Hd. }
  rewrite clean_push by (by apply Forall_rev). by rewrite rev_involutive.
Qed.
Lemma clean_split rooted l : Forall kept_name l -> foldl (clean_step rooted) [] (strings_Split (path_string rooted l) "/") = foldl (clean_step rooted) [] l.
Proof.
  intros Hl. unfold path_string.
  assert (l <> [] -> strings_Join l "/" <> "") as Hj.
  { destruct Hl as [|e l (_ & He & _) Hl]; [done|]. intros _. destruct l; [done|]. cbn. by destruct e. }
  destruct rooted.
  - assert (strings_Split ("/" +:+ strings_Join l "/") "/" = "" :: strings_Split (strings_Join l "/") "/") as -> by (by rewrite !Split_cut, byt_app).
    cbn [foldl]. destruct l; [done|]. by rewrite Split_Join.
  - destruct l as [|e l]; [done|]. rewrite (proj2 (seqb_neq _ _) (Hj ltac:(done))). by rewrite Split_Join.
Qed.
Lemma rooted_string rooted l : Forall kept_name l -> strings_HasPrefix (path_string rooted l) "/" = rooted.
Proof.
  intros Hl. unfold path_string, strings_HasPrefix. destruct rooted; [rewrite byt_app; apply bytes_HasPrefix_app|].
  destruct Hl as [|e l (Hf & He & _) Hl]; [done|]. assert (exists rest, strings_Join (e :: l) "/" = e +:+ rest) as [rest ->].
  { destruct l; [exists ""; apply (inj byt); by rewrite byt_app, app_nil_r|by eexists]. }
  destruct e as [|c e]; [done|]. rewrite (proj2 (seqb_neq _ _)) by done. change (byt (String c e +:+ rest)) with (c :: byt (e +:+ rest)). cbn. rewrite andb_true_r. apply bool_decide_eq_false. intros <-. apply Hf. cbn. left.
Qed.
(** Joining a name without ".." to a cleaned directory leads beneath it. *)
Lemma join_beneath dir name : strings_Contains name ".." = false -> exists rooted elems names,
  filepath_Clean dir = path_string rooted elems /\ join_paths (filepath_Clean dir) name = path_string rooted (elems ++ names)
  /\ Forall kept_name elems /\ Forall entry_name names.
Proof.
  intros Hc. exists (strings_HasPrefix dir "/"), (elements dir).
  assert (Forall (fun e => slash_free e /\ e <> "..") (strings_Split name "/")) as Hn.
  { apply Forall_forall. intros e He. split; [by apply (proj1 (Forall_forall _ _) (slash_free_split name))|]. intros ->.
    rewrite Split_cut in He. apply list_elem_of_fmap in He as (b & Eb & (_ & p & q & Ep)%cut_at_inside). revert Hc. unfold strings_Contains.
    rewrite Ep. apply (f_equal byt) in Eb. rewrite byt_str in Eb. rewrite Eb, bool_decide_true by apply Index_inside. done. }
  pose proof (elements_kept dir) as Hk. pose proof (elements_stack dir) as Hstack. rewrite Clean_string. set (rooted := strings_HasPrefix dir "/") in *.
  destruct (clean_names rooted (strings_Split name "/") (rev (elements dir)) Hn) as (names & Hnames & E). exists names. split_and!; [done| |done|done].
  assert (path_string rooted (elements dir) <> "") as Hne by (unfold path_string; destruct rooted; [done|]; by destruct (seqb_reflect (strings_Join (elements dir) "/") "")).
  unfold join_paths. cbn [join_elems]. rewrite (proj2 (seqb_neq _ _) Hne). change (strings_Join [?a; ?b] "/") with (a +:+ "/" +:+ b). unfold filepath_Clean. set (base := path_string rooted (elements dir)) in *.
  assert (strings_HasPrefix (base +:+ "/" +:+ name) "/" = rooted) as ->.
  { transitivity (strings_HasPrefix base "/"); [|exact (rooted_string rooted (elements dir) Hk)]. clearbody base.
    destruct base as [|c b]; [done|]. unfold strings_HasPrefix. rewrite byt_app. by cbn. }
  assert (strings_Split (base +:+ "/" +:+ name) "/" = strings_Split base "/" ++ strings_Split name "/") as ->.
  { rewrite !Split_cut, !byt_app. change (byt "/" ++ ?b) with ("/"%char :: b). by rewrite cut_at_app, fmap_app. }
  rewrite foldl_app. unfold base. rewrite clean_split by done. pose proof (clean_again rooted _ Hstack) as Ha. rewrite rev_involutive in Ha.
  rewrite Ha, E, rev_app_distr, !rev_involutive. done.
Qed.

(** *** Joining names *)

Lemma clean_stack_names rooted names kept : Forall entry_name names -> clean_stack rooted kept -> clean_stack rooted (rev names ++ kept).
Proof.
  intros Hn (ns & n & -> & Hns & Hr). exists (rev names ++ ns), n. split; [by rewrite app_assoc|]. split; [|done]. apply Forall_app. split; [by apply Forall_rev|done].
Qed.
Lemma clean_stack_kept rooted kept : clean_stack rooted kept -> Forall kept_name kept.
Proof.
  intros (ns & n & -> & Hns & _). apply Forall_app. split; [eapply Forall_impl; [exact Hns|]; intros e (? & ? & ? & _); done|].
  apply Forall_replicate. split_and!; [|done|done]. intros Hin. repeat (apply elem_of_cons in Hin as [?|Hin]; [done|]). by apply not_elem_of_nil in Hin.
Qed.
(** The elements of a cleaned path are those it was put together from. *)
Lemma elements_string r es : clean_stack r (rev es) -> elements (path_string r es) = es /\ strings_HasPrefix (path_string r es) "/" = r.
Proof.
  intros Hs. assert (Forall kept_name es) as Hk by (apply clean_stack_kept in Hs; apply Forall_rev in Hs; by rewrite rev_involutive in Hs).
  split; [|by apply rooted_string]. unfold elements. rewrite rooted_string, clean_split by done. pose proof (clean_again r _ Hs) as Ha. rewrite rev_involutive in Ha.
  by rewrite Ha, rev_involutive.
Qed.
Lemma Split_slash a b : strings_Split (a +:+ "/" +:+ b) "/" = strings_Split a "/" ++ strings_Split b "/".
Proof. rewrite !Split_cut, !byt_app. change (byt "/" ++ ?x) with ("/"%char :: x). by rewrite cut_at_app, fmap_app. Qed.
Lemma entry_kept names : Forall entry_name names -> Forall kept_name names.
Proof. intros Hn. eapply Forall_impl; [exact Hn|]. by intros e (? & ? & ? & _). Qed.
Lemma Clean_names base names : base <> "" -> Forall entry_name names ->
  filepath_Clean (strings_Join (base :: names) "/") = path_string (strings_HasPrefix base "/") (elements base ++ names).
Proof.
  intros Hb Hn. destruct names as [|n names]; [by rewrite app_nil_r|]. change (strings_Join (base :: n :: names) "/") with (base +:+ "/" +:+ strings_Join (n :: names) "/").
  assert (strings_HasPrefix (base +:+ "/" +:+ strings_Join (n :: names) "/") "/" = strings_HasPrefix base "/") as E.
  { destruct base as [|c b]; [done|]. unfold strings_HasPrefix. rewrite byt_app. by cbn. }
  unfold filepath_Clean. rewrite E, Split_slash, Split_Join, foldl_app by (done || by apply entry_kept).
  rewrite (clean_push _ (n :: names)) by done. rewrite rev_app_distr, rev_involutive. done.
Qed.
Lemma path_string_nonempty r es : path_string r es <> "".
Proof. unfold path_string. destruct r; [done|]. by destruct (seqb_reflect (strings_Join es "/") ""). Qed.
Lemma join_names base names : base <> "" -> Forall entry_name names ->
  join_elems (base :: names) = path_string (strings_HasPrefix base "/") (elements base ++ names).
Proof. intros Hb Hn. cbn [join_elems]. rewrite (proj2 (seqb_neq _ _) Hb). by apply Clean_names. Qed.
Lemma join_name r es name : clean_stack r (rev es) -> entry_name name -> join_paths (path_string r es) name = path_string r (es ++ [name]).
Proof.
  intros Hs Hn. unfold join_paths. rewrite join_names; [|apply path_string_nonempty|by apply Forall_singleton]. by destruct (elements_string r es Hs) as [-> ->].
Qed.
