(* ===== verification/Pcap.v ===== *)
(** * Pcap: packet sources and capture files

    internal/capture (capture.go, pcap_reader.go, interface_capture_linux.go)
    and what it and internal/evidence use of the vendored pcapgo: the reader and
    the writer of the classic capture format.  Decoding a frame into layers is
    gopacket's; a source yields frames with their capture information. *)

From S2P Require Import Prelude GoStrings.

(** ** Capture information *)

(** The time is in seconds and nanoseconds; [None] is the zero time. *)
Record CaptureInfo := mkCaptureInfo {
  ci_Timestamp : option (Z * Z);
  ci_CaptureLength : Z;
  ci_Length : Z;
  ci_InterfaceIndex : Z
}.
#[global] Instance settable_CaptureInfo : Settable CaptureInfo := fun c =>
  mkCaptureInfo (ci_Timestamp c) (ci_CaptureLength c) (ci_Length c) (ci_InterfaceIndex c).
Definition packetCaptureInfo (captured original iface : Z) : CaptureInfo :=
  mkCaptureInfo None captured (if original <? captured then captured else original) iface.

(** ** AF_PACKET *)

(** What a call of Recvfrom gives: with MSG_TRUNC the length of the frame, of
    which the buffer holds the beginning. *)
Inductive received := Interrupted | Failed (e : string) | Frame (frame : bytes).
Fixpoint raw_ReadPacketData (buf : nat) (iface : Z) (now : Z * Z) (calls : list received) : option (res (bytes * CaptureInfo) * list received) :=
  match calls with
  | [] => None
  | Interrupted :: calls => raw_ReadPacketData buf iface now calls
  | Failed e :: calls => Some (Err e, calls)
  | Frame frame :: calls =>
      let n := len frame in
      let captured := if Z.of_nat buf <? n then Z.of_nat buf else n in
      let data := take (Z.to_nat captured) frame in
      let info := packetCaptureInfo captured n iface in
      Some (Ok (data, info <| ci_Timestamp := Some now |>), calls)
  end.
Definition htons (i : Z) : Z := Z.lor (Z.land (u16 (Z.shiftl i 8)) 65280) (Z.shiftr i 8).

(** ** The capture format *)

Definition le_bytes (n : nat) (z : Z) : bytes := (fun i => chr (z / 2 ^ (8 * Z.of_nat i) mod 256)) <$> seq 0 n.
Definition le_value (b : bytes) : Z := foldr (fun c acc => bv c + 256 * acc) 0 b.

Definition LinkTypeEthernet : Z := 1.
Definition LinkTypeRaw : Z := 101.
Definition magicMicroseconds : Z := 2712847316.
Definition magicNanoseconds : Z := 2712812621.
Definition magicMicrosecondsBigendian : Z := 3569595041.
Definition magicNanosecondsBigendian : Z := 1295823521.

(** WriteFileHeader of a writer with microseconds. *)
Definition file_header (snaplen link : Z) : bytes :=
  le_bytes 4 magicMicroseconds ++ le_bytes 2 2 ++ le_bytes 2 4 ++ le_bytes 8 0 ++ le_bytes 4 (u32 snaplen) ++ le_bytes 4 (u32 link).
(** WritePacket; [now] is the clock, used when the time is zero. *)
Definition packet_header (ci : CaptureInfo) (now : Z * Z) : bytes :=
  let t := default now (ci_Timestamp ci) in
  le_bytes 4 (u32 t.1) ++ le_bytes 4 (u32 (t.2 / 1000)) ++ le_bytes 4 (u32 (ci_CaptureLength ci)) ++ le_bytes 4 (u32 (ci_Length ci)).
Definition WritePacket (ci : CaptureInfo) (data : bytes) (now : Z * Z) : res bytes :=
  if negb (ci_CaptureLength ci =? len data) then Err "capture length does not match data length"
  else if ci_Length ci <? ci_CaptureLength ci then Err "capture length > length"
  else Ok (packet_header ci now ++ data).

(** The text of a gzip file, up to its end or the first error. *)
Class GoGzip := { gzip_text : bytes -> res bytes }.

Record Reader := mkReader {
  rd_r : bytes; (* what is left to read *)
  rd_big : bool;
  rd_nanoSecsFactor : Z;
  rd_snaplen : Z;
  rd_linkType : Z
}.
Definition uint_at (big : bool) (b : bytes) (from n : nat) : Z :=
  let part := take n (drop from b) in le_value (if big then rev part else part).
(** io.ReadFull *)
Definition ReadFull (n : nat) (b : bytes) : res (bytes * bytes) := if (length b <? n)%nat then Err "EOF" else Ok (take n b, drop n b).
Definition NewReader `{GoGzip} (file : bytes) : res Reader :=
  r ← match file with
      | a :: b :: _ => if (bv a =? 31) && (bv b =? 139) then gzip_text file else Ok file
      | _ => Err "EOF"
      end;
  '(buf, r) ← ReadFull 24 r;
  let magic := uint_at false buf 0 4 in
  '(big, factor) ← (if magic =? magicNanoseconds then Ok (false, 1)
                    else if magic =? magicNanosecondsBigendian then Ok (true, 1)
                    else if magic =? magicMicroseconds then Ok (false, 1000)
                    else if magic =? magicMicrosecondsBigendian then Ok (true, 1000)
                    else Err "Unknown magic");
  if negb (uint_at big buf 4 2 =? 2) then Err "Unknown major version"
  else if negb (uint_at big buf 6 2 =? 4) then Err "Unknown minor version"
  else Ok (mkReader r big factor (uint_at big buf 16 4) (uint_at big buf 20 4)).
(** time.Unix *)
Definition time_Unix (sec nsec : Z) : Z * Z := (sec + nsec / 1000000000, nsec mod 1000000000).
Definition ReadPacketData (rd : Reader) : res (bytes * CaptureInfo * Reader) :=
  '(buf, r) ← ReadFull 16 (rd_r rd);
  let field i := uint_at (rd_big rd) buf i 4 in
  let ci := mkCaptureInfo (Some (time_Unix (field 0%nat) (u32 (field 4%nat * rd_nanoSecsFactor rd)))) (field 8%nat) (field 12%nat) 0 in
  if rd_snaplen rd <? ci_CaptureLength ci then Err "capture length exceeds snap length"
  else if ci_Length ci <? ci_CaptureLength ci then Err "capture length exceeds original packet length"
  else
    '(data, r) ← ReadFull (Z.to_nat (ci_CaptureLength ci)) r;
    Ok (data, ci, mkReader r (rd_big rd) (rd_nanoSecsFactor rd) (rd_snaplen rd) (rd_linkType rd)).
(** readLoop: the packets up to the first error; each takes 16 bytes or more, so
    the bytes that are left are fuel enough. *)
Fixpoint read_all (fuel : nat) (rd : Reader) : list (bytes * CaptureInfo) :=
  match fuel with
  | O => []
  | S n => match ReadPacketData rd with Ok (data, ci, rd) => (data, ci) :: read_all n rd | Err _ => [] end
  end.
Definition readLoop (rd : Reader) : list (bytes * CaptureInfo) := read_all (S (length (rd_r rd))) rd.
(** NewPCAPReader on the text of the file: the link type and the packets. *)
Definition NewPCAPReader `{GoGzip} (file : bytes) : res (Z * list (bytes * CaptureInfo)) := rd ← NewReader file; Ok (rd_linkType rd, readLoop rd).

(** ** Numbers in the file *)

Lemma le_bytes_S n z : le_bytes (S n) z = chr (z mod 256) :: le_bytes n (z / 256).
Proof.
  unfold le_bytes. cbn [seq fmap list_fmap]. f_equal; [by rewrite Z.mul_0_r, Z.pow_0_r, Z.div_1_r|]. rewrite <-seq_shift, <-list_fmap_compose. apply list_fmap_ext.
  intros i x _. unfold compose. rewrite Z.div_div by lia. do 3 f_equal. replace (8 * Z.of_nat (S x)) with (8 + 8 * Z.of_nat x) by lia. by rewrite Z.pow_add_r by lia.
Qed.
Lemma length_le n z : length (le_bytes n z) = n.
Proof. unfold le_bytes. by rewrite length_fmap, length_seq. Qed.
Lemma le_value_bytes n : forall z, le_value (le_bytes n z) = z mod 2 ^ (8 * Z.of_nat n).
Proof.
  induction n as [|n IH]; intros z; [by rewrite Z.mul_0_r, Z.pow_0_r, Z.mod_1_r|]. rewrite le_bytes_S. cbn [le_value foldr]. fold (le_value (le_bytes n (z / 256))).
  rewrite IH, bv_chr by (apply Z.mod_pos_bound; lia). replace (8 * Z.of_nat (S n)) with (8 + 8 * Z.of_nat n) by lia. rewrite Z.pow_add_r by lia.
  by rewrite Z.rem_mul_r by lia.
Qed.
Lemma uint_at_le n z pre post k : length pre = k -> uint_at false (pre ++ le_bytes n z ++ post) k n = z mod 2 ^ (8 * Z.of_nat n).
Proof.
  intros <-. unfold uint_at. rewrite drop_app_length. assert (take n (le_bytes n z ++ post) = le_bytes n z) as ->; [|apply le_value_bytes].
  rewrite <-(length_le n z) at 1. apply take_app_length.
Qed.

(** ** What is written is read *)

Section roundtrip.
Context `{GoGzip}.

(** A frame as it was captured; the file keeps microseconds. *)
Definition frame_ok (snaplen : Z) (p : bytes * CaptureInfo) : Prop :=
  ci_CaptureLength p.2 = len p.1 /\ len p.1 <= snaplen /\ len p.1 <= ci_Length p.2 < 2 ^ 32
  /\ exists sec nsec, ci_Timestamp p.2 = Some (sec, nsec) /\ 0 <= sec < 2 ^ 32 /\ 0 <= nsec < 1000000000.
Definition in_file (ci : CaptureInfo) : CaptureInfo :=
  mkCaptureInfo ((fun t => (t.1, t.2 / 1000 * 1000)) <$> ci_Timestamp ci) (ci_CaptureLength ci) (ci_Length ci) 0.
Definition reader_at (snaplen link : Z) (rest : bytes) : Reader := mkReader rest false 1000 snaplen link.

Lemma Ok_inj {A} (x y : A) : Ok x = Ok y -> x = y.
Proof. congruence. Qed.
Lemma ReadFull_app a b : ReadFull (length a) (a ++ b) = Ok (a, b).
Proof. unfold ReadFull. rewrite length_app. case_match eqn:E; [apply Nat.ltb_lt in E; lia|]. by rewrite take_app_length, drop_app_length. Qed.
Lemma NewReader_header snaplen link rest : 0 <= snaplen < 2 ^ 32 -> 0 <= link < 2 ^ 32 -> NewReader (file_header snaplen link ++ rest) = Ok (reader_at snaplen link rest).
Proof.
  intros Hs Hl. unfold NewReader. set (h := file_header snaplen link).
  assert (exists x, h = chr 212 :: chr 195 :: x) as [x Ex] by (by eexists). rewrite Ex. cbn [app]. change (bv (chr 212) =? 31) with false. cbn [andb mbind res_bind].
  change (chr 212 :: chr 195 :: x ++ rest) with ((chr 212 :: chr 195 :: x) ++ rest). rewrite <-Ex.
  assert (length h = 24%nat) as Hlen by (unfold h, file_header; by rewrite !length_app, !length_le). rewrite <-Hlen at 1. rewrite ReadFull_app. cbn [mbind res_bind].
  assert (uint_at false h 0 4 = magicMicroseconds) as -> by reflexivity. cbn -[uint_at h].
  assert (uint_at false h 4 2 = 2) as -> by reflexivity. assert (uint_at false h 6 2 = 4) as -> by reflexivity.
  assert (uint_at false h 16 4 = snaplen) as ->.
  { unfold h, file_header. rewrite !app_assoc. rewrite <-(app_assoc _ (le_bytes 4 (u32 snaplen))). rewrite uint_at_le by reflexivity. unfold u32. change (2 ^ (8 * Z.of_nat 4)) with (2 ^ 32).
    by rewrite Z.mod_mod, Z.mod_small by lia. }
  assert (uint_at false h 20 4 = link) as ->.
  { unfold h, file_header. rewrite !app_assoc. rewrite <-(app_nil_r (le_bytes 4 (u32 link))). rewrite uint_at_le by reflexivity. unfold u32. change (2 ^ (8 * Z.of_nat 4)) with (2 ^ 32).
    by rewrite Z.mod_mod, Z.mod_small by lia. }
  done.
Qed.
Lemma ReadPacket_written snaplen link p now rest b : frame_ok snaplen p -> WritePacket p.2 p.1 now = Ok b ->
  ReadPacketData (reader_at snaplen link (b ++ rest)) = Ok (p.1, in_file p.2, reader_at snaplen link rest).
Proof.
  destruct p as [data [ts cl ln ifc]]. intros (Hc & Hs & Hl & sec & nsec & Et & Hsec & Hns). cbn [fst snd ci_CaptureLength ci_Length ci_Timestamp] in *. subst ts cl.
  unfold WritePacket. cbn [ci_CaptureLength ci_Length]. rewrite Z.eqb_refl. cbn [negb]. case_match; [done|]. intros Eb. apply Ok_inj in Eb. subst b.
  set (h := packet_header _ _). rewrite <-app_assoc. assert (length h = 16%nat) as Hlen by (unfold h, packet_header; cbn [default from_option ci_Timestamp]; by rewrite !length_app, !length_le).
  unfold ReadPacketData. cbn [rd_r reader_at]. rewrite <-Hlen at 1. rewrite ReadFull_app. cbn [mbind res_bind rd_big rd_nanoSecsFactor rd_snaplen rd_linkType reader_at].
  assert (forall z, 0 <= z < 2 ^ 32 -> u32 z mod 2 ^ (8 * Z.of_nat 4) = z) as Hu.
  { intros z Hz. unfold u32. change (2 ^ (8 * Z.of_nat 4)) with (2 ^ 32). by rewrite Z.mod_mod, Z.mod_small by lia. }
  assert (0 <= len data) by (unfold len; lia). assert (0 <= nsec / 1000 < 1000000) by (split; [apply Z.div_pos; lia|apply Z.div_lt_upper_bound; lia]).
  assert (uint_at false h 0 4 = sec) as ->.
  { unfold h, packet_header. cbn [default from_option ci_Timestamp fst snd id]. rewrite <-(app_nil_l (le_bytes 4 (u32 sec) ++ _)). rewrite uint_at_le by done. by apply Hu. }
  assert (uint_at false h 4 4 = nsec / 1000) as ->.
  { unfold h, packet_header. cbn [default from_option ci_Timestamp fst snd id]. rewrite uint_at_le by done. apply Hu. lia. }
  assert (uint_at false h 8 4 = len data) as ->.
  { unfold h, packet_header. cbn [default from_option ci_Timestamp ci_CaptureLength fst snd id]. rewrite !app_assoc. rewrite <-(app_assoc _ (le_bytes 4 (u32 (len data)))).
    rewrite uint_at_le by done. apply Hu. lia. }
  assert (uint_at false h 12 4 = ln) as ->.
  { unfold h, packet_header. cbn [default from_option ci_Timestamp ci_Length fst snd id]. rewrite !app_assoc. rewrite <-(app_nil_r (le_bytes 4 (u32 ln))). rewrite uint_at_le by done. apply Hu. lia. }
  cbn [ci_CaptureLength ci_Length]. rewrite (proj2 (Z.ltb_ge snaplen (len data))), (proj2 (Z.ltb_ge ln (len data))) by lia.
  unfold len at 2. rewrite Nat2Z.id, ReadFull_app. cbn [mbind res_bind]. do 3 f_equal. unfold in_file. cbn [ci_Timestamp ci_CaptureLength ci_Length fmap option_fmap option_map fst snd].
  do 2 f_equal. unfold u32, time_Unix. rewrite (Z.mod_small (nsec / 1000 * 1000) (2 ^ 32)) by lia. rewrite Z.div_small, Z.mod_small by lia. by rewrite Z.add_0_r.
Qed.
(** One packet of the file. *)
Definition packet_record (now : Z * Z) (p : bytes * CaptureInfo) : bytes := packet_header p.2 now ++ p.1.
Lemma WritePacket_ok snaplen p now : frame_ok snaplen p -> WritePacket p.2 p.1 now = Ok (packet_record now p).
Proof. intros (Hc & _ & Hl & _). unfold WritePacket. rewrite Hc, Z.eqb_refl. cbn [negb]. by rewrite (proj2 (Z.ltb_ge _ _)) by lia. Qed.
Lemma length_record now p : (16 <= length (packet_record now p))%nat.
Proof. unfold packet_record, packet_header. cbv zeta. rewrite !length_app, !length_le. lia. Qed.
Lemma read_all_written snaplen link now ps : Forall (frame_ok snaplen) ps -> forall fuel, (length (concat (packet_record now <$> ps)) < fuel)%nat ->
  read_all fuel (reader_at snaplen link (concat (packet_record now <$> ps))) = (fun p => (p.1, in_file p.2)) <$> ps.
Proof.
  induction 1 as [|p ps Hp Hps IH]; intros [|fuel] Hf; try lia; [done|]. rewrite fmap_cons in Hf |- *. cbn [concat] in Hf |- *. cbn [read_all].
  rewrite (ReadPacket_written snaplen link p now _ _ Hp (WritePacket_ok snaplen p now Hp)). rewrite fmap_cons. f_equal. apply IH.
  rewrite length_app in Hf. pose proof (length_record now p). lia.
Qed.
(** A file of whole packets is read back: every frame with its bytes, its
    lengths and its time in microseconds, in order, and the link type. *)
Lemma capture_roundtrip snaplen link now ps : 0 <= snaplen < 2 ^ 32 -> 0 <= link < 2 ^ 32 -> Forall (frame_ok snaplen) ps ->
  NewPCAPReader (file_header snaplen link ++ concat (packet_record now <$> ps)) = Ok (link, (fun p => (p.1, in_file p.2)) <$> ps).
Proof.
  intros Hs Hl Hps. unfold NewPCAPReader. rewrite NewReader_header by done. cbn [mbind res_bind]. unfold readLoop. rewrite read_all_written; [done|done|]. apply Nat.lt_succ_diag_r.
Qed.
End roundtrip.

(** A frame longer than the buffer is cut, and its length is still known. *)
Lemma raw_ReadPacketData_frame buf iface now frame calls : exists data ci,
  raw_ReadPacketData buf iface now (Frame frame :: calls) = Some (Ok (data, ci), calls)
  /\ data = take buf frame /\ ci_CaptureLength ci = len data /\ ci_Length ci = len frame.
Proof.
  unfold raw_ReadPacketData. cbv zeta. eexists _, _. split; [done|]. cbn. unfold packetCaptureInfo, len. cbn.
  case_match eqn:E; [apply Z.ltb_lt in E|apply Z.ltb_ge in E]; rewrite Nat2Z.id, length_take.
  - split; [done|]. split; [lia|]. by rewrite (proj2 (Z.ltb_ge _ _)) by lia.
  - rewrite !take_ge by lia. split; [done|]. split; [lia|]. by rewrite Z.ltb_irrefl.
Qed.
