(* ===== verification/Clock.v ===== *)
(** * Clock: calendar dates (package time)

    Dates, their form 2006-01-02 and the arithmetic on them that the evidence
    writer uses, in a location given by the offsets of its zones. *)

From S2P Require Import Prelude GoStrings GoNet Stix.

#[local] Ltac Zify.zify_post_hook ::= Z.to_euclidean_division_equations.

(** ** Instants and locations *)

Record Time := mkTime { tm_sec : Z; tm_nsec : Z }.
Definition time_Before (a b : Time) : bool := (tm_sec a <? tm_sec b) || ((tm_sec a =? tm_sec b) && (tm_nsec a <? tm_nsec b)).
Definition time_After (a b : Time) : bool := time_Before b a.
(** The zone in use at an instant: its offset, the first instant of it and the
    first one after it. *)
Class GoLocation := { loc_lookup : Z -> Z * Z * Z }.
Definition fixed_zone (off : Z) : GoLocation := {| loc_lookup := fun _ => (off, minInt64, maxInt64) |}.

Section location.
Context `{GoLocation}.

(** Year, month, day, and the seconds of the day. *)
Definition local_seconds (t : Time) : Z := tm_sec t + (loc_lookup (tm_sec t)).1.1.
Definition local_date (t : Time) : Z * Z * Z := civil (local_seconds t / 86400).
(** time.Date with the time of day in seconds; months and days may be out of
    range. *)
Definition time_Date (y m d clock nsec : Z) : Time :=
  let y := y + (m - 1) / 12 in
  let m := (m - 1) mod 12 + 1 in
  let unix := (days_of y m 1 + d - 1) * 86400 + clock in
  let '(offset, start, stop) := loc_lookup unix in
  if offset =? 0 then mkTime unix nsec
  else
    let utc := unix - offset in
    let offset := if (utc <? start) || (stop <=? utc) then (loc_lookup utc).1.1 else offset in
    mkTime (unix - offset) nsec.
(** t.AddDate(0, 0, n) *)
Definition AddDays (t : Time) (n : Z) : Time :=
  let '(y, m, d) := local_date t in time_Date y m (d + n) (local_seconds t mod 86400) (tm_nsec t).
(** t.Format("2006-01-02") *)
Definition date_text (day : Z) : string := let '(y, m, d) := civil day in zpad 4 y +:+ "-" +:+ zpad 2 m +:+ "-" +:+ zpad 2 d.
Definition FormatDate (t : Time) : string := date_text (local_seconds t / 86400).
End location.
(** time.Parse("2006-01-02", s): midnight UTC *)
Definition ParseDate (s : string) : option Time :=
  '(y, r) ← four_digits (byt s); r ← literal 45 r; '(m, r) ← getnum true r; r ← literal 45 r; '(d, r) ← getnum true r;
  match r with
  | _ :: _ => None
  | [] => if (m <? 1) || (12 <? m) || (d <? 1) || (days_in m y <? d) then None else Some (mkTime (days_of y m d * 86400) 0)
  end.

(** ** The calendar *)

(** A day of the 400 years: the year, counted from March, and the day in it. *)
Lemma era_day doe : 0 <= doe < 146097 -> exists yoe doy, 0 <= yoe < 400 /\ 0 <= doy <= 365 /\ doe = 365 * yoe + yoe / 4 - yoe / 100 + doy
  /\ (doe - doe / 1460 + doe / 36524 - doe / 146096) / 365 = yoe /\ (doy = 365 -> leap (yoe + 1) = true).
Proof.
  intros Hd.
  assert (exists c q r doy, doe = 36524 * c + 1461 * q + 365 * r + doy /\ 0 <= c < 4 /\ 0 <= q < 25 /\ 0 <= r < 4 /\ 0 <= doy <= 365
    /\ (doy = 365 -> r = 3 /\ (q <> 24 \/ c = 3))) as (c & q & r & doy & E & Hc & Hq & Hr & Hy & Hl).
  { assert (exists c x, doe = 36524 * c + x /\ 0 <= c < 4 /\ 0 <= x /\ (x <= 36523 \/ (x = 36524 /\ c = 3))) as (c & x & E & Hc & Hx & Hx')
      by (destruct (decide (doe = 146096)); [exists 3, 36524|exists (doe / 36524), (doe mod 36524)]; lia).
    assert (exists q y, x = 1461 * q + y /\ 0 <= q < 25 /\ 0 <= y <= 1460 /\ (y = 1460 -> q <> 24 \/ c = 3)) as (q & y & Ex & Hq & Hy & Hy')
      by (exists (x / 1461), (x mod 1461); lia).
    exists c, q, (if decide (y = 1460) then 3 else y / 365), (if decide (y = 1460) then 365 else y mod 365). case_decide; lia. }
  exists (100 * c + 4 * q + r), doy.
  assert ((100 * c + 4 * q + r) / 4 = 25 * c + q) as -> by lia. assert ((100 * c + 4 * q + r) / 100 = c) as -> by lia.
  split_and!; [lia|lia|lia|lia|lia| |].
  - assert (doe / 146096 = if decide (doe = 146096) then 1 else 0) as -> by (case_decide; lia).
    assert (doe / 36524 = if decide (doe = 146096) then 4 else c) as -> by (case_decide; lia).
    assert (doe / 1460 = 25 * c + q + (24 * c + q + 365 * r + doy) / 1460) as -> by lia.
    assert ((24 * c + q + 365 * r + doy) / 1460 = if decide (1460 <= 24 * c + q + 365 * r + doy) then 1 else 0) as -> by (case_decide; lia).
    repeat case_decide; lia.
  - intros [-> Hx]%Hl. unfold leap. rewrite andb_true_iff, orb_true_iff, negb_true_iff, !Z.eqb_eq, Z.eqb_neq. split; [lia|]. destruct Hx as [Hx| ->]; [|destruct (decide (q = 24))]; lia.
Qed.
Lemma leap_era y k : leap (y + 400 * k) = leap y.
Proof. unfold leap. assert ((y + 400 * k) mod 4 = y mod 4 /\ (y + 400 * k) mod 100 = y mod 100 /\ (y + 400 * k) mod 400 = y mod 400) as (-> & -> & ->) by lia. done. Qed.
(** [civil] gives a date of the calendar, and [days_of] counts back. *)
Lemma civil_days day : let '(y, m, d) := civil day in days_of y m d = day /\ 1 <= m <= 12 /\ 1 <= d <= days_in m y.
Proof.
  unfold civil. set (era := (day + 719468) / 146097). set (doe := (day + 719468) mod 146097).
  assert (day + 719468 = 146097 * era + doe /\ 0 <= doe < 146097) as [Eday Hdoe] by lia. clearbody era doe.
  destruct (era_day doe Hdoe) as (yoe & doy & Hy & Hd & E & -> & Hl). replace (doe - (365 * yoe + yoe / 4 - yoe / 100)) with doy by lia.
  assert (0 <= (5 * doy + 2) / 153 <= 11) as Hmp by lia. set (mp := (5 * doy + 2) / 153) in *.
  assert (153 * mp <= 5 * doy + 2 < 153 * mp + 153) as Hmb by lia. clearbody mp.
  set (m := if mp <? 10 then mp + 3 else mp - 9). set (d := doy - (153 * mp + 2) / 5 + 1).
  assert (m = if decide (mp < 10) then mp + 3 else mp - 9) as Em by (unfold m; case_decide; case_match eqn:E1; [done|lia|lia|done]).
  assert (1 <= m <= 12) as Hm by (rewrite Em; case_decide; lia).
  assert ((m <=? 2) = negb (mp <? 10)) as Em2 by (rewrite Em; case_decide; destruct (Z.leb_spec (if decide (mp < 10) then mp + 3 else mp - 9) 2); destruct (Z.ltb_spec mp 10); cbn; lia).
  split_and!; [|lia|lia|unfold d; lia|].
  - unfold days_of. rewrite Em2. destruct (Z.ltb_spec mp 10) as [Hlt|Hge]; cbn [negb].
    + assert (m = mp + 3) as -> by (rewrite Em; case_decide; lia). rewrite (proj2 (Z.ltb_lt 2 (mp + 3))) by lia.
      replace (yoe + era * 400 + 0) with (yoe + era * 400) by lia. rewrite Z.div_add, Z.mod_add, (Z.div_small yoe), (Z.mod_small yoe) by lia. unfold d. lia.
    + assert (m = mp - 9) as -> by (rewrite Em; case_decide; lia). rewrite (proj2 (Z.ltb_ge 2 (mp - 9))) by lia.
      replace (yoe + era * 400 + 1 - 1) with (yoe + era * 400) by lia. rewrite Z.div_add, Z.mod_add, (Z.div_small yoe), (Z.mod_small yoe) by lia. unfold d. lia.
  - unfold days_in. destruct (Z.eqb_spec m 2) as [E2|E2].
    + assert (mp = 11) by (rewrite Em in E2; case_decide; lia). rewrite Em2. assert ((mp <? 10) = false) as -> by lia. cbn [negb].
      replace (yoe + era * 400 + 1) with (yoe + 1 + 400 * era) by lia. rewrite leap_era. destruct (leap (yoe + 1)) eqn:El; [unfold d; lia|].
      assert (doy <> 365) by (intros Hx; specialize (Hl Hx); congruence). unfold d. lia.
    + assert (mp <> 11) by (intros ->; apply E2; rewrite Em; reflexivity).
      destruct (Z.eqb_spec m 4), (Z.eqb_spec m 6), (Z.eqb_spec m 9), (Z.eqb_spec m 11); cbn [orb]; unfold d; rewrite Em in *; case_decide; lia.
Qed.
(** Bounds of the years of the instants that fit in 32 bits. *)
Lemma civil_year day : 0 <= day < 49711 -> let '(y, m, d) := civil day in 1969 <= y <= 2107.
Proof.
  intros Hd. pose proof (civil_days day) as Hc. destruct (civil day) as [[y m] d]. destruct Hc as (E & Hm & Hdd).
  assert (1 <= d <= 31) by (unfold days_in in Hdd; repeat case_match; lia). unfold days_of in E. clear Hdd.
  set (y' := if m <=? 2 then y - 1 else y) in *. set (doy := (153 * (if 2 <? m then m - 3 else m + 9) + 2) / 5 + d - 1) in *.
  assert (0 <= doy <= 370) as Hdoy by (unfold doy; case_match; lia). clearbody doy.
  assert (exists c q, y' = 400 * c + q /\ 0 <= q < 400) as (c & q & Ey & Hq) by (exists (y' / 400), (y' mod 400); lia).
  rewrite Ey in E. replace ((400 * c + q) / 400) with c in E by lia. replace ((400 * c + q) mod 400) with q in E by lia.
  assert (4 <= c <= 5) as Hc by lia. assert (y' <= y <= y' + 1) by (unfold y'; case_match; lia). clearbody y'.
  assert (c = 4 \/ c = 5) as [-> | ->] by lia; lia.
Qed.

(** ** The form 2006-01-02 *)

Definition all_from (n : nat) (from : Z) (f : Z -> bool) : bool := forallb (fun i => f (from + Z.of_nat i)) (seq 0 n).
Lemma all_from_spec n from f z : all_from n from f = true -> from <= z < from + Z.of_nat n -> f z = true.
Proof.
  intros Ha Hz. unfold all_from in Ha. rewrite forallb_forall in Ha. specialize (Ha (Z.to_nat (z - from))). rewrite Z2Nat.id in Ha by lia. replace (from + (z - from)) with z in Ha by lia.
  apply Ha, in_seq. lia.
Qed.
Definition two_digits (z : Z) : bytes := [chr (48 + z / 10); chr (48 + z mod 10)].
Definition writes_two (z : Z) : bool := bool_decide (byt (zpad 2 z) = two_digits z).
Lemma zpad_two z : 0 <= z < 100 -> byt (zpad 2 z) = two_digits z.
Proof.
  intros Hz. assert (writes_two z = true) as E; [|exact (bool_decide_eq_true_1 _ E)]. apply (all_from_spec 100 0); [vm_compute; reflexivity|lia].
Qed.
Definition writes_year (y : Z) : bool := bool_decide (byt (zpad 4 y) = two_digits (y / 100) ++ two_digits (y mod 100)).
Lemma zpad_year y : 1969 <= y <= 2107 -> byt (zpad 4 y) = two_digits (y / 100) ++ two_digits (y mod 100).
Proof.
  intros Hy. assert (writes_year y = true) as E; [|exact (bool_decide_eq_true_1 _ E)]. apply (all_from_spec 139 1969); [vm_compute; reflexivity|lia].
Qed.
Lemma digit_chr z : 0 <= z < 10 -> digit (chr (48 + z)) = Some z.
Proof. intros Hz. unfold digit. rewrite bv_chr by lia. rewrite (proj2 (Z.leb_le 48 (48 + z))), (proj2 (Z.leb_le (48 + z) 57)) by lia. cbn [andb]. f_equal. lia. Qed.
Lemma getnum_two z r : 0 <= z < 100 -> getnum true (two_digits z ++ r) = Some (z, r).
Proof. intros Hz. unfold getnum, two_digits. cbn [app]. rewrite !digit_chr by lia. cbn [mbind option_bind]. do 2 f_equal. lia. Qed.
(** A day written and parsed again. *)
Lemma ParseDate_text day : 0 <= day < 49711 -> ParseDate (date_text day) = Some (mkTime (day * 86400) 0).
Proof.
  intros Hd. unfold date_text, ParseDate. pose proof (civil_days day) as Hc. pose proof (civil_year day Hd) as Hy. destruct (civil day) as [[y m] d]. destruct Hc as (E & Hm & Hdd).
  assert (d <= 31) by (unfold days_in in Hdd; repeat case_match; lia).
  rewrite !byt_app, zpad_year, !zpad_two by lia. unfold four_digits. rewrite <-!app_assoc. rewrite getnum_two by lia. cbn [mbind option_bind].
  rewrite getnum_two by lia. cbn [mbind option_bind]. change (literal 45 (byt "-" ++ ?r)) with (Some r). cbn [mbind option_bind]. rewrite getnum_two by lia. cbn [mbind option_bind].
  change (literal 45 (byt "-" ++ ?r)) with (Some r). cbn [mbind option_bind]. rewrite <-(app_nil_r (two_digits d)), getnum_two by lia. cbn [mbind option_bind].
  replace (y / 100 * 100 + y mod 100) with y by lia. destruct (Z.ltb_spec m 1), (Z.ltb_spec 12 m), (Z.ltb_spec d 1), (Z.ltb_spec (days_in m y) d); try lia. cbn [orb]. by rewrite E.
Qed.
(** In a zone with a fixed offset a day has 86400 seconds. *)
Lemma AddDays_fixed off t n : @AddDays (fixed_zone off) t n = mkTime (tm_sec t + n * 86400) (tm_nsec t).
Proof.
  unfold AddDays, local_date, local_seconds. cbn [loc_lookup fixed_zone fst]. pose proof (civil_days ((tm_sec t + off) / 86400)) as Hc.
  destruct (civil ((tm_sec t + off) / 86400)) as [[y m] d]. destruct Hc as (E & Hm & _). unfold time_Date. cbn [loc_lookup fixed_zone].
  replace ((m - 1) / 12) with 0 by lia. replace ((m - 1) mod 12 + 1) with m by lia. rewrite Z.add_0_r.
  assert (days_of y m 1 + (d + n) - 1 = (tm_sec t + off) / 86400 + n) as -> by (rewrite <-E; unfold days_of; cbv zeta; lia).
  destruct (Z.eqb_spec off 0) as [-> | _]; [f_equal; lia|]. cbn [fst]. case_match; f_equal; lia.
Qed.
