(* ===== verification/Server.v ===== *)
(** * Server: the management interface (internal/server/http_server.go)

    The request handlers of the node over the indicator store, the configuration
    and the queue databases.  A handler takes the world and returns it with the
    response; a panic is [None].  Bodies are the values that are encoded, the
    data the configuration page is rendered from, or the file that is served. *)

From S2P Require Import Prelude GoStrings GoNet Events Json AnyJson Codec EventJson Content Queue EventQueue Shard Archive Admin Maintain Ranges Readers Detector IntelStore Feeds Stix Config Paths.

(** ** Requests and responses *)

Record request := mkRequest {
  rq_Method : string;
  rq_Path : string;
  rq_Query : gmap string string;
  rq_Authorization : string;
  rq_Body : bytes
}.
(** r.URL.Query().Get *)
Definition query_Get (r : request) (name : string) : string := default "" (rq_Query r !! name).

Inductive body :=
  | NoBody
  | JSON (v : gval)
  | ConfigPage (cfg : Config) (path version : string) (hasNodeAPIKey hasServerToken : bool)
  | ServedFile (path : string).
Record response := mkResponse { rs_code : Z; rs_body : body }.
Definition status (code : Z) : response := mkResponse code NoBody.
Definition writeJSON (code : Z) (kvs : list (string * gval)) : response := mkResponse code (JSON (VMap ((fun kv => (byt kv.1, kv.2)) <$> kvs))).
Definition failure (code : Z) (msg : string) : response := writeJSON code [("error", VString (byt msg)); ("success", VBool false)].
Definition unauthorized : response := failure 401 "unauthorized".
Definition text (s : string) : gval := VString (byt s).

(** ** JSON forms *)

Definition fields_ThreatIntel : list (field ThreatIntel) := [
  req "id" jstring ti_ID;
  req "type" jstring ti_Type;
  req "value" jstring ti_Value;
  req "category" jstring ti_Category;
  req "severity" jstring ti_Severity;
  req "source" jstring ti_Source;
  req "description" jstring ti_Description;
  req "tags" (jslice jstring) ti_Tags;
  req "enabled" jbool ti_Enabled;
  req "created_at" jint64 ti_CreatedAt;
  req "updated_at" jint64 ti_UpdatedAt;
  opt "expire_at" jint64 ti_ExpireAt;
  opt "recommended_action" jstring ti_RecommendedAction;
  opt "evidence" (jptr spec_IntelEvidence) ti_Evidence
].
Lemma spec_ThreatIntel : struct_spec fields_ThreatIntel zero_ThreatIntel.
Proof. struct_by_fields. Qed.
(** The bodies that are posted. *)
Record File := mkFile { fi_Items : list ThreatIntel }.
#[global] Instance settable_File : Settable File := fun f => mkFile (fi_Items f).
Definition fields_File : list (field File) := [req "items" (jslice (jstruct spec_ThreatIntel)) fi_Items].
Record source_request := mkSourceRequest { sq_Source : string; sq_Items : list ThreatIntel }.
#[global] Instance settable_source_request : Settable source_request := fun f => mkSourceRequest (sq_Source f) (sq_Items f).
Definition fields_source_request : list (field source_request) := [req "source" jstring sq_Source; req "items" (jslice (jstruct spec_ThreatIntel)) sq_Items].
Record config_request := mkConfigRequest { cq_Config : Config }.
#[global] Instance settable_config_request : Settable config_request := fun f => mkConfigRequest (cq_Config f).
Definition fields_config_request : list (field config_request) := [req "config" (jstruct spec_Config) cq_Config].
Record event_request := mkEventRequest { eq_EventID : string }.
#[global] Instance settable_event_request : Settable event_request := fun f => mkEventRequest (eq_EventID f).
Definition fields_event_request : list (field event_request) := [req "event_id" jstring eq_EventID].

(** json.NewDecoder(r.Body).Decode: the first value of the body. *)
Definition json_Decode {R : Type} (fs : list (field R)) (zero : R) (b : bytes) : option R :=
  let t := skip_ws b in
  r ← scan_value t;
  json_into_struct zero (struct_member fs) (before t r).

Definition count_le (a b : string * Z) : Prop := sle a.1 b.1.
#[export] Instance count_le_dec : RelDecision count_le := fun a b => sle_dec a.1 b.1.
Definition counts_value (m : gmap string Z) : gval := VMap ((fun kv => (byt kv.1, VInt kv.2)) <$> merge_sort count_le (map_to_list m)).
Definition stats_value (s : StoreStats) : gval :=
  VStruct [(byt "total", false, VInt (IntelStore.ss_Total s)); (byt "enabled", false, VInt (IntelStore.ss_Enabled s)); (byt "expired", false, VInt (IntelStore.ss_Expired s));
    (byt "by_type", false, counts_value (IntelStore.ss_ByType s)); (byt "by_source", false, counts_value (IntelStore.ss_BySource s));
    (byt "last_updated_at", false, VInt (IntelStore.ss_LastUpdatedAt s)); (byt "version", false, VInt (IntelStore.ss_Version s))].
Definition storage_value (s : StorageStats) : gval :=
  VStruct [(byt "page_bytes", false, VInt (ss_PageBytes s)); (byt "reusable_bytes", false, VInt (ss_ReusableBytes s)); (byt "file_bytes", false, VInt (ss_FileBytes s));
    (byt "available_bytes", false, VInt (ss_AvailableBytes s)); (byt "archive_segments", false, VInt (ss_ArchiveSegments s)); (byt "backend", false, text (ss_Backend s));
    (byt "shards", true, VInt (ss_Shards s))].
Definition range_value (p : PacketRange) : gval :=
  VStruct [(byt "offset", false, VInt (pr_Offset p)); (byt "length", false, VInt (pr_Length p)); (byt "total_length", false, VInt (pr_TotalLength p));
    (byt "packet_hex", false, text (pr_PacketHex p)); (byt "capture_truncated", false, VBool (pr_CaptureTruncated p))].
Definition pointer {R : Type} (fs : list (field R)) (o : option R) : gval := match o with None => VNil | Some x => VPtr (struct_value fs x) end.
Definition log_value (l : PushLog) : gval :=
  VStruct [(byt "event_id", false, text (pl_EventID l)); (byt "event_time", false, VInt (pl_EventTime l)); (byt "occurred_at", false, VInt (pl_OccurredAt l));
    (byt "created_at", false, VInt (pl_CreatedAt l)); (byt "event_name", false, text (pl_EventName l)); (byt "severity", false, text (pl_Severity l));
    (byt "ioc_type", true, text (pl_IOCType l)); (byt "ioc_value", true, text (pl_IOCValue l)); (byt "src_ip", true, text (pl_SrcIP l)); (byt "src_port", true, VInt (pl_SrcPort l));
    (byt "dst_ip", true, text (pl_DstIP l)); (byt "dst_port", true, VInt (pl_DstPort l)); (byt "raw_packet", true, pointer fields_RawPacketContext (pl_RawPacket l));
    (byt "session_id", true, text (pl_SessionID l)); (byt "transaction_id", true, text (pl_TransactionID l)); (byt "context_revision", true, VInt (pl_ContextRevision l));
    (byt "context_final", true, VBool (pl_ContextFinal l)); (byt "exchange", true, pointer fields_ExchangeContext (pl_Exchange l));
    (byt "session_summary", true, pointer fields_SessionSummary (pl_SessionSummary l)); (byt "status", false, text (pl_Status l)); (byt "retry_count", false, VInt (pl_RetryCount l));
    (byt "last_error", true, text (pl_LastError l)); (byt "updated_at", false, VInt (pl_UpdatedAt l))].
(** A slice that is nil when it is empty, and one that is not. *)
Definition nil_slice {A : Type} (f : A -> gval) (l : list A) : gval := match l with [] => VNil | _ => VSlice (f <$> l) end.
Definition made_slice {A : Type} (f : A -> gval) (l : list A) : gval := VSlice (f <$> l).

(** ** The server *)

Record world := mkWorld {
  w_store : Store;
  w_disk : Disk; (* the indicator and configuration files *)
  w_dbs : disk; (* the queue databases *)
  w_cfg : Config
}.
#[global] Instance settable_world : Settable world := fun w => mkWorld (w_store w) (w_disk w) (w_dbs w) (w_cfg w).
(** What a request finds: the constants of the server, the clock, the random
    identifiers, the outcome of saves, the feed directories, the storage metrics,
    the files of shardPaths, the files that exist, whether one of the two slots
    for evidence reads is free, and the queue databases at the second read of
    ReadEvent. *)
Record henv := mkEnv {
  hv_configPath : string;
  hv_version : string;
  hv_built : string;
  hv_now : Z;
  hv_uuid : nat -> string;
  hv_save : save_env;
  hv_write : write_fault;
  hv_sync : option (feed_fs * Syncer * Z);
  hv_stats : option (res StorageStats);
  hv_paths : list string;
  hv_exists : string -> bool;
  hv_slot : bool;
  hv_later : queue_db * disk
}.

Definition authorized (w : world) (r : request) : bool :=
  let token := vc_Token (cf_Server (w_cfg w)) in
  if seqb token "" then true else bool_decide (byt (rq_Authorization r) = byt ("Bearer " +:+ token)).
Definition acceptSTIX (w : world) : bool := ic_AcceptSTIX (cf_Intel (w_cfg w)).
Definition defaultSource (w : world) : string := ic_DefaultSource (cf_Intel (w_cfg w)).
(** The configuration without its secrets. *)
Definition hide (cfg : Config) : Config := cfg <| cf_Node ::= fun n => n <| nc_APIKey := "" |> |> <| cf_Server ::= fun v => v <| vc_Token := "" |> |>.
(** The settings a posted configuration leaves out are kept. *)
Definition keep_settings (current posted : Config) : Config :=
  let posted := if bool_decide (cf_Storage posted = zero_StorageConfig) then posted <| cf_Storage := cf_Storage current |> else posted in
  let posted := if negb (seqb (nc_APIKey (cf_Node current)) "") && seqb (nc_APIKey (cf_Node posted)) ""
                then posted <| cf_Node ::= fun n => n <| nc_APIKey := nc_APIKey (cf_Node current) |> |> else posted in
  if negb (seqb (vc_Token (cf_Server current)) "") && seqb (vc_Token (cf_Server posted)) ""
  then posted <| cf_Server ::= fun v => v <| vc_Token := vc_Token (cf_Server current) |> |> else posted.

Section server.
Context `{GoUnicode} `{GoYAML} `{RangeOrder} `{ConfigYAML} `{GoZlib} `{GoSort} `{SqlOrder} `{SqlLike} `{SqlGlob}.
Context (master : queue_db -> string -> bool).

Definition handleConfig (e : henv) (r : request) (w : world) : response * world :=
  if seqb (rq_Method r) "GET" then
    (writeJSON 200 [("config", struct_value fields_Config (hide (w_cfg w))); ("path", text (hv_configPath e))], w)
  else if seqb (rq_Method r) "POST" then
    if negb (authorized w r) then (unauthorized, w)
    else
      match json_Decode fields_config_request (mkConfigRequest zero_Config) (rq_Body r) with
      | None => (failure 400 "json", w)
      | Some rq =>
          let cfg := keep_settings (w_cfg w) (cq_Config rq) in
          match Save (hv_configPath e) cfg (hv_write e) (w_disk w) with
          | (d, Some err) => (failure 500 err, w <| w_disk := d |>)
          | (d, None) =>
              (writeJSON 200 [("path", text (hv_configPath e)); ("restart_required", VBool true); ("success", VBool true)],
               w <| w_disk := d |> <| w_cfg := cfg |>)
          end
      end
  else (status 405, w).

Definition handleConfigPage (e : henv) (r : request) (w : world) : response * world :=
  if negb (seqb (rq_Path r) "/") && negb (seqb (rq_Path r) "/config") then (status 404, w)
  else
    let version := if seqb (hv_built e) "" then hv_version e else hv_version e +:+ str [chr 32; chr 194; chr 183; chr 32] +:+ hv_built e in
    (mkResponse 200 (ConfigPage (hide (w_cfg w)) (hv_configPath e) version
       (negb (seqb (nc_APIKey (cf_Node (w_cfg w))) "")) (negb (seqb (vc_Token (cf_Server (w_cfg w))) ""))), w).

Definition handleIntel (e : henv) (r : request) (w : world) : option (response * world) :=
  if seqb (rq_Method r) "GET" then
    let offset := (parse_int (byt (query_Get r "offset"))).1 in
    let limit := (parse_int (byt (query_Get r "limit"))).1 in
    let limit := if limit <=? 0 then 50 else limit in
    '(items, total) ← ListFiltered (w_store w) offset limit (mkFilter (query_Get r "q") (query_Get r "type") (query_Get r "category"));
    Some (writeJSON 200 [("items", nil_slice (struct_value fields_ThreatIntel) items); ("limit", VInt limit); ("offset", VInt offset); ("total", VInt total)], w)
  else if seqb (rq_Method r) "POST" then
    if negb (authorized w r) then Some (unauthorized, w)
    else
      match json_Decode fields_ThreatIntel zero_ThreatIntel (rq_Body r) with
      | None => Some (failure 400 "json", w)
      | Some it =>
          let '(st, d, (saved, err)) := Add (w_store w) (w_disk w) it (hv_uuid e 0%nat) (hv_now e) (hv_save e) in
          let w := w <| w_store := st |> <| w_disk := d |> in
          match err with
          | Some msg => Some (failure 500 msg, w)
          | None => Some (writeJSON 200 [("id", text (ti_ID saved)); ("success", VBool true)], w)
          end
      end
  else Some (status 405, w).

Definition checkItemLimit (w : world) (incoming : Z) : option string :=
  let maxItems := ic_MaxItems (cf_Intel (w_cfg w)) in
  if maxItems <=? 0 then None
  else
    let total := Z.of_nat (size (st_items (w_store w))) in
    if maxItems <? i64 (total + incoming)
    then Some ("intel item limit exceeded: max_items=" +:+ strconv_Itoa maxItems +:+ " current=" +:+ strconv_Itoa total +:+ " incoming=" +:+ strconv_Itoa incoming)
    else None.
(** The result of an operation on the store. *)
Definition stored_as (code : Z) (good : response) (w : world) (r : Store * Disk * option string) : response * world :=
  let '(st, d, err) := r in
  (match err with Some msg => failure code msg | None => good end, w <| w_store := st |> <| w_disk := d |>).
Definition success : response := writeJSON 200 [("success", VBool true)].
Definition success_count (n : Z) : response := writeJSON 200 [("count", VInt n); ("success", VBool true)].

(** The operations under /api/v1/intel/; the caller is authorized. *)
Definition intel_reload (e : henv) (w : world) : response * world :=
  let '(st, err) := Reload (w_store w) (w_disk w) (hv_uuid e) (hv_now e) in stored_as 500 success w (st, w_disk w, err).
Definition intel_sync (e : henv) (r : request) (w : world) : response * world :=
  match json_Decode fields_File (mkFile []) (rq_Body r) with
  | None => (failure 400 "json", w)
  | Some f => stored_as 500 success w (Sync (w_store w) (w_disk w) (fi_Items f) (hv_uuid e) (hv_now e) (hv_save e))
  end.
Definition intel_sync_source (e : henv) (r : request) (w : world) : response * world :=
  match json_Decode fields_source_request (mkSourceRequest "" []) (rq_Body r) with
  | None => (failure 400 "json", w)
  | Some rq =>
      let source := if seqb (sq_Source rq) "" then query_Get r "source" else sq_Source rq in
      match checkItemLimit w (len (sq_Items rq)) with
      | Some msg => (failure 400 msg, w)
      | None => stored_as 400 (success_count (len (sq_Items rq))) w (SyncSource (w_store w) (w_disk w) source (sq_Items rq) (hv_uuid e) (hv_now e) (hv_save e))
      end
  end.
Definition intel_upsert (e : henv) (r : request) (w : world) : response * world :=
  match json_Decode fields_File (mkFile []) (rq_Body r) with
  | None => (failure 400 "json", w)
  | Some f =>
      match checkItemLimit w (len (fi_Items f)) with
      | Some msg => (failure 400 msg, w)
      | None => stored_as 500 (success_count (len (fi_Items f))) w (UpsertMany (w_store w) (w_disk w) (fi_Items f) (hv_uuid e) (hv_now e) (hv_save e))
      end
  end.
Definition intel_stix (e : henv) (r : request) (w : world) : response * world :=
  if negb (acceptSTIX w) then (failure 403 "stix disabled", w)
  else
    let source := query_Get r "source" in
    let source := if seqb source "" then defaultSource w else source in
    match ParseSTIXIndicators (fun _ => hv_now e) (rq_Body r) source with
    | None => (failure 400 "json", w)
    | Some result =>
        match checkItemLimit w (len (sr_Items result)) with
        | Some msg => (failure 400 msg, w)
        | None =>
            stored_as 500
              (writeJSON 200 [("count", VInt (len (sr_Items result))); ("errors", nil_slice text (sr_Errors result)); ("skipped", VInt (sr_Skipped result)); ("success", VBool true)])
              w (UpsertMany (w_store w) (w_disk w) (sr_Items result) (hv_uuid e) (hv_now e) (hv_save e))
        end
    end.
Definition intel_iocsync (e : henv) (w : world) : response * world :=
  match hv_sync e with
  | None => (failure 503 "ioc sync not available", w)
  | Some (fs, syncer, clock) =>
      let '(st, d, result, _) := SyncOnce fs syncer (w_store w) (w_disk w) (hv_uuid e) (hv_now e) clock (hv_save e) in
      (match result with Err msg => failure 500 msg | Ok n => writeJSON 200 [("added", VInt n); ("success", VBool true)] end,
       w <| w_store := st |> <| w_disk := d |>)
  end.
Definition guarded (r : request) (w : world) (f : response * world) : response * world := if authorized w r then f else (unauthorized, w).
Definition handleIntelID (e : henv) (r : request) (w : world) : response * world :=
  let path := strings_TrimPrefix (rq_Path r) "/api/v1/intel/" in
  let post := seqb (rq_Method r) "POST" in
  if seqb (rq_Method r) "DELETE" then guarded r w (stored_as 404 success w (Delete (w_store w) (w_disk w) path (hv_save e)))
  else if post && seqb path "reload" then guarded r w (intel_reload e w)
  else if post && seqb path "sync" then guarded r w (intel_sync e r w)
  else if post && seqb path "sync-source" then guarded r w (intel_sync_source e r w)
  else if post && seqb path "batch-upsert" then guarded r w (intel_upsert e r w)
  else if post && seqb path "stix" then guarded r w (intel_stix e r w)
  else if post && seqb path "iocsync" then guarded r w (intel_iocsync e w)
  else if seqb (rq_Method r) "GET" && seqb path "stats" then (mkResponse 200 (JSON (stats_value (IntelStore.Stats (w_store w) (hv_now e)))), w)
  else (status 404, w).

Definition handleHealth (e : henv) (r : request) (w : world) : response * world :=
  if negb (seqb (rq_Method r) "GET") then (status 405, w)
  else (writeJSON 200 [("built_at", text (hv_built e)); ("device_id", text (nc_DeviceID (cf_Node (w_cfg w))));
          ("intel_count", VInt (IntelStore.ss_Total (IntelStore.Stats (w_store w) (hv_now e)))); ("server_time", VInt (hv_now e));
          ("status", text "ok"); ("version", text (hv_version e))], w).

Definition queue_path (w : world) : string := ec_QueueDB (cf_Event (w_cfg w)).
Definition no_logs (msg : string) : response := writeJSON 200 [("error", text msg); ("items", made_slice log_value [])].
Definition handlePushLogs (e : henv) (r : request) (w : world) : response * world :=
  if negb (seqb (rq_Method r) "GET") then (status 405, w)
  else if existsb (fun k => negb (seqb (query_Get r k) "")) ["offset"; "limit"; "status"; "q"] then
    let offset := (parse_int (byt (query_Get r "offset"))).1 in
    let limit := (parse_int (byt (query_Get r "limit"))).1 in
    match ListPushLogs master (hv_now e) (w_dbs w) (queue_path w) (hv_paths e) (mkQuery offset limit (query_Get r "status") (query_Get r "q")) with
    | Err msg => (no_logs msg, w)
    | Ok (logs, hasMore) => (writeJSON 200 [("has_more", VBool hasMore); ("items", made_slice log_value logs); ("limit", VInt limit); ("offset", VInt offset)], w)
    end
  else
    match recentPushLogs master (hv_now e) (w_dbs w) (queue_path w) (hv_paths e) 50 (seqb (query_Get r "summary") "1") with
    | Err msg => (no_logs msg, w)
    | Ok logs => (writeJSON 200 [("items", nil_slice log_value logs)], w)
    end.

(** RequeueEvent and DeleteEvent on the files of shardPaths. *)
Definition on_files (op : list queue_db -> string -> res Z * list queue_db) (files : disk) (paths : list string) (eventID : string) : res Z * disk :=
  match mapM (fun p => files !! p) paths with
  | None => (Err "no such file or directory", files)
  | Some dbs => let '(n, dbs) := op dbs eventID in (n, list_to_map (zip paths dbs) ∪ files)
  end.
Definition mutatePushEvent (e : henv) (op : list queue_db -> string -> res Z * list queue_db) (resultKey : string) (r : request) (w : world) : response * world :=
  if negb (seqb (rq_Method r) "POST") then (status 405, w)
  else if negb (authorized w r) then (unauthorized, w)
  else
    match json_Decode fields_event_request (mkEventRequest "") (rq_Body r) with
    | None => (failure 400 "json", w)
    | Some rq =>
        let id := strings_TrimSpace (eq_EventID rq) in
        if seqb id "" || (512 <? slen id) then (failure 400 "invalid event_id", w)
        else
          let '(n, dbs) := on_files op (w_dbs w) (hv_paths e) id in
          let w := w <| w_dbs := dbs |> in
          match n with
          | Err msg => (failure (if seqb msg no_rows then 404 else 500) msg, w)
          | Ok n => (writeJSON 200 [(resultKey, VInt n); ("success", VBool true)], w)
          end
    end.
Definition handlePushRequeue (e : henv) : request -> world -> response * world := mutatePushEvent e (RequeueEvent (hv_now e)) "requeued".
Definition handlePushDelete (e : henv) : request -> world -> response * world := mutatePushEvent e DeleteEvent "deleted".

Definition handleStorageStats (e : henv) (r : request) (w : world) : response * world :=
  if negb (seqb (rq_Method r) "GET") then (status 405, w)
  else if negb (authorized w r) then (status 401, w)
  else
    match hv_stats e with
    | None => (writeJSON 503 [("error", text "storage metrics unavailable")], w)
    | Some (Err msg) => (writeJSON 500 [("error", text msg)], w)
    | Some (Ok st) => (mkResponse 200 (JSON (storage_value st)), w)
    end.

(** The key of a revision. *)
Definition detail_key (id : string) (revision : Z) : string := if 1 <? revision then id +:+ "@revision:" +:+ strconv_Itoa revision else id.
Definition range_code (msg : string) : Z :=
  if strings_Contains msg "offset exceeds" || strings_Contains msg "invalid range" then 416 else if seqb msg no_rows then 404 else 500.
Definition handleEventDetail (e : henv) (r : request) (w : world) : response * world :=
  if negb (seqb (rq_Method r) "GET") then (status 405, w)
  else if negb (authorized w r) then (status 401, w)
  else if negb (hv_slot e) then (writeJSON 429 [("error", text "too many evidence reads")], w)
  else
    let key := query_Get r "event_id" in
    if seqb key "" || (512 <? slen key) then (status 400, w)
    else
      let '(revision, ok) := parse_uint (byt (query_Get r "revision")) 64 in
      if negb ok && negb (seqb (query_Get r "revision") "") then (status 400, w)
      else
        let key := detail_key key revision in
        if negb (seqb (query_Get r "offset") "") then
          let '(offset, ok1) := parse_int (byt (query_Get r "offset")) in
          let '(length, ok2) := parse_int (byt (query_Get r "length")) in
          if negb ok1 || negb ok2 || (offset <? 0) || (length <? 1) || (65536 <? length) then (status 400, w)
          else
            match ReadPacketRange master (w_dbs w) (hv_paths e) key offset length with
            | Err msg => (writeJSON (range_code msg) [("error", text msg)], w)
            | Ok part => (mkResponse 200 (JSON (range_value part)), w)
            end
        else
          match ReadEvent master (w_dbs w) (queue_path w) (hv_later e).1 (hv_later e).2 key with
          | Err msg => (writeJSON (if seqb msg no_rows then 404 else 500) [("error", text msg)], w)
          | Ok ev => (mkResponse 200 (JSON (event_value ev)), w)
          end.

Definition evidence_base (cfg : Config) : string :=
  let dir := xc_PCAPDir (cf_Evidence cfg) in filepath_Clean (if seqb dir "" then "./data/evidence" else dir).
Definition handleEvidenceDownload (e : henv) (r : request) (w : world) : response * world :=
  if negb (seqb (rq_Method r) "GET") then (status 405, w)
  else
    let rel := strings_TrimPrefix (rq_Path r) "/api/v1/evidence/" in
    if seqb rel "" || strings_Contains rel ".." then (status 400, w)
    else
      let abs := join_paths (evidence_base (w_cfg w)) rel in
      if negb (hv_exists e abs) then (status 404, w) else (mkResponse 200 (ServedFile abs), w).

(** ** Routing *)

(** cleanPath of net/http *)
Definition cleanPath (p : string) : string :=
  if seqb p "" then "/"
  else
    let p := if strings_HasPrefix p "/" then p else "/" +:+ p in
    let np := filepath_Clean p in
    if strings_HasSuffix p "/" && negb (seqb np "/") then np +:+ "/" else np.
(** The handler of the longest pattern that matches. *)
Definition routes (e : henv) (r : request) (w : world) : option (response * world) :=
  let p := rq_Path r in
  if seqb p "/api/v1/config" then Some (handleConfig e r w)
  else if seqb p "/api/v1/health" then Some (handleHealth e r w)
  else if seqb p "/api/v1/push/logs" then Some (handlePushLogs e r w)
  else if seqb p "/api/v1/push/requeue" then Some (handlePushRequeue e r w)
  else if seqb p "/api/v1/push/delete" then Some (handlePushDelete e r w)
  else if seqb p "/api/v1/push/event" then Some (handleEventDetail e r w)
  else if seqb p "/api/v1/storage" then Some (handleStorageStats e r w)
  else if seqb p "/api/v1/intel" then handleIntel e r w
  else if strings_HasPrefix p "/api/v1/intel/" then Some (handleIntelID e r w)
  else if strings_HasPrefix p "/api/v1/evidence/" then Some (handleEvidenceDownload e r w)
  else if seqb p "/api/v1/evidence" then Some (status 301, w)
  else Some (handleConfigPage e r w).
(** ServeMux.ServeHTTP: a path that is not clean is redirected. *)
Definition serve (e : henv) (r : request) (w : world) : option (response * world) :=
  if negb (seqb (rq_Method r) "CONNECT") && negb (seqb (cleanPath (rq_Path r)) (rq_Path r)) then Some (status 301, w)
  else routes e r w.
End server.

(** ** Only authorized requests change anything *)

Section safety.
Context `{GoUnicode} `{GoYAML} `{RangeOrder} `{ConfigYAML} `{GoZlib} `{GoSort} `{SqlOrder} `{SqlLike} `{SqlGlob}.
Context (master : queue_db -> string -> bool).

(** Requests that must leave the world alone. *)
Definition harmless (w : world) (r : request) : Prop := authorized w r = false \/ rq_Method r = "GET".
Lemma harmless_POST w r : harmless w r -> seqb (rq_Method r) "POST" = true -> authorized w r = false.
Proof. intros [?|E] Hp; [done|]. apply seqb_spec in Hp. congruence. Qed.
Lemma harmless_guarded w r f : harmless w r -> rq_Method r <> "GET" -> (guarded r w f).2 = w.
Proof. intros [Ha|E] Hg; [unfold guarded; by rewrite Ha|done]. Qed.

Lemma handleConfig_harmless e r w : harmless w r -> (handleConfig e r w).2 = w.
Proof.
  intros Hh. unfold handleConfig. case_match; [done|]. case_match eqn:Ep; [|done]. by rewrite (harmless_POST w r Hh Ep).
Qed.
Lemma handleIntel_harmless e r w x : harmless w r -> handleIntel e r w = Some x -> x.2 = w.
Proof.
  intros Hh. unfold handleIntel. case_match.
  - intros ([items total] & _ & [= <-])%bind_Some. done.
  - case_match eqn:Ep; [|by intros [= <-]]. rewrite (harmless_POST w r Hh Ep). by intros [= <-].
Qed.
Lemma handleIntelID_harmless e r w : harmless w r -> (handleIntelID e r w).2 = w.
Proof.
  intros Hh. unfold handleIntelID. case_match eqn:Ed; [apply harmless_guarded; [done|by apply seqb_spec in Ed as ->]|].
  destruct (seqb (rq_Method r) "POST") eqn:Ep; cbn [andb]; [|by repeat case_match].
  apply seqb_spec in Ep. repeat (case_match; [first [apply harmless_guarded; [done|by rewrite Ep]|done]|]). done.
Qed.
Lemma mutatePushEvent_harmless e op k r w : harmless w r -> (mutatePushEvent e op k r w).2 = w.
Proof. intros Hh. unfold mutatePushEvent. destruct (seqb (rq_Method r) "POST") eqn:Ep; [|done]. cbn [negb]. by rewrite (harmless_POST w r Hh Ep). Qed.
Lemma read_only_handlers e r w : (handleHealth e r w).2 = w /\ (handlePushLogs master e r w).2 = w /\ (handleEventDetail master e r w).2 = w
  /\ (handleStorageStats e r w).2 = w /\ (handleEvidenceDownload e r w).2 = w /\ (handleConfigPage e r w).2 = w.
Proof.
  unfold handleHealth, handlePushLogs, handleEventDetail, handleStorageStats, handleEvidenceDownload, handleConfigPage. cbv zeta.
  split_and!; repeat (case_match; try done).
Qed.
Lemma some_world (x : response * world) resp w w' : Some x = Some (resp, w') -> x.2 = w -> w' = w.
Proof. by intros [= ->] <-. Qed.
(** C7.  Only an authorized request changes anything.  When the server has a
    token, a request without it, whatever its method, path and body, leaves the
    indicators, the files, the queue databases and the configuration as they are;
    so does every GET request. *)
Theorem serve_harmless (e : henv) (r : request) (w w' : world) (resp : response) :
  harmless w r -> serve master e r w = Some (resp, w') -> w' = w.
Proof.
  intros Hh. unfold serve. case_match; [by intros [= _ <-]|]. unfold routes. destruct (read_only_handlers e r w) as (Hro1 & Hro2 & Hro3 & Hro4 & Hro5 & Hro6).
  pose proof (handleConfig_harmless e r w Hh) as Hro7. pose proof (handleIntelID_harmless e r w Hh) as Hro8.
  pose proof (mutatePushEvent_harmless e (RequeueEvent (hv_now e)) "requeued" r w Hh) as Hro9. pose proof (mutatePushEvent_harmless e DeleteEvent "deleted" r w Hh) as Hro10.
  repeat case_match; intros E; first [exact (handleIntel_harmless e r w _ Hh E)|apply (some_world _ _ _ _ E); first [assumption|reflexivity]].
Qed.
End safety.

(** ** Secrets stay in *)

(** Two worlds that differ in the secrets, and in the file that holds them. *)
Record same_but_secrets (path : string) (w w' : world) : Prop := {
  sb_store : w_store w' = w_store w;
  sb_dbs : w_dbs w' = w_dbs w;
  sb_disk : forall p, p <> path -> w_disk w' !! p = w_disk w !! p;
  sb_cfg : hide (w_cfg w') = hide (w_cfg w);
  sb_key : seqb (nc_APIKey (cf_Node (w_cfg w'))) "" = seqb (nc_APIKey (cf_Node (w_cfg w))) "";
  sb_token : seqb (vc_Token (cf_Server (w_cfg w'))) "" = seqb (vc_Token (cf_Server (w_cfg w))) ""
}.

Section secrets.
Context `{GoUnicode} `{GoYAML} `{RangeOrder} `{ConfigYAML} `{GoZlib} `{GoSort} `{SqlOrder} `{SqlLike} `{SqlGlob}.
Context (master : queue_db -> string -> bool).

Lemma persist_error s e d d' : (persist s e d).2 = (persist s e d').2.
Proof. unfold persist, SaveFileAtomic. case_match; [|done]. by destruct (se_fault e). Qed.
(** An operation on the store answers the same on any disk. *)
Definition disk_blind (op : Disk -> Store * Disk * option string) : Prop := forall d d', (op d).1.1 = (op d').1.1 /\ (op d).2 = (op d').2.
Lemma persist_blind s e : disk_blind (fun d => let '(d, err) := persist s e d in (s, d, err)).
Proof. intros d d'. pose proof (persist_error s e d d'). by destruct (persist s e d), (persist s e d'). Qed.
Lemma Delete_blind s id e : disk_blind (fun d => Delete s d id e).
Proof. intros d d'. unfold Delete. case_match; [apply persist_blind|done]. Qed.
Lemma Sync_blind s items u n e : disk_blind (fun d => Sync s d items u n e).
Proof. intros d d'. apply persist_blind. Qed.
Lemma UpsertMany_blind s items u n e : disk_blind (fun d => UpsertMany s d items u n e).
Proof. intros d d'. apply persist_blind. Qed.
Lemma SyncSource_blind s src items u n e : disk_blind (fun d => SyncSource s d src items u n e).
Proof. intros d d'. unfold SyncSource. case_match; [done|]. case_match. apply persist_blind. Qed.
Lemma UpsertDedup_blind s items u n e : disk_blind (fun d => UpsertDedup s d items u n e).
Proof. intros d d'. unfold UpsertDedup. cbv zeta. case_match; [done|apply persist_blind]. Qed.
Lemma stored_as_blind code good op w w' : disk_blind op -> (stored_as code good w (op (w_disk w))).1 = (stored_as code good w' (op (w_disk w'))).1.
Proof. intros Hb. destruct (Hb (w_disk w) (w_disk w')) as [_ He]. unfold stored_as. destruct (op (w_disk w)) as [[? ?] ?], (op (w_disk w')) as [[? ?] ?]. cbn in *. by subst. Qed.

Lemma Save_error path cfg cfg' fault d d' : cf_Storage cfg = cf_Storage cfg' -> (Save path cfg fault d).2 = (Save path cfg' fault d').2.
Proof. intros E. unfold Save. rewrite E. destruct (Validate _); [done|]. by destruct fault. Qed.
Lemma keep_storage c c' p : cf_Storage c = cf_Storage c' -> cf_Storage (keep_settings c p) = cf_Storage (keep_settings c' p).
Proof. intros E. unfold keep_settings. rewrite E. repeat case_match; done. Qed.

Context (e : henv) (r : request) (w w' : world).
Hypothesis (Hsame : same_but_secrets (hv_configPath e) w w') (Hauth : authorized w' r = authorized w r).

Lemma same_part {A} (f : Config -> A) : (forall c, f (hide c) = f c) -> f (w_cfg w') = f (w_cfg w).
Proof. intros Hf. rewrite <-(Hf (w_cfg w')), <-(Hf (w_cfg w)). by rewrite (sb_cfg _ _ _ Hsame). Qed.
Lemma handleConfig_same : (handleConfig e r w').1 = (handleConfig e r w).1.
Proof.
  unfold handleConfig. rewrite (sb_cfg _ _ _ Hsame), Hauth. case_match; [done|]. case_match; [|done]. case_match; [done|]. case_match; [|done]. cbv zeta.
  match goal with |- context [keep_settings (w_cfg w) ?p] =>
    pose proof (Save_error (hv_configPath e) _ _ (hv_write e) (w_disk w') (w_disk w) (keep_storage _ _ p (same_part cf_Storage (fun c => eq_refl)))) as Hs end.
  destruct (Save _ _ _ (w_disk w')) as [d1 e1], (Save _ _ _ (w_disk w)) as [d2 e2]. cbn in Hs. subst. by destruct e2.
Qed.
Lemma handleIntel_same : fst <$> handleIntel e r w' = fst <$> handleIntel e r w.
Proof.
  unfold handleIntel. rewrite (sb_store _ _ _ Hsame), Hauth. case_match; [by destruct (ListFiltered _ _ _ _) as [[]|]|]. case_match; [|done]. case_match; [done|].
  case_match; [|done]. unfold Add. cbv zeta.
  match goal with |- context [persist ?s _ (w_disk w')] => pose proof (persist_error s (hv_save e) (w_disk w') (w_disk w)) as Hp end.
  destruct (persist _ _ (w_disk w')) as [d1 e1], (persist _ _ (w_disk w)) as [d2 e2]. cbn in Hp. subst. by destruct e2.
Qed.
Lemma checkItemLimit_same n : checkItemLimit w' n = checkItemLimit w n.
Proof. unfold checkItemLimit. by rewrite (sb_store _ _ _ Hsame), (same_part (fun c => ic_MaxItems (cf_Intel c))) by (by intros []). Qed.
Lemma stored_same code good op : disk_blind op -> (stored_as code good w' (op (w_disk w'))).1 = (stored_as code good w (op (w_disk w))).1.
Proof. apply stored_as_blind. Qed.
Lemma intel_reload_same : st_path (w_store w) <> hv_configPath e -> (intel_reload e w').1 = (intel_reload e w).1.
Proof.
  intros Hp. unfold intel_reload, Reload. rewrite (sb_store _ _ _ Hsame). cbv zeta. destruct (seqb (st_path (w_store w)) ""); [done|]. unfold LoadFile. rewrite (sb_disk _ _ _ Hsame) by done.
  destruct (w_disk w !! st_path (w_store w)) as [b|]; [|done]. cbn. by destruct (yaml_Unmarshal b).
Qed.
Lemma intel_posts_same : (intel_sync e r w').1 = (intel_sync e r w).1 /\ (intel_sync_source e r w').1 = (intel_sync_source e r w).1
  /\ (intel_upsert e r w').1 = (intel_upsert e r w).1 /\ (intel_stix e r w').1 = (intel_stix e r w).1 /\ (intel_iocsync e w').1 = (intel_iocsync e w).1.
Proof.
  split_and!.
  - unfold intel_sync. case_match; [|done]. rewrite (sb_store _ _ _ Hsame). apply (stored_same 500 success (fun d => Sync _ d _ _ _ _)), Sync_blind.
  - unfold intel_sync_source. case_match; [|done]. rewrite checkItemLimit_same, (sb_store _ _ _ Hsame). case_match; [done|].
    apply (stored_same 400 _ (fun d => SyncSource _ d _ _ _ _ _)), SyncSource_blind.
  - unfold intel_upsert. case_match; [|done]. rewrite checkItemLimit_same, (sb_store _ _ _ Hsame). case_match; [done|].
    apply (stored_same 500 _ (fun d => UpsertMany _ d _ _ _ _)), UpsertMany_blind.
  - unfold intel_stix, acceptSTIX, defaultSource.
    rewrite (same_part (fun c => ic_AcceptSTIX (cf_Intel c))), (same_part (fun c => ic_DefaultSource (cf_Intel c))) by (by intros []).
    case_match; [done|]. cbv zeta. destruct (ParseSTIXIndicators _ _ _) as [result|]; [|done]. rewrite checkItemLimit_same, (sb_store _ _ _ Hsame).
    destruct (checkItemLimit w _); [done|]. apply (stored_same 500 _ (fun d => UpsertMany _ d _ _ _ _)), UpsertMany_blind.
  - unfold intel_iocsync. destruct (hv_sync e) as [[[fs syncer] clock]|]; [|done]. unfold SyncOnce. rewrite (sb_store _ _ _ Hsame). cbv zeta.
    destruct (scan_paths _ _ _ _) as [seen candidates]. destruct candidates as [|c cs]; [done|].
    destruct (UpsertDedup_blind (w_store w) (c :: cs) (hv_uuid e) (hv_now e) (hv_save e) (w_disk w') (w_disk w)) as [_ He]. cbn beta in He.
    destruct (UpsertDedup _ (w_disk w') _ _ _ _) as [[s1 d1] e1], (UpsertDedup _ (w_disk w) _ _ _ _) as [[s2 d2] e2]. cbn in He. subst. by destruct e2.
Qed.
Lemma guarded_same f f' : f'.1 = f.1 -> (guarded r w' f').1 = (guarded r w f).1.
Proof. intros E. unfold guarded. rewrite Hauth. by case_match. Qed.
Lemma handleIntelID_same : st_path (w_store w) <> hv_configPath e -> (handleIntelID e r w').1 = (handleIntelID e r w).1.
Proof.
  intros Hp. unfold handleIntelID. destruct intel_posts_same as (Hi1 & Hi2 & Hi3 & Hi4 & Hi5). pose proof (intel_reload_same Hp) as Hi6.
  case_match; [apply guarded_same; rewrite (sb_store _ _ _ Hsame); apply (stored_same 404 success (fun d => Delete _ d _ _)), Delete_blind|].
  repeat (case_match; [first [by apply guarded_same|by rewrite (sb_store _ _ _ Hsame)]|]). done.
Qed.
Lemma queue_path_same : queue_path w' = queue_path w.
Proof. exact (same_part (fun c => ec_QueueDB (cf_Event c)) (fun c => eq_refl)). Qed.
Lemma handlePushLogs_same : (handlePushLogs master e r w').1 = (handlePushLogs master e r w).1.
Proof. unfold handlePushLogs. rewrite (sb_dbs _ _ _ Hsame), queue_path_same. cbv zeta. by repeat case_match. Qed.
Lemma mutatePushEvent_same op k : (mutatePushEvent e op k r w').1 = (mutatePushEvent e op k r w).1.
Proof.
  unfold mutatePushEvent. rewrite (sb_dbs _ _ _ Hsame), Hauth. repeat (case_match; try done); simplify_eq; done.
Qed.
Lemma handleEventDetail_same : (handleEventDetail master e r w').1 = (handleEventDetail master e r w).1.
Proof. unfold handleEventDetail. rewrite (sb_dbs _ _ _ Hsame), queue_path_same, Hauth. cbv zeta. by repeat case_match. Qed.
Lemma other_handlers_same : (handleHealth e r w').1 = (handleHealth e r w).1 /\ (handleStorageStats e r w').1 = (handleStorageStats e r w).1
  /\ (handleEvidenceDownload e r w').1 = (handleEvidenceDownload e r w).1 /\ (handleConfigPage e r w').1 = (handleConfigPage e r w).1.
Proof.
  split_and!.
  - unfold handleHealth. rewrite (sb_store _ _ _ Hsame), (same_part (fun c => nc_DeviceID (cf_Node c)) (fun c => eq_refl)). by case_match.
  - unfold handleStorageStats. rewrite Hauth. by repeat case_match.
  - unfold handleEvidenceDownload. rewrite (same_part evidence_base (fun c => eq_refl)). cbv zeta. by repeat case_match.
  - unfold handleConfigPage. rewrite (sb_cfg _ _ _ Hsame), (sb_key _ _ _ Hsame), (sb_token _ _ _ Hsame). by case_match.
Qed.
(** C14.  No response reveals a secret.  Two servers that differ only in the API
    key and the token, and in the file these are kept in, answer every request
    alike as long as it is authorized on both or on neither: what is visible of
    the secrets is whether they are set, and whether a presented token is right. *)
Theorem responses_hide_secrets : st_path (w_store w) <> hv_configPath e -> fst <$> serve master e r w' = fst <$> serve master e r w.
Proof.
  intros Hp. unfold serve, routes. destruct other_handlers_same as (Ho1 & Ho2 & Ho3 & Ho4).
  pose proof handleConfig_same as Ho5. pose proof handleIntel_same as Ho6. pose proof (handleIntelID_same Hp) as Ho7. pose proof handlePushLogs_same as Ho8.
  pose proof (mutatePushEvent_same (RequeueEvent (hv_now e)) "requeued") as Ho9. pose proof (mutatePushEvent_same DeleteEvent "deleted") as Ho10.
  pose proof handleEventDetail_same as Ho11.
  repeat (case_match; [first [done|exact Ho6|apply (f_equal Some); assumption]|]). apply (f_equal Some). assumption.
Qed.
End secrets.

(** ** What requests cannot undo *)

Section settings.
Context `{GoUnicode} `{GoYAML} `{RangeOrder} `{ConfigYAMLLaws} `{GoZlib} `{GoSort} `{SqlOrder} `{SqlLike} `{SqlGlob}.
Context (master : queue_db -> string -> bool) (path : string).

(** A change that concerns neither the configuration nor its file. *)
Definition quiet (w w' : world) : Prop :=
  w_cfg w' = w_cfg w /\ w_disk w' !! path = w_disk w !! path /\ st_path (w_store w') = st_path (w_store w).
Lemma quiet_refl w : quiet w w.
Proof. done. Qed.
Definition quiet_op (s : Store) (d : Disk) (x : Store * Disk * option string) : Prop := st_path x.1.1 = st_path s /\ x.1.2 !! path = d !! path.
Lemma persist_other s e d : st_path s <> path -> se_tmp e <> path -> (persist s e d).1 !! path = d !! path.
Proof.
  intros Hs Ht. unfold persist, SaveFileAtomic. case_match; [|done].
  destruct (se_fault e); cbn; rewrite ?lookup_delete_ne, ?lookup_insert_ne by done; done.
Qed.
Section ops.
Context (s : Store) (d : Disk) (e : save_env) (Hs : st_path s <> path) (Ht : se_tmp e <> path).
Lemma persist_quiet s' : st_path s' = st_path s -> quiet_op s d (let '(d, err) := persist s' e d in (s', d, err)).
Proof. intros E. pose proof (persist_other s' e d) as Hp. rewrite E in Hp. specialize (Hp Hs Ht). by destruct (persist s' e d). Qed.
Lemma Delete_quiet id : quiet_op s d (Delete s d id e).
Proof. unfold Delete. case_match; [by apply persist_quiet|done]. Qed.
Lemma Sync_quiet items u n : quiet_op s d (Sync s d items u n e).
Proof. by apply persist_quiet. Qed.
Lemma UpsertMany_quiet items u n : quiet_op s d (UpsertMany s d items u n e).
Proof. by apply persist_quiet. Qed.
Lemma SyncSource_quiet src items u n : quiet_op s d (SyncSource s d src items u n e).
Proof. unfold SyncSource. case_match; [done|]. case_match. by apply persist_quiet. Qed.
Lemma UpsertDedup_quiet items u n : quiet_op s d (UpsertDedup s d items u n e).
Proof. unfold UpsertDedup. cbv zeta. case_match; [done|by apply persist_quiet]. Qed.
End ops.
Lemma stored_quiet code good w x : quiet_op (w_store w) (w_disk w) x -> quiet w (stored_as code good w x).2.
Proof. intros [Hp Hd]. by destruct x as [[st d] err]. Qed.

Section handlers.
Context (e : henv) (r : request) (w : world) (Hs : st_path (w_store w) <> path) (Ht : se_tmp (hv_save e) <> path).
Lemma handleIntel_quiet x : handleIntel e r w = Some x -> quiet w x.2.
Proof.
  unfold handleIntel. case_match; [by intros ([] & _ & [= <-])%bind_Some|]. case_match; [|by intros [= <-]]. case_match; [by intros [= <-]|].
  case_match; [|by intros [= <-]]. unfold Add. cbv zeta.
  match goal with |- context [persist ?s _ _] => pose proof (persist_other s (hv_save e) (w_disk w) Hs Ht) as Hp end.
  destruct (persist _ _ _) as [d err]. by destruct err; intros [= <-].
Qed.
Lemma handleIntelID_quiet : quiet w (handleIntelID e r w).2.
Proof.
  assert (forall f, quiet w f.2 -> quiet w (guarded r w f).2) as Hg by (intros f Hf; unfold guarded; by case_match).
  unfold handleIntelID. case_match; [by apply Hg, stored_quiet, Delete_quiet|]. repeat (case_match; [try done; try apply Hg|]); [..|done].
  - unfold intel_reload, Reload. destruct (seqb (st_path _) ""); [done|]. by destruct (LoadFile _ _) as [[]|].
  - unfold intel_sync. case_match; [|done]. by apply stored_quiet, Sync_quiet.
  - unfold intel_sync_source. case_match; [|done]. cbv zeta. destruct (checkItemLimit _ _); [done|]. by apply stored_quiet, SyncSource_quiet.
  - unfold intel_upsert. case_match; [|done]. destruct (checkItemLimit _ _); [done|]. by apply stored_quiet, UpsertMany_quiet.
  - unfold intel_stix. case_match; [done|]. cbv zeta. destruct (ParseSTIXIndicators _ _ _); [|done]. destruct (checkItemLimit _ _); [done|]. by apply stored_quiet, UpsertMany_quiet.
  - unfold intel_iocsync. destruct (hv_sync e) as [[[fs syncer] clock]|]; [|done]. unfold SyncOnce. cbv zeta. destruct (scan_paths _ _ _ _) as [seen [|c cs]]; [done|].
    pose proof (UpsertDedup_quiet (w_store w) (w_disk w) (hv_save e) Hs Ht (c :: cs) (hv_uuid e) (hv_now e)) as [Hp Hd].
    destruct (UpsertDedup _ _ _ _ _ _) as [[st d] [err|]]; done.
Qed.
Lemma mutatePushEvent_quiet op k : quiet w (mutatePushEvent e op k r w).2.
Proof. unfold mutatePushEvent. repeat (case_match; try done). Qed.
End handlers.

(** The secrets are set, the storage settings are valid, and the file holds what
    is in memory. *)
Definition token_set (w : world) : Prop := vc_Token (cf_Server (w_cfg w)) <> "".
Definition key_set (w : world) : Prop := nc_APIKey (cf_Node (w_cfg w)) <> "".
Definition storage_valid (w : world) : Prop := Validate (cf_Storage (w_cfg w)) = None.
Definition config_saved (w : world) : Prop := Load (fun p => Ok <$> w_disk w !! p) path = ((w_cfg w) <| cf_Runtime := zero_RuntimeConfig |>, None).
Definition keeps (w w' : world) : Prop :=
  (token_set w -> token_set w') /\ (key_set w -> key_set w') /\ (storage_valid w -> storage_valid w') /\ (config_saved w -> config_saved w')
  /\ st_path (w_store w') = st_path (w_store w).
Lemma quiet_keeps w w' : quiet w w' -> keeps w w'.
Proof.
  intros (Hc & Hd & Hp). unfold keeps, token_set, key_set, storage_valid, config_saved. rewrite Hc. split_and!; [done..| |done].
  unfold Load. case_match; [done|]. by rewrite Hd.
Qed.
Lemma keep_token c p : vc_Token (cf_Server c) <> "" -> vc_Token (cf_Server (keep_settings c p)) <> "".
Proof.
  intros Hc. unfold keep_settings. rewrite (proj2 (seqb_neq _ _) Hc). cbn [negb andb].
  match goal with |- context [if seqb (vc_Token (cf_Server ?q)) "" then _ else _] => destruct (seqb_reflect (vc_Token (cf_Server q)) "") as [E|E] end; [done|done].
Qed.
Lemma keep_key c p : nc_APIKey (cf_Node c) <> "" -> nc_APIKey (cf_Node (keep_settings c p)) <> "".
Proof.
  intros Hc. unfold keep_settings. rewrite (proj2 (seqb_neq _ _) Hc). cbn [negb andb].
  match goal with |- context [if seqb (nc_APIKey (cf_Node ?q)) "" then _ else _] => destruct (seqb_reflect (nc_APIKey (cf_Node q)) "") as [E|E] end;
    repeat case_match; done.
Qed.
Lemma handleConfig_keeps e r w : hv_configPath e = path -> path <> "" -> (forall n, hv_write e <> write_part n) -> keeps w (handleConfig e r w).2.
Proof.
  intros Hpath Hne Hw. unfold handleConfig. assert (keeps w w) as Hk by (apply quiet_keeps, quiet_refl).
  case_match; [done|]. case_match; [|done]. case_match; [done|]. case_match; [|done]. cbv zeta. rewrite Hpath.
  match goal with |- context [Save path ?c _ _] => set (cfg := c) end. destruct (Save path cfg (hv_write e) (w_disk w)) as [d err] eqn:E.
  pose proof (Save_Load path cfg (hv_write e) (w_disk w) d err Hne E) as [_ Hl]. destruct err as [msg|].
  - apply quiet_keeps. assert (d = w_disk w) as -> by (unfold Save in E; destruct (Validate _); [congruence|]; destruct (hv_write e); try congruence; by destruct (Hw n)).
    by destruct w.
  - destruct Hl as [Hv Hl]. split_and!; [apply keep_token|apply keep_key|done|done|done].
Qed.
(** The requests of a server whose configuration file is [path]; a write to it
    that fails, fails before the file is truncated. *)
Inductive server_step : world -> world -> Prop :=
| server_request e r w resp w' : hv_configPath e = path -> se_tmp (hv_save e) <> path -> (forall n, hv_write e <> write_part n) ->
    serve master e r w = Some (resp, w') -> server_step w w'.
Lemma step_keeps w w' : path <> "" -> st_path (w_store w) <> path -> server_step w w' -> keeps w w'.
Proof.
  intros Hne Hs Hstep. inversion Hstep as [e r w1 resp w2 Hpath Ht Hw E Ew1 Ew2]; subst w1 w2; clear Hstep. revert E. unfold serve, routes.
  assert (keeps w w) as Hk by (apply quiet_keeps, quiet_refl).
  assert (forall x, Some x = Some (resp, w') -> keeps w x.2 -> keeps w w') as Hx by (by intros x [= ->]).
  destruct (read_only_handlers master e r w) as (Hr1 & Hr2 & Hr3 & Hr4 & Hr5 & Hr6).
  pose proof (handleConfig_keeps e r w Hpath Hne Hw) as Hr7. pose proof (quiet_keeps _ _ (handleIntelID_quiet e r w Hs Ht)) as Hr8.
  pose proof (fun op k => quiet_keeps _ _ (mutatePushEvent_quiet e r w op k)) as Hr9.
  repeat case_match; intros E; first [apply (handleIntel_quiet e r w Hs Ht) in E; by apply quiet_keeps in E
    |apply (Hx _ E); first [assumption|apply Hr9|rewrite Hr1|rewrite Hr2|rewrite Hr3|rewrite Hr4|rewrite Hr5|rewrite Hr6|idtac]; done].
Qed.
End settings.

(** ** Evidence files *)

Section evidence.
Context `{GoUnicode} `{GoYAML} `{RangeOrder} `{ConfigYAML} `{GoZlib} `{GoSort} `{SqlOrder} `{SqlLike} `{SqlGlob}.
Context (master : queue_db -> string -> bool).

Definition serves (path : string) (x : response * world) : Prop := rs_body x.1 = ServedFile path.
Lemma handleEvidence_serves e r w path : serves path (handleEvidenceDownload e r w) ->
  exists rel, strings_Contains rel ".." = false /\ path = join_paths (evidence_base (w_cfg w)) rel /\ hv_exists e path = true.
Proof.
  unfold handleEvidenceDownload. case_match; [done|]. cbv zeta. case_match eqn:Ec; [done|]. case_match eqn:Ee; [done|]. unfold serves. cbn. intros [= <-].
  apply orb_false_iff in Ec as [_ Ec]. eexists. split; [exact Ec|]. split; [done|]. by apply negb_false_iff in Ee.
Qed.
(** The other handlers serve no file. *)
Definition no_file (x : response * world) : Prop := match rs_body x.1 with ServedFile _ => False | _ => True end.
Lemma stored_no_file code good w x : no_file (good, w) -> no_file (stored_as code good w x).
Proof. by destruct x as [[st d] [err|]]. Qed.
Lemma guarded_no_file r w x : no_file x -> no_file (guarded r w x).
Proof. unfold guarded. by case_match. Qed.
Lemma handleIntelID_no_file e r w : no_file (handleIntelID e r w).
Proof.
  unfold handleIntelID. repeat (case_match; [try apply guarded_no_file|]); try done; try (by apply stored_no_file).
  - unfold intel_reload. destruct (Reload _ _ _ _). by apply stored_no_file.
  - unfold intel_sync. case_match; [by apply stored_no_file|done].
  - unfold intel_sync_source. case_match; [|done]. cbv zeta. destruct (checkItemLimit _ _); [done|by apply stored_no_file].
  - unfold intel_upsert. case_match; [|done]. destruct (checkItemLimit _ _); [done|by apply stored_no_file].
  - unfold intel_stix. case_match; [done|]. cbv zeta. destruct (ParseSTIXIndicators _ _ _); [|done]. destruct (checkItemLimit _ _); [done|by apply stored_no_file].
  - unfold intel_iocsync. destruct (hv_sync e) as [[[fs syncer] clock]|]; [|done]. destruct (SyncOnce _ _ _ _ _ _ _ _) as [[[st d] [n|msg]] sy]; done.
Qed.
Lemma handlers_no_file e r w : no_file (handleConfig e r w) /\ no_file (handleHealth e r w) /\ no_file (handlePushLogs master e r w) /\ no_file (handleEventDetail master e r w)
  /\ no_file (handleStorageStats e r w) /\ no_file (handleConfigPage e r w) /\ (forall op k, no_file (mutatePushEvent e op k r w))
  /\ (forall x, handleIntel e r w = Some x -> no_file x).
Proof.
  split_and!.
  - unfold handleConfig. cbv zeta. by repeat case_match.
  - unfold handleHealth. by case_match.
  - unfold handlePushLogs. cbv zeta. by repeat case_match.
  - unfold handleEventDetail. cbv zeta. by repeat case_match.
  - unfold handleStorageStats. by repeat case_match.
  - unfold handleConfigPage. by repeat case_match.
  - intros op k. unfold mutatePushEvent. cbv zeta. by repeat case_match.
  - intros x. unfold handleIntel. case_match; [by intros ([] & _ & [= <-])%bind_Some|]. cbv zeta. repeat case_match; by intros [= <-].
Qed.
(** C29.  Only evidence is served.  A file that any request obtains exists and
    lies beneath the evidence directory: its path is that of the directory
    followed by names, none of which is empty, ".", ".." or contains a slash. *)
Theorem evidence_contained (e : henv) (r : request) (w w' : world) (code : Z) (path : string) :
  serve master e r w = Some (mkResponse code (ServedFile path), w') ->
  hv_exists e path = true /\ exists rooted elems names,
    evidence_base (w_cfg w) = path_string rooted elems /\ path = path_string rooted (elems ++ names) /\ Forall kept_name elems /\ Forall entry_name names.
Proof.
  intros E. assert (serves path (handleEvidenceDownload e r w)) as Hs.
  { revert E. destruct (handlers_no_file e r w) as (Hn1 & Hn2 & Hn3 & Hn4 & Hn5 & Hn6 & Hn7 & Hn8). pose proof (handleIntelID_no_file e r w) as Hn9.
    unfold serve, routes. repeat case_match; intros E; try done;
      first [by apply Hn8 in E|injection E as E; first [rewrite E in Hn1|rewrite E in Hn2|rewrite E in Hn3|rewrite E in Hn4|rewrite E in Hn5|rewrite E in Hn6|rewrite E in Hn9
        |unfold serves; by rewrite E|idtac]; try done].
    - pose proof (Hn7 (RequeueEvent (hv_now e)) "requeued") as Hn. unfold handlePushRequeue in E. by rewrite E in Hn.
    - pose proof (Hn7 DeleteEvent "deleted") as Hn. unfold handlePushDelete in E. by rewrite E in Hn. }
  apply handleEvidence_serves in Hs as (rel & Hc & -> & He). split; [done|]. by apply join_beneath.
Qed.
End evidence.

(** ** The configuration, read and posted back *)

Section echo.
Context `{ConfigYAML}.

Lemma json_Decode_text {R : Type} (fs : list (field R)) zero t : jtext t -> json_Decode fs zero t = json_into_struct zero (struct_member fs) t.
Proof.
  intros Ht. unfold json_Decode. pose proof (skip_ws_jtext t [] Ht) as E1. pose proof (scan_value_jtext t [] Ht I) as E2. pose proof (before_app t []) as E3.
  rewrite !app_nil_r in *. cbv zeta. rewrite E1, E2. cbn [mbind option_bind]. by rewrite E3.
Qed.
(** What GET answers, without the part that is not written. *)
Definition shown (cfg : Config) : Config := (hide cfg) <| cf_Runtime := zero_RuntimeConfig |>.
Definition shown_body (cfg : Config) (path : string) : gval := VMap [(byt "config", struct_value fields_Config (hide cfg)); (byt "path", text path)].
Lemma shown_decodes cfg path : struct_ok fields_Config (shown cfg) ->
  json_Decode fields_config_request (mkConfigRequest zero_Config) (json_Marshal (shown_body cfg path)) = Some (mkConfigRequest (shown cfg)).
Proof.
  intros Hok. unfold shown_body. change (struct_value fields_Config (hide cfg)) with (struct_value fields_Config (shown cfg)).
  pose proof (struct_value_ok _ _ _ spec_Config Hok) as Hv. assert (value_ok (text path)) as Hs by exact I.
  rewrite json_Decode_text.
  2:{ apply json_Marshal_jtext. split_and!; [vm_compute; reflexivity|exact Hv|vm_compute; reflexivity|exact Hs|exact I]. }
  rewrite marshal_map. unfold json_into_struct. rewrite shape_obj.
  2:{ apply Forall_cons; split; [split; [vm_compute; reflexivity|by apply json_Marshal_jtext]|].
      apply Forall_singleton. split; [vm_compute; reflexivity|by apply json_Marshal_jtext]. }
  assert (names (byt "config") "config" = true) as E1 by (vm_compute; reflexivity).
  assert (names (byt "path") "config" = false) as E2 by (vm_compute; reflexivity).
  cbn [pair_texts fmap list_fmap foldr fst snd]. unfold struct_member. cbn [fields_config_request List.find fst snd fd_name tagged]. rewrite E1, E2.
  cbn [fd_into tagged jt_codec jstruct struct_codec c_into cq_Config]. by rewrite (struct_unmarshal fields_Config zero_Config (shown cfg) spec_Config Hok).
Qed.
Lemma keep_shown cfg : keep_settings cfg (shown cfg) = cfg <| cf_Runtime := zero_RuntimeConfig |>.
Proof.
  assert ((if bool_decide (cf_Storage (shown cfg) = zero_StorageConfig) then (shown cfg) <| cf_Storage := cf_Storage cfg |> else shown cfg) = shown cfg) as E
    by (case_match; [by destruct cfg|done]).
  unfold keep_settings. rewrite E. clear E. destruct cfg as [[] cap pat intel evid event flow agg [] sto run]. cbn.
  rewrite !andb_true_r. repeat match goal with |- context [negb (seqb ?k "")] => destruct (seqb_reflect k "") as [->|]; cbn end; done.
Qed.
(** C30.  A configuration read from the interface and posted back is saved whole.
    GET shows it without the API key and the token, and the very body of that
    answer, posted by an authorized client, leaves the configuration with its
    secrets as it was, in memory and on disk, whatever the settings are. *)
Theorem config_echo `{!ConfigYAMLLaws} (e : henv) (g r : request) (w : world) :
  rq_Method g = "GET" -> rq_Method r = "POST" -> authorized w r = true -> hv_configPath e <> "" -> hv_write e = write_ok ->
  struct_ok fields_Config (shown (w_cfg w)) -> Validate (cf_Storage (w_cfg w)) = None ->
  exists v, (handleConfig e g w).1 = mkResponse 200 (JSON v) /\ (rq_Body r = json_Marshal v ->
    exists w', handleConfig e r w = (writeJSON 200 [("path", text (hv_configPath e)); ("restart_required", VBool true); ("success", VBool true)], w')
    /\ w_cfg w' = (w_cfg w) <| cf_Runtime := zero_RuntimeConfig |> /\ w_store w' = w_store w /\ w_dbs w' = w_dbs w
    /\ Load (fun p => Ok <$> w_disk w' !! p) (hv_configPath e) = (w_cfg w', None)).
Proof.
  intros Hg Hr Ha Hp Hw Hok Hv. exists (shown_body (w_cfg w) (hv_configPath e)). unfold handleConfig. rewrite Hg, Hr. split; [done|]. intros ->.
  change (seqb "POST" "GET") with false. change (seqb "POST" "POST") with true. cbv iota. rewrite Ha. cbn [negb]. rewrite shown_decodes by done. cbv zeta. cbn [cq_Config].
  rewrite keep_shown. set (cfg := (w_cfg w) <| cf_Runtime := _ |>). destruct (Save (hv_configPath e) cfg (hv_write e) (w_disk w)) as [d err] eqn:E.
  destruct (Save_Load _ _ _ _ _ _ Hp E) as [_ Hl]. assert (err = None) as -> by (unfold Save in E; rewrite Hw in E; change (cf_Storage cfg) with (cf_Storage (w_cfg w)) in E; rewrite Hv in E; congruence).
  eexists. split; [done|]. split_and!; [done|done|done|]. exact (proj2 Hl).
Qed.
End echo.

(** ** Witnesses *)

#[local] Existing Instance ascii_unicode.
#[local] Existing Instance bits_yaml.
#[local] Existing Instance canonical_range.
#[local] Existing Instance bits_config.
#[local] Existing Instance identity_zlib.
#[local] Existing Instance insertion_sort.
#[local] Existing Instance merge_order.
#[local] Existing Instance no_like.
#[local] Existing Instance glob_simple.

Definition demo_config (key token : string) : Config := (hide Default) <| cf_Node ::= fun n => n <| nc_APIKey := key |> |> <| cf_Server ::= fun v => v <| vc_Token := token |> |>.
Definition demo_world (key token : string) : world := mkWorld (mkStore ∅ "/data/intel.yaml" 0) ∅ ∅ (demo_config key token).
Definition demo_env : henv :=
  mkEnv "/etc/ta_node.yaml" "1.0" "" 1700000000 (fun _ => "id") (mkSaveEnv "/data/intel.yaml.tmp" no_fault) write_ok None None [] (fun _ => true) true (new_db, ∅).
Definition demo_request (method path auth body : string) : request := mkRequest method path ∅ auth (byt body).

Lemma serve_harmless_witness : exists w', serve all_tables demo_env (demo_request "POST" "/api/v1/intel/sync" "Bearer wrong" "{}") (demo_world "k" "secret") = Some (unauthorized, w')
  /\ w' = demo_world "k" "secret".
Proof.
  assert (E : serve all_tables demo_env (demo_request "POST" "/api/v1/intel/sync" "Bearer wrong" "{}") (demo_world "k" "secret") = Some (unauthorized, demo_world "k" "secret"))
    by (vm_compute; reflexivity).
  eexists. split; [exact E|]. refine (serve_harmless all_tables demo_env _ _ _ _ _ E). left. vm_compute. reflexivity.
Defined.
Lemma responses_hide_secrets_witness : let r := demo_request "GET" "/api/v1/config" "" "" in
  fst <$> serve all_tables demo_env r (demo_world "k2" "other") = fst <$> serve all_tables demo_env r (demo_world "k" "secret").
Proof.
  intros r. apply (responses_hide_secrets all_tables demo_env r (demo_world "k" "secret") (demo_world "k2" "other")).
  - unfold demo_world. split; cbn [w_store w_dbs w_disk w_cfg]; [reflexivity|reflexivity|reflexivity|vm_compute; reflexivity..].
  - vm_compute. reflexivity.
  - discriminate.
Defined.
Lemma evidence_contained_witness : exists w' rooted elems names,
  serve all_tables demo_env (demo_request "GET" "/api/v1/evidence/2024-01-02/a.pcap" "" "") (demo_world "k" "secret") =
    Some (mkResponse 200 (ServedFile (path_string rooted (elems ++ names))), w')
  /\ evidence_base (w_cfg (demo_world "k" "secret")) = path_string rooted elems /\ Forall entry_name names.
Proof.
  assert (E : serve all_tables demo_env (demo_request "GET" "/api/v1/evidence/2024-01-02/a.pcap" "" "") (demo_world "k" "secret") =
    Some (mkResponse 200 (ServedFile (join_paths (evidence_base (demo_config "k" "secret")) "2024-01-02/a.pcap")), demo_world "k" "secret")) by (vm_compute; reflexivity).
  destruct (evidence_contained all_tables demo_env _ _ _ _ _ E) as (_ & rooted & elems & names & Eb & Ep & _ & Hn).
  exists (demo_world "k" "secret"), rooted, elems, names. split; [|split; [exact Eb|exact Hn]]. rewrite <- Ep. exact E.
Defined.
Definition posts_config : request := demo_request "POST" "/api/v1/config" "Bearer secret" "{}".
Lemma posts_config_saves (C : ConfigYAML) : let cfg := keep_settings (demo_config "k" "secret") zero_Config in
  @serve _ _ _ C _ _ _ _ _ all_tables demo_env posts_config (demo_world "k" "secret") =
    Some (writeJSON 200 [("path", text "/etc/ta_node.yaml"); ("restart_required", VBool true); ("success", VBool true)],
      mkWorld (mkStore ∅ "/data/intel.yaml" 0) (<["/etc/ta_node.yaml" := @config_Marshal C cfg]> ∅) ∅ cfg).
Proof. vm_compute. reflexivity. Qed.
Lemma config_echo_witness : exists v w', (handleConfig demo_env (demo_request "GET" "/api/v1/config" "" "") (demo_world "k" "secret")).1 = mkResponse 200 (JSON v)
  /\ (handleConfig demo_env (mkRequest "POST" "/api/v1/config" ∅ "Bearer secret" (json_Marshal v)) (demo_world "k" "secret")).2 = w'
  /\ nc_APIKey (cf_Node (w_cfg w')) = "k" /\ vc_Token (cf_Server (w_cfg w')) = "secret".
Proof.
  destruct (config_echo demo_env (demo_request "GET" "/api/v1/config" "" "") (mkRequest "POST" "/api/v1/config" ∅ "Bearer secret"
    (json_Marshal (shown_body (demo_config "k" "secret") "/etc/ta_node.yaml"))) (demo_world "k" "secret")) as (v & Ev & Hpost);
    [reflexivity|reflexivity|vm_compute; reflexivity|discriminate|reflexivity| |vm_compute; reflexivity|].
  - apply (bool_decide_unpack (struct_ok fields_Config (shown (w_cfg (demo_world "k" "secret"))))). vm_compute. exact I.
  - assert (v = shown_body (demo_config "k" "secret") "/etc/ta_node.yaml") as -> by (injection Ev as <-; vm_compute; reflexivity).
    destruct (Hpost eq_refl) as (w' & E & Hc & _). exists (shown_body (demo_config "k" "secret") "/etc/ta_node.yaml"), w'.
    split; [exact Ev|]. split; [exact (f_equal snd E)|]. rewrite Hc. split; vm_compute; reflexivity.
Defined.
