(* ===== verification/Evidence.v ===== *)
(** * Evidence: the packets kept on disk (internal/evidence/pcap_writer.go)

    The writer keeps one capture file per event under a directory per device and
    day, removes expired days and archives the days of the last month.  The file
    system is a map from cleaned paths to directories and files. *)

From S2P Require Import Prelude GoStrings GoNet Content Queue Shard Admin Readers IntelStore Stix Detector Config Paths Pcap Clock Server.

(** ** The file system *)

Inductive inode := Dir | Regular (b : bytes).
Notation tree := (gmap string inode).

Definition rooted (path : string) : bool := strings_HasPrefix path "/".
(** The directories on the way to a path, itself included, outermost first. *)
Definition ways (path : string) : list string := (fun k => path_string (rooted path) (take (S k) (elements path))) <$> seq 0 (length (elements path)).
Definition is_file (t : tree) (path : string) : bool := match t !! path with Some (Regular _) => true | _ => false end.
Definition is_dir (t : tree) (path : string) : bool := match t !! path with Some Dir => true | _ => false end.
Definition add_dir (t : tree) (path : string) : tree := match t !! path with None => <[path := Dir]> t | Some _ => t end.
(** os.MkdirAll, which may fail after [made] directories. *)
Definition MkdirAll (path : string) (made : option nat) (t : tree) : tree * option string :=
  if existsb (is_file t) (ways path) then (t, Some "not a directory")
  else match made with
       | None => (foldl add_dir t (ways path), None)
       | Some n => (foldl add_dir t (take n (ways path)), Some "mkdir")
       end.
Definition beneath (path k : string) : bool :=
  Bool.eqb (rooted path) (rooted k) && bool_decide (elements path `prefix_of` elements k).
(** os.RemoveAll, which may fail and leave the entries for which [keep] holds. *)
Definition RemoveAll (path : string) (keep : option (string -> bool)) (t : tree) : tree * option string :=
  match keep with
  | None => (filter (fun kv => beneath path kv.1 = false) t, None)
  | Some keep => (filter (fun kv => negb (beneath path kv.1) || keep kv.1 = true) t, Some "remove")
  end.
(** os.ReadDir: the entries of a directory in the order of their names. *)
Definition base_name (path : string) : string := List.last (elements path) "".
Definition child_of (dir : string) (kv : string * inode) : option (string * inode) :=
  let name := base_name kv.1 in
  if negb (seqb name "") && negb (seqb name "..") && seqb (join_paths dir name) kv.1 then Some (name, kv.2) else None.
Definition name_le (a b : string * inode) : Prop := sle a.1 b.1.
#[export] Instance name_le_dec : RelDecision name_le := fun a b => sle_dec a.1 b.1.
Definition ReadDir (dir : string) (t : tree) : option (list (string * inode)) :=
  if is_dir t dir then Some (merge_sort name_le (omap (child_of dir) (map_to_list t))) else None.

(** ** The writer *)

Record Writer := mkWriter {
  wr_enabled : bool;
  wr_baseDir : string;
  wr_deviceID : string;
  wr_hashDir : bool;
  wr_retainDays : Z;
  wr_archiveMtly : bool
}.
Definition New (enabled : bool) (baseDir deviceID : string) (hashDir : bool) (retainDays : Z) (archiveMonthly : bool) : Writer :=
  mkWriter enabled baseDir deviceID hashDir retainDays archiveMonthly.
(** What Save uses of a packet. *)
Record Captured := mkCaptured { cp_Data : bytes; cp_Info : CaptureInfo; cp_LinkLayer : bool }.
(** Which call fails, and what is written before it does. *)
Inductive save_failure := no_failure | mkdir_fails (made : nat) | create_fails | header_fails (written : nat) | packet_fails (written : nat).

Section writer.
Context `{GoLocation}.

Definition evidence_dir (w : Writer) (eventID : string) (ts : Time) : string :=
  let dir := join_elems [wr_baseDir w; wr_deviceID w; FormatDate ts] in
  if wr_hashDir w && (6 <=? slen eventID) then join_paths dir (str (take 2 (drop 4 (byt eventID)))) else dir.
Definition evidence_path (w : Writer) (eventID : string) (ts : Time) : string := join_paths (evidence_dir w eventID ts) (eventID +:+ ".pcap").
Definition packet_time (now : Z * Z) (p : Captured) : Time := let t := default now (ci_Timestamp (cp_Info p)) in mkTime t.1 t.2.
Definition link_type (p : Captured) : Z := if cp_LinkLayer p then LinkTypeEthernet else LinkTypeRaw.
Definition snap_length (p : Captured) : Z := if 65535 <? u32 (len (cp_Data p)) then u32 (len (cp_Data p)) else 65535.
(** The path is returned although the packet could not be written. *)
Definition Save (w : Writer) (eventID : string) (packet : option Captured) (now : Z * Z) (fault : save_failure) (t : tree) : tree * (string * option string) :=
  match packet with
  | None => (t, ("", None))
  | Some p =>
      if negb (wr_enabled w) then (t, ("", None))
      else
        let ts := packet_time now p in
        let '(t, err) := MkdirAll (evidence_dir w eventID ts) (match fault with mkdir_fails n => Some n | _ => None end) t in
        match err with
        | Some e => (t, ("", Some e))
        | None =>
            let path := evidence_path w eventID ts in
            let header := file_header (snap_length p) (link_type p) in
            match fault with
            | create_fails => (t, ("", Some "create"))
            | _ =>
                if is_dir t path then (t, ("", Some "is a directory"))
                else match fault with
                     | header_fails n => (<[path := Regular (take n header)]> t, ("", Some "write"))
                     | _ =>
                         match WritePacket (cp_Info p) (cp_Data p) now with
                         | Err e => (<[path := Regular header]> t, (path, Some e))
                         | Ok record =>
                             match fault with
                             | packet_fails n => (<[path := Regular (header ++ take n record)]> t, (path, Some "write"))
                             | _ => (<[path := Regular (header ++ record)]> t, (path, None))
                             end
                         end
                     end
            end
        end
  end.

(** *** Expired days *)

Definition device_dir (w : Writer) : string := join_paths (wr_baseDir w) (wr_deviceID w).
Definition remove_expired (devDir : string) (cutoff : Time) (keep : string -> option (string -> bool)) (st : tree * Z) (entry : string * inode) : tree * Z :=
  let '(t, removed) := st in
  match entry.2, ParseDate entry.1 with
  | Dir, Some dirTime =>
      if time_Before dirTime cutoff then
        let dateDir := join_paths devDir entry.1 in
        match RemoveAll dateDir (keep dateDir) t with
        | (t, Some _) => (t, removed)
        | (t, None) => (t, removed + 1)
        end
      else st
  | _, _ => st
  end.
Definition CleanupExpired (w : Writer) (now : Time) (keep : string -> option (string -> bool)) (t : tree) : tree * Z :=
  if wr_retainDays w <=? 0 then (t, 0)
  else match ReadDir (device_dir w) t with
       | None => (t, 0)
       | Some entries => foldl (remove_expired (device_dir w) (AddDays now (- wr_retainDays w)) keep) (t, 0) entries
       end.
End writer.

(** *** The last month *)

(** The text of a zip archive with the given entries. *)
Class GoZip := { zip_Marshal : list (string * bytes) -> bytes }.

Fixpoint elements_ltb (a b : list string) : bool :=
  match a, b with
  | _, [] => false
  | [], _ :: _ => true
  | x :: a, y :: b => sltb x y || (seqb x y && elements_ltb a b)
  end.
Definition walk_le (a b : string * bytes) : Prop := elements_ltb (elements b.1) (elements a.1) = false.
#[export] Instance walk_le_dec : RelDecision walk_le.
Proof. intros a b. unfold walk_le. apply _. Defined.
Definition file_beneath (dir : string) (kv : string * inode) : option (string * bytes) :=
  match kv.2 with Regular b => if beneath dir kv.1 then Some (kv.1, b) else None | Dir => None end.
(** filepath.Walk: the files beneath a directory, directory by directory in the
    order of the names. *)
Definition walk_files (dir : string) (t : tree) : list (string * bytes) := merge_sort walk_le (omap (file_beneath dir) (map_to_list t)).
(** filepath.Join(base, rel) of a file of the directory. *)
Definition zip_name (dir path : string) : string := strings_Join (base_name dir :: drop (length (elements dir)) (elements path)) "/".
(** Why a file stops the walk: it cannot be opened, or only a part of it can be
    copied. *)
Inductive file_failure := not_opened | copied (n : nat).
Fixpoint zip_entries (dir : string) (fails : string -> option file_failure) (files : list (string * bytes)) : list (string * bytes) * Z :=
  match files with
  | [] => ([], 0)
  | (path, b) :: files =>
      match fails path with
      | None => let '(es, n) := zip_entries dir fails files in ((zip_name dir path, b) :: es, n + 1)
      | Some not_opened => ([(zip_name dir path, [])], 0)
      | Some (copied k) => ([(zip_name dir path, take k b)], 1)
      end
  end.

Record archive_faults := mkArchiveFaults {
  af_create : string -> bool;
  af_file : string -> option file_failure;
  af_remove : string -> option (string -> bool)
}.
Definition no_faults : archive_faults := mkArchiveFaults (fun _ => false) (fun _ => None) (fun _ => None).

Section archive.
Context `{GoLocation} `{GoZip}.

Definition archiveDir (dir zipPath : string) (f : archive_faults) (t : tree) : tree * Z :=
  if af_create f zipPath || is_dir t zipPath then (t, 0)
  else let '(entries, count) := zip_entries dir (af_file f) (walk_files dir t) in (<[zipPath := Regular (zip_Marshal entries)]> t, count).
Definition archive_entry (devDir : string) (lastMonth thisMonth : Time) (f : archive_faults) (st : tree * Z) (entry : string * inode) : tree * Z :=
  let '(t, total) := st in
  match entry.2, ParseDate entry.1 with
  | Dir, Some dirTime =>
      if time_Before dirTime lastMonth || time_After dirTime thisMonth then st
      else
        let dateDir := join_paths devDir entry.1 in
        let '(t, count) := archiveDir dateDir (dateDir +:+ ".zip") f t in
        ((RemoveAll dateDir (af_remove f dateDir) t).1, if 0 <? count then total + count else total)
  | _, _ => st
  end.
Definition ArchiveLastMonth (w : Writer) (now : Time) (f : archive_faults) (t : tree) : tree * Z :=
  if negb (wr_archiveMtly w) then (t, 0)
  else match ReadDir (device_dir w) t with
       | None => (t, 0)
       | Some entries =>
           let '(y, m, _) := local_date now in
           foldl (archive_entry (device_dir w) (time_Date y (m - 1) 1 0 0) (time_Date y m 1 0 0) f) (t, 0) entries
       end.
End archive.

(** ** Where evidence is kept *)

Lemma slash_free_bytes b : Forall (fun c => bv c <> 47) b -> slash_free (str b).
Proof. intros Hb Hin. rewrite byt_str in Hin. rewrite Forall_forall in Hb. by apply (Hb _ Hin). Qed.
Lemma date_entry day : 0 <= day < 49711 -> entry_name (date_text day).
Proof.
  intros Hd. pose proof (ParseDate_text day Hd) as E. split; [|split_and!; intros Hx; rewrite Hx in E; discriminate E].
  unfold date_text. pose proof (civil_days day) as Hc. pose proof (civil_year day Hd) as Hy. destruct (civil day) as [[y m] d]. destruct Hc as (_ & Hm & Hdd).
  assert (d <= 31) by (unfold days_in in Hdd; repeat case_match; lia).
  assert (forall z, 0 <= z < 100 -> Forall (fun c => bv c <> 47) (two_digits z)) as Hz.
  { intros z Hz. assert (0 <= z / 10 < 10) by (split; [apply Z.div_pos; lia|apply Z.div_lt_upper_bound; lia]). pose proof (Z.mod_pos_bound z 10 ltac:(lia)).
    repeat constructor; rewrite bv_chr by lia; lia. }
  rewrite <-(str_byt (_ +:+ _)). apply slash_free_bytes. rewrite !byt_app, zpad_year, !zpad_two by lia.
  assert (0 <= y / 100 < 100) by (split; [apply Z.div_pos; lia|apply Z.div_lt_upper_bound; lia]). pose proof (Z.mod_pos_bound y 100 ltac:(lia)).
  repeat (apply Forall_app; split); try (apply Hz; lia); repeat constructor; done.
Qed.

Section places.
Context `{GoLocation} (w : Writer) (id : string).
(** The names a device and an event may have. *)
Definition names_fit : Prop := wr_baseDir w <> "" /\ entry_name (wr_deviceID w) /\ slash_free id /\ str (take 2 (drop 4 (byt id))) <> "..".
(** Times of the 136 years from 1970. *)
Definition in_calendar (ts : Time) : Prop := 0 <= local_seconds ts / 86400 < 49711.
Definition day_names (ts : Time) : list string :=
  [wr_deviceID w; FormatDate ts] ++ (if wr_hashDir w && (6 <=? slen id) then [str (take 2 (drop 4 (byt id)))] else []).
Definition file_names (ts : Time) : list string := day_names ts ++ [id +:+ ".pcap"].
Let r := strings_HasPrefix (wr_baseDir w) "/".
Let base := elements (wr_baseDir w).
Context (Hnames : names_fit) (ts : Time) (Hts : in_calendar ts).

Lemma base_stack : clean_stack r (rev base).
Proof. apply elements_stack. Qed.
Lemma hash_entry : 6 <= slen id -> entry_name (str (take 2 (drop 4 (byt id)))).
Proof.
  destruct Hnames as (_ & _ & Hs & Hd). intros Hl. unfold slen, len in Hl. assert (length (take 2 (drop 4 (byt id))) = 2%nat) as Hlen by (rewrite length_take, length_drop; lia).
  split_and!; [|intros Hx; apply (f_equal byt) in Hx; rewrite byt_str in Hx; by rewrite Hx in Hlen..|done].
  intros Hin. rewrite byt_str in Hin. apply Hs. apply elem_of_take in Hin as (i & Hi & _). rewrite lookup_drop in Hi. by eapply list_elem_of_lookup_2.
Qed.
Lemma file_entry : entry_name (id +:+ ".pcap").
Proof.
  destruct Hnames as (_ & _ & Hs & _). split.
  - intros Hin. rewrite byt_app in Hin. apply elem_of_app in Hin as [Hin|Hin]; [by apply Hs|]. revert Hin. apply (bool_decide_unpack (_ ∉ _)). vm_compute. exact I.
  - split_and!; intros Hx; apply (f_equal (fun s => length (byt s))) in Hx; rewrite byt_app, length_app in Hx; cbn in Hx; lia.
Qed.
Lemma day_entries : Forall entry_name (day_names ts).
Proof.
  destruct Hnames as (_ & Hdev & _ & _). unfold day_names. apply Forall_app. split; [apply Forall_cons; split; [exact Hdev|apply Forall_singleton, date_entry, Hts]|].
  case_match eqn:E; [|done]. apply andb_prop in E as [_ E]. apply Forall_singleton, hash_entry. lia.
Qed.
Lemma stack_with names : Forall entry_name names -> clean_stack r (rev (base ++ names)).
Proof. intros Hn. rewrite rev_app_distr. apply clean_stack_names; [done|apply base_stack]. Qed.
Lemma device_dir_string : device_dir w = path_string r (base ++ [wr_deviceID w]).
Proof. destruct Hnames as (Hb & Hdev & _). unfold device_dir, join_paths. by rewrite join_names by (done || by apply Forall_singleton). Qed.
Lemma evidence_dir_string : evidence_dir w id ts = path_string r (base ++ day_names ts).
Proof.
  destruct Hnames as (Hb & Hdev & _). pose proof day_entries as Hd. unfold evidence_dir, day_names in *. apply Forall_app in Hd as [Hd Hh].
  rewrite join_names by done. fold r base. destruct (wr_hashDir w && (6 <=? slen id)); [|by rewrite app_nil_r]. rewrite join_name; [by rewrite <-app_assoc|by apply stack_with|]. exact (Forall_inv Hh).
Qed.
Lemma evidence_path_string : evidence_path w id ts = path_string r (base ++ file_names ts).
Proof.
  unfold evidence_path. rewrite evidence_dir_string, join_name; [by rewrite <-app_assoc|apply stack_with, day_entries|apply file_entry].
Qed.
Lemma file_entries : Forall entry_name (file_names ts).
Proof. apply Forall_app. split; [apply day_entries|apply Forall_singleton, file_entry]. Qed.
End places.

(** ** Saving *)

Lemma add_dir_lookup (t : tree) p k : add_dir t p !! k = match t !! k with Some x => Some x | None => if decide (k = p) then Some Dir else None end.
Proof.
  unfold add_dir. destruct (t !! p) eqn:Ep.
  - destruct (t !! k) eqn:Ek; [done|]. rewrite decide_False by congruence. done.
  - case_decide; [subst; by rewrite lookup_insert_eq, Ep|]. rewrite lookup_insert_ne by done. by destruct (t !! k).
Qed.
Lemma add_dirs_lookup ws : forall (t : tree) k, foldl add_dir t ws !! k = match t !! k with Some x => Some x | None => if decide (k ∈ ws) then Some Dir else None end.
Proof.
  induction ws as [|p ws IH]; intros t k; cbn [foldl]; [by destruct (t !! k)|]. rewrite IH, add_dir_lookup. destruct (t !! k); [done|].
  destruct (decide (k = p)), (decide (k ∈ ws)), (decide (k ∈ p :: ws)); set_solver.
Qed.
Lemma clean_stack_prefix r es k : clean_stack r (rev es) -> clean_stack r (rev (take k es)).
Proof.
  intros (ns & n & E & Hns & Hr). apply (f_equal (@rev string)) in E. rewrite rev_involutive, rev_app_distr in E.
  assert (rev (replicate n "..") = replicate n ("..": string)) as En by (rewrite rev_alt; apply (reverse_replicate n "..")). rewrite En in E.
  destruct (decide (k <= n)%nat) as [Hk|Hk].
  - exists [], (min k n). split_and!; [|done|intros Ht; specialize (Hr Ht); lia]. rewrite E, take_app_le, take_replicate by (rewrite length_replicate; lia).
    rewrite rev_alt. rewrite Nat.min_l by lia. apply (reverse_replicate k "..").
  - exists (rev (take (k - n) (rev ns))), n. split_and!; [|by apply Forall_rev, Forall_take, Forall_rev|done].
    rewrite E, take_app_ge by (rewrite length_replicate; lia). rewrite length_replicate, rev_app_distr. by rewrite En.
Qed.
(** The directories on the way to a cleaned path. *)
Lemma ways_string r es k : clean_stack r (rev es) -> k ∈ ways (path_string r es) <-> exists n, (0 < n <= length es)%nat /\ k = path_string r (take n es).
Proof.
  intros Hs. unfold ways, rooted. destruct (elements_string r es Hs) as [-> ->]. rewrite list_elem_of_fmap. setoid_rewrite elem_of_seq. split.
  - intros (n & -> & Hn). exists (S n). split; [lia|done].
  - intros (n & Hn & ->). exists (pred n). rewrite Nat.succ_pred by lia. split; [done|lia].
Qed.
Lemma path_string_inj r es es' : clean_stack r (rev es) -> clean_stack r (rev es') -> path_string r es = path_string r es' -> es = es'.
Proof. intros H1 H2 E. destruct (elements_string r es H1) as [<- _], (elements_string r es' H2) as [<- _]. by rewrite E. Qed.

Section saving.
Context `{GoLocation} `{GoGzip}.

(** C18.  Saved evidence is the packet.  With a writable evidence directory, Save
    puts a capture file at the path it returns, and reading that file as a
    capture source gives back exactly the frame, with its lengths, its time in
    microseconds and the link type; apart from the directories on the way,
    nothing else on the disk changes. *)
Theorem Save_roundtrip (w : Writer) (id : string) (p : Captured) (now : Z * Z) (t : tree) :
  let ts := packet_time now p in
  let path := evidence_path w id ts in
  wr_enabled w = true -> names_fit w id -> in_calendar ts -> frame_ok (snap_length p) (cp_Data p, cp_Info p) ->
  existsb (is_file t) (ways (evidence_dir w id ts)) = false -> is_dir t path = false ->
  exists t' b, Save w id (Some p) now no_failure t = (t', (path, None)) /\ t' !! path = Some (Regular b)
  /\ NewPCAPReader b = Ok (link_type p, [(cp_Data p, in_file (cp_Info p))])
  /\ forall k, k <> path -> t' !! k = t !! k \/ (t !! k = None /\ t' !! k = Some Dir /\ k ∈ ways (evidence_dir w id ts)).
Proof.
  intros ts path He Hn Hts Hf Hw Hd. unfold Save. rewrite He. cbn [negb]. fold ts. unfold MkdirAll. rewrite Hw. fold path.
  set (t1 := foldl add_dir t (ways (evidence_dir w id ts))).
  pose proof (file_entries w id Hn ts Hts) as Hfe. pose proof (day_entries w id Hn ts Hts) as Hde.
  assert (path ∉ ways (evidence_dir w id ts)) as Hp.
  { unfold path. rewrite (evidence_path_string w id Hn ts Hts), (evidence_dir_string w id Hn ts Hts).
    intros (n & Hn2 & E)%ways_string; [|by apply stack_with]. apply path_string_inj in E; [|by apply stack_with|by apply clean_stack_prefix, stack_with].
    apply (f_equal length) in E. unfold file_names in E. rewrite length_take, !length_app in E. cbn in E. lia. }
  assert (is_dir t1 path = false) as Hd1 by (unfold is_dir in *; unfold t1; rewrite add_dirs_lookup; destruct (t !! path) as [[]|]; [done|done|]; by rewrite decide_False).
  rewrite Hd1. pose proof (WritePacket_ok (snap_length p) (cp_Data p, cp_Info p) now Hf) as Ew. cbn [fst snd] in Ew. rewrite Ew.
  eexists _, _. split; [done|]. split; [apply lookup_insert_eq|]. split.
  - rewrite <-(app_nil_r (packet_record _ _)). apply (capture_roundtrip (snap_length p) (link_type p) now [(cp_Data p, cp_Info p)]).
    + unfold snap_length, u32. pose proof (Z.mod_pos_bound (len (cp_Data p)) (2 ^ 32) ltac:(lia)). case_match; lia.
    + unfold link_type. by case_match.
    + by apply Forall_singleton.
  - intros k Hk. rewrite lookup_insert_ne by done. unfold t1. rewrite add_dirs_lookup. destruct (t !! k); [by left|]. case_decide; [by right|by left].
Qed.
End saving.

(** ** Keeping and removing days *)

Lemma getnum_digits b z r : getnum true b = Some (z, r) -> exists c d, b = c :: d :: r /\ is_Some (digit c) /\ is_Some (digit d).
Proof.
  destruct b as [|c [|d b]]; cbn; try done; destruct (digit c) eqn:Ec; cbn; try done. destruct (digit d) eqn:Ed; [|done]. intros [= _ <-]. exists c, d. rewrite Ec, Ed. eauto.
Qed.
Lemma digit_no_slash c : is_Some (digit c) -> bv c <> 47.
Proof. intros [z Hz]. unfold digit in Hz. case_match eqn:E; [|done]. lia. Qed.
Lemma literal_Some c b r : literal c b = Some r -> exists x, b = x :: r /\ bv x = c.
Proof. destruct b as [|x b]; cbn; [done|]. case_match eqn:E; [|done]. intros [= <-]. exists x. split; [done|lia]. Qed.
Lemma ParseDate_entry s d : ParseDate s = Some d -> entry_name s.
Proof.
  intros E. split; [|split_and!; intros ->; discriminate E]. unfold ParseDate, four_digits in E.
  repeat match type of E with
  | (getnum true ?b ≫= _) ≫= _ = _ => let G := fresh "G" in destruct (getnum true b) as [[? ?]|] eqn:G; cbn [mbind option_bind] in E; [|done]; apply getnum_digits in G as (? & ? & ? & ? & ?)
  | getnum true ?b ≫= _ = _ => let G := fresh "G" in destruct (getnum true b) as [[? ?]|] eqn:G; cbn [mbind option_bind] in E; [|done]; apply getnum_digits in G as (? & ? & ? & ? & ?)
  | literal ?c ?b ≫= _ = _ => let G := fresh "G" in destruct (literal c b) as [?|] eqn:G; cbn [mbind option_bind] in E; [|done]; apply literal_Some in G as (? & ? & ?)
  end.
  case_match; [|done]. subst. rewrite <-(str_byt s). apply slash_free_bytes. match goal with Hb : byt s = _ |- _ => rewrite Hb end.
  repeat (apply Forall_cons; split; [first [by apply digit_no_slash|lia]|]). done.
Qed.

Section cleaning.
Context `{GoLocation}.

(** A day directory that is older than [cutoff]. *)
Definition day_expired (cutoff : Time) (e : string * inode) : bool :=
  match e.2, ParseDate e.1 with Dir, Some d => time_Before d cutoff | _, _ => false end.
Definition gone (dir : string) (cutoff : Time) (entries : list (string * inode)) (k : string) : bool :=
  existsb (fun e => day_expired cutoff e && beneath (join_paths dir e.1) k) entries.
Lemma remove_all dir cutoff entries : forall (t : tree) n,
  foldl (remove_expired dir cutoff (fun _ => None)) (t, n) entries =
    (filter (fun kv => gone dir cutoff entries kv.1 = false) t, n + len (List.filter (day_expired cutoff) entries)).
Proof.
  induction entries as [|e entries IH]; intros t n; cbn [foldl].
  - cbn. rewrite map_filter_id by done. f_equal. unfold len. cbn. lia.
  - unfold remove_expired at 2. cbn [List.filter]. assert (day_expired cutoff e = match e.2, ParseDate e.1 with Dir, Some d => time_Before d cutoff | _, _ => false end) as Ee by done.
    destruct (day_expired cutoff e) eqn:E.
    + destruct (e.2); [|done]. destruct (ParseDate e.1); [|done]. rewrite <-Ee. cbn [RemoveAll]. rewrite IH, map_filter_filter. f_equal.
      * apply map_filter_ext. intros k x _. cbn [gone existsb fst]. rewrite E. cbn [andb]. rewrite orb_false_iff. tauto.
      * unfold len. cbn [length]. lia.
    + assert (foldl (remove_expired dir cutoff (fun _ => None)) (t, n) entries = foldl (remove_expired dir cutoff (fun _ => None))
        (match e.2, ParseDate e.1 with Dir, Some dirTime => if time_Before dirTime cutoff then
           match RemoveAll (join_paths dir e.1) None t with (t, Some _) => (t, n) | (t, None) => (t, n + 1) end else (t, n) | _, _ => (t, n) end) entries) as <-
        by (destruct (e.2), (ParseDate e.1); try done; by rewrite <-Ee).
      rewrite IH. f_equal. apply map_filter_ext. intros k x _. cbn [gone existsb fst]. by rewrite E.
Qed.
(** The entries of a cleaned directory. *)
Lemma ReadDir_entry r es (t : tree) n nd : clean_stack r (rev es) -> entry_name n ->
  (exists l, ReadDir (path_string r es) t = Some l /\ (n, nd) ∈ l) <-> is_dir t (path_string r es) = true /\ t !! path_string r (es ++ [n]) = Some nd.
Proof.
  intros Hs Hn. unfold ReadDir. destruct (is_dir t (path_string r es)); [|split; [by intros (l & ? & _)|by intros []]].
  assert (forall l, (n, nd) ∈ l <-> (n, nd) ∈ merge_sort name_le l) as Hm by (intros l; by rewrite merge_sort_Permutation).
  assert (clean_stack r (rev (es ++ [n]))) as Hs' by (rewrite rev_app_distr; apply clean_stack_names; [by apply Forall_singleton|done]).
  rewrite <-(join_name r es n Hs Hn). split.
  - intros (l & [= <-] & Hin). split; [done|]. apply Hm, list_elem_of_omap in Hin as ([k x] & Hk & Hc). apply elem_of_map_to_list in Hk. unfold child_of in Hc. cbn [fst snd] in Hc.
    case_match eqn:E; [|done]. injection Hc as <- <-. apply andb_prop in E as [_ E]. apply seqb_spec in E. by rewrite E.
  - intros [_ Hk]. eexists. split; [done|]. apply (proj1 (Hm _)), list_elem_of_omap. exists (join_paths (path_string r es) n, nd). split; [by apply elem_of_map_to_list|].
    unfold child_of. cbn [fst snd]. assert (base_name (join_paths (path_string r es) n) = n) as ->.
    { rewrite join_name by done. unfold base_name. destruct (elements_string r (es ++ [n]) Hs') as [-> _]. apply last_last. }
    destruct Hn as (_ & H1 & _ & H2). by rewrite (proj2 (seqb_neq _ _) H1), (proj2 (seqb_neq _ _) H2), (proj2 (seqb_spec _ _) eq_refl).
Qed.
End cleaning.

(** The days of the device that are removed. *)
Section retention.
Context `{GoLocation} (w : Writer) (id : string) (Hn : names_fit w id).
Let r := strings_HasPrefix (wr_baseDir w) "/".
Let dev := elements (wr_baseDir w) ++ [wr_deviceID w].

Lemma dev_stack : clean_stack r (rev dev).
Proof. destruct Hn as (_ & Hd & _). apply (stack_with w). by apply Forall_singleton. Qed.
Lemma day_dir n : entry_name n -> join_paths (device_dir w) n = path_string r (dev ++ [n]).
Proof. intros He. rewrite (device_dir_string w id Hn). apply join_name; [apply dev_stack|done]. Qed.
Lemma CleanupExpired_lookup now (t : tree) k : 0 < wr_retainDays w -> is_dir t (device_dir w) = true ->
  let cutoff := AddDays now (- wr_retainDays w) in
  let removed := exists n d, ParseDate n = Some d /\ time_Before d cutoff = true /\ t !! path_string r (dev ++ [n]) = Some Dir /\ beneath (path_string r (dev ++ [n])) k = true in
  (removed -> (CleanupExpired w now (fun _ => None) t).1 !! k = None) /\ (~ removed -> (CleanupExpired w now (fun _ => None) t).1 !! k = t !! k).
Proof.
  intros Hr Hd cutoff removed. unfold CleanupExpired. rewrite (proj2 (Z.leb_gt _ _) Hr). fold cutoff.
  pose proof (fun n nd => ReadDir_entry r dev t n nd dev_stack) as He. fold dev r in He. rewrite (device_dir_string w id Hn) in Hd |- *. fold r in Hd |- *. fold dev in Hd |- *.
  destruct (ReadDir (path_string r dev) t) as [entries|] eqn:El; [|unfold ReadDir in El; by rewrite Hd in El].
  rewrite remove_all. cbn [fst]. assert (removed <-> gone (path_string r dev) cutoff entries k = true) as Hg.
  { unfold gone. rewrite existsb_exists. setoid_rewrite <-list_elem_of_In. split.
    - intros (n & d & Ep & Hb & Ht & Hk). pose proof (ParseDate_entry n d Ep) as Hen. destruct (proj2 (He n Dir Hen) (conj Hd Ht)) as (l & [= <-] & Hin).
      exists (n, Dir). split; [done|]. unfold day_expired. cbn [fst snd]. rewrite Ep, Hb. cbn [andb]. by rewrite (join_name r dev n dev_stack Hen).
    - intros ([n nd] & Hin & Hb). apply andb_prop in Hb as [Hx Hb]. unfold day_expired in Hx. cbn [fst snd] in *. destruct nd; [|done]. destruct (ParseDate n) as [d|] eqn:Ep; [|done].
      pose proof (ParseDate_entry n d Ep) as Hen. destruct (proj1 (He n Dir Hen) (ex_intro _ entries (conj eq_refl Hin))) as [_ Ht]. exists n, d.
      split_and!; [done|done|done|]. by rewrite (join_name r dev n dev_stack Hen) in Hb. }
  rewrite map_lookup_filter. rewrite Hg. split.
  - intros Hf. destruct (t !! k); [|done]. cbn [mbind option_bind]. rewrite option_guard_False; [done|]. cbn [fst]. congruence.
  - intros Hf%not_true_is_false. destruct (t !! k); [|done]. cbn [mbind option_bind]. by rewrite option_guard_True.
Qed.
End retention.

Lemma is_dir_true (t : tree) p : is_dir t p = true -> t !! p = Some Dir.
Proof. unfold is_dir. by destruct (t !! p) as [[]|]. Qed.
Lemma beneath_string r es es' : clean_stack r (rev es) -> clean_stack r (rev es') -> beneath (path_string r es) (path_string r es') = true <-> es `prefix_of` es'.
Proof.
  intros H1 H2. unfold beneath, rooted. destruct (elements_string r es H1) as [-> ->], (elements_string r es' H2) as [-> ->]. rewrite eqb_reflx. cbn [andb]. by rewrite bool_decide_eq_true.
Qed.

(** C17.  Evidence is kept as long as configured.  In zones with fixed offsets, a
    file of an event at time [ts] survives every clean-up within
    retain_days - 1 days of the local time of the event, and the first clean-up
    more than retain_days days after it removes the file, because a day's
    directory goes as a whole, counted from its midnight. *)
Theorem evidence_retention (off off' : Z) (w : Writer) (id : string) (ts now : Time) (t : tree) :
  let path := @evidence_path (fixed_zone off) w id ts in
  let t' := (@CleanupExpired (fixed_zone off') w now (fun _ => None) t).1 in
  names_fit w id -> @in_calendar (fixed_zone off) ts -> 0 < wr_retainDays w ->
  is_dir t (device_dir w) = true -> is_dir t (join_paths (device_dir w) (@FormatDate (fixed_zone off) ts)) = true ->
  (tm_sec now <= tm_sec ts + off + (wr_retainDays w - 1) * 86400 -> t' !! path = t !! path)
  /\ (tm_sec ts + off + wr_retainDays w * 86400 < tm_sec now -> t' !! path = None).
Proof.
  intros path t' Hn Hc Hr Hd Hday. set (day := (tm_sec ts + off) / 86400). assert (0 <= day < 49711) as Hday' by exact Hc.
  assert (86400 * day <= tm_sec ts + off < 86400 * day + 86400) as Hb by (unfold day; pose proof (Z.div_mod (tm_sec ts + off) 86400 ltac:(lia)); pose proof (Z.mod_pos_bound (tm_sec ts + off) 86400 ltac:(lia)); lia).
  assert (@FormatDate (fixed_zone off) ts = date_text day) as Ef by done. rewrite Ef in Hday. pose proof (ParseDate_text day Hday') as Ep. pose proof (ParseDate_entry _ _ Ep) as Hen.
  destruct (@CleanupExpired_lookup (fixed_zone off') w id Hn now t path Hr Hd) as [Hgone Hkept]. fold t' in Hgone, Hkept. rewrite AddDays_fixed in Hgone, Hkept.
  rewrite (day_dir w id Hn _ Hen) in Hday. set (r := strings_HasPrefix (wr_baseDir w) "/") in *. set (dev := elements (wr_baseDir w) ++ [wr_deviceID w]) in *.
  assert (exists rest, path = path_string r (dev ++ date_text day :: rest) /\ Forall entry_name (date_text day :: rest)) as (rest & Epath & Hrest).
  { pose proof (@file_entries (fixed_zone off) w id Hn ts Hc) as Hfe. unfold path. rewrite (@evidence_path_string (fixed_zone off) w id Hn ts Hc). unfold file_names, day_names in *. rewrite Ef in *.
    inversion Hfe as [|? ? _ Hfe' [Ex Ey]]. eexists. split; [|exact Hfe']. unfold dev. rewrite <-(app_assoc (elements (wr_baseDir w)) [wr_deviceID w]). done. }
  assert (forall names, Forall entry_name names -> clean_stack r (rev (dev ++ names))) as Hst by (intros names Hns; rewrite rev_app_distr; apply clean_stack_names; [done|apply (dev_stack w id Hn)]).
  rewrite Epath in *. split; intros Hnow.
  - apply Hkept. intros (n & d & Epn & Hbf & _ & Hbe). pose proof (ParseDate_entry _ _ Epn) as Hnn. apply beneath_string in Hbe; [|apply Hst; by apply Forall_singleton|by apply Hst].
    apply prefix_app_inv in Hbe. apply prefix_cons_inv_1 in Hbe. subst n. rewrite Ep in Epn. injection Epn as <-. unfold time_Before in Hbf. cbn [tm_sec tm_nsec] in Hbf.
    destruct (Z.ltb_spec (day * 86400) (tm_sec now + - wr_retainDays w * 86400)); [lia|]. destruct (Z.eqb_spec (day * 86400) (tm_sec now + - wr_retainDays w * 86400)); [lia|done].
  - apply Hgone. exists (date_text day), (mkTime (day * 86400) 0). split_and!; [done| |by apply is_dir_true|].
    + unfold time_Before. cbn [tm_sec]. rewrite (proj2 (Z.ltb_lt _ _)) by lia. done.
    + apply beneath_string; [apply Hst; by apply Forall_singleton|by apply Hst|]. apply prefix_app. by exists rest.
Qed.

(** ** Archiving a month *)

Lemma ParseDate_length s d : ParseDate s = Some d -> length (byt s) = 10%nat.
Proof.
  intros E. unfold ParseDate, four_digits in E.
  repeat match type of E with
  | (getnum true ?b ≫= _) ≫= _ = _ => let G := fresh "G" in destruct (getnum true b) as [[? ?]|] eqn:G; cbn [mbind option_bind] in E; [|done]; apply getnum_digits in G as (? & ? & ? & ? & ?)
  | getnum true ?b ≫= _ = _ => let G := fresh "G" in destruct (getnum true b) as [[? ?]|] eqn:G; cbn [mbind option_bind] in E; [|done]; apply getnum_digits in G as (? & ? & ? & ? & ?)
  | literal ?c ?b ≫= _ = _ => let G := fresh "G" in destruct (literal c b) as [?|] eqn:G; cbn [mbind option_bind] in E; [|done]; apply literal_Some in G as (? & ? & ?)
  end.
  case_match; [|done]. subst. by match goal with Hb : byt s = _ |- _ => rewrite Hb end.
Qed.
Lemma Join_snoc es n s : strings_Join (es ++ [n]) "/" +:+ s = strings_Join (es ++ [n +:+ s]) "/".
Proof.
  induction es as [|e es IH]; [done|]. destruct es as [|f es].
  - cbn [app]. change (strings_Join [e; ?x] "/") with (e +:+ "/" +:+ x). apply (inj byt). by rewrite !byt_app, <-!app_assoc.
  - change (strings_Join ((e :: f :: es) ++ [?x]) "/") with (e +:+ "/" +:+ strings_Join ((f :: es) ++ [x]) "/"). rewrite <-IH. apply (inj byt). by rewrite !byt_app, <-!app_assoc.
Qed.
Lemma path_string_snoc r es n s : n <> "" -> path_string r (es ++ [n]) +:+ s = path_string r (es ++ [n +:+ s]).
Proof.
  intros Hn. unfold path_string. rewrite <-Join_snoc. destruct r; [apply (inj byt); by rewrite !byt_app, <-!app_assoc|].
  assert (strings_Join (es ++ [n]) "/" <> "") as Hj.
  { intros E. apply Hn. destruct es as [|e es]; [exact E|]. apply (f_equal byt) in E. destruct es; [change (strings_Join ([e] ++ [n]) "/") with (e +:+ "/" +:+ n) in E|
      change (strings_Join ((e :: ?x) ++ [n]) "/") with (e +:+ "/" +:+ strings_Join (x ++ [n]) "/") in E]; rewrite !byt_app in E; by destruct (byt e). }
  assert (strings_Join (es ++ [n]) "/" +:+ s <> "") as Hj2 by (intros E; apply Hj; destruct (strings_Join (es ++ [n]) "/"); [done|discriminate E]).
  by rewrite (proj2 (seqb_neq _ _) Hj), (proj2 (seqb_neq _ _) Hj2).
Qed.
Lemma zip_entries_all dir files : zip_entries dir (fun _ => None) files = ((fun f => (zip_name dir f.1, f.2)) <$> files, len files).
Proof. induction files as [|[p b] files IH]; [done|]. cbn [zip_entries]. rewrite IH. rewrite fmap_cons. f_equal. unfold len. cbn [length]. lia. Qed.
Lemma walk_files_elem dir (t : tree) p b : (p, b) ∈ walk_files dir t <-> t !! p = Some (Regular b) /\ beneath dir p = true.
Proof.
  unfold walk_files. rewrite merge_sort_Permutation, list_elem_of_omap. split.
  - intros ([k nd] & Hk%elem_of_map_to_list & E). unfold file_beneath in E. cbn [fst snd] in E. destruct nd; [done|]. case_match; [|done]. by injection E as <- <-.
  - intros [Hp Hb]. exists (p, Regular b). split; [by apply elem_of_map_to_list|]. unfold file_beneath. cbn [fst snd]. by rewrite Hb.
Qed.
Lemma ReadDir_names dir (t : tree) l : ReadDir dir t = Some l -> NoDup l.*1.
Proof.
  unfold ReadDir. case_match; [|done]. intros [= <-]. rewrite (fmap_Permutation _ _ _ (merge_sort_Permutation name_le _)).
  pose proof (NoDup_fst_map_to_list t) as Hnd. induction (map_to_list t) as [|kv kvs IH]; [apply NoDup_nil_2|]. cbn [omap list_omap]. rewrite fmap_cons in Hnd. apply NoDup_cons in Hnd as [Hk Hnd].
  destruct (child_of dir kv) as [e|] eqn:E; [|by apply IH]. rewrite fmap_cons. apply NoDup_cons. split; [|by apply IH]. intros (e' & En & He')%list_elem_of_fmap.
  apply list_elem_of_omap in He' as (kv' & Hkv' & E'). unfold child_of in E, E'. case_match eqn:E1; [|done]. case_match eqn:E2; [|done]. injection E as <-. injection E' as <-. cbn [fst] in En.
  apply andb_prop in E1 as [_ E1]. apply andb_prop in E2 as [_ E2]. apply seqb_spec in E1, E2. apply Hk. apply list_elem_of_fmap. exists kv'. split; [congruence|done].
Qed.

Section month.
Context `{GoLocation} `{GoZip} (r : bool) (dev : list string) (Hdev : clean_stack r (rev dev)) (lastMonth thisMonth : Time).
Definition day_path (n : string) : string := path_string r (dev ++ [n]).
Definition zip_path (n : string) : string := path_string r (dev ++ [n +:+ ".zip"]).
(** A date of the window. *)
Definition in_window (n : string) : bool :=
  match ParseDate n with Some d => negb (time_Before d lastMonth || time_After d thisMonth) | None => false end.
Definition selected (e : string * inode) : bool := match e.2 with Dir => in_window e.1 | Regular _ => false end.
Lemma window_entry n : in_window n = true -> entry_name n /\ length (byt n) = 10%nat.
Proof. unfold in_window. case_match eqn:E; [|done]. intros _. split; [by eapply ParseDate_entry|by eapply ParseDate_length]. Qed.
Lemma zip_entry n : entry_name n -> entry_name (n +:+ ".zip").
Proof.
  intros (Hs & _). split.
  - intros Hin. rewrite byt_app in Hin. apply elem_of_app in Hin as [Hin|Hin]; [by apply Hs|]. revert Hin. apply (bool_decide_unpack (_ ∉ _)). vm_compute. exact I.
  - split_and!; intros Hx; apply (f_equal (fun s => length (byt s))) in Hx; rewrite byt_app, length_app in Hx; cbn in Hx; lia.
Qed.
Lemma names_stack n : entry_name n -> clean_stack r (rev (dev ++ [n])).
Proof. intros Hn. rewrite rev_app_distr. apply clean_stack_names; [by apply Forall_singleton|done]. Qed.
(** Days are apart from each other and from the archives. *)
Lemma days_apart n n' k : entry_name n -> entry_name n' -> beneath (day_path n) k = true -> beneath (day_path n') k = true -> n = n'.
Proof.
  intros Hn Hn'. unfold beneath, day_path, rooted. destruct (elements_string r _ (names_stack n Hn)) as [-> ->], (elements_string r _ (names_stack n' Hn')) as [-> ->].
  rewrite !andb_true_iff, !bool_decide_eq_true. intros [_ H1] [_ H2]. destruct (prefix_weak_total _ _ _ H1 H2) as [Hp|Hp]; apply prefix_app_inv, prefix_cons_inv_1 in Hp; done.
Qed.
Lemma zip_apart n n' : in_window n = true -> in_window n' = true -> beneath (day_path n) (zip_path n') = false.
Proof.
  intros Hn Hn'. apply window_entry in Hn as [Hn Hl], Hn' as [Hn' Hl']. apply not_true_is_false. unfold day_path, zip_path. intros Hb%beneath_string; [|by apply names_stack|by apply names_stack, zip_entry].
  apply prefix_app_inv, prefix_cons_inv_1 in Hb. subst n. rewrite byt_app, length_app in Hl. cbn in Hl. lia.
Qed.
Lemma zip_path_inj n n' : entry_name n -> entry_name n' -> zip_path n = zip_path n' -> n = n'.
Proof.
  intros Hn Hn' E. apply path_string_inj in E; [|by apply names_stack, zip_entry..]. apply app_inv_head in E. injection E as E. apply (f_equal byt) in E. rewrite !byt_app in E.
  apply app_inv_tail in E. by apply (inj byt).
Qed.
(** What is put in the archive of a day. *)
Definition archived_from (t : tree) (n : string) (o : option inode) : Prop := exists entries, o = Some (Regular (zip_Marshal entries))
  /\ forall name b, (name, b) ∈ entries <-> exists path, t !! path = Some (Regular b) /\ beneath (day_path n) path = true /\ name = zip_name (day_path n) path.
Lemma archived_from_same t t' n o : (forall k, beneath (day_path n) k = true -> t' !! k = t !! k) -> archived_from t' n o -> archived_from t n o.
Proof.
  intros Hs (entries & Ho & He). exists entries. split; [done|]. intros name b. rewrite He. split; intros (path & Hp & Hb & Hx); exists path; (split; [|done]); [by rewrite <-Hs|by rewrite Hs].
Qed.
Definition archived_one (t : tree) (n : string) : tree :=
  filter (fun kv => beneath (day_path n) kv.1 = false) (<[zip_path n := Regular (zip_Marshal ((fun f => (zip_name (day_path n) f.1, f.2)) <$> walk_files (day_path n) t))]> t).
Lemma archived_one_lookup t n k : in_window n = true ->
  (beneath (day_path n) k = true -> archived_one t n !! k = None)
  /\ (k = zip_path n -> archived_from t n (archived_one t n !! k))
  /\ (beneath (day_path n) k = false -> k <> zip_path n -> archived_one t n !! k = t !! k).
Proof.
  intros Hn. unfold archived_one. rewrite map_lookup_filter. split_and!.
  - intros Hb. destruct (_ !! k); [|done]. cbn [mbind option_bind fst]. by rewrite option_guard_False by (rewrite Hb; done).
  - intros ->. rewrite lookup_insert_eq. cbn [mbind option_bind fst]. rewrite option_guard_True by (by apply zip_apart). cbn [mbind option_bind]. eexists. split; [done|].
    intros name b. rewrite list_elem_of_fmap. split.
    + intros ([p x] & [= -> ->] & [Hp Hb]%walk_files_elem). by exists p.
    + intros (p & Hp & Hb & ->). exists (p, b). split; [done|]. by apply walk_files_elem.
  - intros Hb Hk. rewrite lookup_insert_ne by done. destruct (t !! k); [|done]. cbn [mbind option_bind fst]. by rewrite option_guard_True.
Qed.
Lemma archive_entry_step t n e : is_dir t (zip_path e.1) = false ->
  (archive_entry (path_string r dev) lastMonth thisMonth no_faults (t, n) e).1 = if selected e then archived_one t e.1 else t.
Proof.
  intros Hz. unfold archive_entry, selected, in_window. destruct (e.2); [|done]. destruct (ParseDate e.1) as [d|] eqn:E; [|done].
  destruct (time_Before d lastMonth || time_After d thisMonth); [done|]. cbn [negb]. pose proof (ParseDate_entry _ _ E) as He. rewrite (join_name r dev) by done.
  rewrite path_string_snoc by apply He. fold (day_path e.1) (zip_path e.1). unfold archiveDir. cbn [af_create no_faults af_file af_remove orb]. rewrite Hz, zip_entries_all. done.
Qed.
Lemma archive_fold entries : NoDup entries.*1 -> forall t n, (forall e, e ∈ entries -> selected e = true -> is_dir t (zip_path e.1) = false) ->
  let t' := (foldl (archive_entry (path_string r dev) lastMonth thisMonth no_faults) (t, n) entries).1 in
  (forall k, (forall e, e ∈ entries -> selected e = true -> beneath (day_path e.1) k = false /\ k <> zip_path e.1) -> t' !! k = t !! k)
  /\ forall e, e ∈ entries -> selected e = true -> archived_from t e.1 (t' !! zip_path e.1) /\ forall k, beneath (day_path e.1) k = true -> t' !! k = None.
Proof.
  induction entries as [|e entries IH]; intros Hnd t n Hz; [by split; [done|intros e He; apply not_elem_of_nil in He]|]. cbn [foldl]. rewrite fmap_cons in Hnd. apply NoDup_cons in Hnd as [He Hnd].
  destruct (selected e) eqn:Es.
  2:{ assert ((archive_entry (path_string r dev) lastMonth thisMonth no_faults (t, n) e) = (t, n)) as ->.
      { unfold archive_entry, selected, in_window in *. destruct (e.2); [|done]. destruct (ParseDate e.1); [|done]. by destruct (_ || _). }
      destruct (IH Hnd t n) as [H1 H2]; [intros e' He'; apply Hz; by right|]. split; [intros k Hk; apply H1; intros e' He'; apply Hk; by right|].
      intros e' [->|He']%elem_of_cons Hs; [congruence|by apply H2]. }
  assert (in_window e.1 = true) as Hw by (unfold selected in Es; by destruct (e.2)). pose proof (window_entry _ Hw) as [Hen _].
  pose proof (archive_entry_step t n e (Hz e ltac:(left) Es)) as E. rewrite Es in E.
  destruct (archive_entry _ _ _ _ (t, n) e) as [t1 n1]. cbn [fst] in E. subst t1.
  assert (forall e', e' ∈ entries -> selected e' = true -> in_window e'.1 = true /\ e'.1 <> e.1) as Hsel.
  { intros e' He' Hs'. split; [unfold selected in Hs'; by destruct (e'.2)|]. intros Ee. apply He. rewrite <-Ee. apply list_elem_of_fmap. by exists e'. }
  assert (forall e' k, e' ∈ entries -> selected e' = true -> beneath (day_path e'.1) k = true -> archived_one t e.1 !! k = t !! k) as Hsame.
  { intros e' k He' Hs' Hb. destruct (Hsel e' He' Hs') as [Hw' Hne]. pose proof (window_entry _ Hw') as [Hen' _]. apply (archived_one_lookup t e.1 k Hw).
    - apply not_true_is_false. intros Hb'. by apply Hne, (days_apart _ _ k).
    - intros ->. by rewrite zip_apart in Hb. }
  destruct (IH Hnd (archived_one t e.1) n1) as [H1 H2].
  { intros e' He' Hs'. destruct (Hsel e' He' Hs') as [Hw' Hne]. pose proof (window_entry _ Hw') as [Hen' _]. specialize (Hz e' ltac:(by right) Hs'). unfold is_dir in *.
    rewrite (proj2 (proj2 (archived_one_lookup t e.1 _ Hw))); [done|by apply zip_apart|]. intros Ez. by apply Hne, zip_path_inj. }
  split.
  - intros k Hk. rewrite H1 by (intros e' He'; apply Hk; by right). destruct (Hk e ltac:(left) Es). by apply archived_one_lookup.
  - intros e' [->|He']%elem_of_cons Hs.
    + split.
      * rewrite H1; [by apply archived_one_lookup|]. intros e2 He2 Hs2. destruct (Hsel e2 He2 Hs2) as [Hw2 Hne]. pose proof (window_entry _ Hw2) as [Hen2 _]. split; [by apply zip_apart|].
        intros Ez. by apply Hne, eq_sym, zip_path_inj.
      * intros k Hb. rewrite H1; [by apply archived_one_lookup|]. intros e2 He2 Hs2. destruct (Hsel e2 He2 Hs2) as [Hw2 Hne]. pose proof (window_entry _ Hw2) as [Hen2 _]. split.
        -- apply not_true_is_false. intros Hb'. by apply Hne, (days_apart _ _ k).
        -- intros ->. by rewrite zip_apart in Hb.
    + destruct (H2 e' He' Hs) as [Ha Hg]. split; [|done]. eapply archived_from_same; [|exact Ha]. intros k Hb. by eapply Hsame.
Qed.
End month.

Section archiving.
Context `{GoLocation} `{GoZip}.

End archiving.

(** ** Downloading *)

Section downloading.
Context `{GoUnicode} `{GoYAML} `{RangeOrder} `{ConfigYAML} `{GoZlib} `{GoSort} `{SqlOrder} `{SqlLike} `{SqlGlob} `{GoLocation}.
Context (master : queue_db -> string -> bool).

Definition evidence_url (w : Writer) (id : string) (ts : Time) : string := "/api/v1/evidence/" +:+ strings_Join (file_names w id ts) "/".
Lemma names_join w id ts : exists x, strings_Join (file_names w id ts) "/" = x +:+ ".pcap".
Proof. unfold file_names. rewrite <-Join_snoc. by eexists. Qed.
Lemma cleanPath_url w id ts : names_fit w id -> in_calendar ts -> cleanPath (evidence_url w id ts) = evidence_url w id ts.
Proof.
  intros Hn Hts. pose proof (file_entries w id Hn ts Hts) as Hf. unfold cleanPath, evidence_url. destruct (names_join w id ts) as [x Ex].
  assert (seqb ("/api/v1/evidence/" +:+ strings_Join (file_names w id ts) "/") "" = false) as -> by by apply seqb_neq.
  assert (strings_HasPrefix ("/api/v1/evidence/" +:+ strings_Join (file_names w id ts) "/") "/" = true) as -> by done.
  assert (strings_HasSuffix ("/api/v1/evidence/" +:+ strings_Join (file_names w id ts) "/") "/" = false) as ->.
  { unfold strings_HasSuffix, bytes_HasSuffix. rewrite Ex, !byt_app, !rev_app_distr. reflexivity. }
  cbn [andb]. change ("/api/v1/evidence/" +:+ ?a) with ("/api/v1/evidence" +:+ "/" +:+ a).
  pose proof (Clean_names "/api/v1/evidence" (file_names w id ts) ltac:(done) Hf) as Ec.
  assert (strings_Join ("/api/v1/evidence" :: file_names w id ts) "/" = "/api/v1/evidence" +:+ "/" +:+ strings_Join (file_names w id ts) "/") as Ej by done.
  rewrite Ej in Ec. rewrite Ec. assert (elements "/api/v1/evidence" = ["api"; "v1"; "evidence"]) as -> by (vm_compute; reflexivity). done.
Qed.
(** Saved evidence can be downloaded.  When the server is given the
    directory of the writer, a GET for the device, day and file names of the
    evidence, as they stand in the path that Save returned, is answered with
    that very file. *)
Theorem evidence_downloads (w : Writer) (id : string) (ts : Time) (e : henv) (r : request) (s : world) :
  names_fit w id -> in_calendar ts -> xc_PCAPDir (cf_Evidence (w_cfg s)) = wr_baseDir w ->
  rq_Method r = "GET" -> rq_Path r = evidence_url w id ts -> strings_Contains (strings_Join (file_names w id ts) "/") ".." = false ->
  hv_exists e (evidence_path w id ts) = true ->
  serve master e r s = Some (mkResponse 200 (ServedFile (evidence_path w id ts)), s).
Proof.
  intros Hn Hts Hdir Hm Hp Hdots Hex. unfold serve. rewrite Hm, Hp, cleanPath_url, (proj2 (seqb_spec (evidence_url w id ts) _) eq_refl), andb_false_r by done.
  assert (forall x, rq_Path r = "/api/v1/evidence/" +:+ x -> routes master e r s = Some (handleEvidenceDownload e r s)) as Hroute.
  { intros x Ex. unfold routes. rewrite Ex. repeat (rewrite (proj2 (seqb_neq ("/api/v1/evidence/" +:+ x) _)) by done). done. }
  rewrite (Hroute _ Hp). f_equal. unfold handleEvidenceDownload. rewrite Hm, Hp. change (seqb "GET" "GET") with true. cbn [negb]. unfold evidence_url.
  assert (strings_TrimPrefix ("/api/v1/evidence/" +:+ strings_Join (file_names w id ts) "/") "/api/v1/evidence/" = strings_Join (file_names w id ts) "/") as ->.
  { unfold strings_TrimPrefix, strings_HasPrefix. rewrite byt_app, bytes_HasPrefix_app, drop_app_length. apply str_byt. }
  destruct (names_join w id ts) as [x Ex]. assert (seqb (strings_Join (file_names w id ts) "/") "" = false) as ->.
  { apply seqb_neq. rewrite Ex. intros E. apply (f_equal (fun s => length (byt s))) in E. rewrite byt_app, length_app in E. cbn in E. lia. }
  rewrite Hdots. cbn [orb]. assert (join_paths (evidence_base (w_cfg s)) (strings_Join (file_names w id ts) "/") = evidence_path w id ts) as ->.
  { pose proof (file_entries w id Hn ts Hts) as Hf. destruct Hn as (Hb & Hn2). unfold evidence_base. rewrite Hdir, (proj2 (seqb_neq _ _) Hb). unfold join_paths. cbn [join_elems].
    assert (filepath_Clean (wr_baseDir w) <> "") as Hc by apply path_string_nonempty. rewrite (proj2 (seqb_neq _ _) Hc).
    change (strings_Join [filepath_Clean (wr_baseDir w); strings_Join (file_names w id ts) "/"] "/") with (strings_Join (filepath_Clean (wr_baseDir w) :: file_names w id ts) "/").
    rewrite Clean_names by done. rewrite (Clean_string (wr_baseDir w)). destruct (elements_string _ _ (elements_stack (wr_baseDir w))) as [-> ->].
    by rewrite (evidence_path_string w id (conj Hb Hn2) ts Hts). }
  by rewrite Hex.
Qed.
End downloading.

(** ** Examples and witnesses *)

#[local] Instance utc : GoLocation := fixed_zone 0.
#[local] Instance no_gzip : GoGzip := {| gzip_text := fun _ => Err "gzip" |}.
#[local] Instance plain_zip : GoZip := {| zip_Marshal := fun es => concat ((fun e => byt e.1 ++ [chr 10] ++ e.2) <$> es) |}.
#[local] Existing Instance ascii_unicode.
#[local] Existing Instance bits_yaml.
#[local] Existing Instance canonical_range.
#[local] Existing Instance bits_config.
#[local] Existing Instance identity_zlib.
#[local] Existing Instance insertion_sort.
#[local] Existing Instance merge_order.
#[local] Existing Instance no_like.
#[local] Existing Instance glob_simple.

Definition demo_writer : Writer := New true "/data/evidence" "inode-001" true 30 true.
(** A frame of the first of May 2024, [s] seconds after midnight. *)
Definition may_first : Z := 1714521600.
Definition demo_frame (s : Z) : Captured := mkCaptured (byt "frame") (mkCaptureInfo (Some (may_first + s, 0)) 5 60 2) true.
Definition demo_saved (id : string) (s : Z) (t : tree) : tree := (Save demo_writer id (Some (demo_frame s)) (0, 0) no_failure t).1.
Lemma demo_names id : slash_free id -> str (take 2 (drop 4 (byt id))) <> ".." -> names_fit demo_writer id.
Proof.
  intros Hs Hd. split; [discriminate|]. split; [|by split]. split; [|split_and!; discriminate]. unfold slash_free. apply (bool_decide_unpack (_ ∉ _)). vm_compute. exact I.
Qed.
Lemma demo_fits : names_fit demo_writer "evt_ab12".
Proof. apply demo_names; [unfold slash_free; apply (bool_decide_unpack (_ ∉ _)); vm_compute; exact I|discriminate]. Qed.
Lemma demo_calendar s : 0 <= s < 86400 -> in_calendar (mkTime (may_first + s) 0).
Proof. intros Hs. unfold in_calendar, local_seconds. cbn [loc_lookup utc fixed_zone tm_sec fst]. split; [apply Z.div_pos; unfold may_first; lia|apply Z.div_lt_upper_bound; unfold may_first; lia]. Qed.

Lemma Save_roundtrip_witness : exists t' b, Save demo_writer "evt_ab12" (Some (demo_frame 100)) (0, 0) no_failure ∅ = (t', ("/data/evidence/inode-001/2024-05-01/ab/evt_ab12.pcap", None))
  /\ t' !! "/data/evidence/inode-001/2024-05-01/ab/evt_ab12.pcap" = Some (Regular b) /\ NewPCAPReader b = Ok (1, [(byt "frame", mkCaptureInfo (Some (may_first + 100, 0)) 5 60 0)]).
Proof.
  destruct (Save_roundtrip demo_writer "evt_ab12" (demo_frame 100) (0, 0) ∅) as (t' & b & E & Hl & Hr & _); [reflexivity|exact demo_fits|exact (demo_calendar 100 ltac:(lia))| |vm_compute; reflexivity|vm_compute; reflexivity|].
  - split; [reflexivity|]. split; [vm_compute; discriminate|]. split; [split; [vm_compute; discriminate|reflexivity]|]. exists (may_first + 100), 0. split; [reflexivity|]. unfold may_first. split; lia.
  - exists t', b. assert (evidence_path demo_writer "evt_ab12" (packet_time (0, 0) (demo_frame 100)) = "/data/evidence/inode-001/2024-05-01/ab/evt_ab12.pcap") as Ep by (vm_compute; reflexivity).
    rewrite Ep in E, Hl. split; [exact E|]. split; [exact Hl|exact Hr].
Defined.
Lemma evidence_retention_witness : let t := demo_saved "evt_ab12" 100 ∅ in let path := "/data/evidence/inode-001/2024-05-01/ab/evt_ab12.pcap" in
  (CleanupExpired demo_writer (mkTime (may_first + 29 * 86400) 0) (fun _ => None) t).1 !! path = t !! path
  /\ (CleanupExpired demo_writer (mkTime (may_first + 31 * 86400) 0) (fun _ => None) t).1 !! path = None.
Proof.
  intros t path. assert (Ep : @evidence_path (fixed_zone 0) demo_writer "evt_ab12" (mkTime (may_first + 100) 0) = path) by (vm_compute; reflexivity).
  assert (Hd : is_dir t (device_dir demo_writer) = true) by (vm_compute; reflexivity).
  assert (Hday : is_dir t (join_paths (device_dir demo_writer) (@FormatDate (fixed_zone 0) (mkTime (may_first + 100) 0))) = true) by (vm_compute; reflexivity).
  pose proof (evidence_retention 0 0 demo_writer "evt_ab12" (mkTime (may_first + 100) 0) (mkTime (may_first + 29 * 86400) 0) t demo_fits (demo_calendar 100 ltac:(lia)) ltac:(reflexivity) Hd Hday) as [Hk _].
  pose proof (evidence_retention 0 0 demo_writer "evt_ab12" (mkTime (may_first + 100) 0) (mkTime (may_first + 31 * 86400) 0) t demo_fits (demo_calendar 100 ltac:(lia)) ltac:(reflexivity) Hd Hday) as [_ Hg].
  rewrite Ep in Hk, Hg. split; [apply Hk; vm_compute; discriminate|apply Hg; vm_compute; reflexivity].
Defined.
Definition evidence_world : world := (demo_world "k" "secret") <| w_cfg ::= fun c => c <| cf_Evidence ::= fun x => x <| xc_PCAPDir := "/data/evidence" |> |> |>.
Lemma evidence_downloads_witness :
  serve all_tables demo_env (demo_request "GET" "/api/v1/evidence/inode-001/2024-05-01/ab/evt_ab12.pcap" "" "")
    evidence_world =
  Some (mkResponse 200 (ServedFile "/data/evidence/inode-001/2024-05-01/ab/evt_ab12.pcap"),
    evidence_world).
Proof.
  assert (Ep : evidence_path demo_writer "evt_ab12" (mkTime (may_first + 100) 0) = "/data/evidence/inode-001/2024-05-01/ab/evt_ab12.pcap") by (vm_compute; reflexivity).
  rewrite <- Ep. apply (evidence_downloads all_tables demo_writer "evt_ab12" (mkTime (may_first + 100) 0)); [exact demo_fits|exact (demo_calendar 100 ltac:(lia))|reflexivity|reflexivity|
    vm_compute; reflexivity|vm_compute; reflexivity|reflexivity].
Defined.

(** The first day of a month is archived while it is still written to, and the
    next run puts what was saved since in the place of the archive: the evidence
    of the morning is gone. *)
Lemma archive_loses_evidence :
  let morning := demo_saved "evt_aa01" 36000 ∅ in
  let noon := (ArchiveLastMonth demo_writer (mkTime (may_first + 43200) 0) no_faults morning).1 in
  let evening := demo_saved "evt_bb02" 64800 noon in
  let next := (ArchiveLastMonth demo_writer (mkTime (may_first + 129600) 0) no_faults evening).1 in
  next !! "/data/evidence/inode-001/2024-05-01.zip" =
    Some (Regular (byt "2024-05-01/bb/evt_bb02.pcap" ++ [chr 10] ++ file_header 65535 1 ++ packet_record (0, 0) (cp_Data (demo_frame 64800), cp_Info (demo_frame 64800))))
  /\ forall k b, next !! k = Some (Regular b) -> k = "/data/evidence/inode-001/2024-05-01.zip".
Proof.
  intros morning noon evening next. split; [vm_compute; reflexivity|]. intros k b Hk. apply elem_of_map_to_list, list_elem_of_In in Hk.
  assert (Hall : forallb (fun kv => match kv.2 with Dir => true | Regular _ => seqb kv.1 "/data/evidence/inode-001/2024-05-01.zip" end) (map_to_list next) = true) by (vm_compute; reflexivity).
  pose proof (proj1 (forallb_forall _ _) Hall _ Hk) as Hx. by apply seqb_spec.
Qed.
(** A day is removed although its archive could not be created. *)
Lemma archive_failure_loses :
  let t := demo_saved "evt_ab12" 100 ∅ in
  let t' := (ArchiveLastMonth demo_writer (mkTime (may_first + 35 * 86400) 0) (mkArchiveFaults (fun _ => true) (fun _ => None) (fun _ => None)) t).1 in
  is_file t "/data/evidence/inode-001/2024-05-01/ab/evt_ab12.pcap" = true /\ forall k, is_file t' k = false.
Proof.
  intros t t'. split; [vm_compute; reflexivity|]. intros k. unfold is_file. destruct (t' !! k) as [[|b]|] eqn:E; [reflexivity| |reflexivity]. apply elem_of_map_to_list, list_elem_of_In in E.
  assert (Hall : forallb (fun kv => match kv.2 with Dir => true | Regular _ => false end) (map_to_list t') = true) by (vm_compute; reflexivity).
  pose proof (proj1 (forallb_forall _ _) Hall _ E) as Hx. discriminate Hx.
Qed.
