(* ===== verification/Pipeline.v ===== *)
(** * Pipeline: from packets to queued events (internal/pipeline/pipeline.go)

    [process] composes the components for one packet: parse, match, aggregate,
    correlate, detect, keep evidence, enqueue.  [Run] dispatches the packets of
    the source to workers by a hash of the conversation; the dispatcher and the
    workers are a step relation over their channels. *)

From S2P Require Import Prelude GoStrings GoNet Events Parser Counter Fingerprint Flow IntelStore IntelMatcher Reassembly Tracker Detector.
From S2P Require Import Json Codec EventJson Content Queue EventQueue.

(** ** One packet *)

(** The collaborators and their state; the evidence writer is an argument of
    [process]. *)
Record Deps {Q : Type} `{GoRegexp} := mkDeps {
  dp_Fingerprints : list compiledRule;
  dp_Store : Store;
  dp_Intel : Matcher;
  dp_Flows : Aggregator;
  dp_Tracker : option Tracker;
  dp_Detector : DetectEngine;
  dp_Queue : Q
}.
Arguments Deps Q {_}.
#[global] Instance settable_Deps {Q} `{GoRegexp} : Settable (Deps Q) := fun d =>
  mkDeps Q _ (dp_Fingerprints d) (dp_Store d) (dp_Intel d) (dp_Flows d) (dp_Tracker d) (dp_Detector d) (dp_Queue d).

(** The readings of the clock while a packet is processed; [at_enqueue i] is
    the one of the [i]-th Enqueue. *)
Record instants := mkInstants {
  at_parse : Z; at_match : Z; at_cleanup : Z; at_flow : Z; at_pair : Z; at_enqueue : nat -> Z
}.

Section process.
Context `{GoUnicode} `{GoPacket} `{GoRegexp} `{GoHTTP} `{RangeOrder} {Q : Type} `{EventQueue Q}.

(** A failed Enqueue is logged. *)
Definition offer (now : Z) (q : Q) (ev : ThreatEvent) : Q :=
  match eq_Enqueue now q ev with Ok q => q | Err _ => q end.
Fixpoint offer_all (clock : nat -> Z) (i : nat) (q : Q) (evs : list ThreatEvent) : Q :=
  match evs with
  | [] => q
  | ev :: evs => offer_all clock (S i) (offer (clock i) q ev) evs
  end.
(** [save id] is the path under which the evidence of an event was saved, empty
    when it was not. *)
Definition with_evidence (save : string -> string) (ev : ThreatEvent) : ThreatEvent :=
  let path := save (ev_EventID ev) in
  if negb (seqb path "") then ev <| ev_EvidenceFile := path |> else ev.
Definition register (t : option Tracker) (obs : Observation) (ev : ThreatEvent) : option Tracker * ThreatEvent :=
  match t with
  | Some t => let '(t, ev) := Register t obs ev in (Some t, ev)
  | None => (None, ev)
  end.
Fixpoint emit (save : string -> string) (clock : nat -> Z) (i : nat) (obs : Observation) (t : option Tracker) (q : Q)
    (evs : list ThreatEvent) : option Tracker * Q :=
  match evs with
  | [] => (t, q)
  | ev :: evs =>
      let ev := with_evidence save ev in
      let '(t, ev) := register t obs ev in
      emit save clock (S i) obs t (offer (clock i) q ev) evs
  end.
(** Without session aggregation the direction is that of the packet alone and
    the observation is otherwise empty. *)
Definition packet_observation (pf : PacketFeature) : Observation := mkObservation (PacketDirection pf) "" "" None None false [].
Definition observe (t : option Tracker) (pf : PacketFeature) (sequence : Z) : option (option Tracker * Observation) :=
  match t with
  | Some t => '(t, obs) ← Observe t pf sequence; Some (Some t, obs)
  | None => Some (None, packet_observation pf)
  end.
(** [None]: a panic. *)
Definition process (now : instants) (save : string -> string) (pkt : Packet) (d : Deps Q) : option (Deps Q) :=
  match Parse (Some pkt) (at_parse now) with
  | (_, Some _) => Some d
  | (pf, None) =>
      fpHits ← fingerprint_Match (dp_Fingerprints d) pf;
      let '(matcher, intelHits) := MatchPacket (dp_Store d) (dp_Intel d) pf (at_match now) in
      let '(flows, f) := flow_Update (dp_Flows d) pf fpHits intelHits (at_cleanup now) (at_flow now) (at_pair now) in
      '(tracker, obs) ← observe (dp_Tracker d) pf (ff_PacketSequence f);
      let q := offer_all (at_enqueue now) 0 (dp_Queue d) (ob_Updates obs) in
      let direction := ob_Direction obs in
      let f := f <| ff_MessageDirection := da_MessageDirection direction |> <| ff_DirectionSource := da_DirectionSource direction |>
                 <| ff_DirectionConfidence := da_DirectionConfidence direction |> <| ff_TransportDirection := da_TransportDirection direction |> in
      let d := d <| dp_Intel := matcher |> <| dp_Flows := flows |> <| dp_Tracker := tracker |> <| dp_Queue := q |> in
      match fpHits, intelHits with
      | [], [] => Some d
      | _, _ =>
          let '(detector, events) := Detect (dp_Detector d) f in
          let '(tracker, q) := emit save (at_enqueue now) (length (ob_Updates obs)) obs tracker q events in
          Some (d <| dp_Detector := detector |> <| dp_Tracker := tracker |> <| dp_Queue := q |>)
      end
  end.
(** A worker: the packets it takes up, one after the other. *)
Fixpoint process_all (now : nat -> instants) (save : string -> string) (i : nat) (pkts : list Packet) (d : Deps Q) : option (Deps Q) :=
  match pkts with
  | [] => Some d
  | pkt :: pkts => d ← process (now i) save pkt d; process_all now save (S i) pkts d
  end.
(** The end of Run: the sessions that are still open are finalized. *)
Definition finish_run (clock : nat -> Z) (d : Deps Q) : Deps Q :=
  match dp_Tracker d with
  | Some t => let '(t, evs) := Flush t in d <| dp_Tracker := Some t |> <| dp_Queue := offer_all clock 0 (dp_Queue d) evs |>
  | None => d
  end.
End process.

(** ** Dispatch *)

Definition queueSize : nat := 4096.

(** bytes.Compare(a, b) > 0. *)
Fixpoint bytes_gt (a b : list Z) : bool :=
  match a, b with
  | [], _ => false
  | _ :: _, [] => true
  | x :: a, y :: b => if x =? y then bytes_gt a b else y <? x
  end.
(** binary.BigEndian.PutUint16 *)
Definition be16_bytes (z : Z) : list Z := [Z.shiftr (u16 z) 8; u8 z].
Definition tuple_hash (src dst : list Z) (sport dport proto : Z) : Z :=
  let '(src, dst, sport, dport) :=
    if bytes_gt src dst || (bool_decide (src = dst) && (dport <? sport)) then (dst, src, dport, sport) else (src, dst, sport, dport) in
  fnv64a_from (fnv64a_from (fnv64a_from fnv64a_basis src) dst) (be16_bytes sport ++ be16_bytes dport ++ [proto]).
Definition flowHash (pkt : Packet) : Z :=
  match (match pk_IPv4 pkt with Some ip => Some ip | None => pk_IPv6 pkt end) with
  | None => fnv64a_from fnv64a_basis (bv <$> pk_Data pkt)
  | Some ip =>
      let '(sport, dport, proto) :=
        match pk_TCP pkt, pk_UDP pkt with
        | Some tcp, _ => (tcp_SrcPort tcp, tcp_DstPort tcp, 6)
        | None, Some udp => (udp_SrcPort udp, udp_DstPort udp, 17)
        | None, None => (0, 0, u8 (ip_Proto ip))
        end in
      tuple_hash (ip_Src ip) (ip_Dst ip) sport dport proto
  end.

(** The state of Run: what the source has left, the channels, the packets in
    the order in which workers took them up, whether the channels are closed
    and whether the context is cancelled. *)
Record dispatcher := mkDispatcher {
  ds_source : list Packet;
  ds_chans : list (list Packet);
  ds_taken : list Packet;
  ds_closed : bool;
  ds_cancelled : bool
}.
Definition Run_start (workers : Z) (source : list Packet) : dispatcher :=
  mkDispatcher source (replicate (Z.to_nat (if workers <=? 0 then 1 else workers)) []) [] false false.
Definition worker_of (n : nat) (pkt : Packet) : nat := Z.to_nat (flowHash pkt mod Z.of_nat n).

(** A full channel makes the dispatcher wait; once the context is cancelled it
    may stop, and workers drop what they receive. *)
Inductive run_step : dispatcher -> dispatcher -> Prop :=
| run_dispatch pkt source chans taken x c :
    chans !! worker_of (length chans) pkt = Some c -> (length c < queueSize)%nat ->
    run_step (mkDispatcher (pkt :: source) chans taken false x)
             (mkDispatcher source (<[worker_of (length chans) pkt := c ++ [pkt]]> chans) taken false x)
| run_closed chans taken x : run_step (mkDispatcher [] chans taken false x) (mkDispatcher [] chans taken true x)
| run_stop source chans taken : run_step (mkDispatcher source chans taken false true) (mkDispatcher source chans taken true true)
| run_cancel source chans taken b : run_step (mkDispatcher source chans taken b false) (mkDispatcher source chans taken b true)
| run_take source chans taken b i pkt c : chans !! i = Some (pkt :: c) ->
    run_step (mkDispatcher source chans taken b false) (mkDispatcher source (<[i := c]> chans) (taken ++ [pkt]) b false)
| run_drop source chans taken b i pkt c : chans !! i = Some (pkt :: c) ->
    run_step (mkDispatcher source chans taken b true) (mkDispatcher source (<[i := c]> chans) taken b true).

(** *** Both directions go to one worker *)

Definition swap_ip (ip : IPLayer) : IPLayer := mkIP (ip_Dst ip) (ip_Src ip) (ip_Proto ip).
Definition ports_swapped {A : Type} (src dst : A -> Z) (a b : option A) : Prop :=
  match a, b with
  | Some x, Some y => src y = dst x /\ dst y = src x
  | None, None => True
  | _, _ => False
  end.
(** A packet in the other direction of the same conversation. *)
Definition reverse_of (p p' : Packet) : Prop :=
  (is_Some (pk_IPv4 p) \/ is_Some (pk_IPv6 p)) /\ pk_IPv4 p' = swap_ip <$> pk_IPv4 p /\ pk_IPv6 p' = swap_ip <$> pk_IPv6 p
  /\ ports_swapped tcp_SrcPort tcp_DstPort (pk_TCP p) (pk_TCP p') /\ ports_swapped udp_SrcPort udp_DstPort (pk_UDP p) (pk_UDP p').

Lemma bytes_gt_cases a b : (bytes_gt a b = true /\ bytes_gt b a = false /\ a <> b) \/ (bytes_gt a b = false /\ bytes_gt b a = true /\ a <> b)
  \/ (a = b /\ bytes_gt a b = false).
Proof.
  revert b. induction a as [|x a IH]; intros [|y b]; cbn; [auto|auto|auto|]. rewrite (Z.eqb_sym y x). destruct (x =? y) eqn:E; b2p.
  - subst. destruct (IH b) as [(? & ? & ?)|[(? & ? & ?)|(-> & ?)]]; [left|right; left|right; right]; naive_solver.
  - destruct (y <? x) eqn:E1, (x <? y) eqn:E2; b2p; try lia; [left|right; left]; naive_solver.
Qed.
Lemma tuple_hash_sym src dst sport dport proto : tuple_hash dst src dport sport proto = tuple_hash src dst sport dport proto.
Proof.
  unfold tuple_hash. destruct (bytes_gt_cases src dst) as [(E1 & E2 & Hne)|[(E1 & E2 & Hne)|(-> & E)]].
  - rewrite E1, E2. cbn [orb]. by rewrite bool_decide_eq_false_2 by congruence.
  - rewrite E1, E2. cbn [orb]. by rewrite bool_decide_eq_false_2 by congruence.
  - rewrite E. cbn [orb]. rewrite bool_decide_eq_true_2 by done. cbn [andb].
    destruct (dport <? sport) eqn:E1, (sport <? dport) eqn:E2; b2p; try lia; try done. assert (sport = dport) as -> by lia. done.
Qed.
Lemma flowHash_reverse p p' : reverse_of p p' -> flowHash p' = flowHash p.
Proof.
  intros (Hip & E4 & E6 & Ht & Hu). unfold flowHash. rewrite E4, E6.
  assert (Hsw : (match swap_ip <$> pk_IPv4 p with Some ip => Some ip | None => swap_ip <$> pk_IPv6 p end)
    = swap_ip <$> (match pk_IPv4 p with Some ip => Some ip | None => pk_IPv6 p end)) by (by destruct (pk_IPv4 p)).
  rewrite Hsw. destruct (match pk_IPv4 p with Some ip => Some ip | None => pk_IPv6 p end) as [ip|] eqn:Eip.
  2:{ exfalso. destruct (pk_IPv4 p), (pk_IPv6 p); try done. by destruct Hip as [[? ?]|[? ?]]. }
  cbn [fmap option_fmap option_map swap_ip ip_Src ip_Dst ip_Proto]. unfold ports_swapped in *.
  destruct (pk_TCP p) as [t|], (pk_TCP p') as [t'|]; try done; [destruct Ht as [-> ->]; apply tuple_hash_sym|].
  destruct (pk_UDP p) as [u|], (pk_UDP p') as [u'|]; try done; [destruct Hu as [-> ->]; apply tuple_hash_sym|]. apply tuple_hash_sym.
Qed.

(** *** Order *)

(** The packets of one conversation. *)
Notation of_hash h l := (filter (fun p => flowHash p = h) l).
Definition chan_of (chans : list (list Packet)) (h : Z) : list Packet := default [] (chans !! Z.to_nat (h mod Z.of_nat (length chans))).

Record dispatch_ok (all : list Packet) (n : nat) (st : dispatcher) : Prop := {
  do_workers : length (ds_chans st) = n;
  do_bound : Forall (fun c => length c <= queueSize)%nat (ds_chans st);
  do_routed : forall i c, ds_chans st !! i = Some c -> Forall (fun p => worker_of n p = i) c;
  do_prefix : forall h, of_hash h (ds_taken st) `prefix_of` of_hash h all;
  do_order : ds_cancelled st = false -> forall h,
    of_hash h (ds_taken st) ++ of_hash h (chan_of (ds_chans st) h) ++ of_hash h (ds_source st) = of_hash h all;
  do_all : ds_cancelled st = false -> ds_taken st ++ concat (ds_chans st) ++ ds_source st ≡ₚ all;
  do_closed : ds_closed st = true -> ds_cancelled st = false -> ds_source st = []
}.

Lemma chan_of_insert_ne chans i c h : i <> Z.to_nat (h mod Z.of_nat (length chans)) -> chan_of (<[i := c]> chans) h = chan_of chans h.
Proof. intros Hne. unfold chan_of. by rewrite length_insert, list_lookup_insert_ne. Qed.
Lemma chan_of_insert_eq chans c h x : chans !! Z.to_nat (h mod Z.of_nat (length chans)) = Some x ->
  chan_of (<[Z.to_nat (h mod Z.of_nat (length chans)) := c]> chans) h = c /\ chan_of chans h = x.
Proof.
  intros Hx. unfold chan_of. rewrite length_insert, list_lookup_insert_eq by (by eapply lookup_lt_Some). by rewrite Hx.
Qed.
Lemma concat_insert_snoc {A} (ls : list (list A)) i c x : ls !! i = Some c -> concat (<[i := c ++ [x]]> ls) ≡ₚ x :: concat ls.
Proof.
  revert i. induction ls as [|l ls IH]; intros [|i] Hi; cbn in *; simplify_eq.
  - rewrite <- app_assoc. cbn. by rewrite <- Permutation_middle.
  - rewrite (IH i Hi). by rewrite Permutation_middle.
Qed.
Lemma concat_insert_tail {A} (ls : list (list A)) i c x : ls !! i = Some (x :: c) -> x :: concat (<[i := c]> ls) ≡ₚ concat ls.
Proof.
  revert i. induction ls as [|l ls IH]; intros [|i] Hi; cbn in *; simplify_eq; [done|].
  rewrite <- (IH i Hi). by rewrite Permutation_middle.
Qed.
Lemma of_hash_snoc h l p : of_hash h (l ++ [p]) = of_hash h l ++ of_hash h [p].
Proof. apply filter_app. Qed.
(** What replacing a channel does to the packets of one conversation. *)
Lemma of_hash_push chans h p c : chans !! worker_of (length chans) p = Some c ->
  of_hash h (chan_of (<[worker_of (length chans) p := c ++ [p]]> chans) h) = of_hash h (chan_of chans h) ++ of_hash h [p].
Proof.
  intros Hc. destruct (decide (flowHash p = h)) as [<-|Hne].
  - destruct (chan_of_insert_eq chans (c ++ [p]) _ _ Hc) as [E1 E2]. unfold worker_of. by rewrite E1, E2, filter_app.
  - replace (of_hash h [p]) with (@nil Packet) by (by rewrite filter_cons_False). rewrite app_nil_r.
    destruct (decide (worker_of (length chans) p = Z.to_nat (h mod Z.of_nat (length chans)))) as [E|E]; [|by rewrite chan_of_insert_ne].
    rewrite E in *. destruct (chan_of_insert_eq chans (c ++ [p]) _ _ Hc) as [E1 E2]. rewrite E1, E2, filter_app.
    by rewrite filter_cons_False, app_nil_r.
Qed.
Lemma of_hash_pop chans h i p c : chans !! i = Some (p :: c) -> worker_of (length chans) p = i ->
  of_hash h [p] ++ of_hash h (chan_of (<[i := c]> chans) h) = of_hash h (chan_of chans h).
Proof.
  intros Hc <-. destruct (decide (flowHash p = h)) as [<-|Hne].
  - destruct (chan_of_insert_eq chans c _ _ Hc) as [E1 E2]. unfold worker_of. by rewrite E1, E2, !filter_cons_True.
  - rewrite filter_cons_False by done. cbn.
    destruct (decide (worker_of (length chans) p = Z.to_nat (h mod Z.of_nat (length chans)))) as [E|E]; [|by rewrite chan_of_insert_ne].
    rewrite E in *. destruct (chan_of_insert_eq chans c _ _ Hc) as [E1 E2]. by rewrite E1, E2, filter_cons_False.
Qed.

Lemma Run_start_ok workers source : dispatch_ok source (Z.to_nat (if workers <=? 0 then 1 else workers)) (Run_start workers source).
Proof.
  unfold Run_start. generalize (Z.to_nat (if workers <=? 0 then 1 else workers)) as n. intros n.
  assert (Hrep : forall i c, replicate n ([] : list Packet) !! i = Some c -> c = []) by (intros i c Hi; by apply lookup_replicate in Hi as [-> _]).
  assert (Hnil : forall h, chan_of (replicate n []) h = []).
  { intros h. unfold chan_of. destruct (replicate n [] !! _) eqn:E; [|done]. by apply Hrep in E as ->. }
  split; cbn.
  - by rewrite length_replicate.
  - apply Forall_replicate. cbn. lia.
  - intros i c Hi. by rewrite (Hrep _ _ Hi).
  - intros h. apply prefix_nil.
  - intros _ h. by rewrite Hnil.
  - intros _. replace (concat (replicate n [])) with (@nil Packet); [done|]. clear. induction n as [|n IH]; [done|exact IH].
  - done.
Qed.
Lemma run_step_ok all n st st' : run_step st st' -> dispatch_ok all n st -> dispatch_ok all n st'.
Proof.
  intros Hstep [Hn Hb Hr Hp Ho Ha Hc]. destruct Hstep as [pkt source chans taken x c Hl Hlt| | | |source chans taken b i pkt c Hl|source chans taken b i pkt c Hl];
    cbn in *; [|split; cbn; naive_solver..| |].
  - split; cbn.
    + by rewrite length_insert.
    + apply Forall_insert; [done|]. rewrite length_app. cbn. lia.
    + intros j d Hj. apply list_lookup_insert_Some in Hj as [(<- & <- & _)|[_ Hj]]; [|by eapply Hr].
      apply Forall_app. split; [by eapply Hr|]. repeat constructor. by rewrite Hn.
    + done.
    + intros Hx h. rewrite of_hash_push by done. rewrite <- (Ho Hx h), <- !app_assoc. do 2 f_equal. cbn. by destruct (decide _).
    + intros Hx. rewrite (concat_insert_snoc _ _ _ _ Hl). rewrite <- (Ha Hx). cbn. f_equiv. by rewrite <- Permutation_middle.
    + done.
  - assert (Hw : worker_of (length chans) pkt = i) by (rewrite Hn; by apply Hr, Forall_cons in Hl as [? _]).
    split; cbn.
    + by rewrite length_insert.
    + apply Forall_insert; [done|]. eapply Forall_lookup_1 in Hb; [|exact Hl]. cbn in Hb. lia.
    + intros j d Hj. apply list_lookup_insert_Some in Hj as [(<- & <- & _)|[_ Hj]]; [|by eapply Hr]. by apply Hr, Forall_cons in Hl as [_ ?].
    + intros h. rewrite <- (Ho eq_refl h), of_hash_snoc, <- (of_hash_pop _ h _ _ _ Hl Hw), <- !app_assoc. apply prefix_app, prefix_app_r. done.
    + intros _ h. rewrite <- (Ho eq_refl h), of_hash_snoc, <- (of_hash_pop _ h _ _ _ Hl Hw). by rewrite <- !app_assoc.
    + intros _. rewrite <- (Ha eq_refl), <- (concat_insert_tail _ _ _ _ Hl), <- !app_assoc. done.
    + done.
  - split; cbn; try done.
    + by rewrite length_insert.
    + apply Forall_insert; [done|]. eapply Forall_lookup_1 in Hb; [|exact Hl]. cbn in Hb. lia.
    + intros j d Hj. apply list_lookup_insert_Some in Hj as [(<- & <- & _)|[_ Hj]]; [|by eapply Hr]. by apply Hr, Forall_cons in Hl as [_ ?].
Qed.

(** What Run still has to do; every step takes from it. *)
Definition run_left (st : dispatcher) : nat :=
  2 * length (ds_source st) + length (concat (ds_chans st)) + (if ds_closed st then 0 else 1) + (if ds_cancelled st then 0 else 1).
Lemma run_step_left st st' : run_step st st' -> (run_left st' < run_left st)%nat.
Proof.
  destruct 1 as [pkt source chans taken x c Hl Hlt|? ? []| | |? ? ? b i pkt c Hl|? ? ? b i pkt c Hl]; unfold run_left; cbn; try lia.
  - rewrite (Permutation_length (concat_insert_snoc _ _ _ pkt Hl)). cbn. lia.
  - rewrite <- (Permutation_length (concat_insert_tail _ _ _ _ Hl)). cbn. lia.
  - rewrite <- (Permutation_length (concat_insert_tail _ _ _ _ Hl)). cbn. lia.
Qed.
Lemma concat_not_nil {A} (ls : list (list A)) : concat ls = [] \/ exists i x l, ls !! i = Some (x :: l).
Proof.
  induction ls as [|[|x l] ls IH]; [by left| |right; by exists 0%nat, x, l].
  destruct IH as [IH|(i & y & l & Hi)]; [by left|right; by exists (S i), y, l].
Qed.
Lemma concat_nil_lookup {A} (ls : list (list A)) i c : concat ls = [] -> ls !! i = Some c -> c = [].
Proof.
  intros Hc Hi. destruct c as [|x c]; [done|]. exfalso. pose proof (concat_insert_tail ls i c x Hi) as Hp.
  rewrite Hc in Hp. symmetry in Hp. by apply Permutation_nil_cons in Hp.
Qed.
Lemma run_progress all n st : (0 < n)%nat -> dispatch_ok all n st ->
  (ds_closed st = true /\ concat (ds_chans st) = []) \/ exists st', run_step st st' /\ ds_cancelled st' = ds_cancelled st.
Proof.
  intros Hn [Hlen _ _ _ _ _ _]. destruct st as [source chans taken b x]. cbn in *.
  destruct (concat_not_nil chans) as [Hc|(i & p & c & Hi)].
  2:{ right. destruct x; eexists; (split; [by econstructor|done]). }
  destruct b; [by left|right]. destruct source as [|p source]; [eexists; split; [constructor|done]|].
  destruct (lookup_lt_is_Some_2 chans (worker_of (length chans) p)) as [c Hw].
  { unfold worker_of. rewrite Hlen. pose proof (Z.mod_pos_bound (flowHash p) (Z.of_nat n)). lia. }
  eexists; split; [eapply run_dispatch; [exact Hw|]|done]. rewrite (concat_nil_lookup _ _ _ Hc Hw). cbn. unfold queueSize. lia.
Qed.

(** C11.  Run keeps every conversation in order and finishes: however the
    dispatcher, the workers and a cancellation interleave, both directions of a
    conversation go to one worker, no channel exceeds queueSize, and the packets
    of a conversation are processed in the order of the capture without gaps.
    Every step brings Run closer to its end and only the end has no step left
    (cancelled or not); when it ends without a cancellation each packet of the
    source was processed exactly once. *)
Theorem dispatch_order workers source st :
  rtc run_step (Run_start workers source) st ->
  (forall p p', reverse_of p p' -> worker_of (length (ds_chans st)) p' = worker_of (length (ds_chans st)) p)
  /\ Forall (fun c => length c <= queueSize)%nat (ds_chans st)
  /\ (forall h, of_hash h (ds_taken st) `prefix_of` of_hash h source)
  /\ (forall st', run_step st st' -> (run_left st' < run_left st)%nat)
  /\ ((exists st', run_step st st' /\ ds_cancelled st' = ds_cancelled st)
      \/ (ds_closed st = true /\ concat (ds_chans st) = []
          /\ (ds_cancelled st = false -> ds_taken st ≡ₚ source /\ forall h, of_hash h (ds_taken st) = of_hash h source))).
Proof.
  intros Hrun. set (n := Z.to_nat (if workers <=? 0 then 1 else workers)).
  assert (Hn : (0 < n)%nat) by (unfold n; case_if; lia).
  assert (Hok : dispatch_ok source n st).
  { eapply (rtc_ind_r (fun st => dispatch_ok source n st)); [apply Run_start_ok| |exact Hrun]. intros y z _ Hs. by apply run_step_ok. }
  split; [intros p p' Hp; unfold worker_of; by rewrite (flowHash_reverse _ _ Hp)|].
  split; [apply Hok|]. split; [apply Hok|]. split; [apply run_step_left|].
  destruct (run_progress _ _ _ Hn Hok) as [[Hc Hnil]|Hs]; [right|by left]. split; [done|]. split; [done|]. intros Hx.
  destruct Hok as [_ _ _ _ Ho Ha Hcl]. pose proof (Hcl Hc Hx) as Hsrc. rewrite Hsrc, Hnil in Ha. split.
  - by rewrite <- (Ha Hx), !app_nil_r.
  - intros h. rewrite <- (Ho Hx h), Hsrc. replace (chan_of (ds_chans st) h) with (@nil Packet); [by rewrite !app_nil_r|].
    unfold chan_of. destruct (ds_chans st !! _) as [c|] eqn:E; [|done]. by rewrite (concat_nil_lookup _ _ _ Hnil E).
Qed.

Definition demo_tcp (src dst : list Z) (sport dport : Z) (payload : bytes) : Packet :=
  mkPacket payload (Some 1000) (len payload) [] (Some (mkIP src dst 6)) None
    (Some (mkTCP sport dport 1 1 false true false false payload)) None None None true.
Definition demo_out : Packet := demo_tcp [192; 0; 2; 1] [10; 0; 0; 5] 40000 80 [].
Definition demo_back : Packet := demo_tcp [10; 0; 0; 5] [192; 0; 2; 1] 80 40000 [].

Lemma dispatch_order_witness :
  exists st, rtc run_step (Run_start 2 [demo_out; demo_back]) st /\ ds_taken st = [demo_out; demo_back]
  /\ worker_of 2 demo_back = worker_of 2 demo_out /\ forall h, of_hash h (ds_taken st) = of_hash h [demo_out; demo_back].
Proof.
  assert (Hw : worker_of 2 demo_out = 1%nat /\ worker_of 2 demo_back = 1%nat) by (split; vm_compute; reflexivity). destruct Hw as [Hw1 Hw2].
  assert (Hrun : rtc run_step (Run_start 2 [demo_out; demo_back]) (mkDispatcher [] [[]; []] [demo_out; demo_back] true false)).
  { eapply rtc_l; [apply (run_dispatch _ _ [[]; []] [] false []); [cbn [length]; by rewrite Hw1|unfold queueSize; cbn; lia]|].
    cbn [length]. rewrite Hw1. cbn [insert list_insert app].
    eapply rtc_l; [apply (run_dispatch _ _ [[]; [demo_out]] [] false [demo_out]); [cbn [length]; by rewrite Hw2|unfold queueSize; cbn; lia]|].
    cbn [length]. rewrite Hw2. cbn [insert list_insert app].
    eapply rtc_l; [by apply (run_take _ _ _ _ 1%nat demo_out [demo_back])|]. cbn [insert list_insert app].
    eapply rtc_l; [apply run_closed|]. eapply rtc_l; [by apply (run_take _ _ _ _ 1%nat demo_back [])|]. apply rtc_refl. }
  destruct (dispatch_order 2 [demo_out; demo_back] _ Hrun) as (_ & _ & _ & _ & [(st' & Hs & E)|(_ & _ & Hend)]).
  - exfalso. inversion Hs; subst; [discriminate E|..]; destruct i as [|[|i]]; discriminate.
  - eexists. split; [exact Hrun|]. split; [reflexivity|]. split; [congruence|]. apply (proj2 (Hend eq_refl)).
Defined.

(** ** What a packet leads to *)

Section detection.
Context `{GoUnicodeLaws} `{GoYAML} `{GoPacket} `{GoRegexpLaws} `{GoHTTP} {Q : Type} `{EventQueue Q}.

(** Every collaborator is in a state of its own runs. *)
Definition deps_run (d : Deps Q) (disk : Disk) (n : Z) : Prop :=
  match_run (dp_Store d) disk (dp_Intel d) n /\ flow_run (dp_Flows d)
  /\ match dp_Tracker d with Some t => tracker_run t | None => True end.

Lemma offer_all_app clock i q l1 l2 : offer_all clock i q (l1 ++ l2) = offer_all clock (i + length l1) (offer_all clock i q l1) l2.
Proof.
  revert i q. induction l1 as [|ev l1 IH]; intros i q; cbn; [by rewrite Nat.add_0_r|]. rewrite IH. f_equal. lia.
Qed.
Lemma Register_id (O : RangeOrder) t obs ev :
  ev_EventID (Register t obs ev).2 = ev_EventID ev /\ ev_EvidenceFile (Register t obs ev).2 = ev_EvidenceFile ev.
Proof.
  unfold Register. cbv zeta. destruct (findTransaction t _ _) as [[[key st] [i|]]|]; [|done|done]. cbn -[applyLegacyExchange].
  unfold applyLegacyExchange. repeat case_match; done.
Qed.

Definition tracker_run_opt (t : option Tracker) : Prop := match t with Some t => tracker_run t | None => True end.
(** [ev'] is the detected event [ev] as it is queued. *)
Definition queued_as (save : string -> string) (ev ev' : ThreatEvent) : Prop :=
  ev_EventID ev' = ev_EventID ev /\ (save (ev_EventID ev) <> ""%string -> ev_EvidenceFile ev' = save (ev_EventID ev)).
Lemma emit_spec (O : RangeOrder) save clock i obs t (q : Q) evs : tracker_run_opt t ->
  exists t' evs', emit save clock i obs t q evs = (t', offer_all clock i q evs') /\ tracker_run_opt t' /\ Forall2 (queued_as save) evs evs'.
Proof.
  revert i t q. induction evs as [|ev evs IH]; intros i t q Ht; cbn; [by exists t, []|].
  assert (exists t1 ev1, register t obs (with_evidence save ev) = (t1, ev1) /\ tracker_run_opt t1 /\ queued_as save ev ev1) as (t1 & ev1 & -> & Ht1 & Hev).
  { assert (queued_as save ev (with_evidence save ev)) as Hw.
    { unfold queued_as, with_evidence. cbv zeta. destruct (seqb (save (ev_EventID ev)) "") eqn:E; cbn; [|done].
      apply seqb_spec in E. by rewrite E. }
    destruct t as [t|]; cbn; [|by eauto 6].
    destruct (Register_id O t obs (with_evidence save ev)) as [Hid Hfile]. pose proof (tracker_register O t obs (with_evidence save ev) Ht) as Hrun.
    destruct (Register t obs _) as [t1 ev1]. cbn in *. exists (Some t1), ev1. split; [done|]. split; [done|].
    destruct Hw as [Hw1 Hw2]. unfold queued_as. rewrite Hid, Hfile. done. }
  destruct (IH (S i) t1 (offer (clock i) q ev1) Ht1) as (t' & evs' & -> & Ht' & Hall). exists t', (ev1 :: evs'). by auto.
Qed.
Lemma observe_spec (O : RangeOrder) t pf n : tracker_run_opt t -> exists t' obs, observe t pf n = Some (t', obs) /\ tracker_run_opt t'.
Proof.
  destruct t as [t|]; cbn; [|by eauto]. intros Ht. destruct (Observe_ok t pf n (tracker_run_ok t Ht)) as (t' & obs & E & _ & _).
  rewrite E. cbn. eexists _, _. split; [done|]. by eapply tracker_observe.
Qed.
Lemma queued_as_ids save evs evs' : Forall2 (queued_as save) evs evs' -> ev_EventID <$> evs' = ev_EventID <$> evs.
Proof. induction 1 as [|ev ev' evs evs' [He _] _ IH]; cbn; congruence. Qed.

Lemma detect_emit (O : RangeOrder) e f save clock i obs t (q : Q) : tracker_run_opt t ->
  exists e' t' evs, (let '(e, evs) := Detect e f in let '(t, q) := emit save clock i obs t q evs in (e, t, q)) = (e', t', offer_all clock i q evs)
  /\ tracker_run_opt t' /\ NoDup (ev_EventID <$> evs)
  /\ (forall id, id ∈ ev_EventID <$> evs <-> id ∈ (fingerprint_id f <$> ff_FingerprintHits f) ++ (intel_id f <$> ff_IntelHits f))
  /\ Forall (fun ev => save (ev_EventID ev) <> ""%string -> ev_EvidenceFile ev = save (ev_EventID ev)) evs.
Proof.
  intros Ht. destruct (Detect e f) as [e' evs] eqn:Ed. destruct (Detect_spec O _ _ _ _ Ed) as (Hnd & Hids & _).
  destruct (emit_spec O save clock i obs t q evs Ht) as (t' & evs' & -> & Ht' & Hall).
  exists e', t', evs'. rewrite (queued_as_ids _ _ _ Hall). split; [done|]. split; [done|]. split; [done|]. split; [done|].
  clear -Hall. induction Hall as [|ev ev' evs evs' [He Hs] _ IH]; constructor; [by rewrite He|done].
Qed.

Lemma process_spec (O : RangeOrder) (d : Deps Q) disk n now save pkt :
  deps_run d disk n -> n < 2 ^ 63 ->
  match Parse (Some pkt) (at_parse now) with
  | (_, Some _) => process now save pkt d = Some d
  | (pf, None) =>
      exists d' updates events fpHits intelHits, process now save pkt d = Some d' /\ deps_run d' disk n
      /\ dp_Queue d' = offer_all (at_enqueue now) 0 (dp_Queue d) (updates ++ events)
      /\ Forall2 (hit_of pf) (filter (fun cr => fires pf cr = true) (dp_Fingerprints d)) fpHits
      /\ NoDup (ti_ID <$> intelHits)
      /\ (forall it, it ∈ intelHits <-> (exists id, st_items (dp_Store d) !! id = Some it) /\ active it (at_match now) = true /\ denotes it pf)
      /\ (let f := (flow_Update (dp_Flows d) pf fpHits intelHits (at_cleanup now) (at_flow now) (at_pair now)).2 in
          NoDup (ev_EventID <$> events)
          /\ (forall id, id ∈ ev_EventID <$> events <-> id ∈ (fingerprint_id f <$> fpHits) ++ (intel_id f <$> intelHits)))
      /\ Forall (fun ev => save (ev_EventID ev) <> ""%string -> ev_EvidenceFile ev = save (ev_EventID ev)) events
  end.
Proof.
  intros (Hm & Hf & Ht) Hn. unfold process. destruct (Parse (Some pkt) (at_parse now)) as [pf [e|]]; [done|].
  destruct (fingerprint_Match_spec (dp_Fingerprints d) pf) as (fpHits & -> & Hfp). cbn [mbind option_bind].
  destruct (MatchPacket (dp_Store d) (dp_Intel d) pf (at_match now)) as [m' intelHits] eqn:Em.
  destruct (MatchPacket_spec O _ _ n pf _ _ _ (match_run_inv _ _ _ _ Hm) Hn Em) as [Hnd Hin].
  pose proof (match_packet O _ _ _ _ _ _ _ _ Hm Em) as Hm'.
  pose proof (flow_run_update O _ pf fpHits intelHits (at_cleanup now) (at_flow now) (at_pair now) Hf) as Hf'.
  pose proof (flow_Update_hits (dp_Flows d) pf fpHits intelHits (at_cleanup now) (at_flow now) (at_pair now)) as Hhits.
  destruct (flow_Update _ pf fpHits intelHits _ _ _) as [flows f] eqn:Ef. cbn [fst snd] in *. destruct Hhits as (Hh1 & Hh2 & _).
  destruct (observe_spec O (dp_Tracker d) pf (ff_PacketSequence f) Ht) as (t' & obs & -> & Ht'). cbn [mbind option_bind].
  set (q1 := offer_all (at_enqueue now) 0 (dp_Queue d) (ob_Updates obs)).
  match goal with |- context [Detect _ ?g] => set (f' := g) end.
  destruct (detect_emit O (dp_Detector d) f' save (at_enqueue now) (length (ob_Updates obs)) obs t' q1 Ht')
    as (e' & t'' & evs & Ed & Ht'' & Hnd' & Hids & Hsaved).
  change (ff_FingerprintHits f') with (ff_FingerprintHits f) in Hids. change (ff_IntelHits f') with (ff_IntelHits f) in Hids.
  change (fingerprint_id f') with (fingerprint_id f) in Hids. change (intel_id f') with (intel_id f) in Hids. rewrite Hh1, Hh2 in Hids.
  change (dp_Detector (upd dp_Queue _ _)) with (dp_Detector d). fold q1.
  destruct (match fpHits with [] => match intelHits with [] => true | _ => false end | _ => false end) eqn:Equiet.
  - destruct fpHits, intelHits; try done. eexists _, (ob_Updates obs), [], [], [].
    rewrite app_nil_r, Ef. split; [reflexivity|]. split; [done|]. split; [done|]. do 3 (split; [done|]). split; [|done]. split; [constructor|done].
  - eexists _, (ob_Updates obs), evs, fpHits, intelHits. split.
    { transitivity (Some (d <| dp_Intel := m' |> <| dp_Flows := flows |> <| dp_Detector := e' |> <| dp_Tracker := t'' |>
        <| dp_Queue := offer_all (at_enqueue now) (length (ob_Updates obs)) q1 evs |>)); [|reflexivity].
      destruct (Detect (dp_Detector d) f') as [e1 evs1]. destruct (emit _ _ _ _ _ _ evs1) as [t1 q2]. injection Ed as -> -> ->.
      by destruct fpHits, intelHits. }
    split; [done|]. split; [symmetry; apply offer_all_app|]. rewrite Ef. done.
Qed.


(** What the settings fix stays as it is. *)
Lemma emit_opts (O : RangeOrder) save clock i obs t (q : Q) evs : tk_opts <$> (emit save clock i obs t q evs).1 = tk_opts <$> t.
Proof.
  revert i t q. induction evs as [|ev evs IH]; intros i t q; [done|]. cbn [emit]. cbv zeta.
  assert (tk_opts <$> (register t obs (with_evidence save ev)).1 = tk_opts <$> t) as Hr.
  { destruct t as [t|]; [|done]. cbn [register]. unfold Register. cbv zeta. by repeat case_match; simplify_eq/=. }
  destruct (register t obs _) as [t1 ev1]. cbn [fst] in Hr. by rewrite IH.
Qed.
Lemma process_settings (O : RangeOrder) (d d' : Deps Q) now save pkt : tracker_run_opt (dp_Tracker d) -> process now save pkt d = Some d' ->
  dp_Fingerprints d' = dp_Fingerprints d /\ ag_maxFlows (dp_Flows d') = ag_maxFlows (dp_Flows d) /\ tk_opts <$> dp_Tracker d' = tk_opts <$> dp_Tracker d.
Proof.
  intros Ht. unfold process. destruct (Parse (Some pkt) (at_parse now)) as [pf [e|]]; [by intros [= <-]|].
  destruct (fingerprint_Match _ pf) as [fpHits|]; [|done]. cbn [mbind option_bind].
  destruct (MatchPacket _ _ pf _) as [m intelHits].
  pose proof (flow_Update_max (dp_Flows d) pf fpHits intelHits (at_cleanup now) (at_flow now) (at_pair now)) as Hf.
  destruct (flow_Update _ pf fpHits intelHits _ _ _) as [flows f]. cbn [fst] in Hf.
  assert (forall t' obs, observe (dp_Tracker d) pf (ff_PacketSequence f) = Some (t', obs) -> tk_opts <$> t' = tk_opts <$> dp_Tracker d) as Ho.
  { intros t' obs. destruct (dp_Tracker d) as [t|]; cbn [observe]; [|by intros [= <- _]].
    destruct (Observe_ok t pf (ff_PacketSequence f) (tracker_run_ok t Ht)) as (t1 & obs1 & -> & _ & E). intros [= <- _]. cbn. by rewrite E. }
  destruct (observe _ pf _) as [[t' obs]|]; [|done]. specialize (Ho _ _ eq_refl). cbn [mbind option_bind].
  match goal with |- context [Detect ?a ?b] => destruct (Detect a b) as [e' evs] end.
  match goal with |- context [emit ?a ?b ?c ?x ?y ?z ?w] => pose proof (emit_opts O a b c x y z w) as He; destruct (emit a b c x y z w) as [t2 q2] end. cbn [fst] in He.
  assert (forall x, x = d' -> dp_Fingerprints x = dp_Fingerprints d -> ag_maxFlows (dp_Flows x) = ag_maxFlows (dp_Flows d) -> tk_opts <$> dp_Tracker x = tk_opts <$> dp_Tracker d ->
    dp_Fingerprints d' = dp_Fingerprints d /\ ag_maxFlows (dp_Flows d') = ag_maxFlows (dp_Flows d) /\ tk_opts <$> dp_Tracker d' = tk_opts <$> dp_Tracker d) as Hx by (by intros x -> ? ? ?).
  destruct fpHits, intelHits; intros [= E]; (eapply Hx; [exact E|reflexivity|exact Hf|]); cbn; congruence.
Qed.
Lemma process_run (O : RangeOrder) (d : Deps Q) disk n now save pkt : deps_run d disk n -> n < 2 ^ 63 ->
  exists d', process now save pkt d = Some d' /\ deps_run d' disk n.
Proof.
  intros Hd Hn. pose proof (process_spec O d disk n now save pkt Hd Hn) as Hp.
  destruct (Parse (Some pkt) (at_parse now)) as [pf [e|]]; [by eauto|]. destruct Hp as (d' & _ & _ & _ & _ & ? & ? & _). eauto.
Qed.
Lemma process_all_run (O : RangeOrder) now save i pkts (d : Deps Q) disk n : deps_run d disk n -> n < 2 ^ 63 ->
  exists d', process_all now save i pkts d = Some d' /\ deps_run d' disk n.
Proof.
  intros Hd Hn. revert i d Hd. induction pkts as [|pkt pkts IH]; intros i d Hd; cbn; [by eauto|].
  destruct (process_run O d disk n (now i) save pkt Hd Hn) as (d1 & -> & Hd1). cbn [mbind option_bind]. by apply IH.
Qed.

Lemma process_all_settings (O : RangeOrder) now save i pkts (d d' : Deps Q) disk n : deps_run d disk n -> n < 2 ^ 63 ->
  process_all now save i pkts d = Some d' ->
  dp_Fingerprints d' = dp_Fingerprints d /\ ag_maxFlows (dp_Flows d') = ag_maxFlows (dp_Flows d) /\ tk_opts <$> dp_Tracker d' = tk_opts <$> dp_Tracker d.
Proof.
  intros Hd Hn. revert i d Hd. induction pkts as [|pkt pkts IH]; intros i d Hd E; cbn in E; [by simplify_eq|].
  destruct (process_run O d disk n (now i) save pkt Hd Hn) as (d1 & E1 & Hd1). rewrite E1 in E. cbn [mbind option_bind] in E.
  destruct (process_settings O d d1 (now i) save pkt (proj2 (proj2 Hd)) E1) as (<- & <- & <-). by eapply IH.
Qed.

(** The node is type-safe over whole captures: from collaborators in any
    reachable state, no sequence of packets makes process panic, all
    collaborators stay in reachable states, their memory bounds hold at the
    end, and after the final flush no session is left. *)
Theorem process_total (O : RangeOrder) (d : Deps Q) disk n now save pkts clock :
  deps_run d disk n -> n < 2 ^ 63 ->
  exists d', process_all now save 0 pkts d = Some d' /\ deps_run d' disk n
  /\ flows_Len (dp_Flows d') <= ag_maxFlows (dp_Flows d')
  /\ (forall t, dp_Tracker d' = Some t -> Z.of_nat (size (tk_sessions t)) <= op_MaxSessions (tk_opts t))
  /\ deps_run (finish_run clock d') disk n
  /\ (forall t, dp_Tracker (finish_run clock d') = Some t -> tk_sessions t = ∅).
Proof.
  intros Hd Hn. destruct (process_all_run O now save 0 pkts d disk n Hd Hn) as (d' & E & Hd'). exists d'. split; [done|]. split; [done|].
  destruct Hd' as (Hm & Hf & Ht). split; [by apply flow_run_table_ok in Hf as (_ & ? & _)|].
  split; [intros t Hdt; rewrite Hdt in Ht; by apply tracker_run_ok in Ht as (_ & ? & _)|].
  unfold finish_run. destruct (dp_Tracker d') as [t|] eqn:Et.
  - pose proof (tracker_flush O t Ht) as Hfl. pose proof (Flush_spec t) as Hs. destruct (Flush t) as [t1 evs]. cbn in *.
    split; [done|]. intros ? [= <-]. by injection Hs as -> _.
  - split; [|by rewrite Et]. repeat split; try done. by rewrite Et.
Qed.
End detection.

(** ** Links to the evidence

    Evidence is saved after detection, and no packet carries a file: the list of
    evidence files that Detect derives from the flow is always empty. *)

Section links.
Context `{GoUnicode} `{GoPacket}.

Lemma stampLocalHits_files (O : RangeOrder) e ev t k : ev_EvidenceFiles (stampLocalHits e ev t k).2 = ev_EvidenceFiles ev.
Proof. unfold stampLocalHits. cbv zeta. by repeat case_match. Qed.
Lemma base_event_files e f : ev_EvidenceFiles (base_event e f) = evidenceList e f.
Proof. unfold base_event, fillImpactHints. cbv zeta. by repeat case_match. Qed.
Lemma detect_step_files {A} (id_of : A -> string) make (l : list EvidenceFile) hits : (forall e hit, ev_EvidenceFiles (make e hit).2 = l) ->
  forall acc, Forall (fun ev => ev_EvidenceFiles ev = l) acc.2 -> Forall (fun ev => ev_EvidenceFiles ev = l) (foldl (detect_step id_of make) acc hits).2.
Proof.
  intros Hm. induction hits as [|hit hits IH]; intros acc Ha; [done|]. cbn [foldl]. apply IH. unfold detect_step. destruct acc as [[e seen] evs]. case_match; [done|].
  pose proof (Hm e hit) as Hf. destruct (make e hit) as [e1 ev]. apply Forall_app. split; [done|]. by apply Forall_singleton.
Qed.
Lemma Detect_files (O : RangeOrder) e f : Forall (fun ev => ev_EvidenceFiles ev = evidenceList e f) (Detect e f).2.
Proof.
  unfold Detect. cbv zeta. set (base := base_event e f). set (acc := foldl _ (e, ∅, []) (ff_FingerprintHits f)).
  assert (Forall (fun ev => ev_EvidenceFiles ev = evidenceList e f) acc.2) as Ha.
  { apply detect_step_files; [|done]. intros e0 hit. unfold fingerprint_event. cbv zeta. match goal with |- context [stampLocalHits ?a ?b ?c ?k] => pose proof (stampLocalHits_files O a b c k) as Hs end.
    destruct (stampLocalHits _ _ _ _) as [e1 ev]. etrans; [exact Hs|]. apply base_event_files. }
  pose proof (detect_step_files (intel_id f) (fun e0 hit => intel_event e0 f base hit) (evidenceList e f) (ff_IntelHits f)) as Hi.
  match goal with |- context [foldl ?g acc (ff_IntelHits f)] => assert (Forall (fun ev => ev_EvidenceFiles ev = evidenceList e f) (foldl g acc (ff_IntelHits f)).2) as Hall end.
  { apply Hi; [|done]. intros e0 hit. unfold intel_event. cbv zeta. match goal with |- context [stampLocalHits ?a ?b ?c ?k] => pose proof (stampLocalHits_files O a b c k) as Hs end.
    destruct (stampLocalHits _ _ _ _) as [e1 ev]. etrans; [exact Hs|]. apply base_event_files. }
  destruct (foldl _ acc (ff_IntelHits f)) as [[e2 seen] evs]. cbn [snd] in *. apply Forall_fmap. eapply Forall_impl; [exact Hall|]. done.
Qed.
(** No flow of the table has an evidence file. *)
Definition no_files (a : Aggregator) : Prop := map_Forall (fun _ st => ff_EvidenceFile (fs_feature st) = "") (ag_flows a).
Lemma cleanup_no_files (O : RangeOrder) a now : no_files a -> no_files (flow_cleanupLocked a now).1.
Proof.
  intros Ha. unfold flow_cleanupLocked. rewrite range_delete_filter. destruct (range_delete _ (ag_pairs _)). cbn. intros k st Hk. apply map_lookup_filter_Some in Hk as [Hk _]. by apply (Ha k).
Qed.
Lemma tracked_no_files a st pf fp ih n t1 t2 : pf_EvidenceFile pf = "" -> ff_EvidenceFile (fs_feature st) = "" -> no_files a ->
  no_files (update_tracked a st pf fp ih n t1 t2).1 /\ ff_EvidenceFile (update_tracked a st pf fp ih n t1 t2).2 = "".
Proof.
  intros Hp Hs Ha. unfold update_tracked. cbv zeta. cbn. rewrite Hp, Hs. split; [|done]. apply map_Forall_insert_2; [|done]. cbn. by rewrite Hp, Hs.
Qed.
(** Whatever was saved before, no event that a packet gives rise to has a link. *)
Lemma events_without_links (O : RangeOrder) a pkt now pf fp ih n1 n2 n3 e g : no_files a -> Parse (Some pkt) now = (pf, None) ->
  ff_EvidenceFile g = ff_EvidenceFile (flow_Update a pf fp ih n1 n2 n3).2 ->
  no_files (flow_Update a pf fp ih n1 n2 n3).1 /\ Forall (fun ev => ev_EvidenceFiles ev = []) (Detect e g).2.
Proof.
  intros Ha Hp Hg. assert (pf_EvidenceFile pf = "") as Hpf by (pose proof (Parse_inv (Some pkt) now) as (_ & _ & Hx); by rewrite Hp in Hx).
  assert (no_files (flow_Update a pf fp ih n1 n2 n3).1 /\ ff_EvidenceFile (flow_Update a pf fp ih n1 n2 n3).2 = "") as [H1 H2].
  { unfold flow_Update. cbv zeta. case_match eqn:Ek; [apply tracked_no_files; [done|by apply (Ha _ _ Ek)|done]|].
    assert (ff_EvidenceFile (new_feature pf) = "") as Hnew by done. case_match; [|by apply tracked_no_files].
    match goal with |- context [flow_cleanupLocked ?b n1] => pose proof (cleanup_no_files O b n1 Ha) as Hc; destruct (flow_cleanupLocked b n1) as [b' ?] end. cbn [fst] in Hc.
    case_match; [by split|by apply tracked_no_files]. }
  split; [done|]. eapply Forall_impl; [apply (Detect_files O e g)|]. intros ev ->. unfold evidenceList. by rewrite Hg, H2.
Qed.
End links.

#[local] Existing Instance ascii_unicode.
#[local] Existing Instance bits_yaml.
#[local] Existing Instance literal_regexp.
#[local] Existing Instance no_http.
#[local] Existing Instance canonical_range.
#[local] Existing Instance identity_zlib.
#[local] Instance no_dns : GoPacket := {| dns_Decode := fun _ => None |}.

(** A node with one indicator, for an address of the two packets. *)
Definition demo_deps : Deps SQLiteQueue :=
  mkDeps SQLiteQueue _ [] demo_added.1 NewMatcher (NewAggregator 10 1000) (Some demo_tracker0) (detector_New "dev") (mkSQLite new_db "q.db" "sqlite" 3).
Definition demo_instants (i : nat) : instants := mkInstants 1 150 150 150 150 (fun _ => 150).
Lemma demo_deps_run : deps_run demo_deps demo_added.2 2.
Proof. split; [apply demo_match_run|]. split; [constructor|]. cbn. constructor. Qed.

Lemma demo_hit : exists it, it ∈ (MatchPacket demo_added.1 NewMatcher (Parse (Some demo_out) 1).1 150).2.
Proof.
  destruct (MatchPacket _ _ _ 150).2 as [|it l] eqn:E; [|exists it; left].
  exfalso. assert (F : length (MatchPacket demo_added.1 NewMatcher (Parse (Some demo_out) 1).1 150).2 = 1%nat) by (vm_compute; reflexivity).
  rewrite E in F. discriminate F.
Qed.


Lemma process_total_witness :
  exists d', process_all demo_instants (fun _ => ""%string) 0 [demo_out; demo_back] demo_deps = Some d'
  /\ flows_Len (dp_Flows d') <= ag_maxFlows (dp_Flows d')
  /\ forall t, dp_Tracker (finish_run (fun _ => 150) d') = Some t -> tk_sessions t = ∅.
Proof.
  destruct (process_total canonical_range demo_deps demo_added.2 2 demo_instants (fun _ => ""%string) [demo_out; demo_back] (fun _ => 150)
    demo_deps_run ltac:(lia)) as (d' & E & _ & Hl & _ & _ & Hs). exists d'. split; [exact E|]. split; [exact Hl|exact Hs].
Defined.
