(* ===== verification/Tool.v ===== *)
(** * Tool: the offline command ta_queue (cmd/ta_queue/main.go)

    The command inspects a database or migrates it; the flags are given as
    parsed.  Printing to the terminal and the interrupt signal, which cancels
    the context of the migration, are arguments or results of the model. *)

From S2P Require Import Prelude GoStrings GoNet Events Json AnyJson Codec EventJson Content Queue EventQueue Shard Archive Ranges Maintain Readers Migrate Detector Paths Server.

Record options := mkOptions { op_source : string; op_destination : string; op_backend : string; op_inspect : bool; op_offline : bool }.
(** filepath.Abs in a working directory. *)
Definition filepath_Abs (cwd p : string) : string := if Archive.filepath_IsAbs p then filepath_Clean p else join_paths cwd p.

Section tool.
Context `{GoZlib} `{SqlOrder} `{GoSort} (master : queue_db -> string -> bool).

(** InspectStorage; a database of the first version has no catalogue to count. *)
Definition InspectStorage (m : readings) (files : disk) (path : string) : res StorageStats :=
  d ← readOnly files path;
  let backend := if master d "queue_content" then "v2/mixed" else "legacy" in
  st ← Stats m (mkSQLite d path backend 0);
  Ok (if master d "queue_archives" then st else mkStats (ss_PageBytes st) (ss_ReusableBytes st) (ss_FileBytes st) (ss_AvailableBytes st) 0 (ss_Backend st) (ss_Shards st)).

(** What a run finds: the working directory, the readings of the engine, the
    clock, the sibling shards of the source, and the files of a migration. *)
Record tool_env := mkToolEnv { te_cwd : string; te_readings : readings; te_now : Z; te_paths : list string; te_frozen : frozen }.
(** json.NewEncoder(os.Stdout).Encode *)
Definition print_json (members : list (string * gval)) : bytes := json_Marshal (VMap ((fun kv => (byt kv.1, kv.2)) <$> members)) ++ [chr 10].
Definition usage : string := "usage: ta_queue --offline --source SOURCE --destination DEST [--backend v2|legacy]".
(** The files and what is printed. *)
Definition queue_run (e : tool_env) (o : options) (files : disk) : disk * res bytes :=
  let source := filepath_Abs (te_cwd e) (op_source o) in
  if op_inspect o then
    (files,
     if seqb (op_source o) "" then Err "--source required"
     else
       stats ← InspectStorage (te_readings e) files source;
       logs ← RecentPushSummaries master (te_now e) files source (te_paths e) 50;
       Ok (print_json [("items", nil_slice log_value logs); ("storage", storage_value stats)]))
  else if negb (op_offline o) || seqb (op_source o) "" || seqb (op_destination o) "" then (files, Err usage)
  else
    match MigrateFrozen master (te_frozen e) files source (filepath_Abs (te_cwd e) (op_destination o)) (op_backend o) with
    | (files, n, Some err) => (files, Err ("migration paused after " +:+ strconv_Itoa n +:+ " committed rows: " +:+ err))
    | (files, n, None) => (files, Ok (print_json [("copied_rows", VInt n); ("destination", text (op_destination o)); ("verified", VBool true)]))
    end.
End tool.

(** ** What the command may touch *)

Section laws.
Context `{GoZlibLaws} `{SqlOrder} `{GoSort} (master : queue_db -> string -> bool).

(** A destination that belongs to one source is not continued from another, so
    two databases cannot be merged. *)
Lemma merge_refused items ns d s saved other backend : partial_copy items ns d s -> db_metadata d !! "migration_source" = Some saved -> saved <> other ->
  claim_destination other backend d = (d, Err "frozen source identity changed; refuse unsafe resume").
Proof. intros Hp Hs Hne. unfold claim_destination. rewrite (pc_activated _ _ _ _ Hp), Hs. by rewrite (proj2 (seqb_neq _ _) Hne). Qed.

(** Inspecting, and a call that does not confirm that the databases are offline,
    write nothing.  A migration, after any attempts from an absent destination,
    writes the destination only, and prints that it verified the copy exactly
    when the destination has become a complete copy of the source. *)
Lemma queue_run_safe e o fs files src items : let source := filepath_Abs (te_cwd e) (op_source o) in let destination := filepath_Abs (te_cwd e) (op_destination o) in
  frozen_source master fs source src items -> fs !! destination = None -> rtc (attempt master source destination) fs files ->
  let '(files', r) := queue_run master e o files in
  elsewhere destination fs files' /\ (op_inspect o = true \/ op_offline o = false -> files' = files)
  /\ (op_inspect o = false -> is_ok r = true -> exists d, files' !! destination = Some d /\ complete_copy items src d).
Proof.
  intros source destination Hsrc Hnone Hr. destruct (attempts_ok master _ _ _ _ _ _ Hsrc Hnone Hr) as [He Hd]. unfold queue_run. fold source destination.
  destruct (op_inspect o) eqn:Ei; [by split_and!|]. destruct (op_offline o) eqn:Eo; cbn [negb orb]; [|by split_and!].
  destruct (_ || _); [by split_and!|].
  pose proof (MigrateFrozen_run master _ _ _ _ _ (te_frozen e) (op_backend o) _ Hsrc Hnone He Hd) as Ho. destruct (MigrateFrozen _ _ _ _ _ _) as [[files' n] [err|]];
    destruct Ho as [Hel _ _ Hc _]; cbn [fst snd] in *; (split_and!; [done|intros [?|?]; congruence|]); [done|auto].
Qed.
End laws.

(** Without the confirmation nothing happens. *)
Example unconfirmed : (@queue_run identity_zlib table_order insertion_sort old_master (mkToolEnv "/" (mkReadings 0 0 0 (fun _ => None) (Ok 0)) 9 [] (old_frozen false))
  (mkOptions "old.db" "new.db" "v2" false false) ∅).2 = Err usage.
Proof. reflexivity. Qed.
