(* ===== verification/Node.v ===== *)
(** * Node: starting the node (cmd/ta_node/main.go)

    From the configuration to the collaborators of the packet pipeline and the
    list of background services, with the rule file (internal/fingerprint/loader.go),
    the build identity (internal/buildinfo) and the command-line interface of
    the indicator store.  What the process finds when it starts is a record. *)

From S2P Require Import Prelude GoStrings GoNet Events Parser Counter Fingerprint Flow IntelStore IntelMatcher Feeds Reassembly Tracker Detector.
From S2P Require Import Json AnyJson Codec EventJson Content Queue EventQueue Shard Archive Maintain Readers Config Paths Pcap Clock Server Evidence Pipeline.

(** ** The rule file *)

Definition fields_PatternRule : list (field PatternRule) := [
  req "type" jstring pr_Type;
  req "name" jstring pr_Name;
  req "version" jstring pr_Version;
  req "protocol" jstring pr_Protocol;
  req "port" jint64 pr_Port;
  req "is_http" jint64 pr_IsHTTP;
  req "part" jstring pr_Part;
  req "regex" jstring pr_Regex;
  req "deleted" jint64 pr_Deleted;
  opt "class" jstring pr_Class;
  opt "confidence" jint64 pr_Confidence
].
(** A map of rules: a key that is repeated replaces the earlier rule. *)
Definition rules_into (old : gmap string PatternRule) (t : bytes) : option (gmap string PatternRule) :=
  match json_shape t with
  | Some JNull => Some ∅
  | Some (JObject ms) =>
      foldr (fun m k acc => r ← json_into_struct zero_PatternRule (struct_member fields_PatternRule) m.2; k (<[str m.1 := r]> acc)) Some ms old
  | _ => None
  end.
Definition threat_into (old : gmap string PatternRule) (m : bytes * bytes) : option (gmap string PatternRule) :=
  if names m.1 "rules" then rules_into old m.2 else Some old.
Definition threat_file_into (old : gmap string PatternRule) (m : bytes * bytes) : option (gmap string PatternRule) :=
  if names m.1 "threat" then json_into_struct old threat_into m.2 else Some old.
Definition threat_file (data : bytes) : option (gmap string PatternRule) := if json_Valid data then json_into_struct ∅ threat_file_into data else None.
(** LoadRules and LoadDir on the files of the disk. *)
Definition LoadRulesFile `{RangeOrder} (files : Disk) (path : string) : res (list PatternRule) :=
  match files !! path with
  | None => Err "no such file or directory"
  | Some data => match threat_file data with Some rules => Ok (LoadRules rules) | None => Err "json" end
  end.
Definition LoadDir `{RangeOrder} (files : Disk) (patternDir : string) : res (list PatternRule) := LoadRulesFile files (join_paths patternDir "threat.json").

(** ** The build identity *)

Record Info := mkInfo { in_Revision : string; in_Time : string; in_Modified : bool }.
(** The settings the toolchain embedded, applied in order. *)
Definition build_setting (i : Info) (kv : string * string) : Info :=
  if seqb kv.1 "vcs.revision" then mkInfo kv.2 (in_Time i) (in_Modified i)
  else if seqb kv.1 "vcs.time" then mkInfo (in_Revision i) kv.2 (in_Modified i)
  else if seqb kv.1 "vcs.modified" then mkInfo (in_Revision i) (in_Time i) (seqb kv.2 "true")
  else i.
Definition resolved (settings : option (list (string * string))) : Info := foldl build_setting (mkInfo "" "" false) (default [] settings).
Definition buildinfo_Get (i : Info) : Info := if 12 <? slen (in_Revision i) then mkInfo (str (take 12 (byt (in_Revision i)))) (in_Time i) (in_Modified i) else i.
Definition buildinfo_Short (i : Info) : string :=
  let i := buildinfo_Get i in
  if seqb (in_Revision i) "" then "unknown" else if in_Modified i then in_Revision i +:+ "-dirty" else in_Revision i.

(** ** Settings *)

(** The loop of collectSyncDirs: the directories seen and those kept. *)
Definition collect_dir (acc : gset string * list string) (d : string) : gset string * list string :=
  let d := strings_TrimSpace d in
  if seqb d "" || bool_decide (d ∈ acc.1) then acc else ({[d]} ∪ acc.1, acc.2 ++ [d]).
Definition collectSyncDirs (dirs : list string) : list string := (foldl collect_dir (∅, []) dirs).2.
Definition parseHomeNet (cidrs : list string) : list (option IPNet) :=
  foldl (fun nets c =>
    let c := strings_TrimSpace c in
    if seqb c "" then nets else match net_ParseCIDR c with None => nets | Some n => nets ++ [Some n] end) [] cidrs.
Fixpoint flagValue (args : list string) (name : string) : string :=
  match args with
  | a :: (b :: _) as rest => if seqb a name then b else flagValue rest name
  | _ => ""
  end.
Definition maintenance_options (cfg : Config) : MaintenanceOptions :=
  let s := cf_Storage cfg in
  mkMaintenance (sc_ArchiveDir s) (i64 (sc_ArchiveAfterHours s * Hour)) (i64 (sc_MaintenanceIntervalSec s * Second)) (sc_ArchiveBatchSize s)
    (sc_HighWaterBytes s) (sc_LowWaterBytes s) (sc_MinFreeBytes s).
Definition tracker_options (cfg : Config) : Options :=
  let a := cf_Aggregation cfg in
  mkOptions (ac_MaxSessions a) (ac_MaxTransactionsPerSession a) (ac_MaxPacketsPerTransaction a) (ac_MaxReassemblyBytesPerSide a) (ac_MaxOutOfOrderBytes a)
    (i64 (ac_ResponseWaitSec a * Second)) (FlowIdleTimeout cfg) (ac_StorePacketIndex a) (i64 (ac_RevisionIntervalSec a * Second)).
Definition node_detector (cfg : Config) (version : string) : DetectEngine :=
  let localHits := if 0 <? ec_LocalHitWindowSec (cf_Event cfg) then Some (counter_New (i64 (ec_LocalHitWindowSec (cf_Event cfg) * Second)) 0) else None in
  WithEvidenceDir (WithLocalCounter (WithSensorVersion (WithHomeNet (detector_New (nc_DeviceID (cf_Node cfg))) (parseHomeNet (nc_HomeNet (cf_Node cfg)))) version)
    localHits (ec_LocalHitWindowSec (cf_Event cfg))) (xc_PCAPDir (cf_Evidence cfg)).
Definition evidence_writer (cfg : Config) : Writer :=
  let x := cf_Evidence cfg in
  Evidence.New (xc_EnablePCAPSave x) (xc_PCAPDir x) (nc_DeviceID (cf_Node cfg)) (xc_HashEvidenceDir x) (xc_RetainDays x) (xc_ArchiveMonthly x).

(** ** Background services *)

Inductive service :=
| Maintenance (o : MaintenanceOptions)
| PushWorker (batch interval : Z)
| IOCSync (s : Syncer) (interval : Z)
| HTTPServer (listen : string) (sync : bool)
| HotReload (interval : Z)
| PruneExpired (interval : Z)
| FlowCleanup (interval : Z)
| EvidenceCleanup
| EvidenceArchive.
(** The interval of the ticker a service creates; time.NewTicker panics unless it
    is positive. *)
Definition ticks (s : service) : option Z :=
  match s with
  | Maintenance o => Some (mo_Interval (maintain_options o))
  | PushWorker _ i | HotReload i | PruneExpired i | FlowCleanup i => Some i
  | IOCSync _ i => Some (if i <=? 0 then 60 * Minute else i)
  | HTTPServer _ _ => None
  | EvidenceCleanup => Some Hour
  | EvidenceArchive => Some (24 * Hour)
  end.
Definition service_runs (s : service) : bool := match ticks s with Some i => 0 <? i | None => true end.

(** What is started before and after the packet source is opened. *)
Definition early_services (cfg : Config) : list service :=
  let sync := ic_EnableIocSync (cf_Intel cfg) && negb (seqb (ic_IocSyncDir (cf_Intel cfg)) "") in
  [Maintenance (maintenance_options cfg)]
  ++ (if ec_EnablePush (cf_Event cfg) then [PushWorker (ec_PushBatchSize (cf_Event cfg)) (RetryInterval cfg)] else [])
  ++ (if sync then [IOCSync (mkSyncer (collectSyncDirs [ic_IocSyncDir (cf_Intel cfg); ic_IocSyncDir2 (cf_Intel cfg)]) (ic_IocSyncRetainDays (cf_Intel cfg)) (ic_MaxItems (cf_Intel cfg)))
                            (IocSyncInterval cfg)] else [])
  ++ (if vc_Enable (cf_Server cfg) then [HTTPServer (vc_Listen (cf_Server cfg)) sync] else [])
  ++ (if ic_EnableHotReload (cf_Intel cfg) then [HotReload (ReloadInterval cfg)] else [])
  ++ (if 0 <? ic_PruneExpiredIntervalSec (cf_Intel cfg) then [PruneExpired (PruneExpiredInterval cfg)] else []).
Definition late_services (cfg : Config) : list service :=
  [FlowCleanup (FlowCleanupInterval cfg)]
  ++ (if 0 <? xc_RetainDays (cf_Evidence cfg) then [EvidenceCleanup] else [])
  ++ (if xc_ArchiveMonthly (cf_Evidence cfg) then [EvidenceArchive] else []).

(** ** The node *)

(** What the process finds: the files, the databases, the clock and the random
    identifiers, the build settings, whether the source can be opened and the
    number of processors. *)
Record start := mkStart {
  sr_files : Disk;
  sr_dbs : string -> option queue_db;
  sr_now : Z;
  sr_uuid : nat -> string;
  sr_build : option (list (string * string));
  sr_source : option string;
  sr_cpus : Z
}.
Inductive started `{GoRegexp} :=
| StartFailed (e : string)
| Interface (services : list service)
| Sensor (services : list service) (d : Deps ShardedQueue) (evidence : Writer) (workers : Z).

Section node.
Context `{GoUnicode} `{GoYAML} `{GoRegexp} `{RangeOrder}.

Definition load_patterns (cfg : Config) (files : Disk) : res (list PatternRule) :=
  if pc_Enable (cf_Patterns cfg) then
    match LoadDir files (pc_PatternDir (cf_Patterns cfg)) with Ok rules => Ok rules | Err e => Err ("load patterns: " +:+ e) end
  else Ok [].
Definition open_queue (cfg : Config) (dbs : string -> option queue_db) : res ShardedQueue :=
  match Validate (cf_Storage cfg) with
  | Some e => Err e
  | None =>
      match Open dbs (ec_QueueDB (cf_Event cfg)) (sc_Backend (cf_Storage cfg)) (sc_Shards (cf_Storage cfg)) with
      | Err e => Err ("open event queue: " +:+ e)
      | Ok q =>
          match sharded_Activate q with
          | (_, Some e) => Err e
          | (q, None) => Ok (sharded_SetMaxRetry (ec_MaxPushRetry (cf_Event cfg)) q)
          end
      end
  end.
Definition node_workers (cfg : Config) (cpus : Z) : Z := if cc_Workers (cf_Capture cfg) <=? 0 then cpus else cc_Workers (cf_Capture cfg).
Definition node_deps (cfg : Config) (version : string) (rules : list PatternRule) (store : Store) (q : ShardedQueue) : Deps ShardedQueue :=
  mkDeps ShardedQueue _ (fingerprint_New rules) store NewMatcher (NewAggregator (fc_MaxFlows (cf_Flow cfg)) (FlowIdleTimeout cfg))
    (if SessionAggregationEnabled cfg then Some (tracker_New (tracker_options cfg)) else None) (node_detector cfg version) q.
Definition runNode (cfg : Config) (s : start) : started :=
  match
    rules ← load_patterns cfg (sr_files s);
    store ← match NewStore (ic_IntelFile (cf_Intel cfg)) (sr_files s) (sr_uuid s) (sr_now s) with Ok st => Ok st | Err e => Err ("load intel: " +:+ e) end;
    q ← open_queue cfg (sr_dbs s);
    Ok (rules, store, q)
  with
  | Err e => StartFailed e
  | Ok (rules, store, q) =>
      if rc_ConfigOnly (cf_Runtime cfg) then Interface (early_services cfg)
      else match sr_source s with
           | Some e => StartFailed e
           | None => Sensor (early_services cfg ++ late_services cfg) (node_deps cfg (buildinfo_Short (resolved (sr_build s))) rules store q) (evidence_writer cfg) (node_workers cfg (sr_cpus s))
           end
  end.

(** ** ta_node intel *)

(** What the command prints, the store it leaves on the disk, and its error. *)
Definition runIntelCLI (cfg : Config) (args : list string) (files : Disk) (uuid : nat -> string) (now : Z) (env : save_env) : Disk * res (option gval) :=
  match args with
  | [] => (files, Err "usage: ta_node intel add|list|delete|reload")
  | cmd :: args =>
      match NewStore (ic_IntelFile (cf_Intel cfg)) files uuid now with
      | Err e => (files, Err e)
      | Ok store =>
          if seqb cmd "list" then (files, Ok (Some (VMap [(byt "items", made_slice (struct_value fields_ThreatIntel) (List_ store))])))
          else if seqb cmd "reload" then (files, match (Reload store files uuid now).2 with Some e => Err e | None => Ok None end)
          else if seqb cmd "delete" then
            let id := flagValue args "--id" in
            if seqb id "" then (files, Err "--id required")
            else let '(_, files, err) := Delete store files id env in (files, match err with Some e => Err e | None => Ok None end)
          else if seqb cmd "add" then
            let it := zero_ThreatIntel <| ti_Type := flagValue args "--type" |> <| ti_Value := flagValue args "--value" |> <| ti_Category := flagValue args "--category" |>
              <| ti_Severity := flagValue args "--severity" |> <| ti_Description := flagValue args "--description" |> <| ti_Source := "cli" |> <| ti_Enabled := true |> in
            if seqb (ti_Type it) "" || seqb (ti_Value it) "" then (files, Err "--type and --value required")
            else let '(_, files, (saved, err)) := Add store files it (uuid 0%nat) now env in
                 (files, match err with Some e => Err e | None => Ok (Some (VMap [(byt "id", text (ti_ID saved)); (byt "success", VBool true)])) end)
          else (files, Err ("unknown intel command " +:+ cmd))
      end
  end.
End node.

(** ** A node from its first packet on *)

(** A configured bound, or the default of the component for one that is not
    positive. *)
Definition bound_or (limit fallback : Z) : Z := if limit <=? 0 then fallback else limit.

Section operation.
Context `{GoUnicodeLaws} `{GoYAML} `{GoPacket} `{GoRegexpLaws} `{GoHTTP} `{GoZlib} `{GoSort}.

Lemma runNode_sensor (O : RangeOrder) cfg s services d ev workers : runNode cfg s = Sensor services d ev workers ->
  exists rules store q, load_patterns cfg (sr_files s) = Ok rules
  /\ NewStore (ic_IntelFile (cf_Intel cfg)) (sr_files s) (sr_uuid s) (sr_now s) = Ok store
  /\ open_queue cfg (sr_dbs s) = Ok q
  /\ d = node_deps cfg (buildinfo_Short (resolved (sr_build s))) rules store q
  /\ services = early_services cfg ++ late_services cfg /\ ev = evidence_writer cfg /\ workers = node_workers cfg (sr_cpus s).
Proof.
  unfold runNode. destruct (load_patterns cfg (sr_files s)) as [rules|e]; [|done]. cbn [mbind res_bind].
  destruct (NewStore _ _ _ _) as [store|e] eqn:En; [|done]. cbn [mbind res_bind].
  destruct (open_queue cfg (sr_dbs s)) as [q|e]; [|done]. cbn [mbind res_bind].
  destruct (rc_ConfigOnly _); [done|]. destruct (sr_source s); [done|]. intros [= <- <- <- <-]. eauto 12.
Qed.
Lemma node_deps_run (O : RangeOrder) cfg s version rules store (q : ShardedQueue) : 0 < sr_now s ->
  NewStore (ic_IntelFile (cf_Intel cfg)) (sr_files s) (sr_uuid s) (sr_now s) = Ok store ->
  deps_run (node_deps cfg version rules store q) (sr_files s) 1.
Proof.
  intros Hn Hs. split; [by eapply match_open|]. split; [apply flow_run_new|]. cbn. case_if; [apply tracker_start|done].
Qed.

Lemma loaded_rule (O : RangeOrder) (rules : gmap string PatternRule) r : r ∈ LoadRules rules ->
  exists id r0, rules !! id = Some r0 /\ r = r0 <| pr_ID := id |> /\ pr_Deleted r0 = 0.
Proof.
  unfold LoadRules. intros Hr.
  assert (Forall (fun r => exists id r0, rules !! id = Some r0 /\ r = r0 <| pr_ID := id |> /\ pr_Deleted r0 = 0)
    (foldl (fun out '(id, r) => let r := r <| pr_ID := id |> in if pr_Deleted r =? 0 then out ++ [r] else out) [] (range_map rules))) as Hall.
  { apply (foldl_inv (Forall _)); [constructor|]. intros out [id r0] Hin Ho. cbv zeta.
    destruct (pr_Deleted (r0 <| pr_ID := id |>) =? 0) eqn:E; [|done]. apply Forall_app. split; [done|]. apply Forall_singleton.
    exists id, r0. b2p. split; [|done]. by apply elem_of_range in Hin. }
  rewrite Forall_forall in Hall. by apply Hall.
Qed.
(** A compiled rule that comes from the rule file of the configuration. *)
Definition from_rule_file (cfg : Config) (files : Disk) (cr : compiledRule) : Prop :=
  exists data rules id r, pc_Enable (cf_Patterns cfg) = true /\ files !! join_paths (pc_PatternDir (cf_Patterns cfg)) "threat.json" = Some data
  /\ threat_file data = Some rules /\ rules !! id = Some r /\ pr_Deleted r = 0 /\ cr_rule cr = r <| pr_ID := id |>.
Lemma load_patterns_rules (O : RangeOrder) cfg files rules : load_patterns cfg files = Ok rules ->
  Forall (from_rule_file cfg files) (fingerprint_New rules).
Proof.
  unfold load_patterns, LoadDir, LoadRulesFile. intros Hl. apply Forall_forall. intros cr Hcr.
  assert (cr_rule cr ∈ rules) as Hin.
  { revert Hcr. unfold fingerprint_New. apply (foldl_inv (fun acc => cr ∈ acc -> cr_rule cr ∈ rules)); [by intros ?%elem_of_nil|].
    intros acc r Hr IH. destruct (regexp_Compile (pr_Regex r)); [|done]. rewrite elem_of_app, list_elem_of_singleton. intros [?| ->]; [by apply IH|done]. }
  destruct (pc_Enable (cf_Patterns cfg)) eqn:Ee; [|injection Hl as <-; by apply elem_of_nil in Hin].
  destruct (files !! _) as [data|] eqn:Ef; [|done]. destruct (threat_file data) as [m|] eqn:Et; [|done]. injection Hl as <-.
  destruct (loaded_rule O m _ Hin) as (id & r0 & Hr & E & Hd). by exists data, m, id, r0.
Qed.

(** C6.  A node that starts is safe from then on: whatever the configuration
    (negative and absurd limits included), the rule file and the indicator
    file hold, if runNode gets as far as its pipeline then no capture makes
    process panic; at its end the flow and session tables are within the
    configured limits (the built-in ones where a limit is not positive), a
    tracker exists exactly in session mode, every rule in use is one of the
    rule file that is not deleted, and the final flush leaves no session. *)
Theorem runNode_safe (O : RangeOrder) cfg s services d ev workers now save pkts clock :
  runNode cfg s = Sensor services d ev workers -> 0 < sr_now s ->
  exists d', process_all now save 0 pkts d = Some d'
  /\ flows_Len (dp_Flows d') <= bound_or (fc_MaxFlows (cf_Flow cfg)) defaultMaxFlows
  /\ (is_Some (dp_Tracker d') <-> SessionAggregationEnabled cfg = true)
  /\ (forall t, dp_Tracker d' = Some t -> Z.of_nat (size (tk_sessions t)) <= bound_or (ac_MaxSessions (cf_Aggregation cfg)) 100000)
  /\ Forall (from_rule_file cfg (sr_files s)) (dp_Fingerprints d')
  /\ (forall t, dp_Tracker (finish_run clock d') = Some t -> tk_sessions t = ∅).
Proof.
  intros Hrun Hn. destruct (runNode_sensor O _ _ _ _ _ _ Hrun) as (rules & store & q & Hp & Hs & _ & -> & _).
  pose proof (node_deps_run O cfg s (buildinfo_Short (resolved (sr_build s))) rules store q Hn Hs) as Hd.
  set (d := node_deps _ _ _ _ _) in *.
  destruct (process_all_run O now save 0 pkts d _ 1 Hd ltac:(lia)) as (d' & E & (_ & Hf & Ht)). exists d'. split; [done|].
  destruct (process_all_settings O now save 0 pkts d d' _ 1 Hd ltac:(lia) E) as (Efp & Em & Eo).
  apply flow_run_table_ok in Hf as (_ & Hlen & _). rewrite Em in Hlen. split; [done|].
  assert (is_Some (dp_Tracker d') <-> SessionAggregationEnabled cfg = true) as Hsome.
  { rewrite <- (fmap_is_Some tk_opts), Eo, fmap_is_Some. cbn. case_if; [done|]. split; [by intros [? [=]]|done]. }
  split; [done|]. split.
  { intros t Et. rewrite Et in Ht, Eo. apply tracker_run_ok in Ht as (_ & Hs' & _). cbn in Eo.
    destruct (SessionAggregationEnabled cfg); [|done]. by injection Eo as Eo; rewrite Eo in Hs'. }
  split; [rewrite Efp; by apply (load_patterns_rules O)|].
  intros t. unfold finish_run. destruct (dp_Tracker d') as [t0|] eqn:Et; [|by rewrite Et].
  pose proof (Flush_spec t0) as Hfl. destruct (Flush t0) as [t1 evs]. intros [= <-]. by injection Hfl as -> _.
Qed.
End operation.

(** ** The command line of the indicator store *)

Section command_line.
Context `{GoUnicodeLaws} `{GoYAMLLaws}.

Lemma NewStore_synced (O : RangeOrder) s d uuid now : st_path s <> ""%string -> synced s d ->
  exists s', NewStore (st_path s) d uuid now = Ok s' /\ st_path s' = st_path s
  /\ st_items s' = (fun it => it <| ti_UpdatedAt := now |>) <$> st_items s.
Proof.
  intros Hp Hs. pose proof (reload_synced s d uuid now Hp Hs) as Hr. unfold NewStore. rewrite (proj2 (seqb_neq _ _) Hp). cbn [negb].
  unfold Reload in *. cbn [st_path]. rewrite (proj2 (seqb_neq _ _) Hp) in *. cbn in Hr |- *. destruct (LoadFile (st_path s) d) as [[l|e]|]; [|done|].
  - injection Hr as Hr. eexists. split; [done|]. split; [done|exact Hr].
  - injection Hr as Hr. eexists. split; [done|]. split; [done|exact Hr].
Qed.
Lemma NewStore_path path d uuid now s : NewStore path d uuid now = Ok s -> st_path s = path.
Proof.
  unfold NewStore, Reload. cbn [st_path]. destruct (seqb path ""); cbn [negb]; [by intros [= <-]|].
  destruct (LoadFile path d) as [[l|e]|]; cbn; by intros [= <-].
Qed.
(** What one saved operation of a process leaves to the next one. *)
Lemma next_process (O : RangeOrder) op path d uuid now s s' d' uuid' now' : path <> ""%string -> 0 < now -> NewStore path d uuid now = Ok s ->
  op_ok s d op -> store_exec O op s d = (s', d') -> op_saved op s s' false = true -> st_path s' = path ->
  exists s'', NewStore path d' uuid' now' = Ok s'' /\ st_path s'' = path
  /\ st_items s'' = (fun it => it <| ti_UpdatedAt := now' |>) <$> st_items s'.
Proof.
  intros Hp Hn Hs Hop He Hc Ep. pose proof (store_step O op s d false s' d' (store_open path d uuid now s Hn Hs) Hop He) as Hrun. rewrite Hc in Hrun.
  rewrite <- Ep in *. apply (NewStore_synced O); [done|]. by eapply store_run_synced.
Qed.

Lemma bump_changes s f : (st_version (bump_version (s <| st_items ::= f |>)) =? st_version s) = false.
Proof. apply Z.eqb_neq. exact (bump_version_ne (s <| st_items ::= f |>)). Qed.

(** The files a save leaves alone. *)
Lemma persist_leaves (O : RangeOrder) s e d p : se_tmp e <> st_path s -> d !! se_tmp e = None -> p <> st_path s -> (persist s e d).1 !! p = d !! p.
Proof.
  intros Ht Hf Hne. unfold persist. destruct (negb _); [|done]. unfold SaveFileAtomic, SaveFileAtomicBytes.
  destruct (decide (p = se_tmp e)) as [->|]; destruct (se_fault e); cbn; rewrite ?lookup_delete_eq, ?lookup_delete_ne, ?lookup_insert_ne by done; done.
Qed.
Lemma persist_ok (O : RangeOrder) s e d : se_fault e = no_fault -> (persist s e d).2 = None.
Proof. intros Hf. unfold persist, SaveFileAtomic, SaveFileAtomicBytes. rewrite Hf. by destruct (negb _). Qed.

(** What a command asks of the set, and what it prints when that is done; [None]
    when it asks for no change: other commands, missing arguments, an unknown
    identifier. *)
Definition cli_item (args : list string) : ThreatIntel :=
  zero_ThreatIntel <| ti_Type := flagValue args "--type" |> <| ti_Value := flagValue args "--value" |> <| ti_Category := flagValue args "--category" |>
    <| ti_Severity := flagValue args "--severity" |> <| ti_Description := flagValue args "--description" |> <| ti_Source := "cli" |> <| ti_Enabled := true |>.
Definition cli_edit (cmd : string) (args : list string) (uuid : string) (now : Z) (m : gmap string ThreatIntel) : option (gmap string ThreatIntel * option gval) :=
  if seqb cmd "delete" then
    let id := flagValue args "--id" in
    if negb (seqb id "") && bool_decide (is_Some (m !! id)) then Some (delete id m, None) else None
  else if seqb cmd "add" then
    let it := normalize uuid (cli_item args) now in
    if negb (seqb (flagValue args "--type") "") && negb (seqb (flagValue args "--value") "")
    then Some (<[ti_ID it := it]> m, Some (VMap [(byt "id", text (ti_ID it)); (byt "success", VBool true)])) else None
  else None.

(** The command line is durable: when the indicator file can be read and
    the save goes through, `add` prints the identifier of the new indicator and
    the process that comes next finds it, normalized, with everything that was
    there; after `delete` it finds everything but the indicator named; no other
    file changes.  `list`, `reload`, an unknown command or identifier and
    missing arguments write nothing. *)
Theorem intel_cli_durable (O : RangeOrder) cfg cmd args files uuid now env st uuid' now' :
  let path := ic_IntelFile (cf_Intel cfg) in
  path <> ""%string -> 0 < now -> NewStore path files uuid now = Ok st ->
  se_tmp env <> path -> files !! se_tmp env = None -> se_fault env = no_fault ->
  let '(files', r) := runIntelCLI cfg (cmd :: args) files uuid now env in
  match cli_edit cmd args (uuid 0%nat) now (st_items st) with
  | None => files' = files
  | Some (items, out) =>
      r = Ok out /\ (forall p, p <> path -> files' !! p = files !! p)
      /\ exists st', NewStore path files' uuid' now' = Ok st' /\ st_items st' = (fun it => it <| ti_UpdatedAt := now' |>) <$> items
  end.
Proof.
  intros path Hp Hn Hs Ht Hf Hfault. pose proof (NewStore_path _ _ _ _ _ Hs) as Epath. unfold runIntelCLI, cli_edit. fold path. rewrite Hs.
  destruct (seqb cmd "list") eqn:E1; [by apply seqb_spec in E1 as ->|]. destruct (seqb cmd "reload") eqn:E2; [by apply seqb_spec in E2 as ->|].
  destruct (seqb cmd "delete"); [|destruct (seqb cmd "add"); [|done]].
  - set (id := flagValue args "--id"). destruct (seqb id ""); [done|]. cbn [negb andb]. unfold Delete. destruct (st_items st !! id) as [it|] eqn:Ei.
    2:{ rewrite bool_decide_eq_false_2; [done|]. by intros [? ?]. }
    rewrite bool_decide_eq_true_2 by eauto. set (s' := bump_version (st <| st_items ::= delete id |>)).
    assert (st_path s' = path) as Es' by done. pose proof (persist_ok O s' env files Hfault) as Hok.
    pose proof (fun p => persist_leaves O s' env files p) as Ho. rewrite Es' in Ho.
    destruct (next_process O (OpDelete id env) path files uuid now st s' (persist s' env files).1 uuid' now') as (st' & En & _ & Eit); try done.
    + cbn. by rewrite Epath.
    + cbn. unfold Delete. rewrite Ei. fold s'. by destruct (persist s' env files).
    + unfold op_saved. rewrite Hfault. unfold s'. by rewrite bump_changes.
    + destruct (persist s' env files) as [d' e]. cbn in Hok, Ho, En. subst e. split; [done|]. split; [|by exists st']. intros p Hne. by apply Ho.
  - change (ti_Type (cli_item args)) with (flagValue args "--type"). fold (cli_item args).
    change (ti_Type (cli_item args)) with (flagValue args "--type"). change (ti_Value (cli_item args)) with (flagValue args "--value").
    destruct (seqb (flagValue args "--type") ""); [done|]. destruct (seqb (flagValue args "--value") ""); [done|]. cbn [orb negb andb].
    unfold Add. set (it := normalize _ _ _). set (s' := bump_version _).
    assert (st_path s' = path) as Es' by done. pose proof (persist_ok O s' env files Hfault) as Hok.
    pose proof (fun p => persist_leaves O s' env files p) as Ho. rewrite Es' in Ho.
    destruct (next_process O (OpAdd (cli_item args) (uuid 0%nat) now env) path files uuid now st s' (persist s' env files).1 uuid' now') as (st' & En & _ & Eit); try done.
    + cbn. by rewrite Epath.
    + cbn. unfold Add. fold it s'. by destruct (persist s' env files).
    + unfold op_saved. rewrite Hfault. unfold s'. by rewrite bump_changes.
    + destruct (persist s' env files) as [d' e]. cbn in Hok, Ho, En. subst e. split; [done|]. split; [|by exists st']. intros p Hne. by apply Ho.
Qed.
End command_line.

(** ** The background services *)

Section services.
Context `{GoUnicodeLaws}.

Lemma collect_spec dirs : let out := collectSyncDirs dirs in
  NoDup out /\ forall d, d ∈ out <-> d <> ""%string /\ exists d0, d0 ∈ dirs /\ d = strings_TrimSpace d0.
Proof.
  unfold collectSyncDirs. cbv zeta.
  assert (forall acc, NoDup acc.2 -> (forall d, d ∈ acc.1 <-> d ∈ acc.2) -> let out := (foldl collect_dir acc dirs).2 in
    NoDup out /\ forall d, d ∈ out <-> d ∈ acc.2 \/ d <> ""%string /\ exists d0, d0 ∈ dirs /\ d = strings_TrimSpace d0) as Hgen.
  { induction dirs as [|x dirs IH]; intros [seen out] Hnd Hs; cbn in *.
    { split; [done|]. intros d. split; [auto|]. intros [?|(_ & d0 & ?%elem_of_nil & _)]; done. }
    unfold collect_dir at 2 4. cbn [fst snd]. set (t := strings_TrimSpace x). destruct (seqb t "") eqn:Et; [apply seqb_spec in Et|apply seqb_neq in Et]; cbn [orb].
    { destruct (IH (seen, out) Hnd Hs) as [Hn Hd]. split; [done|]. intros d. rewrite Hd. cbn. clear -Et. set_solver. }
    case_bool_decide as Ein.
    { destruct (IH (seen, out) Hnd Hs) as [Hn Hd]. split; [done|]. intros d. rewrite Hd. cbn. apply Hs in Ein. clear -Ein Et. set_solver. }
    destruct (IH ({[t]} ∪ seen, out ++ [t])) as [Hn Hd]; cbn.
    - apply NoDup_app. split; [done|]. split; [|apply NoDup_singleton]. intros y Hy ->%list_elem_of_singleton. apply Hs in Hy. done.
    - clear -Hs. set_solver.
    - split; [done|]. intros d. rewrite Hd. cbn. clear -Et. set_solver. }
  destruct (Hgen (∅, [])) as [Hn Hd]; [constructor|clear; set_solver|]. split; [done|]. intros d. rewrite Hd. clear. set_solver.
Qed.

(** As many seconds as a Duration can hold. *)
Definition in_seconds (n : Z) : Prop := 0 < n <= 9223372036.
Lemma seconds_positive n : in_seconds n -> 0 < i64 (n * Second).
Proof. intros [H1 H2]. unfold i64, Second. rewrite Z.mod_small; lia. Qed.

Lemma Forall_enabled {A} (P : A -> Prop) (b : bool) x : Forall P (if b then [x] else []) <-> (b = true -> P x).
Proof. destruct b; rewrite ?Forall_singleton, ?Forall_nil; naive_solver. Qed.
Lemma elem_of_enabled {A} (b : bool) (x y : A) : x ∈ (if b then [y] else []) <-> b = true /\ x = y.
Proof. destruct b; rewrite ?list_elem_of_singleton, ?elem_of_nil; naive_solver. Qed.
Lemma maintain_interval o : 0 < mo_Interval (maintain_options o).
Proof. unfold maintain_options. cbv zeta. repeat case_if; b2p; cbn in *; lia. Qed.
Lemma maintenance_sane o : 0 <= mo_Batch o <= 1000 -> (0 < mo_HighWater o -> mo_LowWater o < mo_HighWater o) -> let o := maintain_options o in
  0 < mo_Interval o /\ 1 <= mo_Batch o <= 1000 /\ (0 < mo_HighWater o -> mo_LowWater o < mo_HighWater o).
Proof.
  intros Hb Hw. split; [apply maintain_interval|]. unfold maintain_options. destruct (mo_Interval o <=? 0); cbv zeta;
    match goal with |- context [if ?c then _ else _] => destruct c eqn:E end; b2p; cbn in *; (split; [lia|done]).
Qed.
Lemma runs_iff cfg : Forall (fun x => service_runs x = true) (early_services cfg ++ late_services cfg)
  <-> (ec_EnablePush (cf_Event cfg) = true -> 0 < RetryInterval cfg) /\ (ic_EnableHotReload (cf_Intel cfg) = true -> 0 < ReloadInterval cfg)
      /\ (0 < ic_PruneExpiredIntervalSec (cf_Intel cfg) -> 0 < PruneExpiredInterval cfg) /\ 0 < FlowCleanupInterval cfg.
Proof.
  unfold early_services, late_services. cbv zeta. rewrite !Forall_app, !Forall_enabled, !Forall_singleton.
  unfold service_runs. cbn [ticks]. rewrite !Z.ltb_lt. pose proof (maintain_interval (maintenance_options cfg)).
  assert (0 < (if IocSyncInterval cfg <=? 0 then 60 * Minute else IocSyncInterval cfg)) by (case_if; b2p; [unfold Minute, Second|]; lia).
  assert (0 < Hour) by done. assert (0 < 24 * Hour) by done. tauto.
Qed.
Lemma service_maintenance cfg o : Maintenance o ∈ early_services cfg ++ late_services cfg -> o = maintenance_options cfg.
Proof. unfold early_services, late_services. cbv zeta. rewrite !elem_of_app, !elem_of_enabled, !list_elem_of_singleton. naive_solver. Qed.
Lemma service_sync cfg y i : IOCSync y i ∈ early_services cfg ++ late_services cfg ->
  y = mkSyncer (collectSyncDirs [ic_IocSyncDir (cf_Intel cfg); ic_IocSyncDir2 (cf_Intel cfg)]) (ic_IocSyncRetainDays (cf_Intel cfg)) (ic_MaxItems (cf_Intel cfg)).
Proof. unfold early_services, late_services. cbv zeta. rewrite !elem_of_app, !elem_of_enabled, !list_elem_of_singleton. naive_solver. Qed.

(** C33.  What a start with an accepted storage section leads to.  The node's
    tickers all start, so that no service panics, exactly when the push retry,
    reload and prune intervals of the enabled services and the flow cleanup
    interval are positive durations, which they are when each is between one
    second and 292 years; the maintenance worker always runs, its batch is
    between 1 and 1000 and its low mark below its high mark, so that pressure
    can end; the sync directories are distinct and not blank. *)
Theorem services_run (cfg : Config) :
  Validate (cf_Storage cfg) = None ->
  let services := early_services cfg ++ late_services cfg in
  (Forall (fun x => service_runs x = true) services
   <-> (ec_EnablePush (cf_Event cfg) = true -> 0 < RetryInterval cfg) /\ (ic_EnableHotReload (cf_Intel cfg) = true -> 0 < ReloadInterval cfg)
       /\ (0 < ic_PruneExpiredIntervalSec (cf_Intel cfg) -> 0 < PruneExpiredInterval cfg) /\ 0 < FlowCleanupInterval cfg)
  /\ (in_seconds (ec_RetryIntervalSec (cf_Event cfg)) -> in_seconds (ic_ReloadIntervalSec (cf_Intel cfg)) ->
      ic_PruneExpiredIntervalSec (cf_Intel cfg) <= 9223372036 -> fc_CleanupIntervalSec (cf_Flow cfg) <= 9223372036 ->
      Forall (fun x => service_runs x = true) services)
  /\ (forall o, Maintenance o ∈ services -> let o := maintain_options o in
      0 < mo_Interval o /\ 1 <= mo_Batch o <= 1000 /\ (0 < mo_HighWater o -> mo_LowWater o < mo_HighWater o))
  /\ (forall y i, IOCSync y i ∈ services -> NoDup (sy_dirs y) /\ Forall (fun d => d <> ""%string) (sy_dirs y)).
Proof.
  intros Hv. cbv zeta. apply Validate_None in Hv as (_ & _ & _ & Hb & _ & _ & _ & Hw). split; [apply runs_iff|].
  split; [|split].
  - intros Hr Hl Hp Hf. apply runs_iff. split; [intros _; by apply seconds_positive|]. split; [intros _; by apply seconds_positive|].
    split; [intros Hpos; by apply seconds_positive|]. unfold FlowCleanupInterval. cbv zeta. apply seconds_positive. unfold in_seconds. case_if; b2p; lia.
  - intros o Ho%service_maintenance. subst o. apply (maintenance_sane (maintenance_options cfg)); [exact Hb|exact Hw].
  - intros y i Hy. apply service_sync in Hy as ->. cbn [sy_dirs]. destruct (collect_spec [ic_IocSyncDir (cf_Intel cfg); ic_IocSyncDir2 (cf_Intel cfg)]) as [Hn Hd].
    split; [done|]. apply Forall_forall. intros d Hin. by apply Hd in Hin as [? _].
Qed.
End services.

(** ** Witnesses *)

#[local] Existing Instance ascii_unicode.
#[local] Existing Instance bits_yaml.
#[local] Existing Instance canonical_range.
#[local] Existing Instance literal_regexp.
#[local] Existing Instance no_http.
#[local] Existing Instance identity_zlib.
#[local] Existing Instance insertion_sort.
#[local] Instance no_dns : GoPacket := {| dns_Decode := fun _ => None |}.

(** The default configuration in session mode, with two shards, an impossible
    flow limit and a rule file of two rules, one of them deleted. *)
Definition demo_config : Config :=
  Default <| cf_Storage ::= fun x => x <| sc_Shards := 2 |> |> <| cf_Patterns ::= fun x => x <| pc_Enable := true |> |>
    <| cf_Flow ::= fun x => x <| fc_MaxFlows := -1 |> |>
    <| cf_Aggregation ::= fun x => x <| ac_Mode := "session" |> <| ac_EnableTransactionLink := true |> <| ac_MaxSessions := 1 |> |>.
Definition demo_rules : bytes :=
  byt "{'threat':{'rules':{'r1':{'name':'one','regex':'GET'},'r2':{'name':'two','deleted':1}}}}".
Definition quoted (b : bytes) : bytes := (fun c => if bv c =? 39 then chr 34 else c) <$> b.
Definition demo_start : start :=
  mkStart {["patterns/threat.json"%string := quoted demo_rules]} (fun _ => None) 1000 (fun _ => "u"%string) None None 4.
Definition sensor `{GoRegexp} (r : started) : option (Deps ShardedQueue) := match r with Sensor _ d _ _ => Some d | _ => None end.

Lemma runNode_safe_witness :
  exists services d ev d', runNode demo_config demo_start = Sensor services d ev 4
  /\ pr_ID <$> (cr_rule <$> dp_Fingerprints d) = ["r1"%string]
  /\ process_all demo_instants (fun _ => ""%string) 0 [demo_out; demo_back] d = Some d'
  /\ flows_Len (dp_Flows d') <= defaultMaxFlows /\ is_Some (dp_Tracker d')
  /\ (forall t, dp_Tracker d' = Some t -> Z.of_nat (size (tk_sessions t)) <= 1).
Proof.
  assert (option_map (fun d => pr_ID <$> (cr_rule <$> dp_Fingerprints d)) (sensor (runNode demo_config demo_start)) = Some ["r1"%string]) as Hs by (vm_compute; reflexivity).
  assert (match runNode demo_config demo_start with Sensor _ _ _ w => w | _ => 0 end = 4) as Hw by (vm_compute; reflexivity).
  destruct (runNode demo_config demo_start) as [e|services|services d ev w] eqn:E; [discriminate Hs|discriminate Hs|]. cbn in Hw. subst w. injection Hs as Hs.
  destruct (runNode_safe canonical_range demo_config demo_start services d ev 4 demo_instants (fun _ => ""%string) [demo_out; demo_back] (fun _ => 150) E ltac:(reflexivity))
    as (d' & Ep & Hf & Ht & Hm & _). exists services, d, ev, d'. split; [reflexivity|]. split; [exact Hs|]. split; [exact Ep|]. split; [exact Hf|].
  split; [apply Ht; reflexivity|]. intros t Et. exact (Hm t Et).
Defined.

Lemma intel_cli_durable_witness :
  let r := runIntelCLI Default ["add"; "--value"; " 192.0.2.1 "; "--type"; "IP"]%string ∅ (fun _ => "u"%string) 100 (mkSaveEnv "configs/.tmp" no_fault) in
  r.2 = Ok (Some (VMap [(byt "id", text "ioc-u"); (byt "success", VBool true)]))
  /\ exists st it, NewStore "./configs/intel.yaml" r.1 (fun _ => "v"%string) 200 = Ok st /\ st_items st !! "ioc-u"%string = Some it
  /\ ti_Value it = "192.0.2.1"%string /\ ti_Type it = "ip"%string /\ ti_UpdatedAt it = 200.
Proof.
  pose proof (intel_cli_durable canonical_range Default "add" ["--value"; " 192.0.2.1 "; "--type"; "IP"]%string ∅ (fun _ => "u"%string) 100
    (mkSaveEnv "configs/.tmp" no_fault) (mkStore ∅ "./configs/intel.yaml" 1) (fun _ => "v"%string) 200
    ltac:(discriminate) ltac:(reflexivity) ltac:(reflexivity) ltac:(discriminate) ltac:(reflexivity) ltac:(reflexivity)) as Hc.
  cbv zeta. destruct (runIntelCLI _ _ _ _ _ _) as [files' r]. destruct Hc as (Hr & _ & st' & En & Ei). split; [exact Hr|].
  exists st'. eexists. split; [exact En|]. split; [rewrite Ei; vm_compute; reflexivity|]. split; [reflexivity|]. split; reflexivity.
Defined.

(** Nothing checks the intervals: with zero the configuration is accepted, and
    the reload service panics. *)
Lemma reload_interval_panics :
  let cfg := Default <| cf_Intel ::= fun x => x <| ic_ReloadIntervalSec := 0 |> |> in
  Validate (cf_Storage cfg) = None /\ HotReload 0 ∈ early_services cfg /\ service_runs (HotReload 0) = false.
Proof. split; [reflexivity|]. split; [|reflexivity]. apply list_elem_of_In. vm_compute. tauto. Qed.

Definition late_retry : Config := Default <| cf_Event ::= fun x => x <| ec_RetryIntervalSec := -5 |> |>.
Lemma services_run_witness : Forall (fun x => service_runs x = true) (early_services Default ++ late_services Default)
  /\ ~ Forall (fun x => service_runs x = true) (early_services late_retry ++ late_services late_retry).
Proof.
  pose proof (services_run Default eq_refl) as (_ & Hr & _). pose proof (services_run late_retry eq_refl) as (Hi & _).
  split; [apply Hr; [split; [reflexivity|discriminate]..|discriminate|discriminate]|]. intros Hf. destruct (proj1 Hi Hf) as (Hp & _). discriminate (Hp eq_refl).
Defined.
